(** * Head-to-head consolidation: the merge engine of
      [src/utils/upsert_on_head_to_head.py] over a model of the polars
      primitives it calls.

    A polars [DataFrame] is an ordered list of named columns ([Series]); a
    [Series] carries its dtype and its cells, a cell being [None] for a
    polars null.  Python exceptions are the [Err] results of an error monad.
    The polars primitives ([join], [select], [with_columns], [coalesce],
    [concat], [group_by] ...) are written out column by column, the way
    polars evaluates them: a join computes pairs of row indices and gathers
    every column through them. *)

From Stdlib Require Import ZArith List String Ascii Bool Lia Permutation.
From Stdlib Require Import Floats.SpecFloat.
Import ListNotations.

Local Open Scope string_scope.
Local Open Scope list_scope.
Local Open Scope Z_scope.

(** ** Values, dtypes, series, frames *)

(** The dtypes the module manipulates: the three of the canonical schema
    ([pl.Int64], [pl.Float64], [pl.String], the latter under its older name
    [pl.Utf8], which the source uses too), the dtype of [pl.lit(None)]
    ([Null]) and the dtype of the literal [pl.lit(0)] ([Int32]). *)
Inductive DataType := Int32 | Int64 | Float64 | Utf8 | Null.

Definition DataType_eqb (a b : DataType) : bool :=
  match a, b with
  | Int32, Int32 | Int64, Int64 | Float64, Float64 | Utf8, Utf8 | Null, Null => true
  | _, _ => false
  end.

(** IEEE 754 binary64 numbers, as the Standard Library specifies them. *)
Definition f64 := spec_float.
Definition f64_add : f64 -> f64 -> f64 := SFadd 53 1024.
Definition f64_of_Z (z : Z) : f64 := binary_normalize 53 1024 z 0 false.

Inductive value :=
| VInt (z : Z)
| VFloat (f : f64)
| VStr (s : string).

(** A cell: [None] is the polars null. *)
Definition cell := option value.

Record Series := mkSeries { dtype : DataType; values : list cell }.

Definition DataFrame := list (string * Series).
Definition Schema := list (string * DataType).

(** ** Exceptions *)

Inductive error :=
| MissingKey (key : string)            (* ValueError "'delta' debe tener la clave" *)
| MissingPK (pk : string)              (* ValueError "Falta la PK ... en al menos un DataFrame" *)
| MissingTimestamp (ts_col : string)   (* ValueError "Falta la columna de timestamp ..." *)
| MissingColumns (faltan : list string)            (* ValueError "Faltan columnas requeridas" *)
| TypeMismatch (malos : list (string * (option DataType * DataType)))  (* TypeError "Tipos no coinciden" *)
| UnexpectedColumns (extras : list string)         (* ValueError "Columnas no esperadas" *)
| ColumnNotFoundError (c : string)     (* polars: a named column is absent *)
| DuplicateError                       (* polars: two output columns share a name *)
| InvalidOperationError                (* polars: a strict cast or an operator fails *)
| SchemaError.                         (* polars: dtypes that cannot be put together *)

Inductive result (A : Type) :=
| Ok (a : A)
| Err (e : error).
Arguments Ok {A} a.
Arguments Err {A} e.

Definition bind {A B} (r : result A) (f : A -> result B) : result B :=
  match r with
  | Ok a => f a
  | Err e => Err e
  end.

Notation "x <- r ;; k" := (bind r (fun x => k))
  (at level 61, r at next level, right associativity).

Fixpoint sequence {A} (l : list (result A)) : result (list A) :=
  match l with
  | [] => Ok []
  | r :: rest => x <- r ;; xs <- sequence rest ;; Ok (x :: xs)
  end.

(** ** Names *)

Definition mem (c : string) (l : list string) : bool := existsb (String.eqb c) l.

Fixpoint nodupb (l : list string) : bool :=
  match l with
  | [] => true
  | c :: rest => negb (mem c rest) && nodupb rest
  end.

Definition is_nil {A} (l : list A) : bool :=
  match l with [] => true | _ => false end.

(** ** Frame accessors: [df.columns], [df.schema], [df.height], [df[c]] *)

Definition columns (df : DataFrame) : list string := map fst df.
Definition schema (df : DataFrame) : Schema := map (fun p => (fst p, dtype (snd p))) df.

Definition height (df : DataFrame) : nat :=
  match df with
  | [] => 0%nat
  | (_, s) :: _ => List.length (values s)
  end.

Fixpoint lookup {A} (l : list (string * A)) (c : string) : option A :=
  match l with
  | [] => None
  | (n, a) :: rest => if String.eqb n c then Some a else lookup rest c
  end.

(** [pl.col(c)] evaluated on [df]. *)
Definition col (df : DataFrame) (c : string) : result Series :=
  match lookup df c with
  | Some s => Ok s
  | None => Err (ColumnNotFoundError c)
  end.

(** The cell of column [c] at row [p]; null outside the frame. *)
Definition cell_at (df : DataFrame) (c : string) (p : nat) : cell :=
  match lookup df c with
  | Some s => nth p (values s) None
  | None => None
  end.

(** ** Column-list primitives *)

(** [df.select(exprs)]: the named series in the order given; two outputs
    with one name raise. *)
Definition select_exprs (exprs : list (string * result Series)) : result DataFrame :=
  if nodupb (map fst exprs)
  then sequence (map (fun e => s <- snd e ;; Ok (fst e, s)) exprs)
  else Err DuplicateError.

(** [df.select(names)]. *)
Definition select (df : DataFrame) (names : list string) : result DataFrame :=
  select_exprs (map (fun c => (c, col df c)) names).

Fixpoint replace_column (df : DataFrame) (c : string) (s : Series) : DataFrame :=
  match df with
  | [] => [(c, s)]
  | (n, s0) :: rest =>
      if String.eqb n c then (n, s) :: rest else (n, s0) :: replace_column rest c s
  end.

(** [df.with_columns(news)]: every new series was evaluated on [df]; a
    series named like an existing column replaces it in place, another one
    is appended. *)
Definition with_columns (df : DataFrame) (news : list (string * Series)) : DataFrame :=
  fold_left (fun acc e => replace_column acc (fst e) (snd e)) news df.

(** [df.drop(names)]. *)
Definition drop (df : DataFrame) (names : list string) : DataFrame :=
  filter (fun p => negb (mem (fst p) names)) df.

(** [pl.lit(None, dtype=t)] broadcast over [df]: a literal takes the height
    of the frame, and one row on a frame without columns. *)
Definition lit_height (df : DataFrame) : nat :=
  match df with
  | [] => 1%nat
  | _ => height df
  end.

Definition lit_null (t : DataType) (n : nat) : Series := mkSeries t (repeat None n).

(** ** The canonical schema *)

Definition head_to_head_schema : Schema :=
  [ ("MatchId", Int64); ("BetType", Int64); ("HomeId", Int64); ("AwayId", Int64);
    ("HtHomeScore", Int64); ("HtAwayScore", Int64);
    ("FinalHomeScore", Int64); ("FinalAwayScore", Int64);
    ("EventDate", Utf8); ("KickOffTime", Utf8);
    ("LeagueId", Int64); ("SportId", Int64);
    ("FirstOddsId", Int64); ("LastOddsId", Int64);
    ("FirstOdds1", Float64); ("LastOdds1", Float64);
    ("FirstOdds2", Float64); ("LastOdds2", Float64);
    ("FirstCom1", Float64); ("FirstCom2", Float64); ("FirstComx", Float64);
    ("LastCom1", Float64); ("LastCom2", Float64); ("LastComx", Float64);
    ("Winlost_SGD", Float64); ("TurnOver_SGD", Float64);
    ("ModifiedOn", Utf8) ].

(** [pl.DataFrame(schema=...)]: the columns of the schema, no row. *)
Definition empty_frame (sch : Schema) : DataFrame :=
  map (fun p => (fst p, mkSeries (snd p) [])) sch.

Definition empty_head_to_head : DataFrame := empty_frame head_to_head_schema.

(** ** The validator *)

(** The dict comprehension [malos]: the schema columns whose dtype in the
    frame ([df.schema.get(c)]) is not the declared one, with both dtypes. *)
Fixpoint malos_of (sch_df : Schema) (esquema : Schema)
  : list (string * (option DataType * DataType)) :=
  match esquema with
  | [] => []
  | (c, esp) :: rest =>
      match lookup sch_df c with
      | Some act =>
          if DataType_eqb act esp then malos_of sch_df rest
          else (c, (Some act, esp)) :: malos_of sch_df rest
      | None => (c, (None, esp)) :: malos_of sch_df rest
      end
  end.

Definition ordenar_y_validar (df : DataFrame) (esquema : Schema)
    (permitir_extras : bool) : result DataFrame :=
  let columnas := map fst esquema in
  (* 1) the columns exist *)
  let faltan := filter (fun c => negb (mem c (columns df))) columnas in
  if negb (is_nil faltan) then Err (MissingColumns faltan) else
  (* 2) the dtypes agree *)
  let malos := malos_of (schema df) esquema in
  if negb (is_nil malos) then Err (TypeMismatch malos) else
  (* 3) extra columns *)
  let extras := filter (fun c => negb (mem c columnas)) (columns df) in
  if negb (is_nil extras) && negb permitir_extras then Err (UnexpectedColumns extras) else
  (* 4) reorder *)
  select df (columnas ++ extras).

(** ** Comparing values *)

(** The total order polars sorts and joins floats by: -inf, the negative
    numbers, zero (both signs alike), the positive numbers, +inf, NaN. On
    binary64 numbers in canonical form the pair exponent, mantissa orders
    the finite numbers of one sign. *)
Definition f64_rank (f : f64) : Z * (Z * Z) :=
  match f with
  | S754_infinity true => (0, (0, 0))
  | S754_finite true m e => (1, (- e, - Zpos m))
  | S754_zero _ => (2, (0, 0))
  | S754_finite false m e => (3, (e, Zpos m))
  | S754_infinity false => (4, (0, 0))
  | S754_nan => (5, (0, 0))
  end.

Definition rank_leb (a b : Z * (Z * Z)) : bool :=
  let '(a1, (a2, a3)) := a in
  let '(b1, (b2, b3)) := b in
  (a1 <? b1) || ((a1 =? b1) && ((a2 <? b2) || ((a2 =? b2) && (a3 <=? b3)))).

Definition rank_eqb (a b : Z * (Z * Z)) : bool :=
  let '(a1, (a2, a3)) := a in
  let '(b1, (b2, b3)) := b in
  (a1 =? b1) && (a2 =? b2) && (a3 =? b3).

Definition value_eqb (a b : value) : bool :=
  match a, b with
  | VInt x, VInt y => x =? y
  | VFloat x, VFloat y => rank_eqb (f64_rank x) (f64_rank y)
  | VStr x, VStr y => String.eqb x y
  | _, _ => false
  end.

(** Strings compare byte by byte. Values of one column have one dtype; the
    order between values of different kinds only makes the order total. *)
Definition value_leb (a b : value) : bool :=
  match a, b with
  | VInt x, VInt y => x <=? y
  | VFloat x, VFloat y => rank_leb (f64_rank x) (f64_rank y)
  | VStr x, VStr y => String.leb x y
  | VInt _, _ => true
  | VFloat _, VStr _ => true
  | _, _ => false
  end.

(** ** Element-wise expressions *)

Definition zip_with {A B C} (f : A -> B -> C) (la : list A) (lb : list B) : list C :=
  map (fun p => f (fst p) (snd p)) (combine la lb).

(** [pl.coalesce] on one row: the first non-null. *)
Definition coalesce_cell (a b : cell) : cell :=
  match a with
  | Some _ => a
  | None => b
  end.

(** The supertype polars casts the operands of [pl.coalesce] to. *)
Definition supertype (a b : DataType) : DataType :=
  match a, b with
  | Null, t | t, Null => t
  | Utf8, _ | _, Utf8 => Utf8
  | Float64, _ | _, Float64 => Float64
  | Int64, _ | _, Int64 => Int64
  | Int32, Int32 => Int32
  end.

(** The literal [pl.lit(0)] at a dtype. *)
Definition lit0 (t : DataType) : value :=
  match t with
  | Float64 => VFloat (S754_zero false)
  | Utf8 => VStr "0"
  | _ => VInt 0
  end.

(** Two's complement wrap-around on [bits] bits. *)
Definition wrap (bits : Z) (z : Z) : Z :=
  (z + 2 ^ (bits - 1)) mod 2 ^ bits - 2 ^ (bits - 1).

(** [+] on two non-null values of dtype [t]: integers wrap, floats round,
    strings concatenate. *)
Definition add_value (t : DataType) (a b : value) : option value :=
  match t, a, b with
  | Int32, VInt x, VInt y => Some (VInt (wrap 32 (x + y)))
  | Int64, VInt x, VInt y => Some (VInt (wrap 64 (x + y)))
  | Float64, VFloat x, VFloat y => Some (VFloat (f64_add x y))
  | Utf8, VStr x, VStr y => Some (VStr (x ++ y)%string)
  | _, _, _ => None
  end.

(** A null operand gives a null. *)
Definition add_cell (t : DataType) (a b : cell) : cell :=
  match a, b with
  | Some x, Some y => add_value t x y
  | _, _ => None
  end.

(** [a + b] on two series of one dtype (the only case the module reaches:
    both operands of its sums were coalesced with [pl.lit(0)] from columns
    aligned to one dtype). *)
Definition add (a b : Series) : result Series :=
  if DataType_eqb (dtype a) (dtype b)
  then Ok (mkSeries (dtype a) (zip_with (add_cell (dtype a)) (values a) (values b)))
  else Err InvalidOperationError.

(** ** Outer join: the pairs of row indices *)

(** Join keys match when both are non-null and equal: a null matches
    nothing (polars' default, [join_nulls=False]). *)
Definition key_match (a b : cell) : bool :=
  match a, b with
  | Some x, Some y => value_eqb x y
  | _, _ => false
  end.

(** The rows of the right keys [rk] that match the key [k]. *)
Definition matches (k : cell) (rk : list cell) : list nat :=
  filter (fun j => key_match k (nth j rk None)) (seq 0 (List.length rk)).

(** Every left row, once per matching right row, or once alone. *)
Definition join_left (lk rk : list cell) : list (option nat * option nat) :=
  flat_map (fun i =>
              match matches (nth i lk None) rk with
              | [] => [(Some i, None)]
              | js => map (fun j => (Some i, Some j)) js
              end)
           (seq 0 (List.length lk)).

(** The right rows no left row matched. *)
Definition join_right (lk rk : list cell) : list (option nat * option nat) :=
  map (fun j => (None, Some j))
      (filter (fun j => negb (existsb (fun k => key_match k (nth j rk None)) lk))
              (seq 0 (List.length rk))).

(** The pairs of a hash join that probes the rows of [rk] with the rows
    of [lk]: the rows of [lk] in order, each with its matches, then the
    rows of [rk] that nothing matched. *)
Definition probe_pairs (lk rk : list cell) : list (option nat * option nat) :=
  join_left lk rk ++ join_right lk rk.

Definition swap {A B} (p : A * B) : B * A := (snd p, fst p).

(** The pairs (left row, right row) of the outer join, in the order of
    the rows of the result. polars documents no order; its hash join
    probes with the longer side, whose rows come first: the rows of the
    left frame when it has more rows than the right one, the rows of the
    right frame otherwise. *)
Definition outer_pairs (lk rk : list cell) : list (option nat * option nat) :=
  if (List.length lk <=? List.length rk)%nat
  then map swap (probe_pairs rk lk)
  else probe_pairs lk rk.

Definition take_cell (vs : list cell) (oi : option nat) : cell :=
  match oi with
  | Some i => nth i vs None
  | None => None
  end.

(** Gather a series through row indices; no index gives a null. *)
Definition take (idx : list (option nat)) (s : Series) : Series :=
  mkSeries (dtype s) (map (take_cell (values s)) idx).

(** [left.join(right, on=on, how="outer", suffix=suffix, coalesce=...)].
    The columns of [left], then those of [right]; a right column named like
    a left one takes the suffix. With [coalesce=True] the key column is the
    coalesced key and the right key is left out; without it the right key
    is one more right column. The key dtypes must agree and no two output
    columns may share a name. *)
Definition join (left right : DataFrame) (on suffix : string) (coalesce_keys : bool)
  : result DataFrame :=
  lk <- col left on ;;
  rk <- col right on ;;
  if negb (DataType_eqb (dtype lk) (dtype rk)) then Err SchemaError else
  let pairs := outer_pairs (values lk) (values rk) in
  let li := map fst pairs in
  let ri := map snd pairs in
  let lcols :=
    map (fun p =>
           (fst p,
            if coalesce_keys && String.eqb (fst p) on
            then mkSeries (dtype lk)
                   (zip_with coalesce_cell (values (take li (snd p))) (values (take ri rk)))
            else take li (snd p)))
        left in
  let rcols :=
    map (fun p =>
           (if mem (fst p) (columns left) then (fst p ++ suffix)%string else fst p,
            take ri (snd p)))
        (if coalesce_keys then filter (fun p => negb (String.eqb (fst p) on)) right
         else right) in
  let out := lcols ++ rcols in
  if nodupb (columns out) then Ok out else Err DuplicateError.

(** ** The merges that align dtypes *)

(** The argument [base] of the merges: a frame, or a schema to build an
    empty frame from. *)
Inductive frame_or_schema :=
| IsDataFrame (df : DataFrame)
| IsSchema (sch : Schema).

Definition _ensure_df_from_schema (x : frame_or_schema) : DataFrame :=
  match x with
  | IsDataFrame df => df
  | IsSchema sch => empty_frame sch
  end.

Section Merge.

(** polars' strict cast of one non-null value from a dtype to another;
    [None] when the value cannot be converted and the cast raises. *)
Variable cast_value : DataType -> DataType -> value -> option value.

Definition cast_cell (from to : DataType) (c : cell) : result cell :=
  match c with
  | None => Ok None
  | Some v =>
      match cast_value from to v with
      | Some v' => Ok (Some v')
      | None => Err InvalidOperationError
      end
  end.

(** [s.cast(tgt)]. *)
Definition cast (s : Series) (tgt : DataType) : result Series :=
  vs <- sequence (map (cast_cell (dtype s) tgt) (values s)) ;;
  Ok (mkSeries tgt vs).

Definition cast_to (s : Series) (t : DataType) : result Series :=
  if DataType_eqb (dtype s) t then Ok s else cast s t.

(** [pl.coalesce(a, b)]: both operands at their supertype, then row by row. *)
Definition coalesce (a b : Series) : result Series :=
  let t := supertype (dtype a) (dtype b) in
  a' <- cast_to a t ;;
  b' <- cast_to b t ;;
  Ok (mkSeries t (zip_with coalesce_cell (values a') (values b'))).

(** [pl.coalesce([a, pl.lit(0)])]. *)
Definition coalesce_lit0 (a : Series) : result Series :=
  let t := supertype (dtype a) Int32 in
  a' <- cast_to a t ;;
  Ok (mkSeries t (map (fun c => coalesce_cell c (Some (lit0 t))) (values a'))).

(** [df.with_columns(exprs)], the expressions evaluated on [df]; two
    expressions with one output name raise. *)
Definition with_columns_exprs (df : DataFrame) (exprs : list (string * result Series))
  : result DataFrame :=
  if nodupb (map fst exprs)
  then news <- sequence (map (fun e => s <- snd e ;; Ok (fst e, s)) exprs) ;;
       Ok (with_columns df news)
  else Err DuplicateError.

(** Lines 151-169, which [upsert], [upsert_match] and [upsert_bets] share:
    the key must be in [delta]; a base without the key gets a null key
    column of delta's key dtype; the overlap is computed; the key and the
    overlapping columns of [delta] whose dtype is not base's are cast to
    it. Returns the base, the overlap and the cast delta. *)
Definition align (base0 : frame_or_schema) (delta : DataFrame) (key : string)
  : result (DataFrame * list string * DataFrame) :=
  let base := _ensure_df_from_schema base0 in
  if negb (mem key (columns delta)) then Err (MissingKey key) else
  let base :=
    if negb (mem key (columns base))
    then
      let key_dtype := match lookup (schema delta) key with Some t => t | None => Utf8 end in
      with_columns base [(key, lit_null key_dtype (lit_height base))]
    else base in
  let overlap :=
    filter (fun c => mem c (columns delta) && negb (String.eqb c key)) (columns base) in
  let to_cast :=
    filter (fun c =>
              match lookup (schema delta) c, lookup (schema base) c with
              | Some d, Some tgt => negb (DataType_eqb d tgt)
              | _, _ => true
              end)
           (key :: overlap) in
  let casts :=
    map (fun c => (c, b <- col base c ;; d <- col delta c ;; cast d (dtype b))) to_cast in
  delta <- (if is_nil casts then Ok delta else with_columns_exprs delta casts) ;;
  Ok (base, overlap, delta).

Definition upsert (base0 : frame_or_schema) (delta0 : DataFrame) (key : string)
  : result DataFrame :=
  a <- align base0 delta0 key ;;
  let '(base, overlap, delta) := a in
  (* outer join: the new rows of delta appear too *)
  j <- join base delta key "_upd" true ;;
  (* delta when it is not null, base otherwise *)
  let resolve :=
    map (fun c => (c, u <- col j (c ++ "_upd")%string ;; b <- col j c ;; coalesce u b)) overlap in
  let base_only := filter (fun c => negb (mem c overlap)) (columns base) in
  let delta_only :=
    filter (fun c => negb (mem c overlap) && negb (String.eqb c key)) (columns delta) in
  select_exprs (map (fun c => (c, col j c)) base_only
                ++ resolve
                ++ map (fun c => (c, col j c)) delta_only).

(** Lines 149-190 of [upsert_match] repeat the body of [upsert]; the output
    is then validated against the canonical schema. *)
Definition upsert_match (base0 : frame_or_schema) (delta0 : DataFrame) (key : string)
  : result DataFrame :=
  out <- upsert base0 delta0 key ;;
  ordenar_y_validar out head_to_head_schema true.

Definition upsert_bets (base0 : frame_or_schema) (delta0 : DataFrame) (key : string)
  : result DataFrame :=
  a <- align base0 delta0 key ;;
  let '(base, overlap, delta) := a in
  let base_only := filter (fun c => negb (mem c overlap)) (columns base) in
  j <- join base delta key "_r" false ;;
  let sums :=
    map (fun c => (c, b <- col j c ;; b0 <- coalesce_lit0 b ;;
                      r <- col j (c ++ "_r")%string ;; r0 <- coalesce_lit0 r ;;
                      add b0 r0))
        overlap in
  let firsts :=
    map (fun c => (c, b <- col j c ;; r <- col j (c ++ "_r")%string ;; coalesce b r))
        (filter (fun c => mem (c ++ "_r")%string (columns j)) base_only) in
  w <- with_columns_exprs j (sums ++ firsts) ;;
  let out :=
    drop w (map (fun c => (c ++ "_r")%string)
                (filter (fun c => mem (c ++ "_r")%string (columns j)) (overlap ++ base_only))) in
  ordenar_y_validar out head_to_head_schema true.

End Merge.

(** ** Stacking frames: [pl.concat(..., how="diagonal")] *)

(** The dtype of two stacked series: the dtype of the first, which the
    second must have too. A second column of nulls ([Null]) is cast to
    it; a first column of nulls does not take a typed second one, and two
    different dtypes do not stack: polars raises. *)
Definition unify (a b : DataType) : option DataType :=
  if DataType_eqb a b then Some a
  else match b with
       | Null => Some a
       | _ => None
       end.

Definition vstack (a b : Series) : result Series :=
  match unify (dtype a) (dtype b) with
  | Some t => Ok (mkSeries t (values a ++ values b))
  | None => Err SchemaError
  end.

(** [pl.concat([a, b], how="diagonal")]: the union of the columns, the
    rows of [a] then those of [b], a column absent from one frame null on
    its rows. *)
Definition concat_diagonal (a b : DataFrame) : result DataFrame :=
  let names := columns a ++ filter (fun c => negb (mem c (columns a))) (columns b) in
  sequence
    (map (fun c =>
            match lookup a c, lookup b c with
            | Some sa, Some sb => s <- vstack sa sb ;; Ok (c, s)
            | Some sa, None =>
                Ok (c, mkSeries (dtype sa) (values sa ++ repeat None (height b)))
            | None, Some sb =>
                Ok (c, mkSeries (dtype sb) (repeat None (height a) ++ values sb))
            | None, None => Err (ColumnNotFoundError c)
            end)
         names).

(** ** Grouping and the aggregation [sort_by(...).first()] *)

(** [group_by] puts the nulls in one group. *)
Definition group_eqb (a b : cell) : bool :=
  match a, b with
  | None, None => true
  | Some x, Some y => value_eqb x y
  | _, _ => false
  end.

(** The keys, each once, in the order of their first row. *)
Fixpoint distinct (l : list cell) : list cell :=
  match l with
  | [] => []
  | k :: rest => k :: filter (fun k' => negb (group_eqb k k')) (distinct rest)
  end.

(** The rows of the group of key [k]. *)
Definition rows_of (k : cell) (keys : list cell) : list nat :=
  filter (fun i => group_eqb k (nth i keys None)) (seq 0 (List.length keys)).

Definition is_null (c : cell) : bool :=
  match c with
  | None => true
  | Some _ => false
  end.

(** The order of the timestamps: nulls first in both directions (polars'
    default, [nulls_last=False]), then ascending or descending. *)
Definition ts_leb (desc : bool) (a b : cell) : bool :=
  match a, b with
  | None, _ => true
  | Some _, None => false
  | Some x, Some y => if desc then value_leb y x else value_leb x y
  end.

(** The order of [sort_by([is_null, ts], descending=[False, desc])]:
    [is_null] ascending ([False] before [True]), then the timestamp. *)
Definition by_leb (desc : bool) (a b : bool * cell) : bool :=
  if Bool.eqb (fst a) (fst b) then ts_leb desc (snd a) (snd b) else negb (fst a).

Fixpoint insert_by {A} (leb : A -> A -> bool) (x : A) (l : list A) : list A :=
  match l with
  | [] => [x]
  | y :: t => if leb x y then x :: y :: t else y :: insert_by leb x t
  end.

(** A stable sort. polars leaves the order of equal keys open; the model
    keeps the order of the rows. *)
Definition sort {A} (leb : A -> A -> bool) (l : list A) : list A :=
  fold_right (insert_by leb) [] l.

(** [v.sort_by(by, descending=[False, desc])]. *)
Definition sort_by (desc : bool) (v : list cell) (by_ : list (bool * cell)) : list cell :=
  map fst (sort (fun a b => by_leb desc (snd a) (snd b)) (combine v by_)).

(** [.first()]: null on no row. *)
Definition first (v : list cell) : cell := hd None v.

(** The aggregation of column [c] on the group [rows]:
    [pl.col(c).sort_by([pl.col(c).is_null(), pl.col(ts_col)],
    descending=[False, desc]).first()]. *)
Definition agg_first (desc : bool) (vals tss : list cell) (rows : list nat) : cell :=
  let v := map (fun i => nth i vals None) rows in
  let t := map (fun i => nth i tss None) rows in
  first (sort_by desc v (combine (map is_null v) t)).

(** ** The merge by timestamps *)

Section Odds.

(** The order in which Python iterates the set built from a list of names. *)
Variable set_iter : list string -> list string.

(** The order in which [group_by(maintain_order=False)] puts the groups. *)
Variable group_order : list cell -> list cell.

Definition _alinear (todas : list string) (df : DataFrame) : result DataFrame :=
  let faltantes := filter (fun c => negb (mem c (columns df))) todas in
  df <- (if is_nil faltantes then Ok df
         else with_columns_exprs df
                (map (fun c => (c, Ok (lit_null Null (lit_height df)))) faltantes)) ;;
  select df todas.

(** The direction of column [c]: descending unless [c] is in
    [preferir_antiguo]. *)
Definition desc_of (preferir_reciente preferir_antiguo : list string) (c : string) : bool :=
  if mem c preferir_antiguo then false
  else if mem c preferir_reciente then true
  else true.

Definition upsert_odds (df_base df_delta : DataFrame) (pk ts_col : string)
    (preferir_reciente preferir_antiguo : list string) : result DataFrame :=
  (* 1) the columns of both frames *)
  let todas := set_iter (columns df_base ++ columns df_delta) in
  if negb (mem pk todas) then Err (MissingPK pk) else
  if negb (mem ts_col todas) then Err (MissingTimestamp ts_col) else
  a <- _alinear todas df_base ;;
  b <- _alinear todas df_delta ;;
  (* 2) stack the rows *)
  combo <- concat_diagonal a b ;;
  (* 3) one aggregation per column *)
  keys <- col combo pk ;;
  ts <- col combo ts_col ;;
  let groups := group_order (distinct (values keys)) in
  let aggs :=
    map (fun c =>
           (c, s <- col combo c ;;
               Ok (mkSeries (dtype s)
                     (map (fun k =>
                             agg_first (desc_of preferir_reciente preferir_antiguo c)
                               (values s) (values ts) (rows_of k (values keys)))
                          groups))))
        (filter (fun c => negb (String.eqb c pk)) todas) in
  (* 4) one row per key *)
  resultado <- select_exprs ((pk, Ok (mkSeries (dtype keys) groups)) :: aggs) ;;
  ordenar_y_validar resultado head_to_head_schema true.

End Odds.

(** ** Concrete frames and a concrete cast kernel, for the examples *)

(** A frame with the canonical columns and one row per association list,
    a column without entry in a row being null there. *)
Definition canonical_rows (rows : list (list (string * value))) : DataFrame :=
  map (fun p => (fst p, mkSeries (snd p) (map (fun r => lookup r (fst p)) rows)))
      head_to_head_schema.

(** The value of a finite binary64 number, truncated toward zero. *)
Definition f64_trunc (f : f64) : option Z :=
  match f with
  | S754_zero _ => Some 0
  | S754_finite s m e =>
      let a := if 0 <=? e then Zpos m * 2 ^ e else Zpos m / 2 ^ (- e) in
      Some (if s then - a else a)
  | _ => None
  end.

(** The numeric part of polars' strict cast: integers widen, narrow when
    they fit, and convert to the nearest float; finite floats truncate to
    the integers that hold them. The other conversions are not needed by
    the examples and raise in this kernel. *)
Definition numeric_cast (from to : DataType) (v : value) : option value :=
  match to, v with
  | Int64, VInt z => Some (VInt z)
  | Int32, VInt z => if (- 2 ^ 31 <=? z) && (z <? 2 ^ 31) then Some (VInt z) else None
  | Float64, VInt z => Some (VFloat (f64_of_Z z))
  | Float64, VFloat f => Some (VFloat f)
  | Int64, VFloat f =>
      match f64_trunc f with
      | Some z => if (- 2 ^ 63 <=? z) && (z <? 2 ^ 63) then Some (VInt z) else None
      | None => None
      end
  | Utf8, VStr s => Some (VStr s)
  | _, _ => None
  end.

(** ** Conformance to a schema *)

(** A frame conforms to a schema when its columns are those of the
    schema, with the declared dtypes and in the declared order, followed
    by columns the schema does not name. *)
Definition conforms (sch : Schema) (df : DataFrame) : Prop :=
  exists extras : Schema,
    schema df = sch ++ extras /\
    forall c, In c (map fst extras) -> ~ In c (map fst sch).

(** ** What the claims about the joins speak of *)

(** The key cells of a frame, row by row. *)
Definition key_cells (df : DataFrame) (key : string) : list cell :=
  match lookup df key with
  | Some s => values s
  | None => []
  end.

(** The cell of column [c] of the input row a joined row comes from; a
    joined row without row on that side has nulls there. *)
Definition row_cell (df : DataFrame) (c : string) (oi : option nat) : cell :=
  match oi with
  | Some i => cell_at df c i
  | None => None
  end.

(** The pairs of row indices of a full outer join of the key columns [lk]
    and [rk], in any order: a left and a right row are paired exactly when
    their keys match, a row that matches no row of the other side is there
    alone, there is nothing else, and no pair is there twice. *)
Definition full_outer_join (lk rk : list cell) (pairs : list (option nat * option nat))
  : Prop :=
  (forall i j, In (Some i, Some j) pairs <->
     (i < List.length lk)%nat /\ (j < List.length rk)%nat /\
     key_match (nth i lk None) (nth j rk None) = true) /\
  (forall i, In (Some i, None) pairs <->
     (i < List.length lk)%nat /\
     forall j, (j < List.length rk)%nat -> key_match (nth i lk None) (nth j rk None) = false) /\
  (forall j, In (None, Some j) pairs <->
     (j < List.length rk)%nat /\
     forall i, (i < List.length lk)%nat -> key_match (nth i lk None) (nth j rk None) = false) /\
  ~ In (None, None) pairs /\
  NoDup pairs.

(** ** The replace-merge in closed form *)

Definition frame_dtype (df : DataFrame) (c : string) : DataType :=
  match lookup df c with
  | Some s => dtype s
  | None => Null
  end.

(** The cell of column [c] on the joined row [pr] of the replace-merge:
    the key is the key of whichever side has the row; another column is
    delta's cell when it is not null and base's cell otherwise (a column a
    side does not have counts as null on that side). *)
Definition replaced_cell (base delta : DataFrame) (key c : string)
    (pr : option nat * option nat) : cell :=
  if String.eqb c key
  then coalesce_cell (row_cell base c (fst pr)) (row_cell delta c (snd pr))
  else coalesce_cell (row_cell delta c (snd pr)) (row_cell base c (fst pr)).

(** ** The statement of the replace-merge *)

(** The cell of column [c] on row [j] of delta as the merges read it: a
    column of delta that base has at another dtype is converted to base's
    dtype value by value, a null staying null; any other column is read
    as it is. *)
Definition delta_cell (cast_value : DataType -> DataType -> value -> option value)
    (base delta : DataFrame) (c : string) (j : nat) : cell :=
  match lookup delta c with
  | None => None
  | Some d =>
      match lookup base c with
      | None => nth j (values d) None
      | Some b =>
          if DataType_eqb (dtype d) (dtype b) then nth j (values d) None
          else match nth j (values d) None with
               | Some v => cast_value (dtype d) (dtype b) v
               | None => None
               end
      end
  end.

(** The same on the delta row a joined row comes from, if any. *)
Definition delta_row_cell (cast_value : DataType -> DataType -> value -> option value)
    (base delta : DataFrame) (c : string) (oj : option nat) : cell :=
  match oj with
  | Some j => delta_cell cast_value base delta c j
  | None => None
  end.

(** The keys of delta, at the dtype of base's key. *)
Definition delta_keys (cast_value : DataType -> DataType -> value -> option value)
    (base delta : DataFrame) (key : string) : list cell :=
  map (delta_cell cast_value base delta key) (seq 0 (List.length (key_cells delta key))).

(** No value of delta is lost on the way: every value of a column that
    base has at another dtype converts. *)
Definition delta_converts (cast_value : DataType -> DataType -> value -> option value)
    (base delta : DataFrame) : Prop :=
  forall c d b j v,
    lookup delta c = Some d -> lookup base c = Some b -> dtype d <> dtype b ->
    nth_error (values d) j = Some (Some v) ->
    cast_value (dtype d) (dtype b) v <> None.

(** [pairs] lists, row by row of the result, the base row and the delta
    row the result row joins. *)
Definition replace_merge_spec (cast_value : DataType -> DataType -> value -> option value)
    (base delta : DataFrame) (key : string) (out : DataFrame) : Prop :=
  delta_converts cast_value base delta /\
  exists pairs : list (option nat * option nat),
    (* a full outer join on the key, with every row of both inputs *)
    full_outer_join (key_cells base key) (delta_keys cast_value base delta key) pairs /\
    (forall i, (i < List.length (key_cells base key))%nat -> In (Some i) (map fst pairs)) /\
    (forall j, (j < List.length (key_cells delta key))%nat -> In (Some j) (map snd pairs)) /\
    (* the result has one row per pair and the columns of both inputs *)
    (forall c, In c (columns out) <-> In c (columns base) \/ In c (columns delta)) /\
    (forall c s, lookup out c = Some s -> List.length (values s) = List.length pairs) /\
    forall p oi oj, nth_error pairs p = Some (oi, oj) ->
      cell_at out key p
      = coalesce_cell (row_cell base key oi) (delta_row_cell cast_value base delta key oj) /\
      (forall c, c <> key -> In c (columns base) -> In c (columns delta) ->
         cell_at out c p
         = coalesce_cell (delta_row_cell cast_value base delta c oj) (row_cell base c oi)) /\
      (forall c, c <> key -> In c (columns base) -> ~ In c (columns delta) ->
         cell_at out c p = row_cell base c oi) /\
      (forall c, ~ In c (columns base) -> In c (columns delta) ->
         cell_at out c p = row_cell delta c oj).

(** ** Example tables *)

Definition F (z : Z) : value := VFloat (f64_of_Z z).

(** A consolidated table with match 7 and a turnover of 100. *)
Definition base7 : DataFrame :=
  canonical_rows [[("MatchId", VInt 7); ("TurnOver_SGD", F 100)]].

(** A bets batch for match 7 with a turnover of 50. *)
Definition delta7 : DataFrame :=
  [("MatchId", mkSeries Int64 [Some (VInt 7)]);
   ("TurnOver_SGD", mkSeries Float64 [Some (F 50)])].

Definition result_or_empty (r : result DataFrame) : DataFrame :=
  match r with
  | Ok df => df
  | Err _ => []
  end.

Definition match7 : DataFrame :=
  Eval vm_compute in
    result_or_empty (upsert_match numeric_cast (IsDataFrame base7) delta7 "MatchId").

Definition bets7 : DataFrame :=
  Eval vm_compute in
    result_or_empty (upsert_bets numeric_cast (IsDataFrame base7) delta7 "MatchId").

(** ** The statement of the additive merge *)

(** The 0 a missing amount counts as, at dtype [t]: the number 0; on a
    column of strings polars makes of the literal 0 the string "0". *)
Definition zero (t : DataType) : value :=
  match t with
  | Float64 => VFloat (f64_of_Z 0)
  | Utf8 => VStr "0"
  | _ => VInt 0
  end.

Definition or_zero (t : DataType) (c : cell) : value :=
  match c with
  | Some v => v
  | None => zero t
  end.

(** [coalesce(b, 0) + coalesce(d, 0)] at dtype [t]: integers wrap
    around, floats round to nearest, strings concatenate. *)
Definition accumulated_cell (t : DataType) (b d : cell) : cell :=
  match t, or_zero t b, or_zero t d with
  | Int32, VInt x, VInt y => Some (VInt (wrap 32 (x + y)))
  | Int64, VInt x, VInt y => Some (VInt (wrap 64 (x + y)))
  | Float64, VFloat x, VFloat y => Some (VFloat (f64_add x y))
  | Utf8, VStr x, VStr y => Some (VStr (x ++ y)%string)
  | _, _, _ => None
  end.

(** [pairs] and the cells of delta are as in [replace_merge_spec]. The
    columns the statement speaks of are the non-key columns of both
    inputs that the result has, which the canonical ones always are; a
    column whose dtype is [Null] holds no number and is left out. Such a
    column of the result has one cell per joined row, the accumulated
    one. *)
Definition additive_merge_spec (cast_value : DataType -> DataType -> value -> option value)
    (base delta : DataFrame) (key : string) (out : DataFrame) : Prop :=
  delta_converts cast_value base delta /\
  exists pairs : list (option nat * option nat),
    full_outer_join (key_cells base key) (delta_keys cast_value base delta key) pairs /\
    forall c, c <> key -> In c (columns base) -> In c (columns delta) ->
      In c (map fst head_to_head_schema) \/
      (In c (columns out) /\ frame_dtype base c <> Null) ->
      exists s, lookup out c = Some s /\
        values s
        = map (fun pr => accumulated_cell (frame_dtype base c) (row_cell base c (fst pr))
                           (delta_row_cell cast_value base delta c (snd pr)))
              pairs.

(** A consolidated table with three matches and a batch for two of them,
    both with a date, a column of strings. *)
Definition base_dates : DataFrame :=
  canonical_rows [[("MatchId", VInt 7); ("EventDate", VStr "a")];
                  [("MatchId", VInt 8)];
                  [("MatchId", VInt 9); ("EventDate", VStr "c")]].

Definition delta_dates : DataFrame :=
  [("MatchId", mkSeries Int64 [Some (VInt 7); Some (VInt 8)]);
   ("EventDate", mkSeries Utf8 [Some (VStr "b"); Some (VStr "b")])].

Definition bets_dates : DataFrame :=
  Eval vm_compute in
    result_or_empty (upsert_bets numeric_cast (IsDataFrame base_dates) delta_dates "MatchId").

(** A consolidated table with matches 7 and 8 and a batch for matches 8
    and 9 whose turnover is a column of integers, with a column of its
    own. *)
Definition base78f : DataFrame :=
  canonical_rows [[("MatchId", VInt 7); ("HomeId", VInt 1); ("TurnOver_SGD", F 1)];
                  [("MatchId", VInt 8); ("HomeId", VInt 2); ("TurnOver_SGD", F 1)]].

Definition delta89i : DataFrame :=
  [("MatchId", mkSeries Int64 [Some (VInt 8); Some (VInt 9)]);
   ("HomeId", mkSeries Int64 [None; Some (VInt 30)]);
   ("TurnOver_SGD", mkSeries Int64 [Some (VInt 5); None]);
   ("Note", mkSeries Utf8 [Some (VStr "x"); Some (VStr "y")])].

Definition match789f : DataFrame :=
  Eval vm_compute in
    result_or_empty (upsert_match numeric_cast (IsDataFrame base78f) delta89i "MatchId").

Definition bets789f : DataFrame :=
  Eval vm_compute in
    result_or_empty (upsert_bets numeric_cast (IsDataFrame base78f) delta89i "MatchId").

(** ** The statement of the merge by timestamps *)

(** The cells of column [c] of a frame brought to the common columns: the
    column itself, or nulls when the frame does not have it. *)
Definition aligned_column (df : DataFrame) (c : string) : list cell :=
  match lookup df c with
  | Some s => values s
  | None => repeat None (lit_height df)
  end.

(** The cells of column [c] over the rows of base followed by the rows of
    delta. *)
Definition stacked (base delta : DataFrame) (c : string) : list cell :=
  aligned_column base c ++ aligned_column delta c.

(** Row [m] of the stacked rows is in the group of key [k]. *)
Definition in_group (k : cell) (K : list cell) (m : nat) : Prop :=
  (m < List.length K)%nat /\ group_eqb k (nth m K None) = true.

(** [v] is the first candidate of a group for the values [V] and the
    timestamps [T]: null when every candidate is null, and otherwise a
    non-null candidate whose timestamp comes first, in the direction
    [desc], among the non-null candidates. *)
Definition first_candidate (desc : bool) (V T : list cell) (k : cell) (K : list cell)
    (v : cell) : Prop :=
  ((forall m, in_group k K m -> nth m V None = None) /\ v = None) \/
  (exists m, in_group k K m /\ nth m V None = v /\ v <> None /\
     forall m', in_group k K m' -> nth m' V None <> None ->
       ts_leb desc (nth m T None) (nth m' T None) = true).


(** The direction in which the timestamps of the candidates of a column
    are compared. *)
Inductive direction := Ascending | Descending.

(** Timestamp [a] is not after timestamp [b] in the order of the
    candidates: a candidate without timestamp comes before every
    candidate that has one, in both directions; two timestamps compare
    ascending (the earlier first) or descending (the later first). *)
Definition not_after (d : direction) (a b : cell) : Prop :=
  match a, b with
  | None, _ => True
  | Some _, None => False
  | Some x, Some y =>
      match d with
      | Ascending => value_leb x y = true
      | Descending => value_leb y x = true
      end
  end.

(** [v] is the first candidate of the group of key [k] for the values
    [V] and the timestamps [T]: null when every candidate of the group is
    null, and otherwise a non-null candidate that no non-null candidate of
    the group comes before. *)
Definition first_of_group (d : direction) (V T : list cell) (k : cell) (K : list cell)
    (v : cell) : Prop :=
  ((forall m, in_group k K m -> nth m V None = None) /\ v = None) \/
  (exists m, in_group k K m /\ nth m V None = v /\ v <> None /\
     forall m', in_group k K m' -> nth m' V None <> None ->
       not_after d (nth m T None) (nth m' T None)).

(** The table of the merge by timestamps: its rows are the keys of the
    stacked rows, each once and nothing else, and on the row of a key
    every other column of base or delta holds the first candidate of the
    group, earliest first for a column of [preferir_antiguo] and latest
    first for any other. *)
Definition timestamp_merge_spec (base delta : DataFrame) (pk ts_col : string)
    (preferir_antiguo : list string) (out : DataFrame) : Prop :=
  let K := stacked base delta pk in
  let T := stacked base delta ts_col in
  exists groups : list cell,
    (exists s, lookup out pk = Some s /\ values s = groups) /\
    (forall m, (m < List.length K)%nat ->
       exists k, In k groups /\ group_eqb k (nth m K None) = true) /\
    (forall k, In k groups -> exists m, in_group k K m) /\
    (forall g g' k k', nth_error groups g = Some k -> nth_error groups g' = Some k' ->
       group_eqb k k' = true -> g = g') /\
    forall c, c <> pk -> In c (columns base) \/ In c (columns delta) ->
      (exists s, lookup out c = Some s /\ List.length (values s) = List.length groups) /\
      forall g k, nth_error groups g = Some k ->
        (In c preferir_antiguo ->
         first_of_group Ascending (stacked base delta c) T k K (cell_at out c g)) /\
        (~ In c preferir_antiguo ->
         first_of_group Descending (stacked base delta c) T k K (cell_at out c g)).


(** An odds table and an odds batch for match 1: the batch is later
    ("t2" after "t1") and brings a new last price. *)
Definition F2 (m e : Z) : value := VFloat (binary_normalize 53 1024 m e false).

Definition odds_base1 : DataFrame :=
  canonical_rows [[("MatchId", VInt 1); ("FirstOdds1", F2 3 (-1));
                   ("LastOdds1", F2 3 (-1)); ("ModifiedOn", VStr "t1")]].

Definition odds_delta1 : DataFrame :=
  [("MatchId", mkSeries Int64 [Some (VInt 1)]);
   ("LastOdds1", mkSeries Float64 [Some (F2 7 (-2))]);
   ("ModifiedOn", mkSeries Utf8 [Some (VStr "t2")])].

(** A batch for match 1 that is later and brings a first and a last
    price. *)
Definition odds_delta1_prices : DataFrame :=
  [("MatchId", mkSeries Int64 [Some (VInt 1)]);
   ("FirstOdds1", mkSeries Float64 [Some (F2 7 (-2))]);
   ("LastOdds1", mkSeries Float64 [Some (F2 7 (-2))]);
   ("ModifiedOn", mkSeries Utf8 [Some (VStr "t2")])].

(** The lists the application passes to [upsert_odds]. *)
Definition app_reciente : list string :=
  ["BetType"; "LastOddsId"; "LastOdds1"; "LastOdds2"; "LastCom1"; "LastCom2"; "LastComx"].
Definition app_antiguo : list string :=
  ["FirstOddsId"; "FirstOdds1"; "FirstOdds2"; "FirstCom1"; "FirstCom2"; "FirstComx"].

(** One iteration order of a set: the order of first occurrence. *)
Definition first_occurrence_order (l : list string) : list string :=
  rev (nodup string_dec (rev l)).

(** One order of the groups: the order of their first rows. *)
Definition first_row_order (l : list cell) : list cell := l.

Definition odds1 : DataFrame :=
  Eval vm_compute in
    result_or_empty
      (upsert_odds first_occurrence_order first_row_order odds_base1 odds_delta1
         "MatchId" "ModifiedOn" app_reciente app_antiguo).

Definition odds1_prices : DataFrame :=
  Eval vm_compute in
    result_or_empty
      (upsert_odds first_occurrence_order first_row_order odds_base1 odds_delta1_prices
         "MatchId" "ModifiedOn" app_reciente app_antiguo).

(** An odds batch without the key column, merged into the empty
    consolidated table. *)
Definition delta_without_key : DataFrame :=
  [("LastOdds1", mkSeries Float64 [Some (F2 7 (-2))]);
   ("ModifiedOn", mkSeries Utf8 [Some (VStr "t2")])].

Definition odds_without_key : DataFrame :=
  Eval vm_compute in
    result_or_empty
      (upsert_odds first_occurrence_order first_row_order empty_head_to_head
         delta_without_key "MatchId" "ModifiedOn" app_reciente app_antiguo).

(** ** Repeated merges *)

(** [upsert_match(upsert_match(base, delta), delta)]. *)
Definition upsert_match_twice
    (cast_value : DataType -> DataType -> value -> option value)
    (base delta : DataFrame) (key : string) : result DataFrame :=
  r <- upsert_match cast_value (IsDataFrame base) delta key ;;
  upsert_match cast_value (IsDataFrame r) delta key.


(** Keys that are all non-null and pairwise different. *)
Definition distinct_keys (K : list cell) : Prop :=
  (forall j, (j < List.length K)%nat -> nth j K None <> None) /\
  (forall j j', (j < List.length K)%nat -> (j' < List.length K)%nat ->
     key_match (nth j K None) (nth j' K None) = true -> j = j').

(** A batch with the same key on two rows, and a batch with a null key. *)
Definition delta_twice7 : DataFrame :=
  [("MatchId", mkSeries Int64 [Some (VInt 7); Some (VInt 7)]);
   ("TurnOver_SGD", mkSeries Float64 [Some (F 50); Some (F 60)])].

Definition delta_null_key : DataFrame :=
  [("MatchId", mkSeries Int64 [None]);
   ("TurnOver_SGD", mkSeries Float64 [Some (F 50)])].

(** The key of a joined row. *)
Definition joined_key (LK RK : list cell) (pr : option nat * option nat) : cell :=
  coalesce_cell (take_cell LK (fst pr)) (take_cell RK (snd pr)).

(** ** The replace-merge in closed form, validated *)

Definition merge_columns (base : DataFrame) (overlap : list string) (delta : DataFrame)
    (key : string) : list string :=
  filter (fun c => negb (mem c overlap)) (columns base)
  ++ overlap
  ++ filter (fun c => negb (mem c overlap) && negb (String.eqb c key)) (columns delta).

Definition merged_series (base delta : DataFrame) (key c : string) : Series :=
  mkSeries (match lookup base c with
            | Some s => dtype s
            | None => frame_dtype delta c
            end)
    (map (replaced_cell base delta key c)
       (outer_pairs (key_cells base key) (key_cells delta key))).

(** The order the validator puts columns in. *)
Definition canonical_order (names : list string) : list string :=
  map fst head_to_head_schema
  ++ filter (fun c => negb (mem c (map fst head_to_head_schema))) names.

(** ** Rows of a join on distinct keys *)

(** The rows of the right keys [RK] that no left key matches: the rows a
    merge adds. *)
Definition new_rows (LK RK : list cell) : list nat :=
  filter (fun j => negb (existsb (fun k => key_match k (nth j RK None)) LK))
         (seq 0 (List.length RK)).

(** The right row a left key matches, when the right keys are distinct. *)
Definition match_of (k : cell) (RK : list cell) : option nat :=
  hd_error (matches k RK).

(** A consolidated table with matches 7 and 8, and a batch with matches
    8 and 9. *)
Definition base78 : DataFrame :=
  canonical_rows [[("MatchId", VInt 7); ("HomeId", VInt 1)];
                  [("MatchId", VInt 8); ("HomeId", VInt 2)]].

Definition delta89 : DataFrame :=
  [("MatchId", mkSeries Int64 [Some (VInt 8); Some (VInt 9)]);
   ("HomeId", mkSeries Int64 [Some (VInt 20); Some (VInt 30)]);
   ("AwayId", mkSeries Int64 [Some (VInt 21); None])].

Definition match789 : DataFrame :=
  Eval vm_compute in
    result_or_empty (upsert_match numeric_cast (IsDataFrame base78) delta89 "MatchId").

Definition match_into_empty7 : DataFrame :=
  Eval vm_compute in
    result_or_empty
      (upsert_match numeric_cast (IsDataFrame empty_head_to_head) delta7 "MatchId").

(** The dtype of column [c] of base stacked on column [c] of delta, a
    frame without the column bringing nulls; [None] when the two dtypes do
    not stack. *)
Definition stacked_dtype (base delta : DataFrame) (c : string) : option DataType :=
  unify (frame_dtype base c) (frame_dtype delta c).

(** An odds table with matches 1 and 2, merged with the batch for match 1. *)
Definition odds_base12 : DataFrame :=
  canonical_rows [[("MatchId", VInt 1); ("FirstOdds1", F2 3 (-1));
                   ("LastOdds1", F2 3 (-1)); ("ModifiedOn", VStr "t1")];
                  [("MatchId", VInt 2); ("FirstOdds1", F2 5 (-1));
                   ("LastOdds1", F2 9 (-2)); ("ModifiedOn", VStr "t1")]].

Definition odds12 : DataFrame :=
  Eval vm_compute in
    result_or_empty
      (upsert_odds first_occurrence_order first_row_order odds_base12 odds_delta1
         "MatchId" "ModifiedOn" app_reciente app_antiguo).

(** The series [_alinear] makes of column [c]: the frame's own, or nulls. *)
Definition aligned_series (df : DataFrame) (c : string) : Series :=
  match lookup df c with
  | Some s => s
  | None => lit_null Null (lit_height df)
  end.

(** A value is of a dtype. *)
Definition has_dtype (t : DataType) (v : value) : bool :=
  match t, v with
  | Int32, VInt _ | Int64, VInt _ => true
  | Float64, VFloat _ => true
  | Utf8, VStr _ => true
  | _, _ => false
  end.

(** The non-null cells of column [c] are of the column's dtype, as they
    are in every polars frame. *)
Definition typed_column (df : DataFrame) (c : string) : Prop :=
  forall s v, lookup df c = Some s -> In (Some v) (values s) -> has_dtype (dtype s) v = true.

(** A consolidated table whose turnover for match 7 is null, and a bets
    batch for match 8 without turnover. *)
Definition base7_null : DataFrame := canonical_rows [[("MatchId", VInt 7)]].

Definition delta8_null : DataFrame :=
  [("MatchId", mkSeries Int64 [Some (VInt 8)]);
   ("TurnOver_SGD", mkSeries Float64 [None])].

Definition bets78_null : DataFrame :=
  Eval vm_compute in
    result_or_empty (upsert_bets numeric_cast (IsDataFrame base7_null) delta8_null "MatchId").

(** A bets batch for matches 8 and 9, merged into the table with matches
    7 and 8. *)
Definition bets_delta89 : DataFrame :=
  [("MatchId", mkSeries Int64 [Some (VInt 8); Some (VInt 9)]);
   ("TurnOver_SGD", mkSeries Float64 [Some (F 50); Some (F 60)])].

Definition bets789 : DataFrame :=
  Eval vm_compute in
    result_or_empty (upsert_bets numeric_cast (IsDataFrame base78) bets_delta89 "MatchId").

(** * The application: one S3 object at a time ([src/app.py]) *)

(** What a Python call gives: a value, or an exception. The exceptions of
    the application are those of the merges and of polars ([Raised]), the
    built-in ones of indexing and attribute access, and the [ClientError]
    of boto3. *)
Inductive exception :=
| IndexError
| KeyError
| TypeError
| AttributeError
| ClientError
| Raised (e : error).

Inductive outcome (A : Type) :=
| Returns (a : A)
| Raises (e : exception).
Arguments Returns {A} a.
Arguments Raises {A} e.

(** A polars [LazyFrame] is what collecting it gives: the frame, or the
    exception [collect] raises. *)
Definition LazyFrame := outcome DataFrame.

(** The object [HEAD_TO_HEAD_KEY] of the data bucket: absent
    ([head_object] answers 404), out of reach ([head_object] fails
    otherwise), or there, with what collecting its scan gives. *)
Inductive s3_object :=
| NoSuchKey
| HeadFails
| Stored (content : LazyFrame).

(** The dictionaries [process_record] returns. *)
Inductive response :=
| Status (statusCode : Z) (body : string)
| Processed (source target : string).

(** [s.split(sep)] for a separator of one character: the pieces between
    the occurrences of [sep], empty pieces included. *)
Fixpoint split (sep : ascii) (s : string) : list string :=
  match s with
  | EmptyString => [EmptyString]
  | String c rest =>
      if Ascii.eqb c sep then EmptyString :: split sep rest
      else match split sep rest with
           | h :: t => String c h :: t
           | [] => [String c EmptyString]
           end
  end.

Section App.

(** The environment variable [DATA_BUCKET]. *)
Variable DATA_BUCKET : string.

(** [urllib.parse.unquote_plus(key, encoding="utf-8")]. *)
Variable unquote_plus : string -> string.

(** The three builders of [utils/create_tables.py] on an S3 object: the
    lazy frame of its new rows. *)
Variable create_head_to_head_bets_lazy : string -> string -> LazyFrame.
Variable create_head_to_head_odds_lazy : string -> string -> LazyFrame.
Variable create_head_to_head_match_lazy : string -> string -> LazyFrame.

Variable cast_value : DataType -> DataType -> value -> option value.
Variable set_iter : list string -> list string.
Variable group_order : list cell -> list cell.

Definition HEAD_TO_HEAD_KEY : string := "bd_bets/head_to_head/head_to_head.parquet".
Definition HEAD_TO_HEAD_S3_URI : string :=
  ("s3://" ++ DATA_BUCKET ++ "/" ++ HEAD_TO_HEAD_KEY)%string.

(** [s3_object_exists(DATA_BUCKET, HEAD_TO_HEAD_KEY)]. *)
Definition s3_object_exists (st : s3_object) : outcome bool :=
  match st with
  | NoSuchKey => Returns false
  | HeadFails => Raises ClientError
  | Stored _ => Returns true
  end.

(** [pl.scan_parquet(HEAD_TO_HEAD_S3_URI)]. *)
Definition scan_parquet (st : s3_object) : LazyFrame :=
  match st with
  | Stored content => content
  | _ => Raises ClientError
  end.

Definition load_base_lazyframe (st : s3_object) : outcome LazyFrame :=
  match s3_object_exists st with
  | Raises e => Raises e
  | Returns true => Returns (scan_parquet st)
  | Returns false => Returns (Returns empty_head_to_head)
  end.

(** [process_record(bucket, key)] on the state [st] of the stored object:
    the response or the exception, and the state it leaves.
    [write_parquet] puts the consolidated table in the place of the
    object. *)
Definition process_record (bucket key : string) (st : s3_object)
  : outcome response * s3_object :=
  let decoded_key := unquote_plus key in
  let origin_s3_uri := ("s3://" ++ bucket ++ "/" ++ decoded_key)%string in
  match load_base_lazyframe st with
  | Raises e => (Raises e, st)
  | Returns base_lf =>
  match nth_error (split "/" decoded_key) 1 with
  | None => (Raises IndexError, st)
  | Some table_name =>
  match (if String.eqb table_name "bets"
         then Some (create_head_to_head_bets_lazy bucket decoded_key)
         else if String.eqb table_name "odds"
         then Some (create_head_to_head_odds_lazy bucket decoded_key)
         else if String.eqb table_name "match_result"
         then Some (create_head_to_head_match_lazy bucket decoded_key)
         else None) with
  | None => (Returns (Status 207 "Not found table to update"), st)
  | Some new_rows_lf =>
  match base_lf with
  | Raises e => (Raises e, st)
  | Returns base_df =>
  match new_rows_lf with
  | Raises e => (Raises e, st)
  | Returns new_rows_df =>
  match (if String.eqb table_name "bets"
         then Some (upsert_bets cast_value (IsDataFrame base_df) new_rows_df "MatchId")
         else if String.eqb table_name "odds"
         then Some (upsert_odds set_iter group_order base_df new_rows_df
                      "MatchId" "ModifiedOn" app_reciente app_antiguo)
         else if String.eqb table_name "match_result"
         then Some (upsert_match cast_value (IsDataFrame base_df) new_rows_df "MatchId")
         else None) with
  | None => (Returns (Status 207 "Not found table to upsert"), st)
  | Some (Err e) => (Raises (Raised e), st)
  | Some (Ok consolidated_df) =>
      (Returns (Processed origin_s3_uri HEAD_TO_HEAD_S3_URI),
       Stored (Returns consolidated_df))
  end end end end end end.

End App.

(** ** The invariant of the stored table *)

(** One row per match: the table conforms to the canonical schema and its
    match ids are non-null and pairwise distinct. *)
Definition one_row_per_match (df : DataFrame) : Prop :=
  conforms head_to_head_schema df /\ distinct_keys (key_cells df "MatchId").

Definition good_state (st : s3_object) : Prop :=
  match st with
  | Stored (Returns df) => one_row_per_match df
  | _ => True
  end.

(** New rows with one row per match, the match id at its canonical
    dtype. *)
Definition good_rows (lf : LazyFrame) : Prop :=
  match lf with
  | Returns df =>
      (exists s, lookup df "MatchId" = Some s /\ dtype s = Int64) /\
      distinct_keys (key_cells df "MatchId")
  | Raises _ => True
  end.

(** * The Lambda handler ([lambda_handler] of [src/app.py]) *)

(** A value [json.loads] returns; the keys of an object are distinct. *)
Unset Elimination Schemes.
Inductive json :=
| JNull
| JBool (b : bool)
| JInt (z : Z)
| JFloat (f : f64)
| JStr (s : string)
| JArr (l : list json)
| JObj (o : list (string * json)).
Set Elimination Schemes.

(** [v.get(k, default)]: only a dict has [get]. *)
Definition py_get (v : json) (k : string) (default : json) : outcome json :=
  match v with
  | JObj o => Returns (match lookup o k with Some x => x | None => default end)
  | _ => Raises AttributeError
  end.

(** The truth value of [v], as [not v] and [v or ...] test it. *)
Definition truthy (v : json) : bool :=
  match v with
  | JNull => false
  | JBool b => b
  | JInt z => negb (z =? 0)
  | JFloat (S754_zero _) => false
  | JFloat _ => true
  | JStr s => negb (String.eqb s "")
  | JArr l => negb (is_nil l)
  | JObj o => negb (is_nil o)
  end.

(** [v[0]]. *)
Definition py_first (v : json) : outcome json :=
  match v with
  | JArr (x :: _) => Returns x
  | JArr [] => Raises IndexError
  | JStr (String c _) => Returns (JStr (String c EmptyString))
  | JStr EmptyString => Raises IndexError
  | JObj _ => Raises KeyError
  | _ => Raises TypeError
  end.

Definition obind {A B} (r : outcome A) (f : A -> outcome B) : outcome B :=
  match r with
  | Returns a => f a
  | Raises e => Raises e
  end.

Notation "x <~ r ;; k" := (obind r (fun x => k))
  (at level 61, r at next level, right associativity).

(** The dictionary [_extract_s3_from_sqs] returns. *)
Record s3_info := mk_s3_info {
  s3_bucket : json;
  s3_key : json;
  eventTime : json;
  eventName : json
}.

Definition _extract_s3_from_sqs (event : json) : outcome s3_info :=
  s3_data <~ py_get event "s3" (JObj []) ;;
  bucket_dict <~ py_get s3_data "bucket" (JObj []) ;;
  bucket <~ py_get bucket_dict "name" JNull ;;
  obj0 <~ py_get s3_data "object" (JObj []) ;;
  let obj := if truthy obj0 then obj0 else JObj [] in
  key <~ py_get obj "key" JNull ;;
  event_time <~ py_get event "eventTime" JNull ;;
  event_name <~ py_get event "eventName" JNull ;;
  Returns (mk_s3_info bucket key event_time event_name).

(** A record of the SQS event: its message id and its body, a string. *)
Record sqs_record := mk_sqs_record {
  messageId : string;
  body : string
}.

Section Handler.

Variable DATA_BUCKET : string.
Variable unquote_plus : string -> string.
Variable create_head_to_head_bets_lazy : string -> string -> LazyFrame.
Variable create_head_to_head_odds_lazy : string -> string -> LazyFrame.
Variable create_head_to_head_match_lazy : string -> string -> LazyFrame.
Variable cast_value : DataType -> DataType -> value -> option value.
Variable set_iter : list string -> list string.
Variable group_order : list cell -> list cell.

(** [json.loads(body)]; [None] when it raises. *)
Variable json_loads : string -> option json.

(** [f"{v}"] for a value that is no string. *)
Variable py_format : json -> string.

(** The call [process_record(bucket, key)] on two values of the message:
    [unquote_plus] raises on a key that is no string; the bucket is only
    formatted into paths. *)
Definition call_process_record (bucket key : json) (st : s3_object)
  : outcome response * s3_object :=
  match key with
  | JStr k =>
      process_record DATA_BUCKET unquote_plus
        create_head_to_head_bets_lazy create_head_to_head_odds_lazy
        create_head_to_head_match_lazy cast_value set_iter group_order
        (match bucket with JStr b => b | v => py_format v end) k st
  | _ => (Raises AttributeError, st)
  end.

(** The loop of [lambda_handler] over the records that remain, with the
    failures collected so far. *)
Fixpoint handle_records (records : list sqs_record) (batch_item_failures : list string)
    (st : s3_object) : outcome (list string) * s3_object :=
  match records with
  | [] => (Returns batch_item_failures, st)
  | record :: rest =>
      let message_id := messageId record in
      match json_loads (body record) with
      | None => handle_records rest (batch_item_failures ++ [message_id]) st
      | Some s3_event =>
      match py_get s3_event "Records" (JArr []) with
      | Raises e => (Raises e, st)
      | Returns s3_records =>
      if negb (truthy s3_records) then handle_records rest batch_item_failures st else
      match py_first s3_records with
      | Raises e => (Raises e, st)
      | Returns s3_record =>
      match _extract_s3_from_sqs s3_record with
      | Raises e => (Raises e, st)
      | Returns info =>
      if negb (truthy (s3_bucket info)) || negb (truthy (s3_key info))
      then handle_records rest (batch_item_failures ++ [message_id]) st
      else
        match call_process_record (s3_bucket info) (s3_key info) st with
        | (Returns _, st') => handle_records rest batch_item_failures st'
        | (Raises _, st') => handle_records rest (batch_item_failures ++ [message_id]) st'
        end
      end end end end
  end.

(** [lambda_handler(event, context)] on the records of the event: the
    item identifiers of [batchItemFailures], or the exception that ends
    the invocation, and the state of the stored table. *)
Definition lambda_handler (event : list sqs_record) (st : s3_object)
  : outcome (list string) * s3_object :=
  handle_records event [] st.

End Handler.

Definition is_dict (v : json) : bool :=
  match v with
  | JObj _ => true
  | _ => false
  end.

(** The entry [k] of the dictionary [o] is missing or satisfies [ok]. *)
Definition entry_ok (ok : json -> bool) (o : list (string * json)) (k : string) : bool :=
  match lookup o k with
  | Some x => ok x
  | None => true
  end.

(** An S3 record whose bucket and key can be looked up: a dictionary in
    which [s3], when it is there, is a dictionary whose [bucket], when it
    is there, is a dictionary and whose [object], when it is there, is a
    dictionary or an empty value. *)
Definition s3_record_ok (v : json) : bool :=
  match v with
  | JObj record =>
      entry_ok (fun s3 =>
                  match s3 with
                  | JObj d =>
                      entry_ok is_dict d "bucket"
                      && entry_ok (fun x => is_dict x || negb (truthy x)) d "object"
                  | _ => false
                  end)
               record "s3"
  | _ => false
  end.

(** A well-shaped message body: a dictionary whose [Records], when it is
    there, is an empty value or a list whose first element is such an S3
    record. *)
Definition well_shaped (s3_event : json) : bool :=
  match s3_event with
  | JObj o =>
      entry_ok (fun rs =>
                  negb (truthy rs)
                  || match rs with
                     | JArr (x :: _) => s3_record_ok x
                     | _ => false
                     end)
               o "Records"
  | _ => false
  end.

(** * The builder of the match rows
      ([create_head_to_head_match_lazy] of [src/utils/create_tables.py]) *)

(** The sports the builders keep. *)
Definition sports : list Z := [1; 2; 5; 8; 9; 10; 15].

(** [pl.col(c).is_in(ints)] on one cell of a column of dtype [t], the
    integers taken at the dtype of the column; a null is in nothing. *)
Definition is_in (t : DataType) (ints : list Z) (c : cell) : bool :=
  match c with
  | None => false
  | Some v =>
      existsb (fun z => value_eqb v (match t with
                                     | Float64 => VFloat (f64_of_Z z)
                                     | _ => VInt z
                                     end))
              ints
  end.

(** The mask [pl.col(c).is_in(ints)] as [filter] reads it: a row stays
    when its cell is in the list. Integers are not looked for among
    strings. *)
Definition is_in_mask (s : Series) (ints : list Z) : result (list bool) :=
  match dtype s with
  | Utf8 => Err InvalidOperationError
  | t => Ok (map (is_in t ints) (values s))
  end.

(** The rows a mask keeps. *)
Definition kept_rows (mask : list bool) : list nat :=
  filter (fun i => nth i mask false) (seq 0 (List.length mask)).

(** [df.filter(mask)]. *)
Definition filter_rows (mask : list bool) (df : DataFrame) : DataFrame :=
  map (fun p => (fst p, take (map Some (kept_rows mask)) (snd p))) df.

(** The aggregation [pl.col(c).sort_by(ts).last()] on the group [rows]:
    ascending, nulls first. *)
Definition agg_last (vals tss : list cell) (rows : list nat) : cell :=
  let v := map (fun i => nth i vals None) rows in
  let t := map (fun i => nth i tss None) rows in
  last (map fst (sort (fun a b => ts_leb false (snd a) (snd b)) (combine v t))) None.

(** The columns the builder selects, with the names it gives them. *)
Definition match_columns : list (string * string) :=
  [("HomeId", "homeId"); ("AwayId", "awayId"); ("MatchId", "matchId");
   ("EventDate", "eventDate"); ("KickOffTime", "kickOffTime");
   ("FinalHomeScore", "finalHomeScore"); ("FinalAwayScore", "finalAwayScore");
   ("HtHomeScore", "htHomeScore"); ("HtAwayScore", "htAwayScore");
   ("LeagueId", "leagueId"); ("SportId", "sportId")].

Section CreateTables.

Variable group_order : list cell -> list cell.

(** [pl.scan_parquet(uri)]: the lazy frame of the object at [uri]. *)
Variable scan : string -> LazyFrame.

(** The pipeline of [create_head_to_head_match_lazy] on the scanned frame
    [match_], collected. *)
Definition create_head_to_head_match (match_ : DataFrame) : result DataFrame :=
  sport <- col match_ "sportId" ;;
  mask <- is_in_mask sport sports ;;
  let filtered := filter_rows mask match_ in
  keys <- col filtered "matchId" ;;
  ts <- col filtered "modifiedOn" ;;
  let groups := group_order (distinct (values keys)) in
  (* pl.all(): every column but the key *)
  let aggs :=
    map (fun p =>
           (fst p,
            Ok (mkSeries (dtype (snd p))
                  (map (fun k => agg_last (values (snd p)) (values ts)
                                   (rows_of k (values keys)))
                       groups))))
        (filter (fun p => negb (String.eqb (fst p) "matchId")) filtered) in
  grouped <- select_exprs (("matchId", Ok (mkSeries (dtype keys) groups)) :: aggs) ;;
  select_exprs (map (fun a => (fst a, col grouped (snd a))) match_columns).

Definition create_head_to_head_match_lazy (bucket key : string) : LazyFrame :=
  match scan ("s3://" ++ bucket ++ "/" ++ key)%string with
  | Raises e => Raises e
  | Returns match_ =>
      match create_head_to_head_match match_ with
      | Ok out => Returns out
      | Err e => Raises (Raised e)
      end
  end.

End CreateTables.

(** The row [sort_by(ts).last()] takes in the group [rows]: the last one
    in the ascending order of the timestamps, nulls first. *)
Definition latest_row (tss : list cell) (rows : list nat) : nat :=
  last (map fst (sort (fun a b => ts_leb false (snd a) (snd b))
                   (combine rows (map (fun i => nth i tss None) rows))))
       0%nat.

(** Row [m] of the scanned frame passes the filter of the match builder. *)
Definition kept_row (match_ : DataFrame) (m : nat) : Prop :=
  (m < List.length (key_cells match_ "sportId"))%nat /\
  is_in (frame_dtype match_ "sportId") sports (cell_at match_ "sportId" m) = true.

(** What the match builder returns: one row per match id among the rows
    it keeps, and each row of the result is one kept row of the scanned
    frame, whole, with the greatest [modifiedOn] of its match. *)
Definition match_builder_spec (match_ out : DataFrame) : Prop :=
  let K := key_cells match_ "matchId" in
  let T := key_cells match_ "modifiedOn" in
  columns out = map fst match_columns /\
  (forall m, kept_row match_ m ->
     exists k, In k (key_cells out "MatchId") /\ group_eqb k (nth m K None) = true) /\
  (forall g g' k k', nth_error (key_cells out "MatchId") g = Some k ->
     nth_error (key_cells out "MatchId") g' = Some k' ->
     group_eqb k k' = true -> g = g') /\
  forall g k, nth_error (key_cells out "MatchId") g = Some k ->
    exists m, kept_row match_ m /\
      group_eqb k (nth m K None) = true /\
      (forall m', kept_row match_ m' -> group_eqb k (nth m' K None) = true ->
         ts_leb false (nth m' T None) (nth m T None) = true) /\
      forall a, In a match_columns -> snd a <> "matchId" ->
        cell_at out (fst a) g = cell_at match_ (snd a) m.

(** A scanned [match_result] object: match 7 twice (the later row second),
    match 8 in a sport the builder drops, match 9 once. *)
Definition match_scan : DataFrame :=
  let ints := fun l => mkSeries Int64 (map (fun z => Some (VInt z)) l) in
  let strs := fun l => mkSeries Utf8 (map (fun s => Some (VStr s)) l) in
  [("matchId", ints [7; 7; 8; 9]);
   ("sportId", ints [1; 1; 3; 2]);
   ("modifiedOn", strs ["t1"; "t2"; "t1"; "t1"]);
   ("homeId", ints [10; 11; 12; 13]);
   ("awayId", ints [20; 21; 22; 23]);
   ("eventDate", strs ["d1"; "d2"; "d3"; "d4"]);
   ("kickOffTime", strs ["k1"; "k2"; "k3"; "k4"]);
   ("finalHomeScore", ints [0; 1; 2; 3]);
   ("finalAwayScore", ints [0; 0; 0; 0]);
   ("htHomeScore", ints [0; 1; 1; 1]);
   ("htAwayScore", ints [0; 0; 0; 0]);
   ("leagueId", ints [5; 5; 6; 6])].

Definition match_rows : DataFrame :=
  Eval vm_compute in
    result_or_empty (create_head_to_head_match first_row_order match_scan).

(** ** The amounts of a match *)










(** * Properties *)

(** ** Names and association lists *)

Lemma mem_In (c : string) (l : list string) : mem c l = true <-> In c l.
Proof.
  unfold mem. rewrite existsb_exists. split.
  - intros [x [Hx He]]. apply String.eqb_eq in He. now subst.
  - intros H. exists c. split; [assumption | apply String.eqb_refl].
Qed.

Lemma mem_false (c : string) (l : list string) : mem c l = false <-> ~ In c l.
Proof.
  rewrite <- mem_In. destruct (mem c l); split; intros; congruence.
Qed.

Lemma nodupb_NoDup (l : list string) : nodupb l = true <-> NoDup l.
Proof.
  induction l as [|c l IH]; simpl.
  - split; [constructor | reflexivity].
  - rewrite andb_true_iff, negb_true_iff, mem_false, IH. split.
    + intros [H1 H2]. now constructor.
    + intros H. inversion H; subst. now split.
Qed.

Lemma is_nil_true {A} (l : list A) : is_nil l = true <-> l = [].
Proof. destruct l; simpl; split; congruence. Qed.

Lemma lookup_In {A} (l : list (string * A)) c a :
  lookup l c = Some a -> In (c, a) l.
Proof.
  induction l as [|[n x] l IH]; simpl; [discriminate|].
  destruct (String.eqb_spec n c).
  - intros [= ->]. subst. now left.
  - intros H. right. now apply IH.
Qed.

Lemma lookup_None {A} (l : list (string * A)) c :
  lookup l c = None <-> ~ In c (map fst l).
Proof.
  induction l as [|[n x] l IH]; simpl.
  - tauto.
  - destruct (String.eqb_spec n c).
    + split; [discriminate | intros H; exfalso; apply H; now left].
    + rewrite IH. tauto.
Qed.

Lemma lookup_Some_In {A} (l : list (string * A)) c :
  In c (map fst l) -> exists a, lookup l c = Some a.
Proof.
  intros H. destruct (lookup l c) eqn:E; [eauto|].
  apply lookup_None in E. contradiction.
Qed.

Lemma lookup_NoDup {A} (l : list (string * A)) c a :
  NoDup (map fst l) -> In (c, a) l -> lookup l c = Some a.
Proof.
  induction l as [|[n x] l IH]; simpl; [tauto|].
  intros Hnd [H | H].
  - inversion H; subst. now rewrite String.eqb_refl.
  - inversion Hnd; subst. destruct (String.eqb_spec n c).
    + subst. exfalso. apply H2. change c with (fst (c, a)). now apply in_map.
    + now apply IH.
Qed.

Lemma lookup_map {A B} (f : A -> B) (l : list (string * A)) c :
  lookup (map (fun p => (fst p, f (snd p))) l) c = option_map f (lookup l c).
Proof.
  induction l as [|[n x] l IH]; simpl; [reflexivity|].
  destruct (String.eqb n c); [reflexivity | apply IH].
Qed.

Lemma lookup_app {A} (l1 l2 : list (string * A)) c :
  lookup (l1 ++ l2) c = match lookup l1 c with Some a => Some a | None => lookup l2 c end.
Proof.
  induction l1 as [|[n x] l1 IH]; simpl; [reflexivity|].
  destruct (String.eqb n c); [reflexivity | apply IH].
Qed.

Lemma lookup_schema (df : DataFrame) c :
  lookup (schema df) c = option_map dtype (lookup df c).
Proof. unfold schema. apply lookup_map. Qed.

Lemma columns_schema (df : DataFrame) : map fst (schema df) = columns df.
Proof. unfold schema, columns. rewrite map_map. reflexivity. Qed.

(** ** The error monad *)

Lemma bind_Ok {A B} (r : result A) (f : A -> result B) b :
  bind r f = Ok b -> exists a, r = Ok a /\ f a = Ok b.
Proof. destruct r; simpl; [eauto | discriminate]. Qed.

Lemma sequence_Ok {A} (l : list (result A)) xs :
  sequence l = Ok xs -> l = map Ok xs.
Proof.
  revert xs. induction l as [|r l IH]; simpl; intros xs H.
  - now inversion H.
  - apply bind_Ok in H as [x [-> H]]. apply bind_Ok in H as [ys [H1 H2]].
    inversion H2; subst. simpl. f_equal. now apply IH.
Qed.

Lemma sequence_map_Ok {A} (xs : list A) : sequence (map Ok xs) = Ok xs.
Proof. induction xs as [|x xs IH]; simpl; [reflexivity | now rewrite IH]. Qed.

Ltac inv_bind H :=
  let x := fresh "x" in
  let E := fresh "E" in
  apply bind_Ok in H as [x [E H]].

(** ** [select] *)

(** What a successful [select_exprs] returns: the names are distinct and
    each output column is the value of its expression. *)
Lemma select_exprs_Ok exprs out :
  select_exprs exprs = Ok out ->
  NoDup (map fst exprs) /\
  exprs = map (fun o => (fst o, Ok (snd o))) out.
Proof.
  unfold select_exprs. destruct (nodupb (map fst exprs)) eqn:Hnd; [|discriminate].
  intros H. split; [now apply nodupb_NoDup|].
  clear Hnd. revert out H. induction exprs as [|[c r] exprs IH]; simpl; intros out H.
  - now inversion H.
  - inv_bind H. inv_bind E. inversion E; subst. clear E.
    inv_bind H. inversion H; subst. simpl. f_equal. now apply IH.
Qed.

Lemma select_exprs_columns exprs out :
  select_exprs exprs = Ok out -> columns out = map fst exprs.
Proof.
  intros H. apply select_exprs_Ok in H as [_ ->].
  unfold columns. rewrite map_map. reflexivity.
Qed.

Lemma select_exprs_lookup exprs out c r :
  select_exprs exprs = Ok out -> In (c, r) exprs ->
  exists s, r = Ok s /\ lookup out c = Some s.
Proof.
  intros H Hin. destruct (select_exprs_Ok _ _ H) as [Hnd Heq].
  subst exprs. rewrite map_map in Hnd. simpl in Hnd.
  apply in_map_iff in Hin as [[n s] [E Hin]].
  simpl in E. inversion E; subst. exists s. split; [reflexivity|].
  now apply lookup_NoDup.
Qed.

Lemma select_Ok df names out :
  select df names = Ok out ->
  NoDup names /\
  out = map (fun c => (c, match lookup df c with
                          | Some s => s
                          | None => mkSeries Null []
                          end)) names /\
  forall c, In c names -> In c (columns df).
Proof.
  unfold select. intros H. apply select_exprs_Ok in H as [Hnd Heq].
  rewrite map_map in Hnd. simpl in Hnd. rewrite map_id in Hnd.
  split; [assumption|]. clear Hnd.
  revert out Heq. induction names as [|c names IH]; simpl; intros out Heq.
  - destruct out; [|discriminate]. split; [reflexivity | tauto].
  - destruct out as [|[n s] out]; [discriminate|]. simpl in Heq.
    inversion Heq; subst. unfold col in H1.
    destruct (lookup df n) as [s'|] eqn:El; [|discriminate].
    inversion H1; subst. destruct (IH out H2) as [-> Hin]. split.
    + reflexivity.
    + intros c [<- | Hc]; [|now apply Hin].
      apply lookup_In in El. unfold columns.
      change n with (fst (n, s)). now apply in_map.
Qed.

Lemma lookup_select df names out c :
  select df names = Ok out ->
  lookup out c = if mem c names then lookup df c else None.
Proof.
  intros H. apply select_Ok in H as [_ [-> Hin]].
  induction names as [|n names IH]; simpl; [reflexivity|].
  rewrite String.eqb_sym.
  destruct (String.eqb_spec c n) as [->|Hne]; simpl.
  - destruct (lookup df n) eqn:E; [reflexivity|].
    apply lookup_None in E. exfalso. apply E. apply Hin. now left.
  - apply IH. intros c' Hc'. apply Hin. now right.
Qed.

(** ** The validator *)

Lemma malos_of_nil sch esquema :
  malos_of sch esquema = [] ->
  forall c t, In (c, t) esquema -> lookup sch c = Some t.
Proof.
  induction esquema as [|[n esp] esquema IH]; simpl; [tauto|].
  destruct (lookup sch n) as [act|] eqn:E; [|discriminate].
  destruct (DataType_eqb act esp) eqn:Et; [|discriminate].
  intros H c t [Hin | Hin].
  - inversion Hin; subst. rewrite E. f_equal.
    destruct act, t; simpl in Et; congruence.
  - now apply IH.
Qed.

Lemma filter_nil {A} (f : A -> bool) (l : list A) :
  filter f l = [] -> forall x, In x l -> f x = false.
Proof.
  induction l as [|a l IH]; simpl; [tauto|].
  destruct (f a) eqn:E; [discriminate|].
  intros H x [<- | Hx]; [assumption | now apply IH].
Qed.

(** What a successful validation established, and the reordering it
    returns. *)
Lemma ordenar_y_validar_Ok df esquema pe out :
  ordenar_y_validar df esquema pe = Ok out ->
  (forall c, In c (map fst esquema) -> In c (columns df)) /\
  (forall c t, In (c, t) esquema -> lookup (schema df) c = Some t) /\
  select df (map fst esquema
             ++ filter (fun c => negb (mem c (map fst esquema))) (columns df)) = Ok out.
Proof.
  unfold ordenar_y_validar.
  destruct (filter _ (map fst esquema)) eqn:Ef; simpl; [|discriminate].
  destruct (malos_of (schema df) esquema) eqn:Em; simpl; [|discriminate].
  destruct (_ && _); [discriminate|].
  intros H. repeat split.
  - intros c Hc. apply (filter_nil _ _ Ef) in Hc.
    apply negb_false_iff in Hc. now apply mem_In.
  - now apply malos_of_nil.
  - assumption.
Qed.

(** Validation keeps every column as it is: only the order changes. *)
Lemma ordenar_y_validar_lookup df esquema pe out c :
  ordenar_y_validar df esquema pe = Ok out -> lookup out c = lookup df c.
Proof.
  intros H. apply ordenar_y_validar_Ok in H as [_ [_ H]].
  rewrite (lookup_select _ _ _ c H).
  destruct (mem c _) eqn:E; [reflexivity|].
  apply mem_false in E. symmetry. apply lookup_None. intros Hc. apply E.
  apply in_or_app. destruct (mem c (map fst esquema)) eqn:E2.
  - left. now apply mem_In.
  - right. apply filter_In. split; [assumption | now rewrite E2].
Qed.

Lemma ordenar_y_validar_cell df esquema pe out c p :
  ordenar_y_validar df esquema pe = Ok out -> cell_at out c p = cell_at df c p.
Proof.
  intros H. unfold cell_at. now rewrite (ordenar_y_validar_lookup _ _ _ _ c H).
Qed.

Lemma ordenar_y_validar_conforms df esquema pe out :
  ordenar_y_validar df esquema pe = Ok out -> conforms esquema out.
Proof.
  intros H. apply ordenar_y_validar_Ok in H as [_ [Hty H]].
  apply select_Ok in H as [_ [-> _]].
  set (pick := fun c => match lookup df c with Some s => s | None => mkSeries Null [] end).
  exists (map (fun c => (c, dtype (pick c)))
              (filter (fun c => negb (mem c (map fst esquema))) (columns df))).
  split.
  - unfold schema. rewrite map_map, map_app. simpl. f_equal.
    rewrite map_map.
    assert (Hall : forall c t, In (c, t) esquema -> dtype (pick c) = t).
    { intros c t Hin. apply Hty in Hin. rewrite lookup_schema in Hin.
      unfold pick. destruct (lookup df c); simpl in Hin; congruence. }
    clear Hty. induction esquema as [|[n t] esquema IH]; simpl; [reflexivity|].
    f_equal.
    + f_equal. apply Hall. now left.
    + apply IH. intros c t' Hin. apply Hall. now right.
  - intros c Hc. rewrite map_map in Hc. simpl in Hc. rewrite map_id in Hc.
    apply filter_In in Hc as [_ Hc]. apply negb_true_iff in Hc.
    now apply mem_false.
Qed.

(** C9. A table that lacks a column of the schema is rejected with the
    missing-columns error, which lists exactly the absent columns; no
    table is returned. *)
Theorem ordenar_y_validar_missing_columns
    (df : DataFrame) (esquema : Schema) (permitir_extras : bool) :
  (exists c, In c (map fst esquema) /\ ~ In c (columns df)) ->
  exists faltan,
    ordenar_y_validar df esquema permitir_extras = Err (MissingColumns faltan) /\
    faltan <> [] /\
    forall c, In c faltan <-> In c (map fst esquema) /\ ~ In c (columns df).
Proof.
  intros [c0 [Hin Hnot]].
  exists (filter (fun c => negb (mem c (columns df))) (map fst esquema)).
  assert (Hspec : forall c,
             In c (filter (fun c => negb (mem c (columns df))) (map fst esquema))
             <-> In c (map fst esquema) /\ ~ In c (columns df)).
  { intros c. rewrite filter_In, negb_true_iff, mem_false. tauto. }
  assert (Hne : filter (fun c => negb (mem c (columns df))) (map fst esquema) <> []).
  { intros E. assert (H0 : In c0 []) by (rewrite <- E; apply Hspec; tauto). inversion H0. }
  repeat split; try apply Hspec; try assumption.
  unfold ordenar_y_validar.
  destruct (filter _ (map fst esquema)); [congruence | reflexivity].
Qed.

Lemma ordenar_y_validar_missing_columns_witness :
  exists faltan,
    ordenar_y_validar [("MatchId", mkSeries Int64 [Some (VInt 1)])]
      head_to_head_schema true = Err (MissingColumns faltan) /\
    faltan <> [] /\
    forall c, In c faltan <->
              In c (map fst head_to_head_schema) /\
              ~ In c (columns [("MatchId", mkSeries Int64 [Some (VInt 1)])]).
Proof.
  apply ordenar_y_validar_missing_columns.
  exists "BetType". split; [vm_compute; tauto |].
  vm_compute. intros [H | H]; [discriminate | exact H].
Defined.

(** ** The schema of the merged tables *)

Section MergeConforms.

Variable cast_value : DataType -> DataType -> value -> option value.

Lemma upsert_match_conforms base delta key out :
  upsert_match cast_value base delta key = Ok out -> conforms head_to_head_schema out.
Proof.
  intros H. unfold upsert_match in H.
  inv_bind H. eapply ordenar_y_validar_conforms; eassumption.
Qed.

Lemma upsert_bets_conforms base delta key out :
  upsert_bets cast_value base delta key = Ok out -> conforms head_to_head_schema out.
Proof.
  intros H. unfold upsert_bets in H.
  inv_bind H. destruct x as [[b ov] d]. inv_bind H. inv_bind H.
  eapply ordenar_y_validar_conforms; eassumption.
Qed.

End MergeConforms.

Lemma upsert_odds_conforms set_iter group_order df_base df_delta pk ts_col reciente antiguo out :
  upsert_odds set_iter group_order df_base df_delta pk ts_col reciente antiguo = Ok out ->
  conforms head_to_head_schema out.
Proof.
  intros H. unfold upsert_odds in H.
  destruct (negb (mem pk _)); [discriminate|].
  destruct (negb (mem ts_col _)); [discriminate|].
  do 6 inv_bind H.
  eapply ordenar_y_validar_conforms; eassumption.
Qed.

(** C4. Every table a merge returns has the canonical columns first, in
    the canonical order and with the declared dtypes, and after them only
    columns the canonical schema does not name. *)
Theorem merge_output_conforms :
  (forall cast_value base delta key out,
      upsert_match cast_value base delta key = Ok out ->
      conforms head_to_head_schema out) /\
  (forall cast_value base delta key out,
      upsert_bets cast_value base delta key = Ok out ->
      conforms head_to_head_schema out) /\
  (forall set_iter group_order df_base df_delta pk ts_col reciente antiguo out,
      upsert_odds set_iter group_order df_base df_delta pk ts_col reciente antiguo = Ok out ->
      conforms head_to_head_schema out).
Proof.
  split; [|split].
  - apply upsert_match_conforms.
  - apply upsert_bets_conforms.
  - apply upsert_odds_conforms.
Qed.

(** ** [with_columns] *)

Lemma DataType_eqb_eq a b : DataType_eqb a b = true <-> a = b.
Proof. destruct a, b; simpl; split; congruence. Qed.

Lemma DataType_eqb_refl a : DataType_eqb a a = true.
Proof. now apply DataType_eqb_eq. Qed.

Lemma lookup_replace_column df c s c' :
  lookup (replace_column df c s) c' = if String.eqb c c' then Some s else lookup df c'.
Proof.
  induction df as [|[n s0] df IH]; simpl.
  - reflexivity.
  - destruct (String.eqb_spec n c) as [->|Hne]; simpl.
    + destruct (String.eqb c c'); reflexivity.
    + rewrite IH. destruct (String.eqb_spec n c') as [->|Hne'].
      * destruct (String.eqb_spec c c'); [congruence | reflexivity].
      * reflexivity.
Qed.

Lemma columns_replace_column df c s :
  In c (columns df) -> columns (replace_column df c s) = columns df.
Proof.
  induction df as [|[n s0] df IH]; simpl; [tauto|].
  destruct (String.eqb_spec n c) as [->|Hne]; simpl; [reflexivity|].
  intros [H | H]; [congruence|]. f_equal. now apply IH.
Qed.

Lemma replace_column_absent df c s :
  ~ In c (columns df) -> replace_column df c s = df ++ [(c, s)].
Proof.
  induction df as [|[n s0] df IH]; simpl; [reflexivity|].
  intros H. destruct (String.eqb_spec n c) as [->|Hne]; [tauto|].
  f_equal. apply IH. tauto.
Qed.

Lemma lookup_with_columns df news c :
  NoDup (map fst news) ->
  lookup (with_columns df news) c
  = match lookup news c with Some s => Some s | None => lookup df c end.
Proof.
  unfold with_columns. revert df.
  induction news as [|[n s] news IH]; simpl; intros df Hnd; [reflexivity|].
  inversion Hnd; subst. rewrite IH by assumption.
  rewrite lookup_replace_column.
  destruct (String.eqb_spec n c) as [->|Hne].
  - destruct (lookup news c) eqn:E; [|reflexivity].
    apply lookup_In in E. exfalso. apply H1.
    change c with (fst (c, s0)). now apply in_map.
  - reflexivity.
Qed.

Lemma columns_with_columns df news :
  (forall c, In c (map fst news) -> In c (columns df)) ->
  columns (with_columns df news) = columns df.
Proof.
  unfold with_columns. revert df.
  induction news as [|[n s] news IH]; simpl; intros df H; [reflexivity|].
  rewrite IH.
  - apply columns_replace_column. apply H. now left.
  - intros c Hc. rewrite columns_replace_column by (apply H; now left).
    apply H. now right.
Qed.

Lemma with_columns_exprs_Ok df exprs out :
  with_columns_exprs df exprs = Ok out ->
  exists news,
    NoDup (map fst news) /\
    exprs = map (fun o => (fst o, Ok (snd o))) news /\
    out = with_columns df news.
Proof.
  unfold with_columns_exprs.
  destruct (nodupb (map fst exprs)) eqn:Hnd; [|discriminate].
  intros H. inv_bind H. inversion H; subst. clear H. exists x.
  assert (Heq : exprs = map (fun o => (fst o, Ok (snd o))) x).
  { clear Hnd. revert x E. induction exprs as [|[c r] exprs IH]; simpl; intros x E.
    - now inversion E.
    - inv_bind E. inv_bind E0. inversion E0; subst. clear E0.
      inv_bind E. inversion E; subst. simpl. f_equal. now apply IH. }
  repeat split; try assumption.
  apply nodupb_NoDup in Hnd. rewrite Heq, map_map in Hnd. exact Hnd.
Qed.

(** ** Casting and coalescing series *)

Section MergeFacts.

Variable cast_value : DataType -> DataType -> value -> option value.

Lemma cast_dtype s t s' : cast cast_value s t = Ok s' -> dtype s' = t.
Proof. unfold cast. intros H. inv_bind H. now inversion H. Qed.

Lemma cast_to_same s : cast_to cast_value s (dtype s) = Ok s.
Proof. unfold cast_to. now rewrite DataType_eqb_refl. Qed.

Lemma supertype_same t : supertype t t = t.
Proof. now destruct t. Qed.

Lemma coalesce_same_dtype a b :
  dtype a = dtype b ->
  coalesce cast_value a b
  = Ok (mkSeries (dtype b) (zip_with coalesce_cell (values a) (values b))).
Proof.
  intros E. unfold coalesce. rewrite E, supertype_same.
  rewrite cast_to_same. unfold cast_to. rewrite E, DataType_eqb_refl.
  reflexivity.
Qed.

End MergeFacts.

(** ** Aligning the dtypes *)

Section AlignFacts.
Variable cast_value : DataType -> DataType -> value -> option value.

Lemma in_overlap delta key base c :
  In c (filter (fun c => mem c (columns delta) && negb (String.eqb c key)) (columns base))
  <-> In c (columns base) /\ In c (columns delta) /\ c <> key.
Proof.
  rewrite filter_In, andb_true_iff, negb_true_iff, mem_In, String.eqb_neq. tauto.
Qed.

(** What [align] returns. *)
Lemma align_Ok base0 delta key base overlap delta' :
  align cast_value base0 delta key = Ok (base, overlap, delta') ->
  In key (columns delta) /\
  In key (columns base) /\
  (In key (columns (_ensure_df_from_schema base0)) -> base = _ensure_df_from_schema base0) /\
  (forall c, c <> key -> lookup base c = lookup (_ensure_df_from_schema base0) c) /\
  overlap = filter (fun c => mem c (columns delta) && negb (String.eqb c key)) (columns base) /\
  columns delta' = columns delta /\
  (forall c d, lookup delta c = Some d ->
     exists d', lookup delta' c = Some d' /\
       match lookup base c with
       | Some b => dtype d' = dtype b /\
                   (dtype d = dtype b -> d' = d) /\
                   (dtype d <> dtype b -> cast cast_value d (dtype b) = Ok d')
       | None => d' = d
       end).
Proof.
  unfold align. set (b0 := _ensure_df_from_schema base0).
  destruct (mem key (columns delta)) eqn:Hkd; cbn [negb]; [|discriminate].
  apply mem_In in Hkd.
  set (b1 := if negb (mem key (columns b0)) then _ else b0).
  set (ov := filter _ (columns b1)).
  set (to_cast := filter _ (key :: ov)).
  intros H. inv_bind H. inversion H; subst base overlap delta'. clear H.
  assert (Hkb : In key (columns b1)).
  { unfold b1. destruct (mem key (columns b0)) eqn:Hm; simpl.
    - now apply mem_In.
    - apply mem_false in Hm. unfold with_columns. simpl.
      rewrite replace_column_absent by assumption.
      unfold columns. rewrite map_app. apply in_or_app. right. now left. }
  assert (Hb1 : In key (columns b0) -> b1 = b0).
  { intros Hin. unfold b1. apply mem_In in Hin. now rewrite Hin. }
  assert (Hb1' : forall c, c <> key -> lookup b1 c = lookup b0 c).
  { intros c Hc. unfold b1. destruct (negb (mem key (columns b0))); [|reflexivity].
    rewrite lookup_with_columns by (simpl; constructor; [tauto | constructor]).
    simpl. destruct (String.eqb_spec key c); [congruence | reflexivity]. }
  assert (Hsub : forall c, In c (key :: ov) -> In c (columns b1) /\ In c (columns delta)).
  { intros c [<- | Hc]; [tauto|]. apply in_overlap in Hc. tauto. }
  assert (Hcast : forall c, In c to_cast <->
             In c (key :: ov) /\
             exists b d, lookup b1 c = Some b /\ lookup delta c = Some d /\ dtype d <> dtype b).
  { intros c. unfold to_cast. rewrite filter_In. split.
    - intros [Hc Hf]. split; [assumption|]. destruct (Hsub c Hc) as [H1 H2].
      apply lookup_Some_In in H1 as [b Hb]. apply lookup_Some_In in H2 as [d Hd].
      exists b, d. repeat split; try assumption.
      rewrite !lookup_schema, Hb, Hd in Hf. simpl in Hf.
      apply negb_true_iff in Hf. intros E'. rewrite E', DataType_eqb_refl in Hf. discriminate.
    - intros [Hc [b [d [Hb [Hd Hne]]]]]. split; [assumption|].
      rewrite !lookup_schema, Hb, Hd. simpl. apply negb_true_iff.
      destruct (DataType_eqb (dtype d) (dtype b)) eqn:E'; [|reflexivity].
      apply DataType_eqb_eq in E'. contradiction. }
  assert (Hbase_in : forall c b d, lookup b1 c = Some b -> lookup delta c = Some d ->
                                   In c (key :: ov)).
  { intros c b d Hb Hd. destruct (String.eqb_spec key c) as [->|Hne]; [now left|].
    right. apply in_overlap. repeat split.
    - apply lookup_In in Hb. change c with (fst (c, b)). now apply in_map.
    - apply lookup_In in Hd. change c with (fst (c, d)). now apply in_map.
    - congruence. }
  repeat split; try assumption.
  - (* columns *)
    destruct (is_nil _) eqn:En in E; [now inversion E|].
    apply with_columns_exprs_Ok in E as [news [Hnd [Heq ->]]].
    apply columns_with_columns. intros c Hc.
    apply (f_equal (map fst)) in Heq. rewrite !map_map in Heq. simpl in Heq.
    rewrite map_id in Heq. change (map (fun o : string * Series => fst o) news) with (map fst news) in Heq.
    rewrite <- Heq in Hc. apply Hcast in Hc as [Hc _]. now apply Hsub.
  - (* series *)
    intros c d Hd.
    destruct (is_nil _) eqn:En in E.
    + inversion E; subst x. exists d. split; [assumption|].
      destruct (lookup b1 c) as [b|] eqn:Hb; [|reflexivity].
      apply is_nil_true in En. apply map_eq_nil in En.
      assert (Hno : ~ In c to_cast) by (rewrite En; intros []).
      assert (Heq : dtype d = dtype b).
      { destruct (DataType_eqb (dtype d) (dtype b)) eqn:Et; [now apply DataType_eqb_eq|].
        exfalso. apply Hno. apply Hcast. split; [eapply Hbase_in; eassumption|].
        exists b, d. repeat split; try assumption. intros Ed. rewrite Ed, DataType_eqb_refl in Et. discriminate. }
      split; [assumption | split; [reflexivity | congruence]].
    + apply with_columns_exprs_Ok in E as [news [Hnd [Heq ->]]].
      rewrite lookup_with_columns by assumption.
      assert (Hnames : map fst news = to_cast).
      { apply (f_equal (map fst)) in Heq. rewrite !map_map in Heq. simpl in Heq.
        rewrite map_id in Heq. symmetry. exact Heq. }
      destruct (lookup news c) as [s|] eqn:Hs.
      * exists s. split; [reflexivity|].
        apply lookup_In in Hs.
        assert (Hin : In (c, @Ok Series s) (map (fun o => (fst o, Ok (snd o))) news)).
        { apply in_map_iff. exists (c, s). split; [reflexivity | assumption]. }
        rewrite <- Heq in Hin. apply in_map_iff in Hin as [c' [Hc' Hin']].
        injection Hc' as -> H1.
        apply Hcast in Hin' as [_ [b [d0 [Hb [Hd0 Hne]]]]].
        unfold col in H1. rewrite Hb, Hd0 in H1. cbn [bind] in H1.
        rewrite Hb. rewrite Hd in Hd0. inversion Hd0; subst d0.
        split; [eapply cast_dtype; eassumption|].
        split; [intros; contradiction | intros _; exact H1].
      * exists d. split; [assumption|].
        destruct (lookup b1 c) as [b|] eqn:Hb; [|reflexivity].
        assert (Hno : ~ In c to_cast).
        { rewrite <- Hnames. now apply lookup_None. }
        assert (Hdt : dtype d = dtype b).
        { destruct (DataType_eqb (dtype d) (dtype b)) eqn:Et; [now apply DataType_eqb_eq|].
          exfalso. apply Hno. apply Hcast. split; [eapply Hbase_in; eassumption|].
          exists b, d. repeat split; try assumption. intros Ed. rewrite Ed, DataType_eqb_refl in Et. discriminate. }
        split; [assumption | split; [reflexivity | congruence]].
Qed.
End AlignFacts.

(** ** The outer join *)

Lemma in_matches k rk j :
  In j (matches k rk) <-> (j < List.length rk)%nat /\ key_match k (nth j rk None) = true.
Proof.
  unfold matches. rewrite filter_In, in_seq. split; intros [H1 H2]; split; auto; lia.
Qed.

Lemma matches_nil k rk :
  matches k rk = [] <->
  forall j, (j < List.length rk)%nat -> key_match k (nth j rk None) = false.
Proof.
  split.
  - intros E j Hj. destruct (key_match k (nth j rk None)) eqn:Hm; [|reflexivity].
    assert (H : In j (matches k rk)) by (apply in_matches; tauto).
    rewrite E in H. inversion H.
  - intros H. destruct (matches k rk) as [|j l] eqn:E; [reflexivity|].
    assert (Hin : In j (matches k rk)) by (rewrite E; now left).
    apply in_matches in Hin as [Hj Hm]. rewrite (H j Hj) in Hm. discriminate.
Qed.

Lemma in_join_left lk rk oi oj :
  In (oi, oj) (join_left lk rk) <->
  exists i, oi = Some i /\ (i < List.length lk)%nat /\
    match oj with
    | Some j => In j (matches (nth i lk None) rk)
    | None => matches (nth i lk None) rk = []
    end.
Proof.
  unfold join_left. rewrite in_flat_map. split.
  - intros [i [Hi Hin]]. apply in_seq in Hi. exists i.
    destruct (matches (nth i lk None) rk) as [|j0 l] eqn:E.
    + destruct Hin as [Hin | []]. inversion Hin; subst. repeat split; auto; lia.
    + apply in_map_iff in Hin as [j [Hj Hin]]. inversion Hj; subst.
      repeat split; auto; lia.
  - intros [i [-> [Hi H]]]. exists i. split; [apply in_seq; lia|].
    destruct oj as [j|].
    + destruct (matches (nth i lk None) rk) eqn:E; [inversion H|].
      apply in_map_iff. exists j. now split.
    + rewrite H. now left.
Qed.

Lemma in_join_right lk rk oi oj :
  In (oi, oj) (join_right lk rk) <->
  oi = None /\ exists j, oj = Some j /\ (j < List.length rk)%nat /\
    forall i, (i < List.length lk)%nat -> key_match (nth i lk None) (nth j rk None) = false.
Proof.
  unfold join_right. rewrite in_map_iff. split.
  - intros [j [Hj Hin]]. inversion Hj; subst. apply filter_In in Hin as [Hs Hf].
    apply in_seq in Hs. split; [reflexivity|]. exists j. repeat split; try lia.
    intros i Hi. apply negb_true_iff in Hf.
    destruct (key_match (nth i lk None) (nth j rk None)) eqn:Hm; [|reflexivity].
    assert (Hex : existsb (fun k => key_match k (nth j rk None)) lk = true).
    { apply existsb_exists. exists (nth i lk None). split; [now apply nth_In | assumption]. }
    congruence.
  - intros [-> [j [-> [Hj H]]]]. exists j. split; [reflexivity|].
    apply filter_In. split; [apply in_seq; lia|].
    apply negb_true_iff. destruct (existsb _ lk) eqn:Hex; [|reflexivity].
    apply existsb_exists in Hex as [k [Hk Hm]].
    apply (In_nth _ _ None) in Hk as [i [Hi Ek]]. subst k.
    cbv beta in Hm. assert (Hf := H i Hi). unfold cell in *. congruence.
Qed.

Lemma rank_eqb_refl a : rank_eqb a a = true.
Proof. destruct a as [a1 [a2 a3]]. unfold rank_eqb. now rewrite !Z.eqb_refl. Qed.

Lemma rank_eqb_eq a b : rank_eqb a b = true <-> a = b.
Proof.
  destruct a as [a1 [a2 a3]], b as [b1 [b2 b3]]. unfold rank_eqb.
  rewrite !andb_true_iff, !Z.eqb_eq. split.
  - intros [[-> ->] ->]. reflexivity.
  - intros [= -> -> ->]. tauto.
Qed.

Lemma value_eqb_refl a : value_eqb a a = true.
Proof.
  destruct a; simpl; [apply Z.eqb_refl | apply rank_eqb_refl | apply String.eqb_refl].
Qed.

Lemma value_eqb_sym a b : value_eqb a b = value_eqb b a.
Proof.
  destruct a, b; simpl; try reflexivity.
  - apply Z.eqb_sym.
  - destruct (rank_eqb (f64_rank f) (f64_rank f0)) eqn:E.
    + apply rank_eqb_eq in E. rewrite E. symmetry. apply rank_eqb_refl.
    + destruct (rank_eqb (f64_rank f0) (f64_rank f)) eqn:E'; [|reflexivity].
      apply rank_eqb_eq in E'. rewrite E', rank_eqb_refl in E. discriminate.
  - apply String.eqb_sym.
Qed.

Lemma value_eqb_trans a b c :
  value_eqb a b = true -> value_eqb b c = true -> value_eqb a c = true.
Proof.
  destruct a, b, c; simpl; try congruence.
  - rewrite !Z.eqb_eq. congruence.
  - rewrite !rank_eqb_eq. congruence.
  - rewrite !String.eqb_eq. congruence.
Qed.

Lemma key_match_Some a b : key_match a b = true -> a <> None /\ b <> None.
Proof. destruct a, b; simpl; try discriminate. split; discriminate. Qed.

Lemma key_match_refl a : a <> None -> key_match a a = true.
Proof. destruct a; [intros _; apply value_eqb_refl | congruence]. Qed.

Lemma key_match_sym a b : key_match a b = key_match b a.
Proof. destruct a, b; simpl; try reflexivity. apply value_eqb_sym. Qed.

Lemma key_match_trans a b c :
  key_match a b = true -> key_match b c = true -> key_match a c = true.
Proof. destruct a, b, c; simpl; try congruence. apply value_eqb_trans. Qed.

(** ** The pairs of the join *)

Lemma NoDup_map_inj {A B} (f : A -> B) (l : list A) :
  (forall x y, f x = f y -> x = y) -> NoDup l -> NoDup (map f l).
Proof.
  intros Hf Hnd. induction Hnd as [|a l Ha Hnd IH]; [constructor|].
  cbn [map]. constructor; [|exact IH].
  intros Hin. apply in_map_iff in Hin as [x [E Hx]]. apply Hf in E. now subst.
Qed.

Lemma NoDup_flat_map {A B} (f : A -> list B) (l : list A) :
  NoDup l -> (forall x, In x l -> NoDup (f x)) ->
  (forall x y b, In x l -> In y l -> In b (f x) -> In b (f y) -> x = y) ->
  NoDup (flat_map f l).
Proof.
  intros Hnd. induction Hnd as [|a l Ha Hnd IH]; intros H1 H2; [constructor|].
  cbn [flat_map]. apply NoDup_app.
  - apply H1. now left.
  - apply IH.
    + intros x Hx. apply H1. now right.
    + intros x y b Hx Hy. apply H2; now right.
  - intros b Hb Hb'. apply in_flat_map in Hb' as [y [Hy Hby]].
    assert (a = y) by (apply (H2 a y b); [now left | now right | assumption..]).
    now subst.
Qed.

Lemma NoDup_matches k rk : NoDup (matches k rk).
Proof. unfold matches. apply NoDup_filter, seq_NoDup. Qed.

Lemma NoDup_probe_pairs lk rk : NoDup (probe_pairs lk rk).
Proof.
  unfold probe_pairs. apply NoDup_app.
  - unfold join_left. apply NoDup_flat_map.
    + apply seq_NoDup.
    + intros i _. destruct (matches (nth i lk None) rk) as [|j l] eqn:E.
      * constructor; [intros [] | constructor].
      * rewrite <- E. apply NoDup_map_inj; [|apply NoDup_matches].
        intros x y [= ->]. reflexivity.
    + intros i i' b _ _ Hb Hb'.
      assert (Hf : forall i0, In b (match matches (nth i0 lk None) rk with
                                     | [] => [(Some i0, None)]
                                     | j :: l => map (fun j0 => (Some i0, Some j0)) (j :: l)
                                     end) -> fst b = Some i0).
      { intros i0. destruct (matches (nth i0 lk None) rk).
        - now intros [<- | []].
        - intros H. apply in_map_iff in H as [j0 [<- _]]. reflexivity. }
      apply Hf in Hb, Hb'. congruence.
  - unfold join_right. apply NoDup_map_inj; [now intros x y [= ->]|].
    apply NoDup_filter, seq_NoDup.
  - intros [oi oj] Hl Hr. apply in_join_left in Hl as [i [-> _]].
    apply in_join_right in Hr as [Hr _]. discriminate.
Qed.

(** The pairs of the probe are those of a full outer join. *)
Lemma probe_pairs_spec lk rk : full_outer_join lk rk (probe_pairs lk rk).
Proof.
  unfold full_outer_join, probe_pairs. split; [|split; [|split; [|split]]].
  - intros i j. rewrite in_app_iff, in_join_left, in_join_right. split.
    + intros [[i' [E [Hi H]]] | [E _]]; [|discriminate].
      inversion E; subst. apply in_matches in H. tauto.
    + intros [Hi [Hj Hm]]. left. exists i. repeat split; auto.
      apply in_matches. tauto.
  - intros i. rewrite in_app_iff, in_join_left, in_join_right. split.
    + intros [[i' [E [Hi H]]] | [E _]]; [|discriminate].
      inversion E; subst. split; [assumption | now apply matches_nil].
    + intros [Hi H]. left. exists i. repeat split; auto. now apply matches_nil.
  - intros j. rewrite in_app_iff, in_join_left, in_join_right. split.
    + intros [[i' [E _]] | [_ [j' [E [Hj H]]]]]; [discriminate|].
      inversion E; subst. tauto.
    + intros [Hj H]. right. split; [reflexivity|]. exists j. tauto.
  - rewrite in_app_iff, in_join_left, in_join_right.
    intros [[i' [E _]] | [_ [j' [E _]]]]; discriminate.
  - apply NoDup_probe_pairs.
Qed.

Lemma in_map_swap {A B} (a : A) (b : B) (l : list (B * A)) :
  In (a, b) (map swap l) <-> In (b, a) l.
Proof.
  rewrite in_map_iff. split.
  - intros [[x y] [[= <- <-] H]]. exact H.
  - intros H. exists (b, a). now split.
Qed.

(** A full outer join read from the other side. *)
Lemma full_outer_join_swap lk rk pairs :
  full_outer_join rk lk pairs -> full_outer_join lk rk (map swap pairs).
Proof.
  intros [H1 [H2 [H3 [H4 H5]]]]. split; [|split; [|split; [|split]]].
  - intros i j. rewrite in_map_swap, H1, key_match_sym. tauto.
  - intros i. rewrite in_map_swap, H3. split; intros [Hi H]; (split; [exact Hi|]);
      intros j Hj; rewrite key_match_sym; now apply H.
  - intros j. rewrite in_map_swap, H2. split; intros [Hj H]; (split; [exact Hj|]);
      intros i Hi; rewrite key_match_sym; now apply H.
  - now rewrite in_map_swap.
  - apply NoDup_map_inj; [|exact H5]. intros [a b] [c d] [= -> ->]. reflexivity.
Qed.

(** The pairs of the model are those of a full outer join. *)
Lemma outer_pairs_spec lk rk : full_outer_join lk rk (outer_pairs lk rk).
Proof.
  unfold outer_pairs. destruct (_ <=? _)%nat.
  - apply full_outer_join_swap, probe_pairs_spec.
  - apply probe_pairs_spec.
Qed.

(** Every left row and every right row is in the join. *)
Lemma outer_pairs_left_total lk rk i :
  (i < List.length lk)%nat -> In (Some i) (map fst (outer_pairs lk rk)).
Proof.
  intros Hi. destruct (outer_pairs_spec lk rk) as [H1 [H2 _]].
  destruct (matches (nth i lk None) rk) as [|j l] eqn:E.
  - change (Some i) with (fst (Some i, @None nat)). apply in_map.
    apply H2. split; [assumption | now apply matches_nil].
  - assert (Hin : In j (matches (nth i lk None) rk)) by (rewrite E; now left).
    apply in_matches in Hin as [Hj Hm].
    change (Some i) with (fst (Some i, Some j)). apply in_map.
    apply H1. tauto.
Qed.

Lemma outer_pairs_right_total lk rk j :
  (j < List.length rk)%nat -> In (Some j) (map snd (outer_pairs lk rk)).
Proof.
  intros Hj. destruct (outer_pairs_spec lk rk) as [H1 [_ [H3 _]]].
  destruct (existsb (fun k => key_match k (nth j rk None)) lk) eqn:Hex.
  - apply existsb_exists in Hex as [k [Hk Hm]].
    apply (In_nth _ _ None) in Hk as [i [Hi Ek]]. subst k.
    change (Some j) with (snd (Some i, Some j)). apply in_map. apply H1. tauto.
  - change (Some j) with (snd (@None nat, Some j)). apply in_map. apply H3.
    split; [assumption|]. intros i Hi.
    destruct (key_match (nth i lk None) (nth j rk None)) eqn:Hm; [|reflexivity].
    assert (Hex' : existsb (fun k => key_match k (nth j rk None)) lk = true).
    { apply existsb_exists. exists (nth i lk None). split; [now apply nth_In | assumption]. }
    congruence.
Qed.

Lemma lookup_map_named {A B} (g : string -> A -> B) (l : list (string * A)) c :
  lookup (map (fun p => (fst p, g (fst p) (snd p))) l) c = option_map (g c) (lookup l c).
Proof.
  induction l as [|[n x] l IH]; simpl; [reflexivity|].
  destruct (String.eqb_spec n c) as [->|Hne]; [reflexivity | apply IH].
Qed.

Lemma zip_with_map {A B C D} (f : B -> C -> D) (g : A -> B) (h : A -> C) (l : list A) :
  zip_with f (map g l) (map h l) = map (fun x => f (g x) (h x)) l.
Proof.
  unfold zip_with. induction l as [|x l IH]; simpl; [reflexivity | now rewrite IH].
Qed.

Lemma nth_map_cell {A} (F : A -> cell) (l : list A) p x :
  nth_error l p = Some x -> nth p (map F l) None = F x.
Proof.
  revert p. induction l as [|a l IH]; intros [|p]; simpl; try discriminate.
  - now intros [= ->].
  - apply IH.
Qed.

Lemma take_values idx s :
  values (take idx s) = map (take_cell (values s)) idx.
Proof. reflexivity. Qed.

(** What a successful join returns. *)
Lemma join_Ok left right on suffix ck out :
  join left right on suffix ck = Ok out ->
  exists lk rk,
    lookup left on = Some lk /\ lookup right on = Some rk /\ dtype lk = dtype rk /\
    NoDup (columns out) /\
    let pairs := outer_pairs (values lk) (values rk) in
    (forall c s, lookup left c = Some s ->
       lookup out c
       = Some (if ck && String.eqb c on
               then mkSeries (dtype lk)
                      (map (fun pr => coalesce_cell (take_cell (values lk) (fst pr))
                                                    (take_cell (values rk) (snd pr))) pairs)
               else mkSeries (dtype s) (map (fun pr => take_cell (values s) (fst pr)) pairs))) /\
    (forall c s, In (c, s) right -> (ck = true -> c <> on) ->
       lookup out (if mem c (columns left) then (c ++ suffix)%string else c)
       = Some (mkSeries (dtype s) (map (fun pr => take_cell (values s) (snd pr)) pairs))).
Proof.
  unfold join. intros H. inv_bind H. inv_bind H.
  unfold col in E, E0.
  destruct (lookup left on) as [lk|] eqn:Elk; [|discriminate].
  destruct (lookup right on) as [rk|] eqn:Erk; [|discriminate].
  inversion E; inversion E0; subst x x0. clear E E0.
  destruct (DataType_eqb (dtype lk) (dtype rk)) eqn:Et; [|discriminate].
  cbn [negb] in H.
  destruct (nodupb _) eqn:Hnd in H; [|discriminate].
  injection H as Hout. subst out.
  exists lk, rk. apply DataType_eqb_eq in Et. apply nodupb_NoDup in Hnd.
  split; [reflexivity|]. split; [reflexivity|]. split; [assumption|].
  split; [assumption|].
  set (pairs := outer_pairs (values lk) (values rk)) in *. split.
  - intros c s Hs. rewrite lookup_app.
    rewrite (lookup_map_named
               (fun n s0 => if ck && String.eqb n on
                            then mkSeries (dtype lk)
                                   (zip_with coalesce_cell
                                      (values (take (map fst pairs) s0))
                                      (values (take (map snd pairs) rk)))
                            else take (map fst pairs) s0)).
    rewrite Hs. simpl. f_equal.
    destruct (ck && String.eqb c on) eqn:Eb.
    + f_equal. apply andb_true_iff in Eb as [_ Eb]. apply String.eqb_eq in Eb.
      subst c. rewrite Hs in Elk. inversion Elk; subst s.
      rewrite !map_map. apply zip_with_map.
    + unfold take. f_equal. now rewrite map_map.
  - intros c s Hin Hck.
    apply lookup_NoDup; [assumption|].
    apply in_or_app. right. apply in_map_iff. exists (c, s). split.
    + simpl. f_equal. unfold take. f_equal. now rewrite map_map.
    + destruct ck; [|assumption]. apply filter_In. split; [assumption|].
      simpl. apply negb_true_iff. apply String.eqb_neq. now apply Hck.
Qed.

Lemma select_exprs_map exprs out :
  select_exprs exprs = Ok out ->
  out = map (fun e => (fst e, match snd e with
                              | Ok s => s
                              | Err _ => mkSeries Null []
                              end)) exprs.
Proof.
  intros H. apply select_exprs_Ok in H as [_ ->]. rewrite map_map. simpl.
  induction out as [|[n s] out IH]; simpl; [reflexivity | now rewrite <- IH].
Qed.

Lemma select_exprs_all_Ok exprs out c r :
  select_exprs exprs = Ok out -> In (c, r) exprs -> exists s, r = Ok s.
Proof.
  intros H Hin. destruct (select_exprs_lookup _ _ _ _ H Hin) as [s [Hs _]]. eauto.
Qed.

Lemma coalesce_cell_None_l x : coalesce_cell None x = x.
Proof. reflexivity. Qed.

Lemma coalesce_cell_None_r x : coalesce_cell x None = x.
Proof. now destruct x. Qed.

Lemma row_cell_lookup df c s oi :
  lookup df c = Some s -> row_cell df c oi = take_cell (values s) oi.
Proof. intros H. unfold row_cell, cell_at. rewrite H. now destruct oi. Qed.

Lemma row_cell_absent df c oi : lookup df c = None -> row_cell df c oi = None.
Proof. intros H. unfold row_cell, cell_at. rewrite H. now destruct oi. Qed.

Lemma In_columns_lookup (df : DataFrame) c :
  In c (columns df) <-> exists s, lookup df c = Some s.
Proof.
  split.
  - apply lookup_Some_In.
  - intros [s H]. apply lookup_In in H. unfold columns.
    change c with (fst (c, s)). now apply in_map.
Qed.

Section UpsertFacts.

Variable cast_value : DataType -> DataType -> value -> option value.

(** The table [upsert] builds, column by column. *)
Lemma upsert_Ok base0 delta key out :
  upsert cast_value base0 delta key = Ok out ->
  exists base overlap delta',
    align cast_value base0 delta key = Ok (base, overlap, delta') /\
    NoDup (columns out) /\
    out = map (fun c =>
                 (c, mkSeries (match lookup base c with
                               | Some s => dtype s
                               | None => frame_dtype delta' c
                               end)
                       (map (replaced_cell base delta' key c)
                          (outer_pairs (key_cells base key) (key_cells delta' key)))))
              (filter (fun c => negb (mem c overlap)) (columns base)
               ++ overlap
               ++ filter (fun c => negb (mem c overlap) && negb (String.eqb c key))
                    (columns delta')).
Proof.
  unfold upsert. intros H. inv_bind H. destruct x as [[base overlap] delta'].
  inv_bind H. rename x into j. rename E0 into Hj.
  exists base, overlap, delta'. split; [assumption|].
  destruct (align_Ok _ _ _ _ _ _ _ E) as [Hkd [Hkb [_ [_ [Hov [Hcols Hser]]]]]].
  destruct (join_Ok _ _ _ _ _ _ Hj) as [lk [rk [Hlk [Hrk [Hdt [Hnd [HL HR]]]]]]].
  assert (Hkeys : key_cells base key = values lk /\ key_cells delta' key = values rk).
  { unfold key_cells. now rewrite Hlk, Hrk. }
  destruct Hkeys as [-> ->].
  set (pairs := outer_pairs (values lk) (values rk)) in *.
  assert (Hdelta' : forall c d', lookup delta' c = Some d' ->
             match lookup base c with
             | Some b => dtype d' = dtype b
             | None => True
             end).
  { intros c d' Hd'.
    assert (Hin : In c (columns delta)).
    { rewrite <- Hcols. apply In_columns_lookup. eauto. }
    apply In_columns_lookup in Hin as [d Hd].
    destruct (Hser c d Hd) as [d2 [Hd2 Hm]]. rewrite Hd' in Hd2. inversion Hd2; subst d2.
    destruct (lookup base c); [tauto | exact I]. }
  assert (Hinov : forall c, In c overlap <->
                            In c (columns base) /\ In c (columns delta') /\ c <> key).
  { intros c. rewrite Hov, Hcols. apply in_overlap. }
  split.
  { rewrite (select_exprs_columns _ _ H). apply select_exprs_Ok in H as [H _]. exact H. }
  rewrite (select_exprs_map _ _ H). rewrite !map_app, !map_map. cbn [fst snd].
  f_equal; [|f_equal].
  - (* the columns of base outside the overlap *)
    apply map_ext_in. intros c Hc. apply filter_In in Hc as [Hcb Hco].
    apply negb_true_iff, mem_false in Hco.
    apply In_columns_lookup in Hcb as [s Hs]. unfold col. rewrite (HL c s Hs), Hs.
    f_equal. simpl. unfold replaced_cell.
    destruct (String.eqb_spec c key) as [->|Hne]; simpl.
    + rewrite Hs in Hlk. inversion Hlk; subst s. f_equal.
      apply map_ext. intros pr.
      now rewrite (row_cell_lookup _ _ _ _ Hrk), (row_cell_lookup _ _ _ _ Hs).
    + f_equal. apply map_ext. intros pr.
      rewrite (row_cell_lookup _ _ _ _ Hs), row_cell_absent; [reflexivity|].
      apply lookup_None. intros Hd. apply Hco. apply Hinov.
      repeat split; try assumption. apply In_columns_lookup. eauto.
  - (* the overlap *)
    apply map_ext_in. intros c Hc. apply Hinov in Hc as [Hcb [Hcd Hne]].
    apply In_columns_lookup in Hcb as [s Hs].
    apply In_columns_lookup in Hcd as [d' Hd'].
    assert (HR' := HR c d' (lookup_In _ _ _ Hd') (fun _ => Hne)).
    assert (Hmem : mem c (columns base) = true).
    { apply mem_In. apply In_columns_lookup. eauto. }
    rewrite Hmem in HR'. unfold col. rewrite HR', (HL c s Hs). cbn [bind].
    assert (Eb : String.eqb c key = false) by now apply String.eqb_neq.
    rewrite Eb, andb_false_r.
    assert (Hdd := Hdelta' c d' Hd'). rewrite Hs in Hdd.
    rewrite coalesce_same_dtype by (simpl; assumption).
    rewrite Hs. simpl. f_equal. rewrite zip_with_map. f_equal.
    apply map_ext. intros pr. unfold replaced_cell. rewrite Eb.
    now rewrite (row_cell_lookup _ _ _ _ Hs), (row_cell_lookup _ _ _ _ Hd').
  - (* the columns of delta alone *)
    apply map_ext_in. intros c Hc. apply filter_In in Hc as [Hcd Hf].
    apply andb_true_iff in Hf as [Hco Hne].
    apply negb_true_iff, mem_false in Hco. apply negb_true_iff in Hne.
    assert (Hne' : c <> key) by now apply String.eqb_neq.
    apply In_columns_lookup in Hcd as [d' Hd'].
    assert (Hnb : ~ In c (columns base)).
    { intros Hb. apply Hco. apply Hinov. repeat split; try assumption.
      apply In_columns_lookup. eauto. }
    assert (HR' := HR c d' (lookup_In _ _ _ Hd') (fun _ => Hne')).
    apply mem_false in Hnb. rewrite Hnb in HR'. unfold col. rewrite HR'.
    apply mem_false in Hnb.
    assert (Hbn : lookup base c = None) by now apply lookup_None.
    rewrite Hbn. unfold frame_dtype. rewrite Hd'. f_equal. f_equal.
    apply map_ext. intros pr. unfold replaced_cell. rewrite Hne.
    rewrite (row_cell_lookup _ _ _ _ Hd'), (row_cell_absent _ _ _ Hbn).
    now rewrite coalesce_cell_None_r.
Qed.

End UpsertFacts.

Lemma lookup_map_key {A} (f : string -> A) (l : list string) c :
  lookup (map (fun c => (c, f c)) l) c = if mem c l then Some (f c) else None.
Proof.
  induction l as [|n l IH]; simpl; [reflexivity|].
  rewrite (String.eqb_sym c n).
  destruct (String.eqb_spec n c) as [->|Hne]; [reflexivity | apply IH].
Qed.

Lemma sequence_length {A} (l : list (result A)) xs :
  sequence l = Ok xs -> List.length xs = List.length l.
Proof.
  intros H. apply sequence_Ok in H. subst l. now rewrite length_map.
Qed.

Section ReplaceMerge.

Variable cast_value : DataType -> DataType -> value -> option value.

Lemma cast_length s t s' :
  cast cast_value s t = Ok s' -> List.length (values s') = List.length (values s).
Proof.
  unfold cast. intros H. inv_bind H. inversion H; subst. simpl.
  apply sequence_length in E. now rewrite length_map in E.
Qed.

(** The columns of the merged table are those of base and of delta. *)
Lemma merged_names base overlap (delta : DataFrame) key c :
  In key (columns base) ->
  (forall c, In c overlap <-> In c (columns base) /\ In c (columns delta) /\ c <> key) ->
  In c (filter (fun c => negb (mem c overlap)) (columns base)
        ++ overlap
        ++ filter (fun c => negb (mem c overlap) && negb (String.eqb c key)) (columns delta))
  <-> In c (columns base) \/ In c (columns delta).
Proof.
  intros Hk Hov. rewrite !in_app_iff, !filter_In, andb_true_iff, !negb_true_iff.
  rewrite mem_false, String.eqb_neq, Hov.
  destruct (String.eqb_spec c key) as [->|Hne]; [intuition congruence|].
  destruct (in_dec string_dec c (columns base));
    destruct (in_dec string_dec c (columns delta)); tauto.
Qed.

(** Every column of the table [upsert] builds, cell by cell. *)
Lemma upsert_lookup base0 delta key out :
  upsert cast_value base0 delta key = Ok out ->
  exists base overlap delta',
    align cast_value base0 delta key = Ok (base, overlap, delta') /\
    NoDup (columns out) /\
    (forall c, In c (columns out) <-> In c (columns base) \/ In c (columns delta')) /\
    forall c, In c (columns out) ->
      lookup out c
      = Some (mkSeries (match lookup base c with
                        | Some s => dtype s
                        | None => frame_dtype delta' c
                        end)
                (map (replaced_cell base delta' key c)
                   (outer_pairs (key_cells base key) (key_cells delta' key)))).
Proof.
  intros H. destruct (upsert_Ok _ _ _ _ _ H) as [base [overlap [delta' [Ha [Hnd Hout]]]]].
  exists base, overlap, delta'. split; [assumption|]. split; [assumption|].
  destruct (align_Ok _ _ _ _ _ _ _ Ha) as [Hkd [Hkb [_ [_ [Hov [Hcols _]]]]]].
  assert (Hnames : columns out
                   = filter (fun c => negb (mem c overlap)) (columns base)
                     ++ overlap
                     ++ filter (fun c => negb (mem c overlap) && negb (String.eqb c key))
                          (columns delta')).
  { rewrite Hout at 1. unfold columns at 1. rewrite map_map. simpl. now rewrite map_id. }
  assert (Hin : forall c, In c (columns out) <-> In c (columns base) \/ In c (columns delta')).
  { intros c. rewrite Hnames. apply merged_names; [assumption|].
    intros c'. rewrite Hov, Hcols. apply in_overlap. }
  split; [assumption|].
  intros c Hc. rewrite Hout at 1.
  rewrite (lookup_map_key
             (fun c => mkSeries (match lookup base c with
                                 | Some s => dtype s
                                 | None => frame_dtype delta' c
                                 end)
                         (map (replaced_cell base delta' key c)
                            (outer_pairs (key_cells base key) (key_cells delta' key))))).
  rewrite Hnames in Hc. apply mem_In in Hc. now rewrite Hc.
Qed.

Lemma align_key_length base0 delta key base overlap delta' :
  align cast_value base0 delta key = Ok (base, overlap, delta') ->
  List.length (key_cells delta' key) = List.length (key_cells delta key).
Proof.
  intros Ha.
  destruct (align_Ok _ _ _ _ _ _ _ Ha) as [Hkd [Hkb [_ [_ [_ [_ Hser]]]]]].
  apply In_columns_lookup in Hkd as [d Hd].
  destruct (Hser key d Hd) as [d' [Hd' Hm]].
  apply In_columns_lookup in Hkb as [b Hb]. rewrite Hb in Hm.
  destruct Hm as [_ [Hsame Hcast]].
  unfold key_cells. rewrite Hd, Hd'.
  destruct (DataType_eqb (dtype d) (dtype b)) eqn:Et.
  - apply DataType_eqb_eq in Et. now rewrite (Hsame Et).
  - eapply cast_length. apply Hcast. intros E. rewrite E, DataType_eqb_refl in Et. discriminate.
Qed.

(** *** The cells of the cast delta *)

Lemma cast_cells from to l x :
  map (cast_cell cast_value from to) l = map Ok x ->
  forall j, nth j x None = match nth j l None with
                           | Some v => cast_value from to v
                           | None => None
                           end.
Proof.
  revert x. induction l as [|a l IH]; intros [|y x] H j; try discriminate.
  - now destruct j.
  - cbn [map] in H. injection H as Ha Hl. destruct j as [|j]; cbn [nth].
    + destruct a as [v|]; cbn [cast_cell] in Ha; [|congruence].
      destruct (cast_value from to v); congruence.
    + now apply IH.
Qed.

Lemma cast_cells_convert from to l x j v :
  map (cast_cell cast_value from to) l = map Ok x ->
  nth_error l j = Some (Some v) -> cast_value from to v <> None.
Proof.
  revert x j. induction l as [|a l IH]; intros [|y x] [|j] H Hj; try discriminate.
  - cbn [map] in H. injection H as Ha _. cbn [nth_error] in Hj. injection Hj as ->.
    cbn [cast_cell] in Ha. destruct (cast_value from to v); [discriminate | congruence].
  - cbn [map] in H. injection H as _ Hl. cbn [nth_error] in Hj. now apply (IH x j).
Qed.

Lemma cast_Ok s t s' :
  cast cast_value s t = Ok s' ->
  map (cast_cell cast_value (dtype s) t) (values s) = map Ok (values s').
Proof.
  unfold cast. intros H. inv_bind H. injection H as <-. now apply sequence_Ok.
Qed.

(** The cast delta holds the cells of delta read at base's dtypes. *)
Lemma align_cell base0 delta key base overlap delta' c j :
  align cast_value base0 delta key = Ok (base, overlap, delta') ->
  cell_at delta' c j = delta_cell cast_value base delta c j.
Proof.
  intros Ha. destruct (align_Ok _ _ _ _ _ _ _ Ha) as [_ [_ [_ [_ [_ [Hcols Hser]]]]]].
  unfold cell_at, delta_cell. destruct (lookup delta c) as [d|] eqn:Hd.
  - destruct (Hser c d Hd) as [d' [Hd' Hm]]. rewrite Hd'.
    destruct (lookup base c) as [b|]; [|now subst d'].
    destruct Hm as [_ [Hsame Hcast]].
    destruct (DataType_eqb (dtype d) (dtype b)) eqn:Et.
    + apply DataType_eqb_eq in Et. now rewrite (Hsame Et).
    + apply (cast_cells (dtype d) (dtype b)), cast_Ok, Hcast.
      intros E. rewrite E, DataType_eqb_refl in Et. discriminate.
  - assert (Hn : lookup delta' c = None).
    { apply lookup_None. fold (columns delta'). rewrite Hcols. now apply lookup_None. }
    now rewrite Hn.
Qed.

Lemma align_row_cell base0 delta key base overlap delta' c oj :
  align cast_value base0 delta key = Ok (base, overlap, delta') ->
  row_cell delta' c oj = delta_row_cell cast_value base delta c oj.
Proof.
  intros Ha. destruct oj as [j|]; [|reflexivity]. cbn [row_cell delta_row_cell].
  now apply (align_cell _ _ _ _ _ _ _ _ Ha).
Qed.

Lemma list_by_nth (l : list cell) :
  l = map (fun j => nth j l None) (seq 0 (List.length l)).
Proof.
  induction l as [|a l IH]; [reflexivity|].
  cbn [List.length seq map nth]. f_equal.
  rewrite <- seq_shift, map_map. exact IH.
Qed.

Lemma align_keys base0 delta key base overlap delta' :
  align cast_value base0 delta key = Ok (base, overlap, delta') ->
  key_cells delta' key = delta_keys cast_value base delta key.
Proof.
  intros Ha. unfold delta_keys. rewrite <- (align_key_length _ _ _ _ _ _ Ha).
  rewrite (list_by_nth (key_cells delta' key)) at 1.
  apply map_ext. intros j. rewrite <- (align_cell _ _ _ _ _ _ key j Ha).
  unfold cell_at, key_cells. destruct (lookup delta' key); [reflexivity | now destruct j].
Qed.

Lemma align_converts base0 delta key base overlap delta' :
  align cast_value base0 delta key = Ok (base, overlap, delta') ->
  delta_converts cast_value base delta.
Proof.
  intros Ha c d b j v Hd Hb Hne Hj.
  destruct (align_Ok _ _ _ _ _ _ _ Ha) as [_ [_ [_ [_ [_ [_ Hser]]]]]].
  destruct (Hser c d Hd) as [d' [_ Hm]]. rewrite Hb in Hm. destruct Hm as [_ [_ Hcast]].
  eapply cast_cells_convert; [apply cast_Ok, Hcast, Hne | exact Hj].
Qed.

(** C1. When base and delta both have the key column, the table the
    replace-merge returns is the full outer join of base and delta on the
    key: exactly one row per pair of rows with matching keys and per row
    without match, so every row of both inputs is there; on each row a
    column of both inputs holds delta's cell, converted to base's dtype,
    when it is not null and base's cell otherwise, and a column of one
    input holds that input's cell. *)
Theorem upsert_match_full_outer_join (base delta : DataFrame) (key : string)
    (out : DataFrame) :
  In key (columns base) ->
  In key (columns delta) ->
  upsert_match cast_value (IsDataFrame base) delta key = Ok out ->
  replace_merge_spec cast_value base delta key out.
Proof.
  intros Hkb Hkd H. unfold upsert_match in H. inv_bind H. rename x into o1.
  destruct (upsert_lookup _ _ _ _ E) as [base' [overlap [delta' [Ha [Hnd [Hin Hlk]]]]]].
  destruct (align_Ok _ _ _ _ _ _ _ Ha) as [_ [_ [Hb [_ [Hov [Hcols Hser]]]]]].
  simpl in Hb. specialize (Hb Hkb). subst base'.
  assert (Hout : forall c, lookup out c = lookup o1 c).
  { intros c. eapply ordenar_y_validar_lookup. eassumption. }
  assert (Hcell : forall c p pr,
             In c (columns o1) ->
             nth_error (outer_pairs (key_cells base key) (key_cells delta' key)) p = Some pr ->
             cell_at out c p = replaced_cell base delta' key c pr).
  { intros c p pr Hc Hp. unfold cell_at. rewrite Hout, (Hlk c Hc). simpl.
    now apply nth_map_cell. }
  assert (Hrow : forall c oj,
             row_cell delta' c oj = delta_row_cell cast_value base delta c oj).
  { intros c oj. now apply (align_row_cell _ _ _ _ _ _ c oj Ha). }
  split; [exact (align_converts _ _ _ _ _ _ Ha)|].
  exists (outer_pairs (key_cells base key) (key_cells delta' key)).
  split; [rewrite <- (align_keys _ _ _ _ _ _ Ha); apply outer_pairs_spec|].
  split; [intros i Hi; now apply outer_pairs_left_total|].
  split.
  { intros j Hj. apply outer_pairs_right_total.
    now rewrite (align_key_length _ _ _ _ _ _ Ha). }
  split.
  { intros c. rewrite <- Hcols, <- Hin. rewrite !In_columns_lookup.
    split; intros [s Hs]; exists s; now rewrite ?Hout in *. }
  split.
  { intros c s Hs. rewrite Hout in Hs.
    assert (Hc : In c (columns o1)) by (apply In_columns_lookup; eauto).
    rewrite (Hlk c Hc) in Hs. inversion Hs; subst s. simpl. apply length_map. }
  intros p oi oj Hp. split; [|split; [|split]].
  - rewrite (Hcell key p (oi, oj)); [| apply Hin; now left | assumption].
    unfold replaced_cell. rewrite String.eqb_refl. cbn [fst snd]. now rewrite Hrow.
  - intros c Hne Hcb Hcd.
    rewrite (Hcell c p (oi, oj)); [| apply Hin; now left | assumption].
    unfold replaced_cell. apply String.eqb_neq in Hne. rewrite Hne. cbn [fst snd].
    now rewrite Hrow.
  - intros c Hne Hcb Hcd.
    rewrite (Hcell c p (oi, oj)); [| apply Hin; now left | assumption].
    unfold replaced_cell. apply String.eqb_neq in Hne. rewrite Hne. simpl.
    rewrite row_cell_absent; [reflexivity|].
    apply lookup_None. fold (columns delta'). now rewrite Hcols.
  - intros c Hcb Hcd.
    rewrite (Hcell c p (oi, oj)); [| apply Hin; right; now rewrite Hcols | assumption].
    assert (Hne : c <> key) by (intros ->; contradiction).
    unfold replaced_cell. apply String.eqb_neq in Hne. rewrite Hne. simpl.
    assert (Hbn : lookup base c = None) by now apply lookup_None.
    rewrite (row_cell_absent base c oi Hbn), coalesce_cell_None_r.
    apply In_columns_lookup in Hcd as [d Hd].
    destruct (Hser c d Hd) as [d' [Hd' Hm]]. rewrite Hbn in Hm. subst d'.
    now rewrite (row_cell_lookup _ _ _ _ Hd), (row_cell_lookup _ _ _ _ Hd').
Qed.

End ReplaceMerge.

Lemma upsert_match_full_outer_join_witness :
  In "MatchId" (columns base78f) /\
  In "MatchId" (columns delta89i) /\
  upsert_match numeric_cast (IsDataFrame base78f) delta89i "MatchId" = Ok match789f /\
  replace_merge_spec numeric_cast base78f delta89i "MatchId" match789f /\
  key_cells match789f "MatchId" = [Some (VInt 8); Some (VInt 9); Some (VInt 7)] /\
  (cell_at delta89i "TurnOver_SGD" 0 = Some (VInt 5) /\
   cell_at base78f "TurnOver_SGD" 1 = Some (F 1) /\
   cell_at match789f "TurnOver_SGD" 0 = Some (F 5)) /\
  (cell_at delta89i "HomeId" 0 = None /\
   cell_at base78f "HomeId" 1 = Some (VInt 2) /\
   cell_at match789f "HomeId" 0 = Some (VInt 2)).
Proof.
  assert (H1 : In "MatchId" (columns base78f)) by (now left).
  assert (H2 : In "MatchId" (columns delta89i)) by (now left).
  assert (H3 : upsert_match numeric_cast (IsDataFrame base78f) delta89i "MatchId"
               = Ok match789f) by (vm_compute; reflexivity).
  split; [exact H1|]. split; [exact H2|]. split; [exact H3|].
  split; [exact (upsert_match_full_outer_join numeric_cast base78f delta89i "MatchId"
                   match789f H1 H2 H3)|].
  split; [vm_compute; reflexivity|].
  split; (split; [vm_compute; reflexivity|]; split; vm_compute; reflexivity).
Defined.

(** ** The additive merge *)

Lemma lookup_drop df names c :
  lookup (drop df names) c = if mem c names then None else lookup df c.
Proof.
  unfold drop. induction df as [|[n s] df IH]; simpl.
  - now destruct (mem c names).
  - destruct (mem n names) eqn:Em; simpl.
    + rewrite IH. destruct (String.eqb_spec n c) as [->|Hne]; [now rewrite Em | reflexivity].
    + destruct (String.eqb_spec n c) as [->|Hne]; [now rewrite Em | apply IH].
Qed.

Lemma with_columns_exprs_lookup df exprs out c r :
  with_columns_exprs df exprs = Ok out -> In (c, r) exprs ->
  exists s, r = Ok s /\ lookup out c = Some s.
Proof.
  intros H Hin. apply with_columns_exprs_Ok in H as [news [Hnd [-> ->]]].
  apply in_map_iff in Hin as [[n s] [E Hin]]. simpl in E. inversion E; subst.
  exists s. split; [reflexivity|].
  rewrite lookup_with_columns by assumption.
  now rewrite (lookup_NoDup _ _ _ Hnd Hin).
Qed.

Lemma supertype_Int32 t : t <> Null -> supertype t Int32 = t.
Proof. destruct t; simpl; congruence. Qed.

(** The accumulated cell is the sum polars computes: both operands
    coalesced with the literal 0, then added. *)
Lemma accumulated_cell_add t b d :
  accumulated_cell t b d
  = add_cell t (coalesce_cell b (Some (lit0 t))) (coalesce_cell d (Some (lit0 t))).
Proof. destruct t, b as [[x|x|x]|], d as [[y|y|y]|]; reflexivity. Qed.

Section AdditiveMerge.

Variable cast_value : DataType -> DataType -> value -> option value.

Lemma coalesce_lit0_dtype a s :
  coalesce_lit0 cast_value a = Ok s -> dtype s = supertype (dtype a) Int32.
Proof. unfold coalesce_lit0. intros H. inv_bind H. now inversion H. Qed.

Lemma coalesce_lit0_not_Null a :
  dtype a <> Null ->
  coalesce_lit0 cast_value a
  = Ok (mkSeries (dtype a)
          (map (fun c => coalesce_cell c (Some (lit0 (dtype a)))) (values a))).
Proof.
  intros H. unfold coalesce_lit0. rewrite (supertype_Int32 _ H), cast_to_same.
  reflexivity.
Qed.

Lemma add_dtype a b s : add a b = Ok s -> dtype s = dtype a.
Proof.
  unfold add. destruct (DataType_eqb _ _); [|discriminate]. now intros [= <-].
Qed.

(** The steps of [upsert_bets]. *)
Lemma upsert_bets_Ok base0 delta key out :
  upsert_bets cast_value base0 delta key = Ok out ->
  exists base overlap delta' j w,
    align cast_value base0 delta key = Ok (base, overlap, delta') /\
    join base delta' key "_r" false = Ok j /\
    (forall c r,
        In (c, r)
           (map (fun c => (c, b <- col j c ;; b0 <- coalesce_lit0 cast_value b ;;
                              r <- col j (c ++ "_r")%string ;;
                              r0 <- coalesce_lit0 cast_value r ;;
                              add b0 r0))
                overlap
            ++ map (fun c => (c, b <- col j c ;; r <- col j (c ++ "_r")%string ;;
                                 coalesce cast_value b r))
                 (filter (fun c => mem (c ++ "_r")%string (columns j))
                    (filter (fun c => negb (mem c overlap)) (columns base)))) ->
        exists s, r = Ok s /\ lookup w c = Some s) /\
    forall c, In c (columns out) -> lookup out c = lookup w c.
Proof.
  unfold upsert_bets. intros H. inv_bind H. destruct x as [[base overlap] delta'].
  inv_bind H. rename x into j. inv_bind H. rename x into w.
  exists base, overlap, delta', j, w.
  split; [assumption|]. split; [assumption|]. split.
  - intros c r Hin. eapply with_columns_exprs_lookup; eassumption.
  - intros c Hc. rewrite (ordenar_y_validar_lookup _ _ _ _ c H).
    apply In_columns_lookup in Hc as [s Hs].
    rewrite (ordenar_y_validar_lookup _ _ _ _ c H) in Hs.
    rewrite lookup_drop in *. destruct (mem c _); [discriminate | reflexivity].
Qed.

(** The accumulated columns of the result. *)
Lemma upsert_bets_sum base0 delta key out :
  upsert_bets cast_value base0 delta key = Ok out ->
  exists base overlap delta',
    align cast_value base0 delta key = Ok (base, overlap, delta') /\
    forall c b, In c overlap -> In c (columns out) -> lookup base c = Some b ->
      exists s,
        lookup out c = Some s /\
        dtype s = supertype (dtype b) Int32 /\
        (dtype b <> Null ->
         values s
         = map (fun pr => accumulated_cell (dtype b) (row_cell base c (fst pr))
                            (row_cell delta' c (snd pr)))
               (outer_pairs (key_cells base key) (key_cells delta' key))).
Proof.
  intros H.
  destruct (upsert_bets_Ok _ _ _ _ H) as [base [overlap [delta' [j [w [Ha [Hj [Hw Hout]]]]]]]].
  exists base, overlap, delta'. split; [assumption|].
  destruct (align_Ok _ _ _ _ _ _ _ Ha) as [Hkd [Hkb [_ [_ [Hov [Hcols Hser]]]]]].
  destruct (join_Ok _ _ _ _ _ _ Hj) as [lk [rk [Hlk [Hrk [Hdt [Hnd [HL HR]]]]]]].
  assert (Hkeys : key_cells base key = values lk /\ key_cells delta' key = values rk).
  { unfold key_cells. now rewrite Hlk, Hrk. }
  destruct Hkeys as [-> ->].
  set (pairs := outer_pairs (values lk) (values rk)) in *.
  intros c b Hc Hcout Hb.
  assert (Hc' := Hc). rewrite Hov in Hc'. apply in_overlap in Hc' as [_ [Hcd Hne]].
  apply In_columns_lookup in Hcd as [d Hd].
  destruct (Hser c d Hd) as [d' [Hd' Hm]]. rewrite Hb in Hm. destruct Hm as [Hdd _].
  assert (HR' := HR c d' (lookup_In _ _ _ Hd') (fun E => match Bool.diff_false_true E with end)).
  assert (Hmem : mem c (columns base) = true).
  { apply mem_In. apply In_columns_lookup. eauto. }
  rewrite Hmem in HR'.
  assert (HL' := HL c b Hb). simpl in HL'.
  edestruct Hw as [s [Hs Hws]].
  { apply in_or_app. left. apply in_map_iff. exists c. split; [reflexivity | assumption]. }
  exists s. rewrite (Hout c Hcout). split; [assumption|].
  unfold col in Hs. rewrite HL', HR' in Hs. cbn [bind] in Hs.
  inv_bind Hs. rename x into b0. inv_bind Hs. rename x into r0.
  split.
  - rewrite (add_dtype _ _ _ Hs). now rewrite (coalesce_lit0_dtype _ _ E).
  - intros Hnn.
    rewrite coalesce_lit0_not_Null in E by assumption.
    rewrite coalesce_lit0_not_Null in E0 by (simpl; congruence).
    inversion E; inversion E0; subst b0 r0. clear E E0.
    unfold add in Hs. simpl in Hs. rewrite Hdd, DataType_eqb_refl in Hs.
    inversion Hs; subst s. simpl. rewrite !map_map, zip_with_map.
    apply map_ext. intros pr. rewrite accumulated_cell_add.
    now rewrite (row_cell_lookup _ _ _ _ Hb), (row_cell_lookup _ _ _ _ Hd').
Qed.

(** The key column of the result. *)
Lemma upsert_bets_key base0 delta key out :
  upsert_bets cast_value base0 delta key = Ok out ->
  In key (columns out) ->
  exists base overlap delta',
    align cast_value base0 delta key = Ok (base, overlap, delta') /\
    exists s,
      lookup out key = Some s /\
      values s
      = map (fun pr => coalesce_cell (row_cell base key (fst pr))
                         (row_cell delta' key (snd pr)))
            (outer_pairs (key_cells base key) (key_cells delta' key)).
Proof.
  intros H Hkout.
  destruct (upsert_bets_Ok _ _ _ _ H) as [base [overlap [delta' [j [w [Ha [Hj [Hw Hout]]]]]]]].
  exists base, overlap, delta'. split; [assumption|].
  destruct (align_Ok _ _ _ _ _ _ _ Ha) as [Hkd [Hkb [_ [_ [Hov [Hcols Hser]]]]]].
  destruct (join_Ok _ _ _ _ _ _ Hj) as [lk [rk [Hlk [Hrk [Hdt [Hnd [HL HR]]]]]]].
  assert (Hkeys : key_cells base key = values lk /\ key_cells delta' key = values rk).
  { unfold key_cells. now rewrite Hlk, Hrk. }
  destruct Hkeys as [-> ->].
  set (pairs := outer_pairs (values lk) (values rk)) in *.
  assert (HR' := HR key rk (lookup_In _ _ _ Hrk)
                   (fun E => match Bool.diff_false_true E with end)).
  apply mem_In in Hkb. rewrite Hkb in HR'.
  assert (HL' := HL key lk Hlk). simpl in HL'.
  edestruct Hw as [s [Hs Hws]].
  { apply in_or_app. right. apply in_map_iff. exists key. split; [reflexivity|].
    apply filter_In. split.
    - apply filter_In. split; [now apply mem_In|].
      apply negb_true_iff, mem_false. rewrite Hov. intros Hc.
      apply in_overlap in Hc. now destruct Hc as [_ [_ Hc]].
    - apply mem_In, In_columns_lookup. eauto. }
  exists s. rewrite (Hout key Hkout). split; [assumption|].
  unfold col in Hs. rewrite HL', HR' in Hs. cbn [bind] in Hs.
  rewrite coalesce_same_dtype in Hs by (simpl; assumption).
  inversion Hs; subst s. simpl. rewrite zip_with_map.
  apply map_ext. intros pr.
  now rewrite (row_cell_lookup _ _ _ _ Hlk), (row_cell_lookup _ _ _ _ Hrk).
Qed.

End AdditiveMerge.

Lemma canonical_dtypes c t :
  In (c, t) head_to_head_schema -> t <> Int32 /\ t <> Null.
Proof.
  unfold head_to_head_schema. intros H.
  repeat (destruct H as [H | H]; [inversion H; split; discriminate|]).
  inversion H.
Qed.

Lemma conforms_lookup sch df c t :
  conforms sch df -> lookup sch c = Some t ->
  exists s, lookup df c = Some s /\ dtype s = t.
Proof.
  intros [extras [Hs _]] Hc.
  assert (H : lookup (schema df) c = Some t).
  { rewrite Hs, lookup_app. now rewrite Hc. }
  rewrite lookup_schema in H. destruct (lookup df c) as [s|]; [|discriminate].
  inversion H. eauto.
Qed.

Lemma NoDup_canonical : NoDup (map fst head_to_head_schema).
Proof. apply nodupb_NoDup. reflexivity. Qed.

Section AdditiveMergeClaims.

Variable cast_value : DataType -> DataType -> value -> option value.

Lemma upsert_bets_accumulates_general (base delta : DataFrame) (key : string)
    (out : DataFrame) :
  In key (columns base) ->
  In key (columns delta) ->
  upsert_bets cast_value (IsDataFrame base) delta key = Ok out ->
  additive_merge_spec cast_value base delta key out.
Proof.
  intros Hkb Hkd H.
  destruct (upsert_bets_sum _ _ _ _ _ H) as [base' [overlap [delta' [Ha Hsum]]]].
  destruct (align_Ok _ _ _ _ _ _ _ Ha) as [_ [_ [Hb0 [_ [Hov _]]]]].
  simpl in Hb0. specialize (Hb0 Hkb). subst base'.
  split; [exact (align_converts cast_value _ _ _ _ _ _ Ha)|].
  exists (outer_pairs (key_cells base key) (key_cells delta' key)).
  split; [rewrite <- (align_keys cast_value _ _ _ _ _ _ Ha); apply outer_pairs_spec|].
  intros c Hne Hcb Hcd Hside.
  assert (Hc : In c overlap).
  { rewrite Hov. apply in_overlap. tauto. }
  apply In_columns_lookup in Hcb as [b Hb].
  assert (Hdt : frame_dtype base c = dtype b) by (unfold frame_dtype; now rewrite Hb).
  assert (Hkeep : In c (columns out) /\ dtype b <> Null).
  { destruct Hside as [Hcan | [Hin Hnn]]; [|now rewrite <- Hdt].
    apply lookup_Some_In in Hcan as [t Ht].
    destruct (conforms_lookup _ _ _ _ (upsert_bets_conforms _ _ _ _ _ H) Ht) as [s [Hs Hst]].
    assert (Hin : In c (columns out)) by (apply In_columns_lookup; eauto).
    split; [assumption|].
    destruct (Hsum c b Hc Hin Hb) as [s' [Hs' [Hst' _]]].
    rewrite Hs in Hs'. inversion Hs'; subst s'.
    apply lookup_In, canonical_dtypes in Ht as [Ht1 Ht2].
    intros En. rewrite En in Hst'. simpl in Hst'. congruence. }
  destruct Hkeep as [Hin Hnn].
  destruct (Hsum c b Hc Hin Hb) as [s [Hs [_ Hv]]].
  exists s. split; [exact Hs|]. rewrite (Hv Hnn), Hdt.
  apply map_ext. intros pr.
  now rewrite (align_row_cell cast_value _ _ _ _ _ _ c (snd pr) Ha).
Qed.

End AdditiveMergeClaims.

(** C2. When base and delta both have the key column, the additive merge
    returns a table in which, on every joined row, a non-key column of both
    inputs holds coalesce(base cell, 0) + coalesce(delta cell, 0), delta's
    cell converted to base's dtype; and merging the batch (match 7,
    turnover 50) into the table (match 7, turnover 100) gives one row for
    match 7 with a turnover of 150. *)
Theorem upsert_bets_accumulates :
  (forall cast_value (base delta : DataFrame) (key : string) (out : DataFrame),
      In key (columns base) ->
      In key (columns delta) ->
      upsert_bets cast_value (IsDataFrame base) delta key = Ok out ->
      additive_merge_spec cast_value base delta key out) /\
  (forall cast_value,
      upsert_bets cast_value (IsDataFrame base7) delta7 "MatchId" = Ok bets7) /\
  height bets7 = 1%nat /\
  cell_at bets7 "MatchId" 0 = Some (VInt 7) /\
  cell_at bets7 "TurnOver_SGD" 0 = Some (F 150).
Proof.
  split; [exact upsert_bets_accumulates_general|].
  split; [intros cast_value; vm_compute; reflexivity|].
  repeat split; vm_compute; reflexivity.
Qed.

Lemma upsert_bets_accumulates_witness :
  In "MatchId" (columns base78f) /\
  In "MatchId" (columns delta89i) /\
  upsert_bets numeric_cast (IsDataFrame base78f) delta89i "MatchId" = Ok bets789f /\
  additive_merge_spec numeric_cast base78f delta89i "MatchId" bets789f /\
  key_cells bets789f "MatchId" = [Some (VInt 8); Some (VInt 9); Some (VInt 7)] /\
  key_cells base78f "TurnOver_SGD" = [Some (F 1); Some (F 1)] /\
  key_cells delta89i "TurnOver_SGD" = [Some (VInt 5); None] /\
  key_cells bets789f "TurnOver_SGD" = [Some (F 6); Some (F 0); Some (F 1)].
Proof.
  assert (H1 : In "MatchId" (columns base78f)) by (now left).
  assert (H2 : In "MatchId" (columns delta89i)) by (now left).
  assert (H3 : upsert_bets numeric_cast (IsDataFrame base78f) delta89i "MatchId"
               = Ok bets789f) by (vm_compute; reflexivity).
  split; [exact H1|]. split; [exact H2|]. split; [exact H3|].
  split; [exact (proj1 upsert_bets_accumulates numeric_cast base78f delta89i "MatchId"
                   bets789f H1 H2 H3)|].
  split; [vm_compute; reflexivity|].
  split; [vm_compute; reflexivity|].
  split; vm_compute; reflexivity.
Defined.

(** C6. In the additive merge a column of strings that base and delta
    share is accumulated like a column of numbers, not resolved base
    first: merging the batch [delta_dates] into [base_dates], the date of
    match 7 is "ab" where base has "a" and delta has "b", the date of
    match 8 is "0b" where base has no date, and the date of match 9, which
    the batch does not have, is "c0" instead of "c". *)
Theorem upsert_bets_shared_strings :
  (forall cast_value,
      upsert_bets cast_value (IsDataFrame base_dates) delta_dates "MatchId"
      = Ok bets_dates) /\
  key_cells base_dates "MatchId" = [Some (VInt 7); Some (VInt 8); Some (VInt 9)] /\
  key_cells delta_dates "MatchId" = [Some (VInt 7); Some (VInt 8)] /\
  key_cells bets_dates "MatchId" = [Some (VInt 7); Some (VInt 8); Some (VInt 9)] /\
  key_cells base_dates "EventDate" = [Some (VStr "a"); None; Some (VStr "c")] /\
  key_cells delta_dates "EventDate" = [Some (VStr "b"); Some (VStr "b")] /\
  key_cells bets_dates "EventDate"
  = [Some (VStr "ab"); Some (VStr "0b"); Some (VStr "c0")].
Proof.
  split; [intros cast_value; vm_compute; reflexivity|].
  repeat split; vm_compute; reflexivity.
Qed.

(** ** The orders of the sort *)

Lemma string_leb_trans (a b c : string) :
  String.leb a b = true -> String.leb b c = true -> String.leb a c = true.
Proof.
  unfold String.leb. revert b c.
  induction a as [|x a IH]; intros [|y b] [|z c]; simpl; try congruence.
  unfold Ascii.compare.
  destruct (N.compare_spec (N_of_ascii x) (N_of_ascii y)) as [Exy | Hxy | Hxy];
    destruct (N.compare_spec (N_of_ascii y) (N_of_ascii z)) as [Eyz | Hyz | Hyz];
    try congruence.
  - rewrite Exy, Eyz, N.compare_refl. apply IH.
  - rewrite Exy. intros _ _.
    now rewrite (proj2 (N.compare_lt_iff _ _) Hyz).
  - rewrite <- Eyz. intros _ _.
    now rewrite (proj2 (N.compare_lt_iff _ _) Hxy).
  - intros _ _.
    now rewrite (proj2 (N.compare_lt_iff _ _) (N.lt_trans _ _ _ Hxy Hyz)).
Qed.

Lemma rank_leb_total a b : rank_leb a b = true \/ rank_leb b a = true.
Proof.
  destruct a as [a1 [a2 a3]], b as [b1 [b2 b3]]. unfold rank_leb.
  destruct (Z.ltb_spec a1 b1); [now left|].
  destruct (Z.ltb_spec b1 a1); [now right|].
  assert (a1 = b1) by lia. subst. rewrite Z.eqb_refl. simpl.
  destruct (Z.ltb_spec a2 b2); [now left|].
  destruct (Z.ltb_spec b2 a2); [now right|].
  assert (a2 = b2) by lia. subst. rewrite Z.eqb_refl. simpl.
  destruct (Z.leb_spec a3 b3); [now left|]. right. apply Z.leb_le. lia.
Qed.

Lemma rank_leb_trans a b c :
  rank_leb a b = true -> rank_leb b c = true -> rank_leb a c = true.
Proof.
  destruct a as [a1 [a2 a3]], b as [b1 [b2 b3]], c as [c1 [c2 c3]]. unfold rank_leb.
  rewrite !orb_true_iff, !andb_true_iff, !orb_true_iff, !andb_true_iff.
  rewrite !Z.ltb_lt, !Z.eqb_eq, !Z.leb_le. lia.
Qed.

Lemma value_leb_total a b : value_leb a b = true \/ value_leb b a = true.
Proof.
  destruct a, b; simpl; auto.
  - destruct (Z.leb_spec z z0); [now left|]. right. apply Z.leb_le. lia.
  - apply rank_leb_total.
  - apply String.leb_total.
Qed.

Lemma value_leb_trans a b c :
  value_leb a b = true -> value_leb b c = true -> value_leb a c = true.
Proof.
  destruct a, b, c; simpl; try congruence.
  - rewrite !Z.leb_le. lia.
  - apply rank_leb_trans.
  - apply string_leb_trans.
Qed.

Lemma ts_leb_total desc a b : ts_leb desc a b = true \/ ts_leb desc b a = true.
Proof.
  destruct a as [x|], b as [y|]; simpl; auto.
  destruct desc; [destruct (value_leb_total y x) | destruct (value_leb_total x y)]; auto.
Qed.

Lemma ts_leb_trans desc a b c :
  ts_leb desc a b = true -> ts_leb desc b c = true -> ts_leb desc a c = true.
Proof.
  destruct a as [x|], b as [y|], c as [z|]; simpl; try congruence.
  destruct desc; intros H1 H2; eapply value_leb_trans; eassumption.
Qed.

Lemma by_leb_total desc a b : by_leb desc a b = true \/ by_leb desc b a = true.
Proof.
  destruct a as [[|] ta], b as [[|] tb]; unfold by_leb; simpl; auto;
    apply ts_leb_total.
Qed.

Lemma by_leb_trans desc a b c :
  by_leb desc a b = true -> by_leb desc b c = true -> by_leb desc a c = true.
Proof.
  destruct a as [[|] ta], b as [[|] tb], c as [[|] tc]; unfold by_leb; simpl;
    try congruence; apply ts_leb_trans.
Qed.

(** ** The first row of a sort *)

Section SortHead.

Context {A : Type} (leb : A -> A -> bool).
Hypothesis leb_total : forall x y, leb x y = true \/ leb y x = true.
Hypothesis leb_trans : forall x y z, leb x y = true -> leb y z = true -> leb x z = true.

Lemma hd_insert_by d x l :
  hd d (insert_by leb x l) = match l with
                             | [] => x
                             | y :: _ => if leb x y then x else y
                             end.
Proof. destruct l as [|y t]; simpl; [reflexivity|]. now destruct (leb x y). Qed.

Lemma sort_nil_iff l : sort leb l = [] <-> l = [].
Proof.
  destruct l as [|a l]; simpl; [tauto|]. split; [|discriminate].
  destruct (sort leb l) as [|y t]; simpl; [discriminate|].
  destruct (leb a y); discriminate.
Qed.

(** The head of the sorted list is an element that is below every
    element. *)
Lemma hd_sort_least d l :
  l <> [] ->
  In (hd d (sort leb l)) l /\ forall x, In x l -> leb (hd d (sort leb l)) x = true.
Proof.
  induction l as [|a l IH]; [congruence|]. intros _. simpl.
  rewrite hd_insert_by.
  destruct (sort leb l) as [|y t] eqn:Es.
  - apply (proj1 (sort_nil_iff l)) in Es. rewrite Es. split; [now left|].
    intros x [<- | []]. destruct (leb_total a a); assumption.
  - assert (Hl : l <> []).
    { intros E. apply (proj2 (sort_nil_iff l)) in E. congruence. }
    destruct (IH Hl) as [Hin Hle]. simpl in Hin, Hle.
    destruct (leb a y) eqn:Eay.
    + split; [now left|]. intros x [<- | Hx].
      * destruct (leb_total a a); assumption.
      * eapply leb_trans; [eassumption | now apply Hle].
    + split; [now right|]. intros x [<- | Hx]; [|now apply Hle].
      destruct (leb_total a y); congruence.
Qed.

End SortHead.

(** ** The aggregation [sort_by(...).first()] *)

Lemma combine_map {A B C} (f : A -> B) (g : A -> C) (l : list A) :
  combine (map f l) (map g l) = map (fun x => (f x, g x)) l.
Proof. induction l as [|x l IH]; simpl; [reflexivity | now rewrite IH]. Qed.

Lemma hd_map {A B} (f : A -> B) (d : A) (l : list A) :
  hd (f d) (map f l) = f (hd d l).
Proof. now destruct l. Qed.

Lemma in_rows_of k K m : In m (rows_of k K) <-> in_group k K m.
Proof.
  unfold rows_of, in_group. rewrite filter_In, in_seq. intuition lia.
Qed.

(** The aggregated cell is the cell of a row of the group that the order
    of the sort puts before every row of the group. *)
Lemma agg_first_least desc V T rows :
  rows <> [] ->
  exists m,
    In m rows /\
    agg_first desc V T rows = nth m V None /\
    forall m', In m' rows ->
      by_leb desc (is_null (nth m V None), nth m T None)
                  (is_null (nth m' V None), nth m' T None) = true.
Proof.
  intros Hne. unfold agg_first, sort_by, first.
  rewrite map_map.
  rewrite (combine_map (fun i => is_null (nth i V None)) (fun i => nth i T None)).
  rewrite (combine_map (fun i => nth i V None)
             (fun i => (is_null (nth i V None), nth i T None))).
  set (L := map (fun i => (nth i V None, (is_null (nth i V None), nth i T None))) rows).
  set (cmp := fun a b : cell * (bool * cell) => by_leb desc (snd a) (snd b)).
  assert (HL : L <> []).
  { unfold L. destruct rows; [congruence | discriminate]. }
  destruct (hd_sort_least cmp
              (fun x y => by_leb_total desc (snd x) (snd y))
              (fun x y z => by_leb_trans desc (snd x) (snd y) (snd z))
              (None, (true, None)) L HL) as [Hin Hle].
  change (@None value) with (fst (@None value, (true, @None value))) at 1.
  rewrite hd_map.
  unfold L in Hin at 2. apply in_map_iff in Hin as [m [Hm Hin]].
  exists m. split; [assumption|]. rewrite <- Hm. split; [reflexivity|].
  intros m' Hm'.
  assert (Hx : In (nth m' V None, (is_null (nth m' V None), nth m' T None)) L).
  { unfold L. apply in_map_iff. exists m'. now split. }
  apply Hle in Hx. rewrite <- Hm in Hx. exact Hx.
Qed.

Lemma agg_first_candidate desc V T k K :
  (exists m, in_group k K m) ->
  first_candidate desc V T k K (agg_first desc V T (rows_of k K)).
Proof.
  intros [m0 Hm0].
  assert (Hne : rows_of k K <> []).
  { intros E. apply in_rows_of in Hm0. rewrite E in Hm0. inversion Hm0. }
  destruct (agg_first_least desc V T _ Hne) as [m [Hm [-> Hle]]].
  apply in_rows_of in Hm.
  destruct (nth m V None) as [v|] eqn:Ev.
  - right. exists m. split; [assumption|]. split; [assumption|].
    split; [discriminate|].
    intros m' Hm' Hv'. apply in_rows_of in Hm'. specialize (Hle m' Hm').
    destruct (nth m' V None); [|congruence].
    exact Hle.
  - left. split; [|reflexivity]. intros m' Hm'.
    apply in_rows_of in Hm'. specialize (Hle m' Hm').
    destruct (nth m' V None); [discriminate | reflexivity].
Qed.


(** ** Groups *)

Lemma group_eqb_refl a : group_eqb a a = true.
Proof. destruct a; simpl; [apply value_eqb_refl | reflexivity]. Qed.

Lemma group_eqb_sym a b : group_eqb a b = group_eqb b a.
Proof. destruct a, b; simpl; try reflexivity. apply value_eqb_sym. Qed.

Lemma group_eqb_trans a b c :
  group_eqb a b = true -> group_eqb b c = true -> group_eqb a c = true.
Proof. destruct a, b, c; simpl; try congruence. apply value_eqb_trans. Qed.

Lemma distinct_incl l k : In k (distinct l) -> In k l.
Proof.
  induction l as [|a l IH]; simpl; [tauto|].
  intros [H | H]; [now left|]. apply filter_In in H as [H _]. right. now apply IH.
Qed.

(** Every key is in the group of one of the distinct keys. *)
Lemma distinct_covers l x :
  In x l -> exists k, In k (distinct l) /\ group_eqb k x = true.
Proof.
  induction l as [|a l IH]; simpl; [tauto|].
  intros [<- | Hx].
  - exists a. split; [now left | apply group_eqb_refl].
  - destruct (IH Hx) as [k [Hk Hkx]].
    destruct (group_eqb a k) eqn:Eak.
    + exists a. split; [now left|]. eapply group_eqb_trans; eassumption.
    + exists k. split; [|assumption]. right. apply filter_In.
      split; [assumption | now rewrite Eak].
Qed.


Lemma distinct_NoDup l : NoDup (distinct l).
Proof.
  induction l as [|a l IH]; simpl; constructor.
  - intros H. apply filter_In in H as [_ H].
    now rewrite group_eqb_refl in H.
  - now apply NoDup_filter.
Qed.

(** Two distinct keys are in different groups. *)
Lemma distinct_apart l x y :
  In x (distinct l) -> In y (distinct l) -> group_eqb x y = true -> x = y.
Proof.
  induction l as [|a l IH]; simpl; [tauto|].
  intros [<- | Hx] [<- | Hy] E; try reflexivity.
  - apply filter_In in Hy as [_ Hy]. rewrite E in Hy. discriminate.
  - apply filter_In in Hx as [_ Hx]. rewrite group_eqb_sym, E in Hx. discriminate.
  - apply filter_In in Hx as [Hx _]. apply filter_In in Hy as [Hy _]. now apply IH.
Qed.

(** ** The steps of the merge by timestamps *)

Lemma alinear_Ok todas df a :
  _alinear todas df = Ok a ->
  NoDup todas /\
  columns a = todas /\
  forall c, In c todas ->
    exists s, lookup a c = Some s /\ values s = aligned_column df c.
Proof.
  unfold _alinear. intros H. inv_bind H. rename x into df'.
  assert (Hcols := select_exprs_columns _ _ H).
  rewrite map_map in Hcols. simpl in Hcols. rewrite map_id in Hcols.
  destruct (select_Ok _ _ _ H) as [Hnd [_ Hin]].
  split; [assumption|]. split; [assumption|].
  intros c Hc. rewrite (lookup_select _ _ _ c H).
  apply mem_In in Hc. rewrite Hc. apply mem_In in Hc.
  unfold aligned_column.
  destruct (is_nil _) eqn:En in E.
  - inversion E; subst df'. apply Hin, In_columns_lookup in Hc as [s Hs].
    exists s. now rewrite Hs.
  - destruct (mem c (columns df)) eqn:Em.
    + apply mem_In, In_columns_lookup in Em as [s Hs]. exists s. rewrite Hs.
      split; [|reflexivity].
      apply with_columns_exprs_Ok in E as [news [Hndn [Heq ->]]].
      rewrite lookup_with_columns by assumption.
      destruct (lookup news c) as [s'|] eqn:En'; [|assumption].
      exfalso. apply lookup_In in En'.
      assert (Hf : In c (map fst news)).
      { change c with (fst (c, s')). now apply in_map. }
      apply (f_equal (map fst)) in Heq. rewrite !map_map in Heq. simpl in Heq.
      rewrite map_id in Heq.
      change (map (fun o : string * Series => fst o) news) with (map fst news) in Heq.
      rewrite <- Heq in Hf. apply filter_In in Hf as [_ Hf].
      apply negb_true_iff, mem_false in Hf. apply Hf, In_columns_lookup. eauto.
    + destruct (with_columns_exprs_lookup _ _ _ c (Ok (lit_null Null (lit_height df))) E)
        as [s [Hs Hl]].
      { apply in_map_iff. exists c. split; [reflexivity|].
        apply filter_In. split; [assumption | now rewrite Em]. }
      inversion Hs; subst s. eexists. split; [exact Hl|]. simpl.
      apply mem_false in Em.
      assert (Hn : lookup df c = None) by now apply lookup_None.
      now rewrite Hn.
Qed.

Lemma sequence_names {A} (f : string -> result (string * A)) names out :
  (forall c x, f c = Ok x -> fst x = c) ->
  sequence (map f names) = Ok out ->
  map fst out = names /\ forall c, In c names -> exists x, f c = Ok x /\ In x out.
Proof.
  intros Hf H. apply sequence_Ok in H. revert out H.
  induction names as [|c names IH]; simpl; intros out H.
  - destruct out; [|discriminate]. split; [reflexivity | tauto].
  - destruct out as [|x out]; [discriminate|]. simpl in H. inversion H.
    destruct (IH out H2) as [Hn Hin]. split.
    + simpl. f_equal; [now apply Hf | assumption].
    + intros c' [<- | Hc'].
      * exists x. split; [assumption | now left].
      * destruct (Hin c' Hc') as [x' [Hx' Hi]]. exists x'. split; [assumption | now right].
Qed.

Lemma filter_none {A} (f : A -> bool) (l : list A) :
  (forall x, In x l -> f x = false) -> filter f l = [].
Proof.
  induction l as [|a l IH]; simpl; [reflexivity|]. intros H.
  rewrite (H a (or_introl eq_refl)). apply IH. intros x Hx. apply H. now right.
Qed.

Lemma concat_diagonal_same_columns a b combo :
  concat_diagonal a b = Ok combo ->
  columns b = columns a ->
  NoDup (columns a) ->
  forall c sa sb, lookup a c = Some sa -> lookup b c = Some sb ->
    exists s, lookup combo c = Some s /\ values s = values sa ++ values sb.
Proof.
  unfold concat_diagonal. intros H Hb Hnd c sa sb Hsa Hsb.
  rewrite Hb in H.
  rewrite (filter_none (fun c => negb (mem c (columns a))) (columns a)) in H.
  2:{ intros x Hx. apply negb_false_iff. now apply mem_In. }
  rewrite app_nil_r in H.
  apply sequence_names in H as [Hnames Hin].
  2:{ intros c' x. destruct (lookup a c'), (lookup b c'); try discriminate.
      - intros Hx. inv_bind Hx. now inversion Hx.
      - now intros [= <-].
      - now intros [= <-]. }
  assert (Hc : In c (columns a)) by (apply In_columns_lookup; eauto).
  destruct (Hin c Hc) as [x [Hx Hxin]]. rewrite Hsa, Hsb in Hx.
  inv_bind Hx. inversion Hx; subst x. clear Hx. rename x0 into s.
  exists s. split.
  - apply lookup_NoDup; [now rewrite Hnames | assumption].
  - unfold vstack in E. destruct (unify _ _); [|discriminate]. now inversion E.
Qed.

(** The direction the code gives a column: ascending exactly for the
    columns of [preferir_antiguo]. *)
Lemma desc_of_antiguo reciente antiguo c :
  desc_of reciente antiguo c = negb (mem c antiguo).
Proof. unfold desc_of. destruct (mem c antiguo); [reflexivity|]. now destruct (mem c reciente). Qed.

Lemma ts_leb_not_after desc a b :
  ts_leb desc a b = true -> not_after (if desc then Descending else Ascending) a b.
Proof.
  destruct a as [x|], b as [y|], desc; simpl; intros H;
    first [exact H | exact I | discriminate H].
Qed.

Lemma first_candidate_of_group desc V T k K v :
  first_candidate desc V T k K v ->
  first_of_group (if desc then Descending else Ascending) V T k K v.
Proof.
  intros [H | [m [Hm [Hv [Hn Hle]]]]]; [now left|].
  right. exists m. split; [exact Hm|]. split; [exact Hv|]. split; [exact Hn|].
  intros m' Hm' Hv'. apply ts_leb_not_after. now apply Hle.
Qed.

Section OddsFacts.

Variable set_iter : list string -> list string.
Variable group_order : list cell -> list cell.

(** The table [upsert_odds] returns, column by column. *)
Lemma upsert_odds_Ok df_base df_delta pk ts_col reciente antiguo out :
  upsert_odds set_iter group_order df_base df_delta pk ts_col reciente antiguo = Ok out ->
  let todas := set_iter (columns df_base ++ columns df_delta) in
  let K := stacked df_base df_delta pk in
  let T := stacked df_base df_delta ts_col in
  let groups := group_order (distinct K) in
  In pk todas /\ In ts_col todas /\
  (exists s, lookup out pk = Some s /\ values s = groups) /\
  forall c, In c todas -> c <> pk ->
    exists s, lookup out c = Some s /\
      values s = map (fun k => agg_first (desc_of reciente antiguo c)
                                 (stacked df_base df_delta c) T (rows_of k K))
                     groups.
Proof.
  unfold upsert_odds. intros H. cbv zeta.
  set (todas := set_iter (columns df_base ++ columns df_delta)) in *.
  destruct (mem pk todas) eqn:Hpk; cbn [negb] in H; [|discriminate].
  destruct (mem ts_col todas) eqn:Hts; cbn [negb] in H; [|discriminate].
  apply mem_In in Hpk. apply mem_In in Hts.
  inv_bind H. rename x into a. inv_bind H. rename x into b.
  inv_bind H. rename x into combo. inv_bind H. rename x into keys.
  inv_bind H. rename x into ts. inv_bind H. rename x into resultado.
  destruct (alinear_Ok _ _ _ E) as [Hnd [Hca Ha]].
  destruct (alinear_Ok _ _ _ E0) as [_ [Hcb Hb]].
  assert (Hcombo : forall c, In c todas ->
             exists s, lookup combo c = Some s /\ values s = stacked df_base df_delta c).
  { intros c Hc. destruct (Ha c Hc) as [sa [Hsa Hva]]. destruct (Hb c Hc) as [sb [Hsb Hvb]].
    destruct (concat_diagonal_same_columns _ _ _ E1) with (c := c) (sa := sa) (sb := sb)
      as [s [Hs Hv]]; try assumption.
    - now rewrite Hca, Hcb.
    - now rewrite Hca.
    - exists s. split; [assumption|]. unfold stacked. now rewrite Hv, Hva, Hvb. }
  unfold col in E2, E3.
  destruct (Hcombo pk Hpk) as [sk [Hsk Hvk]]. rewrite Hsk in E2. inversion E2; subst keys.
  destruct (Hcombo ts_col Hts) as [st [Hst Hvt]]. rewrite Hst in E3. inversion E3; subst ts.
  clear E2 E3. rewrite Hvk, Hvt in E4.
  assert (Hout : forall c, lookup out c = lookup resultado c).
  { intros c. eapply ordenar_y_validar_lookup. eassumption. }
  split; [assumption|]. split; [assumption|]. split.
  - pose proof (fun r => select_exprs_lookup _ _ pk r E4) as Hsel.
    edestruct Hsel as [s [Hs Hl]]; [now left|].
    inversion Hs; subst s. eexists. rewrite Hout. split; [exact Hl | reflexivity].
  - intros c Hc Hne.
    pose proof (fun r => select_exprs_lookup _ _ c r E4) as Hsel.
    edestruct Hsel as [s [Hs Hl]].
    { right. apply in_map_iff. exists c. split; [reflexivity|].
      apply filter_In. split; [assumption|].
      apply negb_true_iff. now apply String.eqb_neq. }
    destruct (Hcombo c Hc) as [sc [Hsc Hvc]]. unfold col in Hs. rewrite Hsc in Hs.
    cbn [bind] in Hs. inversion Hs; subst s.
    eexists. rewrite Hout. split; [exact Hl|]. simpl. now rewrite Hvc.
Qed.

Hypothesis set_iter_spec : forall l, Permutation (set_iter l) (nodup string_dec l).
Hypothesis group_order_spec : forall l, Permutation (group_order l) l.

Lemma in_set_iter l c : In c (set_iter l) <-> In c l.
Proof.
  rewrite <- (nodup_In string_dec l). split; apply Permutation_in.
  - apply set_iter_spec.
  - apply Permutation_sym, set_iter_spec.
Qed.

Lemma in_groups K k : In k (group_order (distinct K)) <-> In k (distinct K).
Proof.
  split; apply Permutation_in.
  - apply group_order_spec.
  - apply Permutation_sym, group_order_spec.
Qed.

Lemma group_has_row K k : In k (distinct K) -> exists m, in_group k K m.
Proof.
  intros Hk. apply distinct_incl in Hk. apply (In_nth _ _ None) in Hk as [m [Hm E]].
  exists m. split; [assumption|]. unfold cell in *. rewrite E. apply group_eqb_refl.
Qed.

Lemma upsert_odds_first_candidates df_base df_delta pk ts_col reciente antiguo out :
  upsert_odds set_iter group_order df_base df_delta pk ts_col reciente antiguo = Ok out ->
  timestamp_merge_spec df_base df_delta pk ts_col antiguo out.
Proof.
  intros H. destruct (upsert_odds_Ok _ _ _ _ _ _ _ H) as [Hpk [Hts [Hkey Hcol]]].
  unfold timestamp_merge_spec.
  set (K := stacked df_base df_delta pk) in *.
  set (T := stacked df_base df_delta ts_col) in *.
  exists (group_order (distinct K)).
  split; [assumption|]. split; [|split; [|split]].
  - intros m Hm.
    destruct (distinct_covers K (nth m K None)) as [k [Hk Hkm]]; [now apply nth_In|].
    exists k. split; [now apply in_groups | assumption].
  - intros k Hk. apply group_has_row. now apply in_groups.
  - intros g g' k k' Hg Hg' E.
    assert (Hk : In k (distinct K)) by (apply in_groups; eapply nth_error_In; eassumption).
    assert (Hk' : In k' (distinct K)) by (apply in_groups; eapply nth_error_In; eassumption).
    assert (Heq := distinct_apart _ _ _ Hk Hk' E). subst k'.
    assert (Hnd : NoDup (group_order (distinct K))).
    { eapply Permutation_NoDup; [apply Permutation_sym, group_order_spec|].
      apply distinct_NoDup. }
    eapply (proj1 (NoDup_nth_error _) Hnd).
    + apply nth_error_Some. congruence.
    + congruence.
  - intros c Hne Hc.
    assert (Hct : In c (set_iter (columns df_base ++ columns df_delta))).
    { apply in_set_iter. apply in_or_app. exact Hc. }
    destruct (Hcol c Hct Hne) as [s [Hs Hv]].
    split; [exists s; split; [exact Hs | now rewrite Hv, length_map]|].
    intros g k Hg.
    assert (Hfc : first_candidate (desc_of reciente antiguo c)
                    (stacked df_base df_delta c) T k K (cell_at out c g)).
    { unfold cell_at. rewrite Hs, Hv. rewrite (nth_map_cell _ _ _ _ Hg).
      apply agg_first_candidate. apply group_has_row.
      apply in_groups. eapply nth_error_In; eassumption. }
    apply first_candidate_of_group in Hfc. rewrite desc_of_antiguo in Hfc.
    split; intros Hin.
    + apply mem_In in Hin. now rewrite Hin in Hfc.
    + apply mem_false in Hin. now rewrite Hin in Hfc.
Qed.


End OddsFacts.

(** ** The merge by timestamps *)

Lemma first_occurrence_order_spec l :
  Permutation (first_occurrence_order l) (nodup string_dec l).
Proof.
  unfold first_occurrence_order. apply NoDup_Permutation.
  - apply NoDup_rev, NoDup_nodup.
  - apply NoDup_nodup.
  - intros c. rewrite <- in_rev, !nodup_In, <- in_rev. tauto.
Qed.

Lemma first_row_order_spec (l : list cell) : Permutation (first_row_order l) l.
Proof. apply Permutation_refl. Qed.

(** C3. Whatever the order in which Python iterates the set of columns
    and polars puts the groups, the table the merge by timestamps returns
    has one row per key of the rows of base followed by those of delta (a
    column absent from a frame being null on its rows) and no other row,
    and on the row of a key every other column holds the first candidate
    of the group: null when every candidate is null, otherwise a non-null
    candidate that comes first among the non-null candidates, by
    descending timestamp for a column that is not in [preferir_antiguo]
    and by ascending timestamp for a column that is, a candidate without
    timestamp coming before those that have one. *)
Theorem upsert_odds_first_candidate
    (set_iter : list string -> list string) (group_order : list cell -> list cell)
    (df_base df_delta : DataFrame) (pk ts_col : string)
    (preferir_reciente preferir_antiguo : list string) (out : DataFrame) :
  (forall l, Permutation (set_iter l) (nodup string_dec l)) ->
  (forall l, Permutation (group_order l) l) ->
  upsert_odds set_iter group_order df_base df_delta pk ts_col
    preferir_reciente preferir_antiguo = Ok out ->
  timestamp_merge_spec df_base df_delta pk ts_col preferir_antiguo out.
Proof.
  intros Hs Hg. now apply upsert_odds_first_candidates.
Qed.

Lemma upsert_odds_first_candidate_witness :
  (forall l, Permutation (first_occurrence_order l) (nodup string_dec l)) /\
  (forall l, Permutation (first_row_order l) l) /\
  upsert_odds first_occurrence_order first_row_order odds_base1 odds_delta1_prices
    "MatchId" "ModifiedOn" app_reciente app_antiguo = Ok odds1_prices /\
  timestamp_merge_spec odds_base1 odds_delta1_prices "MatchId" "ModifiedOn"
    app_antiguo odds1_prices /\
  In "FirstOdds1" app_antiguo /\
  ~ In "LastOdds1" app_antiguo /\
  stacked odds_base1 odds_delta1_prices "MatchId" = [Some (VInt 1); Some (VInt 1)] /\
  stacked odds_base1 odds_delta1_prices "ModifiedOn"
  = [Some (VStr "t1"); Some (VStr "t2")] /\
  stacked odds_base1 odds_delta1_prices "FirstOdds1"
  = [Some (F2 3 (-1)); Some (F2 7 (-2))] /\
  stacked odds_base1 odds_delta1_prices "LastOdds1"
  = [Some (F2 3 (-1)); Some (F2 7 (-2))] /\
  key_cells odds1_prices "MatchId" = [Some (VInt 1)] /\
  key_cells odds1_prices "FirstOdds1" = [Some (F2 3 (-1))] /\
  key_cells odds1_prices "LastOdds1" = [Some (F2 7 (-2))].
Proof.
  assert (H : upsert_odds first_occurrence_order first_row_order odds_base1
                odds_delta1_prices "MatchId" "ModifiedOn" app_reciente app_antiguo
              = Ok odds1_prices)
    by (vm_compute; reflexivity).
  split; [exact first_occurrence_order_spec|].
  split; [exact first_row_order_spec|].
  split; [exact H|].
  split; [exact (upsert_odds_first_candidate _ _ _ _ _ _ _ _ _
                   first_occurrence_order_spec first_row_order_spec H)|].
  split; [apply mem_In; vm_compute; reflexivity|].
  split; [apply mem_false; vm_compute; reflexivity|].
  split; [vm_compute; reflexivity|].
  split; [vm_compute; reflexivity|].
  split; [vm_compute; reflexivity|].
  split; [vm_compute; reflexivity|].
  split; [vm_compute; reflexivity|].
  split; vm_compute; reflexivity.
Defined.



Lemma merge_output_conforms_witness :
  conforms head_to_head_schema match7 /\
  conforms head_to_head_schema bets7 /\
  conforms head_to_head_schema odds1.
Proof.
  destruct merge_output_conforms as [Hm [Hb Ho]].
  split; [|split].
  - apply (Hm numeric_cast (IsDataFrame base7) delta7 "MatchId"). vm_compute; reflexivity.
  - apply (Hb numeric_cast (IsDataFrame base7) delta7 "MatchId"). vm_compute; reflexivity.
  - apply (Ho first_occurrence_order first_row_order odds_base1 odds_delta1
             "MatchId" "ModifiedOn" app_reciente app_antiguo).
    vm_compute; reflexivity.
Defined.

(** ** A delta without the key *)

Lemma align_missing_key cast_value base delta key :
  ~ In key (columns delta) ->
  align cast_value base delta key = Err (MissingKey key).
Proof.
  intros H. unfold align. apply mem_false in H. now rewrite H.
Qed.

(** The two merges that join raise the missing-key error on a delta
    without the key. *)
Lemma upsert_match_missing_key cast_value base delta key :
  ~ In key (columns delta) ->
  upsert_match cast_value base delta key = Err (MissingKey key).
Proof.
  intros H. unfold upsert_match, upsert. now rewrite align_missing_key.
Qed.

Lemma upsert_bets_missing_key cast_value base delta key :
  ~ In key (columns delta) ->
  upsert_bets cast_value base delta key = Err (MissingKey key).
Proof.
  intros H. unfold upsert_bets. now rewrite align_missing_key.
Qed.

(** The merge by timestamps tests the key against the columns of both
    frames together: it raises its missing-key error when the key is in
    neither. *)
Lemma upsert_odds_missing_pk set_iter group_order df_base df_delta pk ts_col
    reciente antiguo :
  (forall l, Permutation (set_iter l) (nodup string_dec l)) ->
  ~ In pk (columns df_base) -> ~ In pk (columns df_delta) ->
  upsert_odds set_iter group_order df_base df_delta pk ts_col reciente antiguo
  = Err (MissingPK pk).
Proof.
  intros Hset Hb Hd. unfold upsert_odds.
  assert (Hm : mem pk (set_iter (columns df_base ++ columns df_delta)) = false).
  { apply mem_false. rewrite (in_set_iter set_iter Hset), in_app_iff. tauto. }
  now rewrite Hm.
Qed.

(** C5. On a delta without the key column the merge by timestamps does
    not raise the missing-key error when base has the key: merging the
    batch [delta_without_key] into the empty consolidated table returns a
    table, with one row whose key is null. *)
Theorem upsert_odds_delta_without_key :
  ~ In "MatchId" (columns delta_without_key) /\
  upsert_odds first_occurrence_order first_row_order empty_head_to_head
    delta_without_key "MatchId" "ModifiedOn" app_reciente app_antiguo
  = Ok odds_without_key /\
  height odds_without_key = 1%nat /\
  cell_at odds_without_key "MatchId" 0 = None /\
  cell_at odds_without_key "ModifiedOn" 0 = Some (VStr "t2").
Proof.
  split.
  - intros H. simpl in H. destruct H as [H | [H | []]]; discriminate.
  - repeat split; vm_compute; reflexivity.
Qed.

(** ** Merging the same batch twice *)

(** The replace-merge is not idempotent on every delta: a delta with one
    key on two rows doubles its rows at the second merge, and a delta row
    with a null key, which matches nothing, is added again. *)
Lemma upsert_match_twice_differs :
  (height (result_or_empty
             (upsert_match numeric_cast (IsDataFrame empty_head_to_head)
                delta_twice7 "MatchId")) = 2%nat /\
   height (result_or_empty
             (upsert_match_twice numeric_cast empty_head_to_head
                delta_twice7 "MatchId")) = 4%nat /\
   upsert_match_twice numeric_cast empty_head_to_head delta_twice7 "MatchId"
   <> upsert_match numeric_cast (IsDataFrame empty_head_to_head) delta_twice7 "MatchId") /\
  (height (result_or_empty
             (upsert_match numeric_cast (IsDataFrame empty_head_to_head)
                delta_null_key "MatchId")) = 1%nat /\
   height (result_or_empty
             (upsert_match_twice numeric_cast empty_head_to_head
                delta_null_key "MatchId")) = 2%nat /\
   upsert_match_twice numeric_cast empty_head_to_head delta_null_key "MatchId"
   <> upsert_match numeric_cast (IsDataFrame empty_head_to_head) delta_null_key "MatchId").
Proof.
  split; (split; [vm_compute; reflexivity|]); (split; [vm_compute; reflexivity|]);
    intros H; apply (f_equal (fun r => height (result_or_empty r))) in H;
    vm_compute in H; discriminate.
Qed.

Lemma coalesce_cell_absorb_l a b : coalesce_cell a (coalesce_cell a b) = coalesce_cell a b.
Proof. now destruct a. Qed.

Lemma coalesce_cell_absorb_r a b : coalesce_cell (coalesce_cell a b) b = coalesce_cell a b.
Proof. now destruct a, b. Qed.

Lemma filter_seq_singleton (f : nat -> bool) a n j :
  (a <= j < a + n)%nat -> f j = true ->
  (forall j', (a <= j' < a + n)%nat -> f j' = true -> j' = j) ->
  filter f (seq a n) = [j].
Proof.
  revert a. induction n as [|n IH]; intros a Hj Hf Hu; [lia|]. simpl.
  destruct (Nat.eq_dec a j) as [->|Hne].
  - rewrite Hf. f_equal. apply filter_none. intros x Hx. apply in_seq in Hx.
    destruct (f x) eqn:Ex; [|reflexivity]. assert (x = j) by (apply Hu; [lia | assumption]). lia.
  - destruct (f a) eqn:Ea.
    + assert (a = j) by (apply Hu; [lia | assumption]). contradiction.
    + apply IH; [lia | assumption |]. intros j' Hj'. apply Hu. lia.
Qed.

Lemma matches_singleton k RK j :
  distinct_keys RK -> (j < List.length RK)%nat -> key_match k (nth j RK None) = true ->
  matches k RK = [j].
Proof.
  intros [_ Hu] Hj Hm. unfold matches. apply filter_seq_singleton; [lia | assumption|].
  intros j' Hj' Hm'. symmetry. apply Hu; [assumption | lia |].
  eapply key_match_trans; [|eassumption]. now rewrite key_match_sym.
Qed.

Lemma flat_map_singleton {A B} (g : A -> list B) (h : A -> B) (l : list A) :
  (forall x, In x l -> g x = [h x]) -> flat_map g l = map h l.
Proof.
  induction l as [|a l IH]; simpl; [reflexivity|]. intros H.
  rewrite (H a (or_introl eq_refl)). simpl. f_equal. apply IH. intros x Hx. apply H. now right.
Qed.

Lemma length_flat_map_ge {A B} (f : A -> list B) (l : list A) :
  (forall x, f x <> []) -> (List.length l <= List.length (flat_map f l))%nat.
Proof.
  intros Hf. induction l as [|a l IH]; [apply Nat.le_refl|].
  cbn [flat_map]. rewrite length_app. cbn [List.length].
  specialize (Hf a). destruct (f a); [congruence|]. cbn [List.length]. lia.
Qed.

(** A [flat_map] of non-empty lists that is no longer than its argument
    takes one element from each. *)
Lemma flat_map_tight {A B} (f : A -> list B) (d : B) (l : list A) :
  (forall x, f x <> []) -> (List.length (flat_map f l) <= List.length l)%nat ->
  flat_map f l = map (fun x => hd d (f x)) l.
Proof.
  intros Hf. induction l as [|a l IH]; [reflexivity|].
  cbn [flat_map map]. rewrite length_app. cbn [List.length]. intros Hlen.
  pose proof (length_flat_map_ge f l Hf) as Hge.
  pose proof (Hf a) as Ha. destruct (f a) as [|b [|b' t]] eqn:E; [congruence | |].
  - cbn [app hd]. f_equal. apply IH. cbn [List.length] in Hlen. lia.
  - cbn [List.length] in Hlen. lia.
Qed.

Lemma join_left_rows lk rk i :
  match matches (nth i lk None) rk with
  | [] => [(Some i, @None nat)]
  | j :: js => map (fun j => (Some i, Some j)) (j :: js)
  end <> [].
Proof. destruct (matches (nth i lk None) rk); discriminate. Qed.

Lemma length_join_left lk rk : (List.length lk <= List.length (join_left lk rk))%nat.
Proof.
  unfold join_left.
  pose proof (length_flat_map_ge
                (fun i => match matches (nth i lk None) rk with
                          | [] => [(Some i, @None nat)]
                          | j :: js => map (fun j => (Some i, Some j)) (j :: js)
                          end)
                (seq 0 (List.length lk)) (join_left_rows lk rk)) as H.
  now rewrite length_seq in H.
Qed.

(** A join that has no more rows than its right side has the right rows
    in order, each once. *)
Lemma outer_pairs_short LK RK :
  (List.length (outer_pairs LK RK) <= List.length RK)%nat ->
  outer_pairs LK RK
  = map (fun j => (hd_error (matches (nth j RK None) LK), Some j))
        (seq 0 (List.length RK)).
Proof.
  unfold outer_pairs. destruct (List.length LK <=? List.length RK)%nat eqn:E.
  - rewrite length_map. unfold probe_pairs. rewrite length_app. intros Hlen.
    pose proof (length_join_left RK LK) as Hge.
    assert (Hr : join_right RK LK = []).
    { destruct (join_right RK LK); [reflexivity|]. cbn [List.length] in Hlen. lia. }
    rewrite Hr, app_nil_r. unfold join_left.
    rewrite (flat_map_tight _ (None, None)).
    + rewrite map_map. apply map_ext. intros j.
      now destruct (matches (nth j RK None) LK).
    + apply join_left_rows.
    + fold (join_left RK LK). rewrite length_seq. rewrite Hr in Hlen.
      cbn [List.length] in Hlen. lia.
  - apply Nat.leb_gt in E. unfold probe_pairs. rewrite length_app. intros Hlen.
    pose proof (length_join_left LK RK). lia.
Qed.

(** Joining the result of a join with the same right keys again pairs
    every row with the right row it came from, and adds no row, when the
    right keys are non-null and pairwise different. *)
Lemma outer_pairs_again LK RK :
  distinct_keys RK ->
  let pairs := outer_pairs LK RK in
  outer_pairs (map (joined_key LK RK) pairs) RK
  = map (fun p => (Some p, snd (nth p pairs (None, None)))) (seq 0 (List.length pairs)).
Proof.
  intros Hd pairs.
  destruct (outer_pairs_spec LK RK) as [S1 [S2 [S3 [S4 _]]]]. fold pairs in S1, S2, S3, S4.
  assert (Hrow : forall pr, In pr pairs ->
             matches (joined_key LK RK pr) RK
             = match snd pr with Some j => [j] | None => [] end).
  { intros [[i|] [j|]] Hpr; unfold joined_key; simpl.
    - apply S1 in Hpr as [Hi [Hj Hm]].
      destruct (key_match_Some _ _ Hm) as [Hn _].
      destruct (nth i LK None) eqn:E; [|congruence]. simpl.
      apply matches_singleton; assumption.
    - apply S2 in Hpr as [Hi Hno]. rewrite coalesce_cell_None_r. now apply matches_nil.
    - apply S3 in Hpr as [Hj _]. apply matches_singleton; try assumption.
      apply key_match_refl. now apply (proj1 Hd).
    - contradiction. }
  set (K1 := map (joined_key LK RK) pairs).
  assert (HK1 : forall p, nth p K1 None = joined_key LK RK (nth p pairs (None, None))).
  { intros p. unfold K1.
    change (@None value) with (joined_key LK RK (None, None)) at 1. apply map_nth. }
  unfold outer_pairs at 1. unfold K1 at 1. rewrite length_map.
  destruct (List.length pairs <=? List.length RK)%nat eqn:E.
  - (* the right rows probe the rows of the first join *)
    apply Nat.leb_le in E.
    pose proof (outer_pairs_short LK RK E) as Hp. fold pairs in Hp.
    assert (Hlen : List.length pairs = List.length RK).
    { rewrite Hp at 1. now rewrite length_map, length_seq. }
    assert (Hsnd : forall p, (p < List.length RK)%nat ->
              snd (nth p pairs (None, None)) = Some p).
    { intros p Hlt. rewrite Hp.
      rewrite (nth_indep _ (None, None)
                 (hd_error (matches (nth 0 RK None) LK), Some 0%nat))
        by (now rewrite length_map, length_seq).
      rewrite (map_nth (fun j => (hd_error (matches (nth j RK None) LK), Some j))).
      now rewrite seq_nth. }
    assert (Hm : forall j p, (j < List.length RK)%nat -> (p < List.length RK)%nat ->
              key_match (nth j RK None) (nth p K1 None) = true <-> p = j).
    { intros j p Hj Hlt. rewrite key_match_sym, HK1.
      assert (Hin : In (nth p pairs (None, None)) pairs) by (apply nth_In; lia).
      pose proof (Hrow _ Hin) as Hr. rewrite (Hsnd p Hlt) in Hr.
      split.
      - intros Hk.
        assert (Hjm : In j (matches (joined_key LK RK (nth p pairs (None, None))) RK)).
        { apply in_matches. now split. }
        rewrite Hr in Hjm. destruct Hjm as [-> | []]. reflexivity.
      - intros ->.
        assert (Hjm : In j (matches (joined_key LK RK (nth j pairs (None, None))) RK)).
        { rewrite Hr. now left. }
        now apply in_matches in Hjm. }
    assert (HlK : List.length K1 = List.length RK) by (unfold K1; now rewrite length_map).
    unfold probe_pairs.
    assert (Hright : join_right RK K1 = []).
    { unfold join_right. rewrite filter_none; [reflexivity|].
      intros p Hp'. apply in_seq in Hp'. apply negb_false_iff. apply existsb_exists.
      exists (nth p RK None). split; [apply nth_In; lia|]. apply Hm; [lia | lia | reflexivity]. }
    rewrite Hright, app_nil_r. unfold join_left.
    rewrite (flat_map_singleton _ (fun j => (Some j, Some j))).
    + rewrite map_map, Hlen. apply map_ext_in. intros p Hp'. apply in_seq in Hp'.
      cbn [swap fst snd]. rewrite Hsnd by lia. reflexivity.
    + intros j Hj. apply in_seq in Hj.
      assert (Hj1 : matches (nth j RK None) K1 = [j]).
      { unfold matches. rewrite HlK. apply filter_seq_singleton; [lia | |].
        - apply Hm; [lia | lia | reflexivity].
        - intros p Hp' Hk. apply Hm in Hk; [exact Hk | lia | lia]. }
      now rewrite Hj1.
  - (* the rows of the first join probe the right rows *)
    unfold probe_pairs.
    assert (Hright : join_right K1 RK = []).
    { unfold join_right. rewrite filter_none; [reflexivity|].
      intros j Hj. apply in_seq in Hj. apply negb_false_iff. apply existsb_exists.
      assert (Hin : In (Some j) (map snd pairs)) by (apply outer_pairs_right_total; lia).
      apply in_map_iff in Hin as [pr [Hs Hpr]].
      exists (joined_key LK RK pr). split; [now apply in_map|].
      assert (Hm := Hrow pr Hpr). rewrite Hs in Hm.
      assert (Hjm : In j (matches (joined_key LK RK pr) RK)) by (rewrite Hm; now left).
      now apply in_matches in Hjm. }
    rewrite Hright, app_nil_r. unfold join_left.
    replace (List.length K1) with (List.length pairs)
      by (unfold K1; now rewrite length_map).
    apply flat_map_singleton. intros p Hp. apply in_seq in Hp.
    rewrite HK1.
    assert (Hpr : In (nth p pairs (None, None)) pairs) by (apply nth_In; lia).
    rewrite (Hrow _ Hpr).
    now destruct (snd (nth p pairs (None, None))).
Qed.

Lemma map_nth_seq {A B} (f : A -> B) (l : list A) (d : A) :
  map (fun p => f (nth p l d)) (seq 0 (List.length l)) = map f l.
Proof.
  induction l as [|a l IH]; simpl; [reflexivity|]. f_equal.
  rewrite <- seq_shift, map_map. exact IH.
Qed.

(** A list whose first part fails a test and whose second part passes it
    is the rows that fail followed by the rows that pass. *)
Lemma filter_split {A} (q : A -> bool) (l1 l2 : list A) :
  (forall x, In x l1 -> q x = false) -> (forall x, In x l2 -> q x = true) ->
  filter (fun x => negb (q x)) (l1 ++ l2) ++ filter q (l1 ++ l2) = l1 ++ l2.
Proof.
  intros H1 H2. rewrite !filter_app.
  rewrite (filter_none q l1 H1).
  rewrite (filter_none (fun x => negb (q x)) l2).
  2:{ intros x Hx. now rewrite (H2 x Hx). }
  rewrite app_nil_r. simpl. f_equal.
  - clear H2. induction l1 as [|a l1 IH]; simpl; [reflexivity|].
    rewrite (H1 a (or_introl eq_refl)). simpl. f_equal. apply IH.
    intros x Hx. apply H1. now right.
  - clear H1. induction l2 as [|a l2 IH]; simpl; [reflexivity|].
    rewrite (H2 a (or_introl eq_refl)). f_equal. apply IH.
    intros x Hx. apply H2. now right.
Qed.

Lemma filter_filter_comm {A} (p q : A -> bool) (l : list A) :
  filter p (filter q l) = filter q (filter p l).
Proof.
  induction l as [|a l IH]; simpl; [reflexivity|].
  destruct (p a) eqn:Ep, (q a) eqn:Eq; simpl; rewrite ?Ep, ?Eq, IH; reflexivity.
Qed.

Lemma filter_idem {A} (p : A -> bool) (l : list A) :
  filter p (filter p l) = filter p l.
Proof.
  induction l as [|a l IH]; simpl; [reflexivity|].
  destruct (p a) eqn:Ep; simpl; rewrite ?Ep, IH; reflexivity.
Qed.

Section ReplaceMergeForm.

Variable cast_value : DataType -> DataType -> value -> option value.

(** The table [upsert_match] returns, in closed form. *)
Lemma upsert_match_form base0 delta key r :
  upsert_match cast_value base0 delta key = Ok r ->
  exists base overlap delta',
    align cast_value base0 delta key = Ok (base, overlap, delta') /\
    NoDup (merge_columns base overlap delta' key) /\
    (forall c, In c (merge_columns base overlap delta' key)
               <-> In c (columns base) \/ In c (columns delta')) /\
    NoDup (canonical_order (merge_columns base overlap delta' key)) /\
    (forall c, In c (canonical_order (merge_columns base overlap delta' key))
               <-> In c (merge_columns base overlap delta' key)) /\
    r = map (fun c => (c, merged_series base delta' key c))
            (canonical_order (merge_columns base overlap delta' key)).
Proof.
  intros H. unfold upsert_match in H. inv_bind H. rename x into o.
  destruct (upsert_Ok _ _ _ _ _ E) as [base [overlap [delta' [Ha [Hnd Ho]]]]].
  destruct (upsert_lookup _ _ _ _ _ E) as [base2 [overlap2 [delta2 [Ha2 [_ [Hin Hlk]]]]]].
  rewrite Ha in Ha2. inversion Ha2; subst base2 overlap2 delta2. clear Ha2.
  exists base, overlap, delta'. split; [assumption|].
  assert (Hcols : columns o = merge_columns base overlap delta' key).
  { rewrite Ho at 1. unfold columns at 1. rewrite map_map. simpl. now rewrite map_id. }
  rewrite <- Hcols.
  destruct (ordenar_y_validar_Ok _ _ _ _ H) as [Hall [_ Hsel]].
  destruct (select_Ok _ _ _ Hsel) as [Hnd2 [Hr Hsub]].
  split; [assumption|]. split; [assumption|].
  split; [exact Hnd2|].
  split.
  { intros c. split; [apply Hsub|]. intros Hc. unfold canonical_order.
    apply in_or_app. destruct (mem c (map fst head_to_head_schema)) eqn:Em.
    - left. now apply mem_In.
    - right. apply filter_In. split; [assumption | now rewrite Em]. }
  rewrite Hr. apply map_ext_in. intros c Hc. f_equal.
  rewrite (Hlk c (Hsub c Hc)). reflexivity.
Qed.

End ReplaceMergeForm.

Lemma replaced_cell_no_row base delta key c :
  replaced_cell base delta key c (None, None) = None.
Proof. unfold replaced_cell. simpl. now destruct (String.eqb c key). Qed.

Lemma canonical_order_columns names :
  filter (fun c => negb (mem c (map fst head_to_head_schema))) (canonical_order names)
  = filter (fun c => negb (mem c (map fst head_to_head_schema))) names.
Proof.
  unfold canonical_order. rewrite filter_app, filter_idem.
  rewrite filter_none; [reflexivity|].
  intros c Hc. apply negb_false_iff. now apply mem_In.
Qed.

Lemma columns_map_key {A} (f : string -> A) (l : list string) :
  map fst (map (fun c => (c, f c)) l) = l.
Proof. rewrite map_map. apply map_id. Qed.

Section Idempotence.

Variable cast_value : DataType -> DataType -> value -> option value.

Lemma upsert_match_again base delta key b1 ov1 d1 r1 r2 :
  align cast_value (IsDataFrame base) delta key = Ok (b1, ov1, d1) ->
  distinct_keys (key_cells d1 key) ->
  upsert_match cast_value (IsDataFrame base) delta key = Ok r1 ->
  upsert_match cast_value (IsDataFrame r1) delta key = Ok r2 ->
  r2 = r1.
Proof.
  intros Ha Hd H1 H2.
  destruct (upsert_match_form _ _ _ _ _ H1)
    as [b1' [ov1' [d1' [Ha1 [Hnd1 [Hin1 [HndN [HinN Hr1]]]]]]]].
  rewrite Ha in Ha1. inversion Ha1; subst b1' ov1' d1'. clear Ha1.
  destruct (upsert_match_form _ _ _ _ _ H2) as [b2 [ov2 [d2 [Ha2 [_ [_ [_ [_ Hr2]]]]]]]].
  set (N1 := canonical_order (merge_columns b1 ov1 d1 key)) in *.
  destruct (align_Ok _ _ _ _ _ _ _ Ha) as [Hkd [Hkb1 [_ [_ [Hov1 [Hc1 Hser1]]]]]].
  destruct (align_Ok _ _ _ _ _ _ _ Ha2) as [_ [_ [Hb2 [_ [Hov2 [Hc2 Hser2]]]]]].
  assert (Hcr1 : columns r1 = N1).
  { rewrite Hr1. unfold columns. apply columns_map_key. }
  assert (HN1 : forall c, In c N1 <-> In c (columns b1) \/ In c (columns delta)).
  { intros c. rewrite (HinN c), (Hin1 c), Hc1. tauto. }
  assert (Hlr1 : forall c, In c N1 -> lookup r1 c = Some (merged_series b1 d1 key c)).
  { intros c Hc. rewrite Hr1. rewrite (lookup_map_key (merged_series b1 d1 key)).
    apply mem_In in Hc. now rewrite Hc. }
  assert (Hkr1 : In key (columns r1)).
  { rewrite Hcr1. apply HN1. now left. }
  simpl in Hb2. specialize (Hb2 Hkr1). subst b2.
  (* the delta aligned with the merged table is the delta aligned with base *)
  assert (HD : forall c, lookup d2 c = lookup d1 c).
  { intros c. destruct (lookup delta c) as [d|] eqn:Ed.
    - destruct (Hser1 c d Ed) as [x1 [Hx1 Hm1]].
      destruct (Hser2 c d Ed) as [x2 [Hx2 Hm2]].
      rewrite Hx1, Hx2. f_equal.
      assert (HcN : In c N1).
      { apply HN1. right. apply In_columns_lookup. eauto. }
      rewrite (Hlr1 c HcN) in Hm2. destruct Hm2 as [_ [Hs2 Hk2]].
      unfold merged_series in Hs2, Hk2. simpl in Hs2, Hk2.
      destruct (lookup b1 c) as [b|] eqn:Eb.
      + destruct Hm1 as [_ [Hs1 Hk1]].
        destruct (DataType_eqb (dtype d) (dtype b)) eqn:Et.
        * apply DataType_eqb_eq in Et. now rewrite (Hs1 Et), (Hs2 Et).
        * assert (Hne : dtype d <> dtype b).
          { intros E. rewrite E, DataType_eqb_refl in Et. discriminate. }
          specialize (Hk1 Hne). specialize (Hk2 Hne). congruence.
      + subst x1. unfold frame_dtype in Hs2. rewrite Hx1 in Hs2. now apply Hs2.
    - assert (Hn : ~ In c (columns delta)) by (apply lookup_None; assumption).
      assert (Hn1 : lookup d1 c = None) by (apply lookup_None; fold (columns d1); now rewrite Hc1).
      assert (Hn2 : lookup d2 c = None) by (apply lookup_None; fold (columns d2); now rewrite Hc2).
      congruence. }
  assert (HDk : key_cells d2 key = key_cells d1 key).
  { unfold key_cells. now rewrite HD. }
  assert (HDr : forall c oj, row_cell d2 c oj = row_cell d1 c oj).
  { intros c oj. unfold row_cell, cell_at. now rewrite HD. }
  (* the keys of the merged table *)
  set (pairs1 := outer_pairs (key_cells b1 key) (key_cells d1 key)) in *.
  assert (HK1 : key_cells r1 key
                = map (joined_key (key_cells b1 key) (key_cells d1 key)) pairs1).
  { unfold key_cells at 1. rewrite (Hlr1 key) by (apply HN1; now left).
    unfold merged_series. simpl. fold pairs1. apply map_ext. intros pr.
    unfold replaced_cell, joined_key. rewrite String.eqb_refl.
    apply In_columns_lookup in Hkb1 as [sb Hsb].
    assert (Hkd1 : In key (columns d1)) by now rewrite Hc1.
    apply In_columns_lookup in Hkd1 as [sd Hsd].
    rewrite (row_cell_lookup _ _ _ _ Hsb), (row_cell_lookup _ _ _ _ Hsd).
    unfold key_cells. now rewrite Hsb, Hsd. }
  (* every column of the second merge is the column of the first *)
  assert (HG : forall c, In c N1 -> merged_series r1 d2 key c = merged_series b1 d1 key c).
  { intros c Hc. unfold merged_series at 1. rewrite (Hlr1 c Hc).
    unfold merged_series at 2. f_equal. fold pairs1.
    rewrite HDk, HK1.
    pose proof (outer_pairs_again (key_cells b1 key) (key_cells d1 key) Hd) as Hagain.
    cbv zeta in Hagain. fold pairs1 in Hagain. rewrite Hagain.
    rewrite map_map.
    rewrite <- (map_nth_seq (replaced_cell b1 d1 key c) pairs1 (None, None)).
    apply map_ext. intros p.
    unfold replaced_cell at 1. simpl fst. simpl snd. rewrite HDr.
    assert (Hrow : row_cell r1 c (Some p)
                   = replaced_cell b1 d1 key c (nth p pairs1 (None, None))).
    { unfold row_cell, cell_at. rewrite (Hlr1 c Hc). unfold merged_series. simpl.
      fold pairs1.
      rewrite <- (replaced_cell_no_row b1 d1 key c) at 1. apply map_nth. }
    rewrite Hrow. unfold replaced_cell at 1 2 3.
    destruct (String.eqb c key).
    - apply coalesce_cell_absorb_r.
    - apply coalesce_cell_absorb_l. }
  (* the columns of the second merge are those of the first, in order *)
  set (Q := fun c => mem c (columns delta) && negb (String.eqb c key)) in *.
  set (nc := fun c => negb (mem c (map fst head_to_head_schema))) in *.
  assert (HM2 : merge_columns r1 ov2 d2 key
                = filter (fun c => negb (Q c)) N1 ++ filter Q N1).
  { unfold merge_columns. rewrite Hov2, Hcr1. fold Q.
    rewrite (filter_none _ (columns d2)).
    - rewrite app_nil_r. f_equal. apply filter_ext_in. intros c Hc. f_equal.
      destruct (Q c) eqn:Eq.
      + apply mem_In. apply filter_In. now split.
      + apply mem_false. intros Hf. apply filter_In in Hf. destruct Hf. congruence.
    - intros c Hc. rewrite Hc2 in Hc.
      destruct (String.eqb_spec c key) as [->|Hne]; [apply andb_false_r|].
      rewrite andb_true_r. apply negb_false_iff. apply mem_In. apply filter_In.
      split; [apply HN1; now right|]. unfold Q. apply andb_true_iff.
      split; [now apply mem_In | now apply negb_true_iff, String.eqb_neq]. }
  assert (HN2 : canonical_order (merge_columns r1 ov2 d2 key) = N1).
  { rewrite HM2. unfold canonical_order at 1. fold nc. rewrite filter_app.
    rewrite (filter_filter_comm nc), (filter_filter_comm nc Q).
    unfold N1 at 1 2. unfold nc at 1 2. rewrite canonical_order_columns. fold nc.
    unfold N1, canonical_order. fold nc. f_equal.
    unfold merge_columns. rewrite filter_app.
    apply filter_split.
    - intros c Hc. apply filter_In in Hc as [Hc _]. apply filter_In in Hc as [Hcb Hco].
      apply negb_true_iff, mem_false in Hco. rewrite Hov1 in Hco. fold Q in Hco.
      destruct (Q c) eqn:Eq; [|reflexivity]. exfalso. apply Hco. apply filter_In. now split.
    - intros c Hc. apply filter_In in Hc as [Hc _]. apply in_app_or in Hc as [Hc | Hc].
      + rewrite Hov1 in Hc. apply filter_In in Hc as [_ Hc]. exact Hc.
      + apply filter_In in Hc as [Hcd Hf]. apply andb_true_iff in Hf as [_ Hne].
        unfold Q. rewrite Hne, andb_true_r. apply mem_In. now rewrite <- Hc1. }
  rewrite Hr2, HN2. etransitivity; [|symmetry; exact Hr1].
  apply map_ext_in. intros c Hc. f_equal. apply HG. exact Hc.
Qed.

End Idempotence.

(** C7, amended. The replace-merge is idempotent on a delta whose keys,
    at the dtype of base's key, are non-null and pairwise different: when
    merging the delta into the merged table again returns a table, it is
    the merged table. *)
Theorem upsert_match_idempotent
    (cast_value : DataType -> DataType -> value -> option value)
    (base delta : DataFrame) (key : string)
    (base' : DataFrame) (overlap : list string) (delta' : DataFrame) (r : DataFrame) :
  align cast_value (IsDataFrame base) delta key = Ok (base', overlap, delta') ->
  distinct_keys (key_cells delta' key) ->
  upsert_match_twice cast_value base delta key = Ok r ->
  upsert_match cast_value (IsDataFrame base) delta key = Ok r.
Proof.
  intros Ha Hd H. unfold upsert_match_twice in H. inv_bind H. rename x into r1.
  rewrite E. f_equal. symmetry. eapply upsert_match_again; eassumption.
Qed.

Lemma upsert_match_idempotent_witness :
  align numeric_cast (IsDataFrame base7) delta7 "MatchId"
  = Ok (base7, ["TurnOver_SGD"], delta7) /\
  distinct_keys (key_cells delta7 "MatchId") /\
  upsert_match_twice numeric_cast base7 delta7 "MatchId" = Ok match7 /\
  upsert_match numeric_cast (IsDataFrame base7) delta7 "MatchId" = Ok match7.
Proof.
  assert (Ha : align numeric_cast (IsDataFrame base7) delta7 "MatchId"
               = Ok (base7, ["TurnOver_SGD"], delta7)) by (vm_compute; reflexivity).
  assert (Hd : distinct_keys (key_cells delta7 "MatchId")).
  { split.
    - intros j Hj. simpl in Hj. destruct j; [discriminate | lia].
    - intros j j' Hj Hj' _. simpl in Hj, Hj'. lia. }
  assert (H2 : upsert_match_twice numeric_cast base7 delta7 "MatchId" = Ok match7)
    by (vm_compute; reflexivity).
  split; [exact Ha|]. split; [exact Hd|]. split; [exact H2|].
  exact (upsert_match_idempotent numeric_cast base7 delta7 "MatchId"
           base7 ["TurnOver_SGD"] delta7 match7 Ha Hd H2).
Defined.

(** * Further properties of the validator *)

Lemma in_malos_of sch esquema c act esp :
  In (c, (act, esp)) (malos_of sch esquema) <->
  In (c, esp) esquema /\ lookup sch c = act /\ act <> Some esp.
Proof.
  induction esquema as [|[n t] esquema IH]; simpl; [tauto|].
  destruct (lookup sch n) as [a|] eqn:E.
  - destruct (DataType_eqb a t) eqn:Et.
    + rewrite IH. apply DataType_eqb_eq in Et. subst a. split.
      * intros [H1 H2]. tauto.
      * intros [[H | H] [H2 H3]]; [|tauto]. inversion H; subst. congruence.
    + simpl. rewrite IH. split.
      * intros [H | H]; [|tauto]. inversion H; subst. split; [now left|].
        split; [assumption|]. intros [= ->]. rewrite DataType_eqb_refl in Et. discriminate.
      * intros [[H | H] [H2 H3]]; [|tauto]. inversion H; subst. left. congruence.
  - simpl. rewrite IH. split.
    + intros [H | H]; [|tauto]. inversion H; subst. split; [now left|].
      split; [assumption | discriminate].
    + intros [[H | H] [H2 H3]]; [|tauto]. inversion H; subst. left. congruence.
Qed.

Lemma select_intro df names :
  NoDup names -> (forall c, In c names -> In c (columns df)) ->
  select df names
  = Ok (map (fun c => (c, match lookup df c with
                          | Some s => s
                          | None => mkSeries Null []
                          end)) names).
Proof.
  intros Hnd Hin. unfold select, select_exprs. rewrite map_map. simpl. rewrite map_id.
  apply nodupb_NoDup in Hnd. rewrite Hnd. clear Hnd.
  induction names as [|c names IH]; [reflexivity|].
  cbn [map sequence fst snd]. unfold col at 1.
  destruct (lookup_Some_In df c (Hin c (or_introl eq_refl))) as [s Hs]. rewrite Hs.
  cbn [bind]. rewrite IH; [reflexivity|]. intros c' Hc'. apply Hin. now right.
Qed.

Lemma faltan_nil (df : DataFrame) (columnas : list string) :
  filter (fun c => negb (mem c (columns df))) columnas = [] <->
  forall c, In c columnas -> In c (columns df).
Proof.
  split.
  - intros E c Hc. apply (filter_nil _ _ E) in Hc. apply negb_false_iff in Hc.
    now apply mem_In.
  - intros H. apply filter_none. intros c Hc. apply negb_false_iff, mem_In. now apply H.
Qed.

Lemma malos_nil sch esquema :
  malos_of sch esquema = [] <-> forall c t, In (c, t) esquema -> lookup sch c = Some t.
Proof.
  split; [apply malos_of_nil|]. intros H.
  destruct (malos_of sch esquema) as [|[c [act esp]] l] eqn:E; [reflexivity|].
  assert (Hin : In (c, (act, esp)) (malos_of sch esquema)) by (rewrite E; now left).
  apply in_malos_of in Hin as [H1 [H2 H3]]. rewrite (H c esp H1) in H2. congruence.
Qed.

Lemma incl_by_mem (l1 l2 : list string) :
  forallb (fun c => mem c l2) l1 = true -> forall c, In c l1 -> In c l2.
Proof.
  intros H c Hc. rewrite forallb_forall in H. apply mem_In. now apply H.
Qed.

(** X1. When every column of the schema is there but one has another
    dtype, the validator raises the type error, which lists exactly the
    columns whose dtype in the frame is not the declared one. *)
Theorem ordenar_y_validar_type_mismatch
    (df : DataFrame) (esquema : Schema) (permitir_extras : bool) :
  (forall c, In c (map fst esquema) -> In c (columns df)) ->
  (exists c t, In (c, t) esquema /\ lookup (schema df) c <> Some t) ->
  exists malos,
    ordenar_y_validar df esquema permitir_extras = Err (TypeMismatch malos) /\
    malos <> [] /\
    forall c act esp, In (c, (act, esp)) malos <->
      In (c, esp) esquema /\ lookup (schema df) c = act /\ act <> Some esp.
Proof.
  intros Hall [c0 [t0 [Hin Hne]]].
  exists (malos_of (schema df) esquema).
  assert (Hm : malos_of (schema df) esquema <> []).
  { intros E. apply Hne. now apply (proj1 (malos_nil _ _) E). }
  split; [|split; [assumption | intros; apply in_malos_of]].
  unfold ordenar_y_validar. rewrite (proj2 (faltan_nil df _) Hall). cbn [is_nil negb].
  destruct (malos_of (schema df) esquema); [congruence | reflexivity].
Qed.

Lemma ordenar_y_validar_type_mismatch_witness :
  exists malos,
    ordenar_y_validar
      (replace_column empty_head_to_head "MatchId" (mkSeries Utf8 []))
      head_to_head_schema true = Err (TypeMismatch malos) /\
    malos <> [] /\
    forall c act esp, In (c, (act, esp)) malos <->
      In (c, esp) head_to_head_schema /\
      lookup (schema (replace_column empty_head_to_head "MatchId" (mkSeries Utf8 []))) c
      = act /\
      act <> Some esp.
Proof.
  apply ordenar_y_validar_type_mismatch.
  - apply incl_by_mem. vm_compute. reflexivity.
  - exists "MatchId", Int64. split; [now left|]. vm_compute. discriminate.
Defined.

(** X2. With [permitir_extras=False], a frame that has every column of
    the schema at its dtype and also other columns is rejected with the
    unexpected-columns error, which lists those other columns in the
    order of the frame. *)
Theorem ordenar_y_validar_unexpected (df : DataFrame) (esquema : Schema) :
  (forall c, In c (map fst esquema) -> In c (columns df)) ->
  (forall c t, In (c, t) esquema -> lookup (schema df) c = Some t) ->
  (exists c, In c (columns df) /\ ~ In c (map fst esquema)) ->
  ordenar_y_validar df esquema false
  = Err (UnexpectedColumns
           (filter (fun c => negb (mem c (map fst esquema))) (columns df))).
Proof.
  intros Hall Hty [c0 [Hc0 Hn0]].
  unfold ordenar_y_validar. rewrite (proj2 (faltan_nil df _) Hall). cbn [is_nil negb].
  rewrite (proj2 (malos_nil _ _) Hty). cbn [is_nil negb].
  destruct (filter _ (columns df)) as [|x l] eqn:E; [|reflexivity].
  exfalso. assert (H : In c0 []); [|inversion H].
  rewrite <- E. apply filter_In. split; [assumption|].
  apply negb_true_iff. now apply mem_false.
Qed.

Lemma ordenar_y_validar_unexpected_witness :
  ordenar_y_validar (empty_head_to_head ++ [("Note", mkSeries Utf8 [])])
    head_to_head_schema false
  = Err (UnexpectedColumns
           (filter (fun c => negb (mem c (map fst head_to_head_schema)))
              (columns (empty_head_to_head ++ [("Note", mkSeries Utf8 [])])))).
Proof.
  apply ordenar_y_validar_unexpected.
  - apply incl_by_mem. vm_compute. reflexivity.
  - apply malos_nil. vm_compute. reflexivity.
  - exists "Note". split.
    + apply mem_In. vm_compute. reflexivity.
    + apply mem_false. vm_compute. reflexivity.
Defined.

Lemma ordenar_y_validar_intro df esquema pe :
  (forall c, In c (map fst esquema) -> In c (columns df)) ->
  (forall c t, In (c, t) esquema -> lookup (schema df) c = Some t) ->
  (pe = true \/ forall c, In c (columns df) -> In c (map fst esquema)) ->
  NoDup (map fst esquema
         ++ filter (fun c => negb (mem c (map fst esquema))) (columns df)) ->
  ordenar_y_validar df esquema pe
  = Ok (map (fun c => (c, match lookup df c with
                          | Some s => s
                          | None => mkSeries Null []
                          end))
          (map fst esquema
           ++ filter (fun c => negb (mem c (map fst esquema))) (columns df))).
Proof.
  intros Hall Hty Hex Hnd. unfold ordenar_y_validar.
  rewrite (proj2 (faltan_nil df _) Hall). cbn [is_nil negb].
  rewrite (proj2 (malos_nil _ _) Hty). cbn [is_nil negb].
  assert (Hchk : negb (is_nil (filter (fun c => negb (mem c (map fst esquema)))
                                 (columns df))) && negb pe = false).
  { destruct Hex as [-> | Hex]; [apply andb_false_r|].
    rewrite filter_none; [reflexivity|].
    intros c Hc. apply negb_false_iff, mem_In. now apply Hex. }
  rewrite Hchk. apply select_intro; [assumption|].
  intros c Hc. apply in_app_or in Hc as [Hc | Hc]; [now apply Hall|].
  now apply filter_In in Hc.
Qed.

(** X3. A validated frame has the columns of the schema in the order of
    the schema, then the other columns of the input in their order, and
    every column is the column of the input: none is altered, lost or
    added. *)
Theorem ordenar_y_validar_reorders
    (df : DataFrame) (esquema : Schema) (permitir_extras : bool) (out : DataFrame) :
  ordenar_y_validar df esquema permitir_extras = Ok out ->
  columns out
  = map fst esquema ++ filter (fun c => negb (mem c (map fst esquema))) (columns df) /\
  forall c, lookup out c = lookup df c.
Proof.
  intros H. split.
  - destruct (ordenar_y_validar_Ok _ _ _ _ H) as [_ [_ Hsel]].
    rewrite (select_exprs_columns _ _ Hsel). now rewrite columns_map_key.
  - intros c. eapply ordenar_y_validar_lookup. eassumption.
Qed.

Lemma ordenar_y_validar_reorders_witness :
  ordenar_y_validar
    ([("Note", mkSeries Utf8 [None])] ++ base7) head_to_head_schema true
  = Ok (base7 ++ [("Note", mkSeries Utf8 [None])]) /\
  columns (base7 ++ [("Note", mkSeries Utf8 [None])])
  = map fst head_to_head_schema
    ++ filter (fun c => negb (mem c (map fst head_to_head_schema)))
         (columns ([("Note", mkSeries Utf8 [None])] ++ base7)) /\
  forall c, lookup (base7 ++ [("Note", mkSeries Utf8 [None])]) c
            = lookup ([("Note", mkSeries Utf8 [None])] ++ base7) c.
Proof.
  assert (H : ordenar_y_validar
                ([("Note", mkSeries Utf8 [None])] ++ base7) head_to_head_schema true
              = Ok (base7 ++ [("Note", mkSeries Utf8 [None])]))
    by (vm_compute; reflexivity).
  split; [exact H|].
  exact (ordenar_y_validar_reorders _ _ _ _ H).
Defined.

(** X4. Validating a validated frame changes nothing: it is accepted
    again and returned as it is. *)
Theorem ordenar_y_validar_idempotent
    (df : DataFrame) (esquema : Schema) (permitir_extras : bool) (out : DataFrame) :
  ordenar_y_validar df esquema permitir_extras = Ok out ->
  ordenar_y_validar out esquema permitir_extras = Ok out.
Proof.
  intros H.
  destruct (ordenar_y_validar_Ok _ _ _ _ H) as [Hall [Hty Hsel]].
  destruct (ordenar_y_validar_reorders _ _ _ _ H) as [Hcols Hlk].
  destruct (select_Ok _ _ _ Hsel) as [Hnd [Hout _]].
  set (nc := fun c => negb (mem c (map fst esquema))) in *.
  assert (Hex : filter nc (columns out) = filter nc (columns df)).
  { rewrite Hcols, filter_app, filter_idem. rewrite filter_none; [reflexivity|].
    intros c Hc. unfold nc. apply negb_false_iff. now apply mem_In. }
  assert (Hchk : permitir_extras = true \/
                 forall c, In c (columns out) -> In c (map fst esquema)).
  { unfold ordenar_y_validar in H.
    destruct (negb (is_nil (filter _ (map fst esquema)))); [discriminate|].
    destruct (negb (is_nil (malos_of (schema df) esquema))); [discriminate|].
    fold nc in H. destruct permitir_extras; [now left|]. right.
    destruct (filter nc (columns df)) as [|x l] eqn:E; [|discriminate].
    intros c Hc. rewrite Hcols in Hc. rewrite ?E, app_nil_r in Hc. exact Hc. }
  rewrite ordenar_y_validar_intro.
  - fold nc. rewrite Hex. f_equal. etransitivity; [|symmetry; exact Hout].
    apply map_ext. intros c. now rewrite Hlk.
  - intros c Hc. rewrite Hcols. apply in_or_app. now left.
  - intros c t Hin. rewrite lookup_schema, Hlk, <- lookup_schema. now apply Hty.
  - exact Hchk.
  - fold nc. rewrite Hex. exact Hnd.
Qed.

Lemma ordenar_y_validar_idempotent_witness :
  ordenar_y_validar
    ([("Note", mkSeries Utf8 [None])] ++ base7) head_to_head_schema true
  = Ok (base7 ++ [("Note", mkSeries Utf8 [None])]) /\
  ordenar_y_validar
    (base7 ++ [("Note", mkSeries Utf8 [None])]) head_to_head_schema true
  = Ok (base7 ++ [("Note", mkSeries Utf8 [None])]).
Proof.
  assert (H : ordenar_y_validar
                ([("Note", mkSeries Utf8 [None])] ++ base7) head_to_head_schema true
              = Ok (base7 ++ [("Note", mkSeries Utf8 [None])]))
    by (vm_compute; reflexivity).
  split; [exact H|].
  exact (ordenar_y_validar_idempotent _ _ _ _ H).
Defined.

(** X5. The frames the validator accepts: on a frame and a schema without
    repeated names, the validator returns a frame exactly when every
    column of the schema is in the frame with the declared dtype and,
    unless extra columns are permitted, the frame has no other column. *)
Theorem ordenar_y_validar_accepts
    (df : DataFrame) (esquema : Schema) (permitir_extras : bool) :
  NoDup (columns df) ->
  NoDup (map fst esquema) ->
  ((exists out, ordenar_y_validar df esquema permitir_extras = Ok out) <->
   (forall c t, In (c, t) esquema -> lookup (schema df) c = Some t) /\
   (permitir_extras = true \/ forall c, In c (columns df) -> In c (map fst esquema))).
Proof.
  intros Hnd Hns. set (nc := fun c => negb (mem c (map fst esquema))).
  split.
  - intros [out H].
    destruct (ordenar_y_validar_Ok _ _ _ _ H) as [Hall [Hty _]].
    split; [assumption|].
    unfold ordenar_y_validar in H.
    destruct (negb (is_nil (filter _ (map fst esquema)))); [discriminate|].
    destruct (negb (is_nil (malos_of (schema df) esquema))); [discriminate|].
    fold nc in H. destruct permitir_extras; [now left|]. right.
    destruct (filter nc (columns df)) as [|x l] eqn:E; [|discriminate].
    intros c Hc. destruct (mem c (map fst esquema)) eqn:Em; [now apply mem_In|].
    exfalso. assert (Hin : In c []); [|inversion Hin].
    rewrite <- E. apply filter_In. split; [assumption|]. unfold nc. now rewrite Em.
  - intros [Hty Hex]. eexists. apply ordenar_y_validar_intro; try assumption.
    + intros c Hc. apply in_map_iff in Hc as [[n t] [<- Hin]]. simpl.
      specialize (Hty n t Hin). rewrite lookup_schema in Hty.
      apply In_columns_lookup. destruct (lookup df n); [eauto | discriminate].
    + fold nc. apply NoDup_app.
      * assumption.
      * now apply NoDup_filter.
      * intros c Hc Hf. apply filter_In in Hf as [_ Hf]. unfold nc in Hf.
        apply negb_true_iff, mem_false in Hf. contradiction.
Qed.

Lemma ordenar_y_validar_accepts_witness :
  NoDup (columns base7) /\
  NoDup (map fst head_to_head_schema) /\
  ((exists out, ordenar_y_validar base7 head_to_head_schema false = Ok out) <->
   (forall c t, In (c, t) head_to_head_schema -> lookup (schema base7) c = Some t) /\
   (false = true \/ forall c, In c (columns base7) -> In c (map fst head_to_head_schema))).
Proof.
  assert (H1 : NoDup (columns base7)) by (apply nodupb_NoDup; vm_compute; reflexivity).
  assert (H2 : NoDup (map fst head_to_head_schema)) by exact NoDup_canonical.
  split; [exact H1|]. split; [exact H2|].
  exact (ordenar_y_validar_accepts base7 head_to_head_schema false H1 H2).
Defined.

(** * Further properties of the merges that join *)

(** X6. Whatever the base, a frame or a schema, [upsert], [upsert_match]
    and [upsert_bets] raise the missing-key error on a delta without the
    key column, before anything else. *)
Theorem join_merges_missing_key
    (cast_value : DataType -> DataType -> value -> option value)
    (base : frame_or_schema) (delta : DataFrame) (key : string) :
  ~ In key (columns delta) ->
  upsert cast_value base delta key = Err (MissingKey key) /\
  upsert_match cast_value base delta key = Err (MissingKey key) /\
  upsert_bets cast_value base delta key = Err (MissingKey key).
Proof.
  intros H. split; [|split].
  - unfold upsert. now rewrite align_missing_key.
  - now apply upsert_match_missing_key.
  - now apply upsert_bets_missing_key.
Qed.

Lemma join_merges_missing_key_witness :
  ~ In "MatchId" (columns delta_without_key) /\
  upsert numeric_cast (IsSchema head_to_head_schema) delta_without_key "MatchId"
  = Err (MissingKey "MatchId") /\
  upsert_match numeric_cast (IsSchema head_to_head_schema) delta_without_key "MatchId"
  = Err (MissingKey "MatchId") /\
  upsert_bets numeric_cast (IsSchema head_to_head_schema) delta_without_key "MatchId"
  = Err (MissingKey "MatchId").
Proof.
  assert (H : ~ In "MatchId" (columns delta_without_key)).
  { apply mem_false. vm_compute. reflexivity. }
  split; [exact H|].
  exact (join_merges_missing_key numeric_cast (IsSchema head_to_head_schema)
           delta_without_key "MatchId" H).
Defined.

(** ** The rows of a join on distinct right keys *)

Lemma matches_distinct k RK :
  distinct_keys RK ->
  matches k RK = match match_of k RK with Some j => [j] | None => [] end.
Proof.
  intros Hd. unfold match_of. destruct (matches k RK) as [|j l] eqn:E; [reflexivity|].
  simpl. rewrite <- E.
  assert (Hj : In j (matches k RK)) by (rewrite E; now left).
  apply in_matches in Hj as [Hj Hm]. now apply matches_singleton.
Qed.



(** On distinct right keys a probe of the right rows with the left rows
    keeps every left row once, at its place, with the right row it matches
    if any, and then adds the right rows no left row matches. *)
Lemma probe_pairs_distinct LK RK :
  distinct_keys RK ->
  probe_pairs LK RK
  = map (fun i => (Some i, match_of (nth i LK None) RK)) (seq 0 (List.length LK))
    ++ map (fun j => (None, Some j)) (new_rows LK RK).
Proof.
  intros Hd. unfold probe_pairs. f_equal. unfold join_left.
  apply flat_map_singleton. intros i _.
  rewrite (matches_distinct _ _ Hd).
  now destruct (match_of (nth i LK None) RK).
Qed.

Lemma probe_pairs_distinct_length LK RK :
  distinct_keys RK ->
  List.length (probe_pairs LK RK)
  = (List.length LK + List.length (new_rows LK RK))%nat.
Proof.
  intros Hd. rewrite (probe_pairs_distinct _ _ Hd).
  now rewrite length_app, !length_map, length_seq.
Qed.

Lemma probe_pairs_distinct_left LK RK i :
  distinct_keys RK -> (i < List.length LK)%nat ->
  nth_error (probe_pairs LK RK) i = Some (Some i, match_of (nth i LK None) RK).
Proof.
  intros Hd Hi. rewrite (probe_pairs_distinct _ _ Hd).
  rewrite nth_error_app1 by (now rewrite length_map, length_seq).
  rewrite nth_error_map, nth_error_nth' with (d := 0%nat) by (now rewrite length_seq).
  now rewrite seq_nth.
Qed.

Lemma probe_pairs_distinct_right LK RK q :
  distinct_keys RK -> (q < List.length (new_rows LK RK))%nat ->
  nth_error (probe_pairs LK RK) (List.length LK + q)
  = Some (None, Some (nth q (new_rows LK RK) 0%nat)).
Proof.
  intros Hd Hq. rewrite (probe_pairs_distinct _ _ Hd).
  rewrite nth_error_app2 by (rewrite length_map, length_seq; lia).
  rewrite length_map, length_seq.
  replace (List.length LK + q - List.length LK)%nat with q by lia.
  rewrite nth_error_map, nth_error_nth' with (d := 0%nat) by assumption.
  reflexivity.
Qed.

(** Two lists of pairs of one full outer join hold the same pairs. *)
Lemma full_outer_join_Permutation lk rk pairs pairs' :
  full_outer_join lk rk pairs -> full_outer_join lk rk pairs' ->
  Permutation pairs pairs'.
Proof.
  intros [H1 [H2 [H3 [H4 H5]]]] [H1' [H2' [H3' [H4' H5']]]].
  apply NoDup_Permutation; [assumption | assumption |].
  intros [[i|] [j|]].
  - now rewrite H1, H1'.
  - now rewrite H2, H2'.
  - now rewrite H3, H3'.
  - tauto.
Qed.

(** The rows of the join are those of the probe with the left rows, in
    some order. *)
Lemma outer_pairs_Permutation LK RK :
  Permutation (outer_pairs LK RK) (probe_pairs LK RK).
Proof.
  apply (full_outer_join_Permutation LK RK);
    [apply outer_pairs_spec | apply probe_pairs_spec].
Qed.

Lemma distinct_keys_cons a K :
  distinct_keys (a :: K) <->
  a <> None /\ Forall (fun b => key_match a b = false) K /\ distinct_keys K.
Proof.
  split.
  - intros [Hn Hu]. split; [|split; [|split]].
    + apply (Hn 0%nat). simpl. lia.
    + apply Forall_forall. intros b Hb.
      destruct (@In_nth cell K b None Hb) as [j [Hj <-]].
      destruct (key_match a (nth j K None)) eqn:E; [|reflexivity].
      assert (H0 : 0%nat = S j); [|discriminate].
      apply Hu; [simpl; lia | simpl; lia | exact E].
    + intros j Hj. apply (Hn (S j)). simpl. lia.
    + intros j j' Hj Hj' Hm.
      assert (H0 : S j = S j'); [|lia].
      apply Hu; [simpl; lia | simpl; lia | exact Hm].
  - intros [Ha [Hf [Hn Hu]]]. rewrite Forall_forall in Hf. split.
    + intros [|j] Hj; cbn [nth]; [exact Ha|]. apply Hn. simpl in Hj. lia.
    + intros [|j] [|j'] Hj Hj' Hm; cbn [nth] in Hm; simpl in Hj, Hj'.
      * reflexivity.
      * rewrite (Hf (nth j' K None)) in Hm by (apply nth_In; lia). discriminate.
      * rewrite key_match_sym, (Hf (nth j K None)) in Hm by (apply nth_In; lia).
        discriminate.
      * f_equal. apply Hu; [lia | lia | exact Hm].
Qed.

Lemma distinct_keys_nil : distinct_keys [].
Proof.
  split.
  - intros j Hj. simpl in Hj. lia.
  - intros j j' Hj. simpl in Hj. lia.
Qed.

(** Distinct keys stay distinct in another order. *)
Lemma distinct_keys_Permutation K K' :
  Permutation K K' -> distinct_keys K -> distinct_keys K'.
Proof.
  induction 1 as [|a K K' HP IH|a b K|K K' K'' _ IH1 _ IH2].
  - trivial.
  - rewrite !distinct_keys_cons. intros [Ha [Hf Hd]]. split; [exact Ha|]. split.
    + rewrite Forall_forall in *. intros x Hx. apply Hf.
      now apply (Permutation_in _ (Permutation_sym HP)).
    + now apply IH.
  - rewrite !distinct_keys_cons. intros [Hb [Hf [Ha [Hf' Hd]]]].
    inversion Hf as [|? ? Hba Hf'']; subst.
    split; [exact Ha|]. split; [|split; [exact Hb|split; [exact Hf''|exact Hd]]].
    constructor; [|exact Hf']. now rewrite key_match_sym.
  - intros H. now apply IH2, IH1.
Qed.

Lemma in_new_rows LK RK j :
  In j (new_rows LK RK) <->
  (j < List.length RK)%nat /\
  forall i, (i < List.length LK)%nat -> key_match (nth i LK None) (nth j RK None) = false.
Proof.
  assert (H := in_join_right LK RK None (Some j)).
  unfold join_right in H. fold (new_rows LK RK) in H.
  rewrite in_map_iff in H. split.
  - intros Hj. destruct (proj1 H) as [_ [j' [E [Hlt Hno]]]].
    + exists j. now split.
    + inversion E; subst j'. now split.
  - intros [Hlt Hno]. destruct (proj2 H) as [j' [E Hin]].
    + split; [reflexivity|]. exists j. now repeat split.
    + now inversion E; subst j'.
Qed.

Lemma NoDup_new_rows LK RK : NoDup (new_rows LK RK).
Proof. unfold new_rows. apply NoDup_filter, seq_NoDup. Qed.

Lemma probe_keys_distinct LK RK :
  distinct_keys LK -> distinct_keys RK ->
  distinct_keys (map (joined_key LK RK) (probe_pairs LK RK)).
Proof.
  intros [HLn HLu] Hd. assert (Hd' := Hd). destruct Hd' as [HRn HRu].
  set (n := List.length LK). set (N := new_rows LK RK).
  assert (Hlen : List.length (map (joined_key LK RK) (probe_pairs LK RK))
                 = (n + List.length N)%nat).
  { rewrite length_map. now apply probe_pairs_distinct_length. }
  assert (Hkey : forall p, (p < n + List.length N)%nat ->
             nth p (map (joined_key LK RK) (probe_pairs LK RK)) None
             = if (p <? n)%nat then nth p LK None else nth (nth (p - n) N 0%nat) RK None).
  { intros p Hp. destruct (Nat.ltb_spec p n) as [Hlt | Hge].
    - rewrite (nth_map_cell _ _ _ _ (probe_pairs_distinct_left LK RK p Hd Hlt)).
      unfold joined_key. simpl. destruct (nth p LK None) eqn:E; [reflexivity|].
      exfalso. now apply (HLn p Hlt).
    - assert (Hq : (p - n < List.length N)%nat) by lia.
      assert (Hr := probe_pairs_distinct_right LK RK (p - n) Hd Hq).
      fold n in Hr. replace (n + (p - n))%nat with p in Hr by lia.
      rewrite (nth_map_cell _ _ _ _ Hr). reflexivity. }
  assert (HN : forall q, (q < List.length N)%nat ->
             (nth q N 0%nat < List.length RK)%nat /\
             forall i, (i < n)%nat ->
               key_match (nth i LK None) (nth (nth q N 0%nat) RK None) = false).
  { intros q Hq. apply in_new_rows. now apply nth_In. }
  split.
  - intros p Hp. rewrite Hlen in Hp. rewrite (Hkey p Hp).
    destruct (Nat.ltb_spec p n) as [Hlt | Hge]; [now apply HLn|].
    apply HRn. apply HN. lia.
  - intros p p' Hp Hp' Hm. rewrite Hlen in Hp, Hp'.
    rewrite (Hkey p Hp), (Hkey p' Hp') in Hm.
    destruct (Nat.ltb_spec p n) as [Hlt | Hge];
      destruct (Nat.ltb_spec p' n) as [Hlt' | Hge'].
    + now apply HLu.
    + exfalso. destruct (HN (p' - n)%nat ltac:(lia)) as [_ Hno].
      rewrite (Hno p Hlt) in Hm. discriminate.
    + exfalso. destruct (HN (p - n)%nat ltac:(lia)) as [_ Hno].
      rewrite key_match_sym, (Hno p' Hlt') in Hm. discriminate.
    + destruct (HN (p - n)%nat ltac:(lia)) as [H1 _].
      destruct (HN (p' - n)%nat ltac:(lia)) as [H2 _].
      assert (E := HRu _ _ H1 H2 Hm).
      assert (E' : (p - n = p' - n)%nat).
      { apply (proj1 (NoDup_nth N 0%nat) (NoDup_new_rows LK RK)); [lia | lia | exact E]. }
      lia.
Qed.

(** The keys of a join of distinct keys are distinct. *)
Lemma joined_keys_distinct LK RK :
  distinct_keys LK -> distinct_keys RK ->
  distinct_keys (map (joined_key LK RK) (outer_pairs LK RK)).
Proof.
  intros HL HR.
  apply (distinct_keys_Permutation (map (joined_key LK RK) (probe_pairs LK RK))).
  - apply Permutation_map, Permutation_sym, outer_pairs_Permutation.
  - now apply probe_keys_distinct.
Qed.

Lemma filter_all {A} (f : A -> bool) (l : list A) :
  (forall x, In x l -> f x = true) -> filter f l = l.
Proof.
  induction l as [|a l IH]; simpl; [reflexivity|]. intros H.
  rewrite (H a (or_introl eq_refl)). f_equal. apply IH. intros x Hx. apply H. now right.
Qed.

Section JoinMergeRows.

Variable cast_value : DataType -> DataType -> value -> option value.

(** The columns of the table [upsert_match] returns. *)
Lemma upsert_match_columns base0 delta key base overlap delta' out :
  align cast_value base0 delta key = Ok (base, overlap, delta') ->
  upsert_match cast_value base0 delta key = Ok out ->
  (forall c, In c (columns out) <-> In c (columns base) \/ In c (columns delta')) /\
  (forall c, In c (columns out) -> lookup out c = Some (merged_series base delta' key c)).
Proof.
  intros Ha H.
  destruct (upsert_match_form _ _ _ _ _ H)
    as [b [ov [d [Ha' [_ [Hin [_ [HinN Hr]]]]]]]].
  rewrite Ha in Ha'. inversion Ha'; subst b ov d. clear Ha'.
  assert (Hc : columns out = canonical_order (merge_columns base overlap delta' key)).
  { rewrite Hr. unfold columns. apply columns_map_key. }
  split.
  - intros c. rewrite Hc, (HinN c), (Hin c). tauto.
  - intros c Hin'. rewrite Hr at 1. rewrite (lookup_map_key (merged_series base delta' key)).
    rewrite Hc in Hin'. apply mem_In in Hin'. now rewrite Hin'.
Qed.

Lemma upsert_match_cell base0 delta key base overlap delta' out c p pr :
  align cast_value base0 delta key = Ok (base, overlap, delta') ->
  upsert_match cast_value base0 delta key = Ok out ->
  In c (columns out) ->
  nth_error (outer_pairs (key_cells base key) (key_cells delta' key)) p = Some pr ->
  cell_at out c p = replaced_cell base delta' key c pr.
Proof.
  intros Ha H Hc Hp. destruct (upsert_match_columns _ _ _ _ _ _ _ Ha H) as [_ Hl].
  unfold cell_at. rewrite (Hl c Hc). unfold merged_series. cbn [values].
  now apply nth_map_cell.
Qed.

Lemma replaced_cell_key base delta key pr :
  In key (columns base) -> In key (columns delta) ->
  replaced_cell base delta key key pr
  = joined_key (key_cells base key) (key_cells delta key) pr.
Proof.
  intros Hb Hd. unfold replaced_cell, joined_key. rewrite String.eqb_refl.
  apply In_columns_lookup in Hb as [sb Hsb]. apply In_columns_lookup in Hd as [sd Hsd].
  rewrite (row_cell_lookup _ _ _ _ Hsb), (row_cell_lookup _ _ _ _ Hsd).
  unfold key_cells. now rewrite Hsb, Hsd.
Qed.

Lemma upsert_match_keys base0 delta key base overlap delta' out :
  align cast_value base0 delta key = Ok (base, overlap, delta') ->
  upsert_match cast_value base0 delta key = Ok out ->
  key_cells out key
  = map (joined_key (key_cells base key) (key_cells delta' key))
        (outer_pairs (key_cells base key) (key_cells delta' key)).
Proof.
  intros Ha H. destruct (upsert_match_columns _ _ _ _ _ _ _ Ha H) as [Hin Hl].
  destruct (align_Ok _ _ _ _ _ _ _ Ha) as [Hkd [Hkb [_ [_ [_ [Hc _]]]]]].
  assert (Hkd' : In key (columns delta')) by now rewrite Hc.
  unfold key_cells at 1. rewrite (Hl key) by (apply Hin; now left).
  unfold merged_series. cbn [values]. apply map_ext. intros pr.
  now apply replaced_cell_key.
Qed.

End JoinMergeRows.

(** X7. The replace-merge keeps the invariant of the consolidated table:
    when the keys of base and the keys of delta (at the dtype of base's
    key) are non-null and pairwise different, so are the keys of the table
    it returns. *)
Theorem upsert_match_keys_distinct
    (cast_value : DataType -> DataType -> value -> option value)
    (base delta : DataFrame) (key : string)
    (base' : DataFrame) (overlap : list string) (delta' : DataFrame) (out : DataFrame) :
  align cast_value (IsDataFrame base) delta key = Ok (base', overlap, delta') ->
  distinct_keys (key_cells base' key) ->
  distinct_keys (key_cells delta' key) ->
  upsert_match cast_value (IsDataFrame base) delta key = Ok out ->
  distinct_keys (key_cells out key).
Proof.
  intros Ha Hb Hd H. rewrite (upsert_match_keys _ _ _ _ _ _ _ _ Ha H).
  now apply joined_keys_distinct.
Qed.

(** X8. On a delta with distinct keys the replace-merge never loses nor
    repeats a row: the rows of the table it returns are, in some order
    (the same for every column), one row for each row of base, merged with
    the delta row of its key if there is one, and one row for each delta
    row whose key is not in base. *)
Theorem upsert_match_rows
    (cast_value : DataType -> DataType -> value -> option value)
    (base delta : DataFrame) (key : string)
    (base' : DataFrame) (overlap : list string) (delta' : DataFrame) (out : DataFrame) :
  align cast_value (IsDataFrame base) delta key = Ok (base', overlap, delta') ->
  distinct_keys (key_cells delta' key) ->
  upsert_match cast_value (IsDataFrame base) delta key = Ok out ->
  let LK := key_cells base' key in
  let RK := key_cells delta' key in
  exists rows : list (option nat * option nat),
    Permutation rows
      (map (fun i => (Some i, match_of (nth i LK None) RK)) (seq 0 (List.length LK))
       ++ map (fun j => (None, Some j)) (new_rows LK RK)) /\
    (forall c s, lookup out c = Some s ->
       List.length (values s) = (List.length LK + List.length (new_rows LK RK))%nat) /\
    (forall c s, lookup out c = Some s ->
       values s = map (replaced_cell base' delta' key c) rows) /\
    (forall c j, replaced_cell base' delta' key c (None, Some j) = cell_at delta' c j).
Proof.
  intros Ha Hd H LK RK. subst LK RK.
  destruct (upsert_match_columns _ _ _ _ _ _ _ _ Ha H) as [Hin Hl].
  exists (outer_pairs (key_cells base' key) (key_cells delta' key)).
  assert (HP := outer_pairs_Permutation (key_cells base' key) (key_cells delta' key)).
  rewrite (probe_pairs_distinct _ _ Hd) in HP.
  split; [exact HP|]. split; [|split].
  - intros c s Hs.
    assert (Hc : In c (columns out)) by (apply In_columns_lookup; eauto).
    rewrite (Hl c Hc) in Hs. inversion Hs. unfold merged_series. cbn [values].
    rewrite length_map, (Permutation_length HP).
    now rewrite length_app, !length_map, length_seq.
  - intros c s Hs.
    assert (Hc : In c (columns out)) by (apply In_columns_lookup; eauto).
    rewrite (Hl c Hc) in Hs. inversion Hs. reflexivity.
  - intros c j. unfold replaced_cell. cbn [fst snd row_cell].
    destruct (String.eqb c key); [reflexivity | apply coalesce_cell_None_r].
Qed.

(** X9. Merging a delta into a base without rows returns the rows of
    delta, in order: every column of the result has as many rows as
    delta has keys, and row by row its cells are those of delta (at base's
    dtypes), a column delta does not have being null. *)
Theorem upsert_match_into_empty
    (cast_value : DataType -> DataType -> value -> option value)
    (base delta : DataFrame) (key : string)
    (base' : DataFrame) (overlap : list string) (delta' : DataFrame) (out : DataFrame) :
  align cast_value (IsDataFrame base) delta key = Ok (base', overlap, delta') ->
  key_cells base' key = [] ->
  upsert_match cast_value (IsDataFrame base) delta key = Ok out ->
  (forall c s, lookup out c = Some s ->
     List.length (values s) = List.length (key_cells delta' key)) /\
  (forall c j, In c (columns out) -> (j < List.length (key_cells delta' key))%nat ->
     cell_at out c j = cell_at delta' c j).
Proof.
  intros Ha He H.
  destruct (upsert_match_columns _ _ _ _ _ _ _ _ Ha H) as [Hin Hl].
  assert (Hp : outer_pairs (key_cells base' key) (key_cells delta' key)
               = map (fun j => (None, Some j)) (seq 0 (List.length (key_cells delta' key)))).
  { rewrite He. unfold outer_pairs, probe_pairs, join_right.
    cbn [List.length Nat.leb seq filter map]. rewrite app_nil_r. unfold join_left.
    rewrite (flat_map_singleton _ (fun j => (Some j, None))) by reflexivity.
    rewrite map_map. reflexivity. }
  split.
  - intros c s Hs.
    assert (Hc : In c (columns out)) by (apply In_columns_lookup; eauto).
    rewrite (Hl c Hc) in Hs. inversion Hs. unfold merged_series. cbn [values].
    now rewrite Hp, !length_map, length_seq.
  - intros c j Hc Hj.
    assert (Hn : nth_error (outer_pairs (key_cells base' key) (key_cells delta' key)) j
                 = Some (None, Some j)).
    { rewrite Hp, nth_error_map, nth_error_nth' with (d := 0%nat) by (now rewrite length_seq).
      now rewrite seq_nth. }
    rewrite (upsert_match_cell _ _ _ _ _ _ _ _ _ _ _ Ha H Hc Hn).
    unfold replaced_cell. cbn [fst snd row_cell].
    destruct (String.eqb c key); [reflexivity | apply coalesce_cell_None_r].
Qed.

Lemma distinct_keys_7_8 : distinct_keys [Some (VInt 7); Some (VInt 8)].
Proof.
  split.
  - intros j Hj. simpl in Hj. destruct j as [|[|j]]; simpl; try discriminate; lia.
  - intros j j' Hj Hj' Hm. simpl in Hj, Hj'.
    destruct j as [|[|j]], j' as [|[|j']]; simpl in Hm; try reflexivity;
      try discriminate; lia.
Qed.

Lemma distinct_keys_8_9 : distinct_keys [Some (VInt 8); Some (VInt 9)].
Proof.
  split.
  - intros j Hj. simpl in Hj. destruct j as [|[|j]]; simpl; try discriminate; lia.
  - intros j j' Hj Hj' Hm. simpl in Hj, Hj'.
    destruct j as [|[|j]], j' as [|[|j']]; simpl in Hm; try reflexivity;
      try discriminate; lia.
Qed.

Lemma upsert_match_keys_distinct_witness :
  align numeric_cast (IsDataFrame base78) delta89 "MatchId"
  = Ok (base78, ["HomeId"; "AwayId"], delta89) /\
  distinct_keys (key_cells base78 "MatchId") /\
  distinct_keys (key_cells delta89 "MatchId") /\
  upsert_match numeric_cast (IsDataFrame base78) delta89 "MatchId" = Ok match789 /\
  distinct_keys (key_cells match789 "MatchId").
Proof.
  assert (Ha : align numeric_cast (IsDataFrame base78) delta89 "MatchId"
               = Ok (base78, ["HomeId"; "AwayId"], delta89)) by (vm_compute; reflexivity).
  assert (Hb : distinct_keys (key_cells base78 "MatchId")) by exact distinct_keys_7_8.
  assert (Hd : distinct_keys (key_cells delta89 "MatchId")) by exact distinct_keys_8_9.
  assert (H : upsert_match numeric_cast (IsDataFrame base78) delta89 "MatchId"
              = Ok match789) by (vm_compute; reflexivity).
  split; [exact Ha|]. split; [exact Hb|]. split; [exact Hd|]. split; [exact H|].
  exact (upsert_match_keys_distinct numeric_cast base78 delta89 "MatchId"
           base78 ["HomeId"; "AwayId"] delta89 match789 Ha Hb Hd H).
Defined.

Lemma upsert_match_rows_witness :
  align numeric_cast (IsDataFrame base78) delta89 "MatchId"
  = Ok (base78, ["HomeId"; "AwayId"], delta89) /\
  distinct_keys (key_cells delta89 "MatchId") /\
  upsert_match numeric_cast (IsDataFrame base78) delta89 "MatchId" = Ok match789 /\
  let LK := key_cells base78 "MatchId" in
  let RK := key_cells delta89 "MatchId" in
  exists rows : list (option nat * option nat),
    Permutation rows
      (map (fun i => (Some i, match_of (nth i LK None) RK)) (seq 0 (List.length LK))
       ++ map (fun j => (None, Some j)) (new_rows LK RK)) /\
    (forall c s, lookup match789 c = Some s ->
       List.length (values s) = (List.length LK + List.length (new_rows LK RK))%nat) /\
    (forall c s, lookup match789 c = Some s ->
       values s = map (replaced_cell base78 delta89 "MatchId" c) rows) /\
    (forall c j, replaced_cell base78 delta89 "MatchId" c (None, Some j)
                 = cell_at delta89 c j).
Proof.
  assert (Ha : align numeric_cast (IsDataFrame base78) delta89 "MatchId"
               = Ok (base78, ["HomeId"; "AwayId"], delta89)) by (vm_compute; reflexivity).
  assert (Hd : distinct_keys (key_cells delta89 "MatchId")) by exact distinct_keys_8_9.
  assert (H : upsert_match numeric_cast (IsDataFrame base78) delta89 "MatchId"
              = Ok match789) by (vm_compute; reflexivity).
  split; [exact Ha|]. split; [exact Hd|]. split; [exact H|].
  exact (upsert_match_rows numeric_cast base78 delta89 "MatchId"
           base78 ["HomeId"; "AwayId"] delta89 match789 Ha Hd H).
Defined.

Lemma upsert_match_into_empty_witness :
  align numeric_cast (IsDataFrame empty_head_to_head) delta7 "MatchId"
  = Ok (empty_head_to_head, ["TurnOver_SGD"], delta7) /\
  key_cells empty_head_to_head "MatchId" = [] /\
  upsert_match numeric_cast (IsDataFrame empty_head_to_head) delta7 "MatchId"
  = Ok match_into_empty7 /\
  (forall c s, lookup match_into_empty7 c = Some s ->
     List.length (values s) = List.length (key_cells delta7 "MatchId")) /\
  (forall c j, In c (columns match_into_empty7) ->
     (j < List.length (key_cells delta7 "MatchId"))%nat ->
     cell_at match_into_empty7 c j = cell_at delta7 c j).
Proof.
  assert (Ha : align numeric_cast (IsDataFrame empty_head_to_head) delta7 "MatchId"
               = Ok (empty_head_to_head, ["TurnOver_SGD"], delta7))
    by (vm_compute; reflexivity).
  assert (He : key_cells empty_head_to_head "MatchId" = []) by reflexivity.
  assert (H : upsert_match numeric_cast (IsDataFrame empty_head_to_head) delta7 "MatchId"
              = Ok match_into_empty7) by (vm_compute; reflexivity).
  split; [exact Ha|]. split; [exact He|]. split; [exact H|].
  exact (upsert_match_into_empty numeric_cast empty_head_to_head delta7 "MatchId"
           empty_head_to_head ["TurnOver_SGD"] delta7 match_into_empty7 Ha He H).
Defined.

(** * Further properties of the merge by timestamps *)

(** X10. The merge by timestamps looks for the key, then for the
    timestamp column, among the columns of both frames together: it
    raises the missing-key error when no frame has the key, and the
    missing-timestamp error when a frame has the key and no frame has the
    timestamp column. *)
Theorem upsert_odds_missing_column set_iter group_order df_base df_delta pk ts_col
    reciente antiguo :
  (forall l, Permutation (set_iter l) (nodup string_dec l)) ->
  (~ In pk (columns df_base ++ columns df_delta) ->
   upsert_odds set_iter group_order df_base df_delta pk ts_col reciente antiguo
   = Err (MissingPK pk)) /\
  (In pk (columns df_base ++ columns df_delta) ->
   ~ In ts_col (columns df_base ++ columns df_delta) ->
   upsert_odds set_iter group_order df_base df_delta pk ts_col reciente antiguo
   = Err (MissingTimestamp ts_col)).
Proof.
  intros Hset. split.
  - intros Hpk. apply upsert_odds_missing_pk; [exact Hset | |];
      intros H; apply Hpk, in_or_app; [now left | now right].
  - intros Hpk Hts. unfold upsert_odds.
    apply (in_set_iter set_iter Hset), mem_In in Hpk. rewrite Hpk. cbn [negb].
    assert (Hm : mem ts_col (set_iter (columns df_base ++ columns df_delta)) = false).
    { apply mem_false. now rewrite (in_set_iter set_iter Hset). }
    now rewrite Hm.
Qed.

Lemma upsert_odds_missing_column_witness :
  (forall l, Permutation (first_occurrence_order l) (nodup string_dec l)) /\
  (~ In "Key" (columns odds_base1 ++ columns odds_delta1) ->
   upsert_odds first_occurrence_order first_row_order odds_base1 odds_delta1
     "Key" "ModifiedOn" app_reciente app_antiguo
   = Err (MissingPK "Key")) /\
  (In "MatchId" (columns odds_base1 ++ columns odds_delta1) ->
   ~ In "Stamp" (columns odds_base1 ++ columns odds_delta1) ->
   upsert_odds first_occurrence_order first_row_order odds_base1 odds_delta1
     "MatchId" "Stamp" app_reciente app_antiguo
   = Err (MissingTimestamp "Stamp")).
Proof.
  split; [exact first_occurrence_order_spec|]. split.
  - exact (proj1 (upsert_odds_missing_column first_occurrence_order first_row_order
                    odds_base1 odds_delta1 "Key" "ModifiedOn" app_reciente app_antiguo
                    first_occurrence_order_spec)).
  - exact (proj2 (upsert_odds_missing_column first_occurrence_order first_row_order
                    odds_base1 odds_delta1 "MatchId" "Stamp" app_reciente app_antiguo
                    first_occurrence_order_spec)).
Defined.




Lemma rows_of_single k K m :
  (forall m', in_group k K m' <-> m' = m) -> rows_of k K = [m].
Proof.
  intros H. unfold rows_of.
  destruct (proj2 (H m) eq_refl) as [Hm Hg].
  apply filter_seq_singleton.
  - lia.
  - exact Hg.
  - intros j Hj Hgj. apply H. split; [lia | exact Hgj].
Qed.

Lemma agg_first_single desc V T m : agg_first desc V T [m] = nth m V None.
Proof. reflexivity. Qed.

Section OddsRows.

Variable set_iter : list string -> list string.
Variable group_order : list cell -> list cell.
Hypothesis set_iter_spec : forall l, Permutation (set_iter l) (nodup string_dec l).
Hypothesis group_order_spec : forall l, Permutation (group_order l) l.

Lemma upsert_odds_single_row_general df_base df_delta pk ts_col reciente antiguo out :
  upsert_odds set_iter group_order df_base df_delta pk ts_col reciente antiguo = Ok out ->
  let K := stacked df_base df_delta pk in
  forall g k m, nth_error (key_cells out pk) g = Some k ->
    (forall m', in_group k K m' <-> m' = m) ->
    forall c, In c (columns df_base) \/ In c (columns df_delta) ->
      cell_at out c g = nth m (stacked df_base df_delta c) None.
Proof.
  intros H K g k m Hg Hm c Hc.
  destruct (upsert_odds_Ok _ _ _ _ _ _ _ _ _ H) as [Hpk [Hts [[sk [Hsk Hvk]] Hcol]]].
  fold K in Hvk, Hcol.
  unfold key_cells in Hg. rewrite Hsk, Hvk in Hg.
  destruct (string_dec c pk) as [-> | Hne].
  - unfold cell_at. rewrite Hsk, Hvk.
    rewrite (nth_error_nth _ _ _ Hg).
    assert (Hk : In k (distinct K)).
    { apply (in_groups group_order group_order_spec). eapply nth_error_In. exact Hg. }
    apply distinct_incl in Hk. apply (In_nth _ _ None) in Hk as [m' [Hm' E]].
    assert (m' = m).
    { apply Hm. split; [exact Hm'|]. unfold cell in *. rewrite E. apply group_eqb_refl. }
    subst m'. symmetry. exact E.
  - assert (Hct : In c (set_iter (columns df_base ++ columns df_delta))).
    { apply (in_set_iter set_iter set_iter_spec). apply in_or_app. exact Hc. }
    destruct (Hcol c Hct Hne) as [s [Hs Hv]].
    unfold cell_at. rewrite Hs, Hv. rewrite (nth_map_cell _ _ _ _ Hg).
    rewrite (rows_of_single _ _ _ Hm). apply agg_first_single.
Qed.

End OddsRows.

(** X12. The merge by timestamps leaves alone a key that has one row: when
    exactly one row of base and delta together has the key of a row of the
    returned table, that row of the table holds the cells of this one
    input row, in the key column and in every other column of base or
    delta (null in a column its frame does not have). *)
Theorem upsert_odds_single_row set_iter group_order df_base df_delta pk ts_col
    reciente antiguo out g k m :
  (forall l, Permutation (set_iter l) (nodup string_dec l)) ->
  (forall l, Permutation (group_order l) l) ->
  upsert_odds set_iter group_order df_base df_delta pk ts_col reciente antiguo = Ok out ->
  nth_error (key_cells out pk) g = Some k ->
  (forall m', in_group k (stacked df_base df_delta pk) m' <-> m' = m) ->
  forall c, In c (columns df_base) \/ In c (columns df_delta) ->
    cell_at out c g = nth m (stacked df_base df_delta c) None.
Proof.
  intros Hs Hg H Hk Hm c Hc.
  exact (upsert_odds_single_row_general set_iter group_order Hs Hg _ _ _ _ _ _ _
           H g k m Hk Hm c Hc).
Qed.

Lemma upsert_odds_single_row_witness :
  (forall l, Permutation (first_occurrence_order l) (nodup string_dec l)) /\
  (forall l, Permutation (first_row_order l) l) /\
  upsert_odds first_occurrence_order first_row_order odds_base12 odds_delta1
    "MatchId" "ModifiedOn" app_reciente app_antiguo = Ok odds12 /\
  nth_error (key_cells odds12 "MatchId") 1 = Some (Some (VInt 2)) /\
  (forall m', in_group (Some (VInt 2)) (stacked odds_base12 odds_delta1 "MatchId") m'
              <-> m' = 1%nat) /\
  forall c, In c (columns odds_base12) \/ In c (columns odds_delta1) ->
    cell_at odds12 c 1 = nth 1 (stacked odds_base12 odds_delta1 c) None.
Proof.
  assert (H : upsert_odds first_occurrence_order first_row_order odds_base12 odds_delta1
                "MatchId" "ModifiedOn" app_reciente app_antiguo = Ok odds12)
    by (vm_compute; reflexivity).
  assert (Hk : nth_error (key_cells odds12 "MatchId") 1 = Some (Some (VInt 2)))
    by reflexivity.
  assert (HK : stacked odds_base12 odds_delta1 "MatchId"
               = [Some (VInt 1); Some (VInt 2); Some (VInt 1)]) by reflexivity.
  assert (Hm : forall m', in_group (Some (VInt 2))
                            (stacked odds_base12 odds_delta1 "MatchId") m'
                          <-> m' = 1%nat).
  { intros m'. rewrite HK. unfold in_group. split.
    - intros [Hlt Hg]. destruct m' as [|[|[|m']]]; try reflexivity;
        try discriminate Hg. simpl in Hlt. lia.
    - intros ->. split; [simpl; lia | reflexivity]. }
  split; [exact first_occurrence_order_spec|].
  split; [exact first_row_order_spec|].
  split; [exact H|]. split; [exact Hk|]. split; [exact Hm|].
  exact (upsert_odds_single_row first_occurrence_order first_row_order
           odds_base12 odds_delta1 "MatchId" "ModifiedOn" app_reciente app_antiguo
           odds12 1%nat (Some (VInt 2)) 1%nat
           first_occurrence_order_spec first_row_order_spec H Hk Hm).
Defined.

(** ** When the merge by timestamps returns a table *)

Lemma sequence_map_ext_Ok {A B} (g : A -> result B) (h : A -> B) (l : list A) :
  (forall x, In x l -> g x = Ok (h x)) -> sequence (map g l) = Ok (map h l).
Proof.
  induction l as [|a l IH]; intros H; [reflexivity|].
  cbn [map sequence]. rewrite (H a (or_introl eq_refl)). cbn [bind].
  rewrite IH; [reflexivity|]. intros x Hx. apply H. now right.
Qed.

Lemma sequence_map_all {A B} (g : A -> result B) (l : list A) out :
  sequence (map g l) = Ok out -> forall x, In x l -> exists y, g x = Ok y.
Proof.
  revert out. induction l as [|a l IH]; intros out H x Hx; [destruct Hx|].
  cbn [map sequence] in H. inv_bind H. inv_bind H.
  destruct Hx as [<- | Hx]; [eauto|]. eapply IH; eassumption.
Qed.

Lemma aligned_series_values df c : values (aligned_series df c) = aligned_column df c.
Proof. unfold aligned_series, aligned_column. now destruct (lookup df c). Qed.

Lemma aligned_series_dtype df c : dtype (aligned_series df c) = frame_dtype df c.
Proof. unfold aligned_series, frame_dtype. now destruct (lookup df c). Qed.

Lemma alinear_form todas df :
  NoDup todas ->
  _alinear todas df = Ok (map (fun c => (c, aligned_series df c)) todas).
Proof.
  intros Hnd. unfold _alinear.
  set (faltantes := filter (fun c => negb (mem c (columns df))) todas).
  destruct (is_nil faltantes) eqn:En.
  - cbn [bind]. apply is_nil_true in En.
    assert (Hin : forall c, In c todas -> In c (columns df)).
    { apply faltan_nil. exact En. }
    rewrite (select_intro _ _ Hnd Hin). f_equal. apply map_ext_in.
    intros c Hc. f_equal. unfold aligned_series.
    apply Hin, In_columns_lookup in Hc as [s Hs]. now rewrite Hs.
  - set (news := map (fun c => (c, lit_null Null (lit_height df))) faltantes).
    assert (Hnf : NoDup faltantes) by (apply NoDup_filter; exact Hnd).
    assert (Hnn : map fst news = faltantes) by apply columns_map_key.
    assert (Hw : with_columns_exprs df
                   (map (fun c => (c, Ok (lit_null Null (lit_height df)))) faltantes)
                 = Ok (with_columns df news)).
    { unfold with_columns_exprs. rewrite map_map. cbn [fst]. rewrite map_id.
      apply nodupb_NoDup in Hnf. rewrite Hnf. rewrite map_map. cbn [fst snd bind].
      change (map (fun x : string => Ok (x, lit_null Null (lit_height df))) faltantes)
        with (map (fun x : string => @Ok (string * Series) ((fun c => (c, lit_null Null (lit_height df))) x))
                  faltantes).
      rewrite (sequence_map_ext_Ok _ (fun c => (c, lit_null Null (lit_height df))));
        [reflexivity|]. intros x _. reflexivity. }
    rewrite Hw. cbn [bind].
    assert (Hl : forall c, In c todas ->
               lookup (with_columns df news) c = Some (aligned_series df c)).
    { intros c Hc. rewrite lookup_with_columns by (rewrite Hnn; exact Hnf).
      unfold news. rewrite lookup_map_key. unfold aligned_series.
      destruct (mem c faltantes) eqn:Em.
      - apply mem_In in Em. apply filter_In in Em as [_ Em].
        apply negb_true_iff, mem_false in Em.
        assert (Hn : lookup df c = None) by now apply lookup_None.
        now rewrite Hn.
      - destruct (lookup df c) as [s|] eqn:El; [reflexivity|].
        exfalso. apply mem_false in Em. apply Em. apply filter_In.
        split; [exact Hc|]. apply negb_true_iff, mem_false.
        apply lookup_None. exact El. }
    rewrite (select_intro _ _ Hnd).
    + f_equal. apply map_ext_in. intros c Hc. f_equal. now rewrite (Hl c Hc).
    + intros c Hc. apply In_columns_lookup. eexists. apply Hl. exact Hc.
Qed.

Lemma concat_aligned todas (fa fb : string -> Series) :
  NoDup todas ->
  concat_diagonal (map (fun c => (c, fa c)) todas) (map (fun c => (c, fb c)) todas)
  = sequence (map (fun c => s <- vstack (fa c) (fb c) ;; Ok (c, s)) todas).
Proof.
  intros Hnd. unfold concat_diagonal, columns. rewrite !columns_map_key.
  rewrite (filter_none (fun c => negb (mem c todas)) todas).
  2:{ intros x Hx. apply negb_false_iff. now apply mem_In. }
  rewrite app_nil_r. f_equal. apply map_ext_in. intros c Hc.
  rewrite !lookup_map_key. apply mem_In in Hc. now rewrite Hc.
Qed.

Lemma vstack_aligned base delta c :
  vstack (aligned_series base c) (aligned_series delta c)
  = match stacked_dtype base delta c with
    | Some t => Ok (mkSeries t (stacked base delta c))
    | None => Err SchemaError
    end.
Proof.
  unfold vstack, stacked_dtype, stacked.
  now rewrite !aligned_series_dtype, !aligned_series_values.
Qed.

Lemma stacked_dtype_absent base delta c :
  ~ In c (columns base ++ columns delta) -> stacked_dtype base delta c = Some Null.
Proof.
  intros H. unfold stacked_dtype, frame_dtype.
  assert (Hb : lookup base c = None).
  { apply lookup_None. intros Hc. apply H, in_or_app. now left. }
  assert (Hd : lookup delta c = None).
  { apply lookup_None. intros Hc. apply H, in_or_app. now right. }
  now rewrite Hb, Hd.
Qed.

Lemma NoDup_app_filter (l1 l2 : list string) :
  NoDup l1 -> NoDup l2 -> NoDup (l1 ++ filter (fun c => negb (mem c l1)) l2).
Proof.
  intros H1 H2. induction l1 as [|a l1 IH] in H1 |- *.
  - cbn [app]. now apply NoDup_filter.
  - apply NoDup_app.
    + exact H1.
    + now apply NoDup_filter.
    + intros x Hx Hf. apply filter_In in Hf as [_ Hf].
      apply negb_true_iff, mem_false in Hf. now apply Hf.
Qed.

Section OddsAccepts.

Variable set_iter : list string -> list string.
Variable group_order : list cell -> list cell.
Hypothesis set_iter_spec : forall l, Permutation (set_iter l) (nodup string_dec l).

Lemma NoDup_set_iter l : NoDup (set_iter l).
Proof.
  eapply Permutation_NoDup; [apply Permutation_sym, set_iter_spec|].
  apply NoDup_nodup.
Qed.

(** The table the merge hands to the validator, when the columns stack. *)
Lemma upsert_odds_closed base delta pk ts_col reciente antiguo :
  let todas := set_iter (columns base ++ columns delta) in
  let U := fun c => match stacked_dtype base delta c with Some t => t | None => Null end in
  let K := stacked base delta pk in
  let T := stacked base delta ts_col in
  let groups := group_order (distinct K) in
  In pk todas -> In ts_col todas ->
  (forall c, In c todas -> stacked_dtype base delta c <> None) ->
  upsert_odds set_iter group_order base delta pk ts_col reciente antiguo
  = ordenar_y_validar
      ((pk, mkSeries (U pk) groups)
       :: map (fun c => (c, mkSeries (U c)
                              (map (fun k => agg_first (desc_of reciente antiguo c)
                                               (stacked base delta c) T (rows_of k K))
                                   groups)))
              (filter (fun c => negb (String.eqb c pk)) todas))
      head_to_head_schema true.
Proof.
  intros todas U K T groups Hpk Hts Hu. unfold upsert_odds. fold todas.
  assert (Hnd : NoDup todas) by apply NoDup_set_iter.
  apply mem_In in Hpk, Hts. rewrite Hpk, Hts. cbn [negb].
  rewrite !alinear_form by exact Hnd. cbn [bind]. rewrite concat_aligned by exact Hnd.
  rewrite (sequence_map_ext_Ok _ (fun c => (c, mkSeries (U c) (stacked base delta c)))).
  2:{ intros c Hc. rewrite vstack_aligned. unfold U.
      destruct (stacked_dtype base delta c) eqn:E; [reflexivity|].
      exfalso. now apply (Hu c Hc). }
  cbn [bind]. unfold col at 1 2. rewrite !lookup_map_key, Hpk, Hts. cbn [bind dtype values].
  fold K T groups.
  match goal with
  | |- bind ?s _ = _ =>
      assert (Hs : s = Ok ((pk, mkSeries (U pk) groups)
         :: map (fun c => (c, mkSeries (U c)
                                (map (fun k => agg_first (desc_of reciente antiguo c)
                                                 (stacked base delta c) T (rows_of k K))
                                     groups)))
                (filter (fun c => negb (String.eqb c pk)) todas)))
  end.
  { unfold select_exprs. cbn [map fst]. rewrite map_map. cbn [fst]. rewrite map_id.
    assert (Hn : nodupb (pk :: filter (fun c => negb (String.eqb c pk)) todas) = true).
    { apply nodupb_NoDup. constructor.
      - intros Hin. apply filter_In in Hin as [_ Hin].
        rewrite String.eqb_refl in Hin. discriminate.
      - now apply NoDup_filter. }
    rewrite Hn. cbn [sequence snd fst bind]. rewrite map_map. cbn [fst snd].
    rewrite (sequence_map_ext_Ok _
               (fun c => (c, mkSeries (U c)
                               (map (fun k => agg_first (desc_of reciente antiguo c)
                                                (stacked base delta c) T (rows_of k K))
                                    groups)))).
    - reflexivity.
    - intros c Hc. apply filter_In in Hc as [Hc _]. unfold col.
      rewrite lookup_map_key. apply mem_In in Hc. rewrite Hc. reflexivity. }
  rewrite Hs. reflexivity.
Qed.

Lemma upsert_odds_stacks base delta pk ts_col reciente antiguo out :
  upsert_odds set_iter group_order base delta pk ts_col reciente antiguo = Ok out ->
  forall c, stacked_dtype base delta c <> None.
Proof.
  intros H c.
  destruct (in_dec string_dec c (columns base ++ columns delta)) as [Hc | Hc].
  2:{ rewrite (stacked_dtype_absent _ _ _ Hc). discriminate. }
  apply (in_set_iter set_iter set_iter_spec) in Hc.
  unfold upsert_odds in H.
  assert (Hnd : NoDup (set_iter (columns base ++ columns delta))) by apply NoDup_set_iter.
  destruct (negb (mem pk _)); [discriminate|].
  destruct (negb (mem ts_col _)); [discriminate|].
  rewrite !alinear_form in H by exact Hnd. cbn [bind] in H.
  rewrite concat_aligned in H by exact Hnd.
  inv_bind H. destruct (sequence_map_all _ _ _ E c Hc) as [y Hy].
  rewrite vstack_aligned in Hy. intros Hn. rewrite Hn in Hy. discriminate.
Qed.

Lemma upsert_odds_returns_iff base delta pk ts_col reciente antiguo :
  (exists out,
     upsert_odds set_iter group_order base delta pk ts_col reciente antiguo = Ok out) <->
  In pk (columns base ++ columns delta) /\
  In ts_col (columns base ++ columns delta) /\
  (forall c, stacked_dtype base delta c <> None) /\
  (forall c t, In (c, t) head_to_head_schema -> stacked_dtype base delta c = Some t).
Proof.
  set (todas := set_iter (columns base ++ columns delta)).
  assert (Hschema : forall c,
            lookup (schema
              ((pk, mkSeries (match stacked_dtype base delta pk with
                              | Some t => t | None => Null end)
                      (group_order (distinct (stacked base delta pk))))
               :: map (fun c => (c, mkSeries
                                      (match stacked_dtype base delta c with
                                       | Some t => t | None => Null end)
                                      (map (fun k => agg_first (desc_of reciente antiguo c)
                                                       (stacked base delta c)
                                                       (stacked base delta ts_col)
                                                       (rows_of k (stacked base delta pk)))
                                           (group_order (distinct (stacked base delta pk))))))
                      (filter (fun c => negb (String.eqb c pk)) todas))) c
            = if String.eqb pk c || mem c (filter (fun c => negb (String.eqb c pk)) todas)
              then Some (match stacked_dtype base delta c with
                         | Some t => t | None => Null end)
              else None).
  { intros c. rewrite lookup_schema. cbn [lookup].
    destruct (String.eqb pk c) eqn:E.
    - apply String.eqb_eq in E. subst c. reflexivity.
    - cbn [orb]. rewrite lookup_map_key. now destruct (mem c _). }
  assert (Hcols : forall c, In c todas ->
            String.eqb pk c || mem c (filter (fun c => negb (String.eqb c pk)) todas) = true).
  { intros c Hc. destruct (String.eqb pk c) eqn:E; [reflexivity|]. cbn [orb].
    apply mem_In, filter_In. split; [exact Hc|].
    rewrite String.eqb_sym. now rewrite E. }
  split.
  - intros [out H].
    pose proof (upsert_odds_stacks _ _ _ _ _ _ _ H) as Hu.
    destruct (upsert_odds_Ok _ _ _ _ _ _ _ _ _ H) as [Hpk [Hts _]].
    fold todas in Hpk, Hts.
    split; [now apply (in_set_iter set_iter set_iter_spec)|].
    split; [now apply (in_set_iter set_iter set_iter_spec)|].
    split; [exact Hu|].
    intros c t Hin.
    rewrite (upsert_odds_closed base delta pk ts_col reciente antiguo Hpk Hts
               (fun c _ => Hu c)) in H.
    apply ordenar_y_validar_Ok in H as [_ [Hty _]].
    specialize (Hty c t Hin). rewrite Hschema in Hty.
    destruct (_ || _); [|discriminate].
    destruct (stacked_dtype base delta c) eqn:E; [congruence|].
    exfalso. now apply (Hu c).
  - intros [Hpk [Hts [Hu Hty]]].
    apply (in_set_iter set_iter set_iter_spec) in Hpk, Hts. fold todas in Hpk, Hts.
    rewrite (upsert_odds_closed base delta pk ts_col reciente antiguo Hpk Hts
               (fun c _ => Hu c)).
    assert (Hin : forall c t, In (c, t) head_to_head_schema -> In c todas).
    { intros c t Hc.
      destruct (in_dec string_dec c (columns base ++ columns delta)) as [Hi | Hi].
      - now apply (in_set_iter set_iter set_iter_spec).
      - exfalso. pose proof (Hty c t Hc) as Ht.
        rewrite (stacked_dtype_absent _ _ _ Hi) in Ht. injection Ht as <-.
        now apply (canonical_dtypes c Null Hc). }
    eexists. apply ordenar_y_validar_intro.
    + intros c Hc. apply in_map_iff in Hc as [[c' t] [<- Hc]]. cbn [fst].
      apply In_columns_lookup.
      pose proof (Hschema c') as Hl. rewrite lookup_schema in Hl.
      rewrite (Hcols c' (Hin c' t Hc)) in Hl.
      destruct (lookup _ c') as [s|]; [eauto | discriminate].
    + intros c t Hc. rewrite Hschema, (Hcols c (Hin c t Hc)), (Hty c t Hc). reflexivity.
    + now left.
    + apply NoDup_app_filter; [exact NoDup_canonical|].
      cbn [columns map fst]. rewrite map_map. cbn [fst]. rewrite map_id.
      constructor.
      * intros Hi. apply filter_In in Hi as [_ Hi].
        rewrite String.eqb_refl in Hi. discriminate.
      * apply NoDup_filter, NoDup_set_iter.
Qed.

End OddsAccepts.

(** Two dtypes stack when they are the same or the second is that of a
    column of nulls; the result has the first dtype. *)
Lemma unify_Some a b t : unify a b = Some t <-> t = a /\ (a = b \/ b = Null).
Proof. destruct a, b, t; cbn; split; intros H; try discriminate; intuition congruence. Qed.

Lemma unify_not_None a b : unify a b <> None <-> a = b \/ b = Null.
Proof.
  destruct (unify a b) as [t|] eqn:E.
  - apply unify_Some in E. split; [tauto | discriminate].
  - split; [congruence|]. intros H. assert (Hs : unify a b = Some a) by (apply unify_Some; tauto).
    congruence.
Qed.

(** Every column stacks exactly when each column of delta is a column of
    nulls or a column of base with the same dtype. *)
Lemma stacks_iff base delta :
  (forall c, stacked_dtype base delta c <> None) <->
  (forall c d, lookup delta c = Some d ->
     dtype d = Null \/ exists b, lookup base c = Some b /\ dtype b = dtype d).
Proof.
  unfold stacked_dtype, frame_dtype. split.
  - intros H c d Hd. specialize (H c). rewrite Hd in H.
    apply unify_not_None in H as [H | H]; [|now left].
    destruct (lookup base c) as [b|]; [right; eauto | left; congruence].
  - intros H c. apply unify_not_None.
    destruct (lookup delta c) as [d|] eqn:Hd; [|now right].
    destruct (H c d Hd) as [Hn | [b [Hb Hbd]]]; [now right|].
    rewrite Hb. now left.
Qed.

Lemma stacked_canonical base delta c t :
  t <> Null -> stacked_dtype base delta c <> None ->
  (stacked_dtype base delta c = Some t <-> exists b, lookup base c = Some b /\ dtype b = t).
Proof.
  unfold stacked_dtype, frame_dtype. intros Ht Hs. rewrite unify_Some.
  apply unify_not_None in Hs. split.
  - intros [E _]. destruct (lookup base c) as [b|]; [eauto | congruence].
  - intros [b [Hb Hbt]]. rewrite Hb in *. split; [congruence | exact Hs].
Qed.

Lemma upsert_odds_returns_general set_iter group_order base delta pk ts_col
    reciente antiguo :
  (forall l, Permutation (set_iter l) (nodup string_dec l)) ->
  (exists out,
     upsert_odds set_iter group_order base delta pk ts_col reciente antiguo = Ok out) <->
  In pk (columns base ++ columns delta) /\
  In ts_col (columns base ++ columns delta) /\
  (forall c d, lookup delta c = Some d ->
     dtype d = Null \/ exists b, lookup base c = Some b /\ dtype b = dtype d) /\
  (forall c t, In (c, t) head_to_head_schema ->
     exists b, lookup base c = Some b /\ dtype b = t).
Proof.
  intros Hset. rewrite (upsert_odds_returns_iff set_iter group_order Hset).
  rewrite stacks_iff. split.
  - intros [Hpk [Hts [Hs Hc]]]. split; [exact Hpk|]. split; [exact Hts|].
    split; [exact Hs|]. intros c t Hct.
    apply (stacked_canonical base delta c t).
    + now apply (canonical_dtypes c t Hct).
    + now apply stacks_iff.
    + now apply Hc.
  - intros [Hpk [Hts [Hs Hc]]]. split; [exact Hpk|]. split; [exact Hts|].
    split; [exact Hs|]. intros c t Hct.
    apply (stacked_canonical base delta c t).
    + now apply (canonical_dtypes c t Hct).
    + now apply stacks_iff.
    + now apply Hc.
Qed.

(** X13. When the merge by timestamps returns a table. It does exactly
    when a frame has the key, a frame has the timestamp column, every
    column of delta is a column of base with the same dtype (nothing is
    cast) or a column of nulls, and base has every canonical column at its
    declared dtype. So it raises on a batch that brings a column base does
    not have, the key included, and on a base that lacks a canonical
    column, even one the batch brings. *)
Theorem upsert_odds_returns set_iter group_order base delta pk ts_col reciente antiguo :
  (forall l, Permutation (set_iter l) (nodup string_dec l)) ->
  (exists out,
     upsert_odds set_iter group_order base delta pk ts_col reciente antiguo = Ok out) <->
  In pk (columns base ++ columns delta) /\
  In ts_col (columns base ++ columns delta) /\
  (forall c d, lookup delta c = Some d ->
     dtype d = Null \/ exists b, lookup base c = Some b /\ dtype b = dtype d) /\
  (forall c t, In (c, t) head_to_head_schema ->
     exists b, lookup base c = Some b /\ dtype b = t).
Proof. apply upsert_odds_returns_general. Qed.

Lemma upsert_odds_returns_witness :
  (forall l, Permutation (first_occurrence_order l) (nodup string_dec l)) /\
  ((exists out,
      upsert_odds first_occurrence_order first_row_order odds_base1 odds_delta1
        "MatchId" "ModifiedOn" app_reciente app_antiguo = Ok out) <->
   In "MatchId" (columns odds_base1 ++ columns odds_delta1) /\
   In "ModifiedOn" (columns odds_base1 ++ columns odds_delta1) /\
   (forall c d, lookup odds_delta1 c = Some d ->
      dtype d = Null \/ exists b, lookup odds_base1 c = Some b /\ dtype b = dtype d) /\
   (forall c t, In (c, t) head_to_head_schema ->
      exists b, lookup odds_base1 c = Some b /\ dtype b = t)).
Proof.
  split; [exact first_occurrence_order_spec|].
  exact (upsert_odds_returns first_occurrence_order first_row_order odds_base1 odds_delta1
           "MatchId" "ModifiedOn" app_reciente app_antiguo first_occurrence_order_spec).
Defined.

(** * Further properties of the additive merge *)

Lemma row_cell_key_cells df c oi : row_cell df c oi = take_cell (key_cells df c) oi.
Proof.
  destruct oi as [i|]; [|reflexivity]. unfold row_cell, cell_at, key_cells, take_cell.
  destruct (lookup df c); [reflexivity|]. now destruct i.
Qed.

(** X14. The additive merge keeps the invariant of the consolidated
    table: when the keys of base are non-null and pairwise distinct and so
    are the keys of the cast delta, the keys of the returned table are
    non-null and pairwise distinct. *)
Theorem upsert_bets_keys_distinct
    (cast_value : DataType -> DataType -> value -> option value)
    (base delta : DataFrame) (key : string)
    (base' : DataFrame) (overlap : list string) (delta' : DataFrame) (out : DataFrame) :
  align cast_value (IsDataFrame base) delta key = Ok (base', overlap, delta') ->
  distinct_keys (key_cells base' key) ->
  distinct_keys (key_cells delta' key) ->
  upsert_bets cast_value (IsDataFrame base) delta key = Ok out ->
  In key (columns out) ->
  distinct_keys (key_cells out key).
Proof.
  intros Ha Hb Hd H Hin.
  destruct (upsert_bets_key _ _ _ _ _ H Hin) as [b [o [d [Ha' [s [Hs Hv]]]]]].
  rewrite Ha in Ha'. injection Ha' as <- <- <-.
  unfold key_cells at 1. rewrite Hs, Hv.
  erewrite map_ext; [apply joined_keys_distinct; eassumption|].
  intros pr. unfold joined_key. now rewrite !row_cell_key_cells.
Qed.

Lemma upsert_bets_keys_distinct_witness :
  align numeric_cast (IsDataFrame base78) bets_delta89 "MatchId"
  = Ok (base78, ["TurnOver_SGD"], bets_delta89) /\
  distinct_keys (key_cells base78 "MatchId") /\
  distinct_keys (key_cells bets_delta89 "MatchId") /\
  upsert_bets numeric_cast (IsDataFrame base78) bets_delta89 "MatchId" = Ok bets789 /\
  In "MatchId" (columns bets789) /\
  distinct_keys (key_cells bets789 "MatchId").
Proof.
  assert (Ha : align numeric_cast (IsDataFrame base78) bets_delta89 "MatchId"
               = Ok (base78, ["TurnOver_SGD"], bets_delta89)) by (vm_compute; reflexivity).
  assert (Hb : distinct_keys (key_cells base78 "MatchId")) by exact distinct_keys_7_8.
  assert (Hd : distinct_keys (key_cells bets_delta89 "MatchId")) by exact distinct_keys_8_9.
  assert (H : upsert_bets numeric_cast (IsDataFrame base78) bets_delta89 "MatchId"
              = Ok bets789) by (vm_compute; reflexivity).
  assert (Hin : In "MatchId" (columns bets789)) by (now left).
  split; [exact Ha|]. split; [exact Hb|]. split; [exact Hd|]. split; [exact H|].
  split; [exact Hin|].
  exact (upsert_bets_keys_distinct numeric_cast base78 bets_delta89 "MatchId"
           base78 ["TurnOver_SGD"] bets_delta89 bets789 Ha Hb Hd H Hin).
Defined.

Lemma has_dtype_lit0 t : t <> Null -> has_dtype t (lit0 t) = true.
Proof. destruct t; try reflexivity. intros H. now elim H. Qed.

Lemma add_value_typed t x y :
  has_dtype t x = true -> has_dtype t y = true -> add_value t x y <> None.
Proof. destruct t, x, y; simpl; intros; discriminate. Qed.

Lemma row_cell_typed df c oi v s :
  typed_column df c -> lookup df c = Some s -> row_cell df c oi = Some v ->
  has_dtype (dtype s) v = true.
Proof.
  intros Ht Hs Hv. apply (Ht s v Hs).
  destruct oi as [i|]; [|discriminate]. unfold row_cell, cell_at in Hv. rewrite Hs in Hv.
  destruct (Nat.lt_ge_cases i (List.length (values s))) as [Hi | Hi].
  - rewrite <- Hv. now apply nth_In.
  - rewrite nth_overflow in Hv by exact Hi. discriminate.
Qed.

Lemma accumulated_cell_typed t b d :
  t <> Null ->
  (forall v, b = Some v -> has_dtype t v = true) ->
  (forall v, d = Some v -> has_dtype t v = true) ->
  accumulated_cell t b d <> None.
Proof.
  intros Hn Hb Hd. rewrite accumulated_cell_add.
  assert (Hb' : exists x, coalesce_cell b (Some (lit0 t)) = Some x /\ has_dtype t x = true).
  { destruct b as [v|]; [exists v | exists (lit0 t)]; (split; [reflexivity|]).
    - now apply Hb.
    - now apply has_dtype_lit0. }
  assert (Hd' : exists y, coalesce_cell d (Some (lit0 t)) = Some y /\ has_dtype t y = true).
  { destruct d as [v|]; [exists v | exists (lit0 t)]; (split; [reflexivity|]).
    - now apply Hd.
    - now apply has_dtype_lit0. }
  destruct Hb' as [x [-> Hx]]. destruct Hd' as [y [-> Hy]].
  cbn [add_cell]. now apply add_value_typed.
Qed.

(** X15. The additive merge leaves no null in a column it accumulates: in
    a column that base and delta share, the key apart, every row of the
    returned table holds a value, a missing amount counting as 0, also on
    the rows of the keys the batch does not have. *)
Theorem upsert_bets_no_null
    (cast_value : DataType -> DataType -> value -> option value)
    (base delta : DataFrame) (key : string)
    (base' : DataFrame) (overlap : list string) (delta' : DataFrame) (out : DataFrame)
    (c : string) (p : nat) :
  align cast_value (IsDataFrame base) delta key = Ok (base', overlap, delta') ->
  upsert_bets cast_value (IsDataFrame base) delta key = Ok out ->
  In c overlap -> In c (columns out) ->
  frame_dtype base' c <> Null ->
  typed_column base' c -> typed_column delta' c ->
  (p < List.length (outer_pairs (key_cells base' key) (key_cells delta' key)))%nat ->
  cell_at out c p <> None.
Proof.
  intros Ha H Hc Hin Hn Htb Htd Hp.
  destruct (upsert_bets_sum _ _ _ _ _ H) as [b0 [o [d0 [Ha' Hsum]]]].
  rewrite Ha in Ha'. injection Ha' as <- <- <-.
  destruct (align_Ok _ _ _ _ _ _ _ Ha) as [_ [_ [_ [_ [Hov [Hcols Hd]]]]]].
  assert (Hcb : In c (columns base')).
  { rewrite Hov in Hc. now apply filter_In in Hc as [Hc _]. }
  assert (Hcd : In c (columns delta)).
  { rewrite Hov in Hc. apply filter_In in Hc as [_ Hc].
    apply andb_true_iff in Hc as [Hc _]. now apply mem_In. }
  apply In_columns_lookup in Hcb as [b Hb]. apply In_columns_lookup in Hcd as [d Hld].
  destruct (Hd c d Hld) as [d' [Hd' Hm]]. rewrite Hb in Hm. destruct Hm as [Hdt _].
  unfold frame_dtype in Hn. rewrite Hb in Hn.
  destruct (Hsum c b Hc Hin Hb) as [s [Hs [_ Hv]]].
  unfold cell_at. rewrite Hs, (Hv Hn).
  destruct (nth_error (outer_pairs (key_cells base' key) (key_cells delta' key)) p)
    as [pr|] eqn:Epr.
  2:{ apply nth_error_None in Epr. lia. }
  rewrite (nth_map_cell _ _ _ _ Epr).
  apply accumulated_cell_typed.
  - exact Hn.
  - intros v Hv'. exact (row_cell_typed _ _ _ _ _ Htb Hb Hv').
  - intros v Hv'. rewrite <- Hdt. exact (row_cell_typed _ _ _ _ _ Htd Hd' Hv').
Qed.

Lemma upsert_bets_no_null_witness :
  align numeric_cast (IsDataFrame base7_null) delta8_null "MatchId"
  = Ok (base7_null, ["TurnOver_SGD"], delta8_null) /\
  upsert_bets numeric_cast (IsDataFrame base7_null) delta8_null "MatchId"
  = Ok bets78_null /\
  In "TurnOver_SGD" ["TurnOver_SGD"] /\ In "TurnOver_SGD" (columns bets78_null) /\
  frame_dtype base7_null "TurnOver_SGD" <> Null /\
  typed_column base7_null "TurnOver_SGD" /\ typed_column delta8_null "TurnOver_SGD" /\
  (0 < List.length (outer_pairs (key_cells base7_null "MatchId")
                      (key_cells delta8_null "MatchId")))%nat /\
  cell_at base7_null "TurnOver_SGD" 0 = None /\
  cell_at bets78_null "TurnOver_SGD" 0 <> None.
Proof.
  assert (Ha : align numeric_cast (IsDataFrame base7_null) delta8_null "MatchId"
               = Ok (base7_null, ["TurnOver_SGD"], delta8_null))
    by (vm_compute; reflexivity).
  assert (H : upsert_bets numeric_cast (IsDataFrame base7_null) delta8_null "MatchId"
              = Ok bets78_null) by (vm_compute; reflexivity).
  assert (Hc : In "TurnOver_SGD" ["TurnOver_SGD"]) by (now left).
  assert (Hin : In "TurnOver_SGD" (columns bets78_null)).
  { apply mem_In. vm_compute. reflexivity. }
  assert (Hn : frame_dtype base7_null "TurnOver_SGD" <> Null) by (vm_compute; discriminate).
  assert (Htb : typed_column base7_null "TurnOver_SGD").
  { intros s v Hs Hv. vm_compute in Hs. injection Hs as <-.
    cbn [values] in Hv. destruct Hv as [Hv | []]. discriminate. }
  assert (Htd : typed_column delta8_null "TurnOver_SGD").
  { intros s v Hs Hv. vm_compute in Hs. injection Hs as <-.
    cbn [values] in Hv. destruct Hv as [Hv | []]. discriminate. }
  assert (Hp : (0 < List.length (outer_pairs (key_cells base7_null "MatchId")
                                   (key_cells delta8_null "MatchId")))%nat)
    by (vm_compute; lia).
  split; [exact Ha|]. split; [exact H|]. split; [exact Hc|]. split; [exact Hin|].
  split; [exact Hn|]. split; [exact Htb|]. split; [exact Htd|]. split; [exact Hp|].
  split; [reflexivity|].
  exact (upsert_bets_no_null numeric_cast base7_null delta8_null "MatchId"
           base7_null ["TurnOver_SGD"] delta8_null bets78_null "TurnOver_SGD" 0%nat
           Ha H Hc Hin Hn Htb Htd Hp).
Defined.

(** * When the merges that join return a table *)

Lemma length_append (a b : string) :
  String.length (a ++ b) = (String.length a + String.length b)%nat.
Proof. induction a as [|x a IH]; simpl; [reflexivity | now rewrite IH]. Qed.

Lemma append_inj_l (a b s : string) : (a ++ s = b ++ s)%string -> a = b.
Proof.
  revert b. induction a as [|x a IH]; intros [|y b] H; simpl in H.
  - reflexivity.
  - apply (f_equal String.length) in H. simpl in H. rewrite length_append in H. lia.
  - apply (f_equal String.length) in H. simpl in H. rewrite length_append in H. lia.
  - injection H as -> H. f_equal. now apply IH.
Qed.

Lemma sequence_returns {A} (l : list (result A)) :
  (forall r, In r l -> exists x, r = Ok x) -> exists xs, sequence l = Ok xs.
Proof.
  induction l as [|r l IH]; intros H; [now exists []|].
  destruct (H r (or_introl eq_refl)) as [x ->].
  destruct IH as [xs Hxs]; [intros r' Hr'; apply H; now right|].
  exists (x :: xs). cbn [sequence bind]. now rewrite Hxs.
Qed.

Lemma named_returns (exprs : list (string * result Series)) :
  (forall c r, In (c, r) exprs -> exists s, r = Ok s) ->
  exists out, sequence (map (fun e => s <- snd e ;; Ok (fst e, s)) exprs) = Ok out.
Proof.
  intros H. apply sequence_returns. intros r Hr.
  apply in_map_iff in Hr as [[c r0] [<- Hin]]. cbn [fst snd].
  destruct (H c r0 Hin) as [s ->]. now exists (c, s).
Qed.

Lemma select_exprs_returns exprs :
  NoDup (map fst exprs) ->
  (forall c r, In (c, r) exprs -> exists s, r = Ok s) ->
  exists out, select_exprs exprs = Ok out.
Proof.
  intros Hnd H. unfold select_exprs. apply nodupb_NoDup in Hnd. rewrite Hnd.
  now apply named_returns.
Qed.

Lemma columns_filter (f : string -> bool) (df : DataFrame) :
  columns (filter (fun p => f (fst p)) df) = filter f (columns df).
Proof.
  unfold columns. induction df as [|[n s] df IH]; [reflexivity|]. simpl.
  destruct (f n); simpl; now rewrite IH.
Qed.

(** The names of a join are distinct when no suffixed name is taken. *)
Lemma renamed_NoDup (L R : list string) (suffix : string) :
  NoDup L -> NoDup R ->
  (forall c, In c L -> In c R -> ~ In (c ++ suffix)%string L /\ ~ In (c ++ suffix)%string R) ->
  NoDup (L ++ map (fun c => if mem c L then (c ++ suffix)%string else c) R).
Proof.
  intros HL HR H. apply NoDup_app.
  - exact HL.
  - clear HL. induction R as [|c R IH]; [constructor|].
    cbn [map]. inversion HR as [|? ? Hc HR']; subst. constructor.
    + intros Hin. apply in_map_iff in Hin as [c' [E Hc']].
      destruct (mem c L) eqn:Ec, (mem c' L) eqn:Ec'.
      * apply append_inj_l in E. subst c'. contradiction.
      * apply mem_In in Ec. subst c'.
        destruct (H c Ec (or_introl eq_refl)) as [_ Hn]. apply Hn. now right.
      * apply mem_In in Ec'. subst c.
        destruct (H c' Ec' (or_intror Hc')) as [_ Hn]. apply Hn. now left.
      * subst c'. contradiction.
    + apply IH; [exact HR'|]. intros c' HcL HcR.
      destruct (H c' HcL (or_intror HcR)) as [H1 H2]. split; [exact H1|].
      intros Hn. apply H2. now right.
  - intros x HxL Hx. apply in_map_iff in Hx as [c [E Hc]].
    destruct (mem c L) eqn:Ec.
    + apply mem_In in Ec. subst x. destruct (H c Ec Hc) as [Hn _]. contradiction.
    + apply mem_false in Ec. subst x. contradiction.
Qed.

Lemma join_returns (left right : DataFrame) (on suffix : string) (ck : bool) :
  In on (columns left) -> In on (columns right) ->
  frame_dtype left on = frame_dtype right on ->
  NoDup (columns left
         ++ map (fun c => if mem c (columns left) then (c ++ suffix)%string else c)
              (if ck then filter (fun c => negb (String.eqb c on)) (columns right)
               else columns right)) ->
  exists j, join left right on suffix ck = Ok j.
Proof.
  intros Hl Hr Hdt Hnd. unfold join, col.
  apply In_columns_lookup in Hl as [lk Hlk]. apply In_columns_lookup in Hr as [rk Hrk].
  unfold frame_dtype in Hdt. rewrite Hlk, Hrk in Hdt.
  rewrite Hlk, Hrk. cbn [bind]. rewrite Hdt, DataType_eqb_refl. cbn [negb].
  match goal with |- exists j, (if nodupb ?n then _ else _) = _ => assert (Hn : nodupb n = true) end.
  { apply nodupb_NoDup. unfold columns. rewrite map_app, !map_map. cbn [fst].
    rewrite <- (map_map fst (fun c => if mem c (map fst left) then (c ++ suffix)%string else c)).
    change (map (fun x : string * Series => fst x) left) with (columns left).
    destruct ck.
    - fold (columns (filter (fun p : string * Series => negb (String.eqb (fst p) on)) right)).
      rewrite (columns_filter (fun c => negb (String.eqb c on))). exact Hnd.
    - exact Hnd. }
  rewrite Hn. eauto.
Qed.

Section MergeReturns.

Variable cast_value : DataType -> DataType -> value -> option value.

Lemma align_returns base0 delta key :
  let base := _ensure_df_from_schema base0 in
  In key (columns base) -> In key (columns delta) -> NoDup (columns base) ->
  (forall c b d, lookup base c = Some b -> lookup delta c = Some d ->
     dtype d <> dtype b -> exists d', cast cast_value d (dtype b) = Ok d') ->
  exists delta',
    align cast_value base0 delta key
    = Ok (base,
          filter (fun c => mem c (columns delta) && negb (String.eqb c key)) (columns base),
          delta').
Proof.
  intros base Hkb Hkd Hnd Hcast. unfold align. fold base.
  apply mem_In in Hkd. rewrite Hkd. apply mem_In in Hkb. rewrite Hkb. cbn [negb].
  set (ov := filter (fun c => mem c (columns delta) && negb (String.eqb c key)) (columns base)).
  set (to_cast := filter _ (key :: ov)).
  set (casts := map _ to_cast).
  destruct (is_nil casts); [now exists delta|].
  assert (Hw : exists out, with_columns_exprs delta casts = Ok out).
  { unfold with_columns_exprs.
    assert (Hnames : map fst casts = to_cast).
    { unfold casts. rewrite map_map. cbn [fst]. apply map_id. }
    assert (Hn : nodupb (map fst casts) = true).
    { rewrite Hnames. apply nodupb_NoDup. apply NoDup_filter. constructor.
      - intros Hin. apply in_overlap in Hin. tauto.
      - now apply NoDup_filter. }
    rewrite Hn.
    destruct (named_returns casts) as [news Hnews].
    - intros c r Hin. apply in_map_iff in Hin as [c' [E Hc]]. injection E as -> <-.
      apply filter_In in Hc as [Hc Hf].
      assert (Hboth : In c (columns base) /\ In c (columns delta)).
      { destruct Hc as [<- | Hc]; [split; now apply mem_In|].
        apply in_overlap in Hc. tauto. }
      destruct Hboth as [Hb Hd].
      apply In_columns_lookup in Hb as [b Hb]. apply In_columns_lookup in Hd as [d Hd].
      unfold col. rewrite Hb, Hd. cbn [bind].
      rewrite !lookup_schema, Hb, Hd in Hf. cbn [option_map] in Hf.
      apply (Hcast c b d Hb Hd). intros E. rewrite E, DataType_eqb_refl in Hf. discriminate.
    - rewrite Hnews. cbn [bind]. eauto. }
  destruct Hw as [out ->]. cbn [bind]. now exists out.
Qed.

Lemma upsert_returns base0 delta key :
  let base := _ensure_df_from_schema base0 in
  In key (columns base) -> In key (columns delta) ->
  NoDup (columns base) -> NoDup (columns delta) ->
  (forall c b d, lookup base c = Some b -> lookup delta c = Some d ->
     dtype d <> dtype b -> exists d', cast cast_value d (dtype b) = Ok d') ->
  (forall c, In c (columns base) -> In c (columns delta) -> c <> key ->
     ~ In (c ++ "_upd")%string (columns base) /\ ~ In (c ++ "_upd")%string (columns delta)) ->
  exists out, upsert cast_value base0 delta key = Ok out.
Proof.
  intros base Hkb Hkd Hnb Hndl Hcast Hfree.
  destruct (align_returns base0 delta key Hkb Hkd Hnb Hcast) as [delta' Ha].
  fold base in Ha.
  set (overlap := filter (fun c => mem c (columns delta) && negb (String.eqb c key))
                         (columns base)) in *.
  destruct (align_Ok _ _ _ _ _ _ _ Ha) as [_ [_ [_ [_ [_ [Hcols Hd']]]]]].
  unfold upsert. rewrite Ha. cbn [bind].
  (* the join *)
  assert (Hj : exists j, join base delta' key "_upd" true = Ok j).
  { apply join_returns.
    - exact Hkb.
    - now rewrite Hcols.
    - apply In_columns_lookup in Hkb as [b Hb]. apply In_columns_lookup in Hkd as [d Hd].
      destruct (Hd' key d Hd) as [d' [Hl Hm]]. rewrite Hb in Hm. destruct Hm as [Hm _].
      unfold frame_dtype. now rewrite Hb, Hl.
    - rewrite Hcols. apply renamed_NoDup.
      + exact Hnb.
      + now apply NoDup_filter.
      + intros c Hcb Hcd. apply filter_In in Hcd as [Hcd Hne].
        apply negb_true_iff, String.eqb_neq in Hne.
        destruct (Hfree c Hcb Hcd Hne) as [H1 H2]. split; [exact H1|].
        intros Hin. apply filter_In in Hin as [Hin _]. contradiction. }
  destruct Hj as [j Hj]. rewrite Hj. cbn [bind].
  destruct (join_Ok _ _ _ _ _ _ Hj) as [lk [rk [Hlk [Hrk [Hdt [Hndj [Hleft Hright]]]]]]].
  cbv zeta in Hleft, Hright.
  assert (Hov : forall c, In c overlap <-> In c (columns base) /\ In c (columns delta) /\ c <> key).
  { intros c. apply in_overlap. }
  apply select_exprs_returns.
  - rewrite !map_app, !map_map. cbn [fst]. rewrite !map_id.
    apply NoDup_app; [now apply NoDup_filter | apply NoDup_app |].
    + now apply NoDup_filter.
    + apply NoDup_filter. now rewrite Hcols.
    + intros c Hc Hc2. apply filter_In in Hc2 as [_ Hc2].
      apply andb_true_iff in Hc2 as [Hc2 _]. apply negb_true_iff, mem_false in Hc2.
      contradiction.
    + intros c Hc Hc2. apply filter_In in Hc as [Hcb Hc].
      apply negb_true_iff, mem_false in Hc.
      apply in_app_or in Hc2 as [Hc2 | Hc2]; [contradiction|].
      apply filter_In in Hc2 as [Hcd Hc2]. rewrite Hcols in Hcd.
      apply andb_true_iff in Hc2 as [_ Hne]. apply negb_true_iff, String.eqb_neq in Hne.
      apply Hc, Hov. tauto.
  - intros c r Hin. apply in_app_or in Hin as [Hin | Hin]; [|apply in_app_or in Hin as [Hin | Hin]].
    + apply in_map_iff in Hin as [c' [E Hc]]. injection E as -> <-.
      apply filter_In in Hc as [Hc _]. apply In_columns_lookup in Hc as [s Hs].
      unfold col. rewrite (Hleft c s Hs). eauto.
    + apply in_map_iff in Hin as [c' [E Hc]]. injection E as -> <-.
      apply Hov in Hc as [Hcb [Hcd Hne]].
      apply In_columns_lookup in Hcb as [b Hb]. apply In_columns_lookup in Hcd as [d Hd].
      destruct (Hd' c d Hd) as [d' [Hl Hm]]. rewrite Hb in Hm. destruct Hm as [Hm _].
      assert (Hcb : mem c (columns base) = true).
      { apply mem_In, In_columns_lookup. eauto. }
      pose proof (Hright c d' (lookup_In _ _ _ Hl) (fun _ => Hne)) as Hu.
      rewrite Hcb in Hu. unfold col. rewrite Hu, (Hleft c b Hb). cbn [bind].
      assert (Hck : true && String.eqb c key = false).
      { cbn [andb]. now apply String.eqb_neq. }
      rewrite Hck. rewrite coalesce_same_dtype; [eauto|]. cbn [dtype]. exact Hm.
    + apply in_map_iff in Hin as [c' [E Hc]]. injection E as -> <-.
      apply filter_In in Hc as [Hcd Hc]. apply andb_true_iff in Hc as [Hno Hne].
      apply negb_true_iff, String.eqb_neq in Hne. apply negb_true_iff, mem_false in Hno.
      assert (Hnb' : mem c (columns base) = false).
      { apply mem_false. intros Hcb. apply Hno, Hov. rewrite <- Hcols. tauto. }
      apply In_columns_lookup in Hcd as [d' Hl].
      pose proof (Hright c d' (lookup_In _ _ _ Hl) (fun _ => Hne)) as Hu.
      rewrite Hnb' in Hu. unfold col. rewrite Hu. eauto.
Qed.

Lemma upsert_match_returns_general base0 delta key :
  let base := _ensure_df_from_schema base0 in
  conforms head_to_head_schema base ->
  In key (columns base) -> In key (columns delta) ->
  NoDup (columns base) -> NoDup (columns delta) ->
  (forall c b d, lookup base c = Some b -> lookup delta c = Some d ->
     dtype d <> dtype b -> exists d', cast cast_value d (dtype b) = Ok d') ->
  (forall c, In c (columns base) -> In c (columns delta) -> c <> key ->
     ~ In (c ++ "_upd")%string (columns base) /\ ~ In (c ++ "_upd")%string (columns delta)) ->
  exists out, upsert_match cast_value base0 delta key = Ok out.
Proof.
  intros base Hconf Hkb Hkd Hnb Hndl Hcast Hfree.
  destruct (upsert_returns base0 delta key Hkb Hkd Hnb Hndl Hcast Hfree) as [out0 H0].
  unfold upsert_match. rewrite H0. cbn [bind].
  destruct (upsert_lookup _ _ _ _ _ H0) as [b [o [d' [Ha [Hnd [Hin Hl]]]]]].
  destruct (align_Ok _ _ _ _ _ _ _ Ha) as [_ [_ [Hb _]]].
  fold base in Hb. rewrite (Hb Hkb) in *. clear Hb.
  assert (Hcan : forall c t, In (c, t) head_to_head_schema ->
            exists s, lookup base c = Some s /\ dtype s = t).
  { intros c t Hc. apply (conforms_lookup _ _ _ _ Hconf).
    apply lookup_NoDup; [exact NoDup_canonical | exact Hc]. }
  assert (Hcin : forall c t, In (c, t) head_to_head_schema -> In c (columns out0)).
  { intros c t Hc. apply Hin. left. apply In_columns_lookup.
    destruct (Hcan c t Hc) as [s [Hs _]]. eauto. }
  eexists. apply ordenar_y_validar_intro.
  - intros c Hc. apply in_map_iff in Hc as [[c' t] [<- Hc]]. cbn [fst]. eapply Hcin, Hc.
  - intros c t Hc. rewrite lookup_schema, (Hl c (Hcin c t Hc)).
    destruct (Hcan c t Hc) as [s [Hs Ht]]. rewrite Hs. cbn [option_map dtype]. now rewrite Ht.
  - now left.
  - apply NoDup_app_filter; [exact NoDup_canonical | exact Hnd].
Qed.

End MergeReturns.

(** X16. When the replace-merge returns a table. Merging a batch into a
    consolidated table (a frame that conforms to the canonical schema, or
    the schema itself) returns a table whenever the batch has the key, the
    casts of its key and shared columns to the dtypes of base succeed, and
    no column is named like a shared column followed by [_upd]. *)
Theorem upsert_match_returns
    (cast_value : DataType -> DataType -> value -> option value)
    (base0 : frame_or_schema) (delta : DataFrame) (key : string) :
  conforms head_to_head_schema (_ensure_df_from_schema base0) ->
  In key (columns (_ensure_df_from_schema base0)) -> In key (columns delta) ->
  NoDup (columns (_ensure_df_from_schema base0)) -> NoDup (columns delta) ->
  (forall c b d, lookup (_ensure_df_from_schema base0) c = Some b ->
     lookup delta c = Some d -> dtype d <> dtype b ->
     exists d', cast cast_value d (dtype b) = Ok d') ->
  (forall c, In c (columns (_ensure_df_from_schema base0)) -> In c (columns delta) ->
     c <> key ->
     ~ In (c ++ "_upd")%string (columns (_ensure_df_from_schema base0)) /\
     ~ In (c ++ "_upd")%string (columns delta)) ->
  exists out, upsert_match cast_value base0 delta key = Ok out.
Proof.
  intros Hconf Hkb Hkd Hnb Hnd Hcast Hfree.
  exact (upsert_match_returns_general cast_value base0 delta key
           Hconf Hkb Hkd Hnb Hnd Hcast Hfree).
Qed.

Lemma conforms_base78 : conforms head_to_head_schema base78.
Proof.
  exists []. split; [vm_compute; reflexivity|]. intros c [].
Qed.

Lemma delta89_columns c d :
  lookup delta89 c = Some d ->
  (c = "MatchId" \/ c = "HomeId" \/ c = "AwayId") /\ dtype d = Int64.
Proof.
  unfold delta89. cbn [lookup].
  destruct (String.eqb_spec "MatchId" c) as [<- | _]; [intros [= <-]; tauto|].
  destruct (String.eqb_spec "HomeId" c) as [<- | _]; [intros [= <-]; tauto|].
  destruct (String.eqb_spec "AwayId" c) as [<- | _]; [intros [= <-]; tauto|].
  discriminate.
Qed.

Lemma upsert_match_returns_witness :
  conforms head_to_head_schema base78 /\
  In "MatchId" (columns base78) /\ In "MatchId" (columns delta89) /\
  NoDup (columns base78) /\ NoDup (columns delta89) /\
  exists out, upsert_match numeric_cast (IsDataFrame base78) delta89 "MatchId" = Ok out.
Proof.
  assert (Hkb : In "MatchId" (columns base78)) by (apply mem_In; vm_compute; reflexivity).
  assert (Hkd : In "MatchId" (columns delta89)) by (now left).
  assert (Hnb : NoDup (columns base78)) by (apply nodupb_NoDup; vm_compute; reflexivity).
  assert (Hnd : NoDup (columns delta89)) by (apply nodupb_NoDup; vm_compute; reflexivity).
  assert (Hcast : forall c b d, lookup base78 c = Some b -> lookup delta89 c = Some d ->
            dtype d <> dtype b -> exists d', cast numeric_cast d (dtype b) = Ok d').
  { intros c b d Hb Hd Hne. exfalso. apply Hne.
    destruct (delta89_columns c d Hd) as [[-> | [-> | ->]] ->];
      vm_compute in Hb; injection Hb as <-; reflexivity. }
  assert (Hfree : forall c, In c (columns base78) -> In c (columns delta89) ->
            c <> "MatchId" ->
            ~ In (c ++ "_upd")%string (columns base78) /\
            ~ In (c ++ "_upd")%string (columns delta89)).
  { intros c _ Hc _. destruct Hc as [<- | [<- | [<- | []]]];
      (split; apply mem_false; vm_compute; reflexivity). }
  split; [exact conforms_base78|]. split; [exact Hkb|]. split; [exact Hkd|].
  split; [exact Hnb|]. split; [exact Hnd|].
  exact (upsert_match_returns numeric_cast (IsDataFrame base78) delta89 "MatchId"
           conforms_base78 Hkb Hkd Hnb Hnd Hcast Hfree).
Defined.

(** * The application *)

Lemma split_no_sep sep s :
  ~ In sep (list_ascii_of_string s) -> split sep s = [s].
Proof.
  induction s as [|c s IH]; intros H; [reflexivity|].
  cbn [split]. cbn [list_ascii_of_string] in H.
  destruct (Ascii.eqb_spec c sep) as [-> | _].
  - exfalso. apply H. now left.
  - rewrite IH; [reflexivity|]. intros Hin. apply H. now right.
Qed.

Section AppFacts.

Variable DATA_BUCKET : string.
Variable unquote_plus : string -> string.
Variable create_head_to_head_bets_lazy : string -> string -> LazyFrame.
Variable create_head_to_head_odds_lazy : string -> string -> LazyFrame.
Variable create_head_to_head_match_lazy : string -> string -> LazyFrame.
Variable cast_value : DataType -> DataType -> value -> option value.
Variable set_iter : list string -> list string.
Variable group_order : list cell -> list cell.

Local Notation "'run'" :=
  (process_record DATA_BUCKET unquote_plus
     create_head_to_head_bets_lazy create_head_to_head_odds_lazy
     create_head_to_head_match_lazy cast_value set_iter group_order)
  (only parsing).

(** What a run of [process_record] can be. *)
Lemma process_record_cases bucket key st :
  (exists e, run bucket key st = (Raises e, st)) \/
  (exists body, run bucket key st = (Returns (Status 207 body), st)
                /\ body = "Not found table to update") \/
  (exists base_df new_rows_df out,
     (st = NoSuchKey /\ base_df = empty_head_to_head \/ st = Stored (Returns base_df)) /\
     (Returns new_rows_df = create_head_to_head_bets_lazy bucket (unquote_plus key) \/
      Returns new_rows_df = create_head_to_head_odds_lazy bucket (unquote_plus key) \/
      Returns new_rows_df = create_head_to_head_match_lazy bucket (unquote_plus key)) /\
     (upsert_bets cast_value (IsDataFrame base_df) new_rows_df "MatchId" = Ok out \/
      upsert_odds set_iter group_order base_df new_rows_df "MatchId" "ModifiedOn"
        app_reciente app_antiguo = Ok out \/
      upsert_match cast_value (IsDataFrame base_df) new_rows_df "MatchId" = Ok out) /\
     run bucket key st
     = (Returns (Processed ("s3://" ++ bucket ++ "/" ++ unquote_plus key)
                   (HEAD_TO_HEAD_S3_URI DATA_BUCKET)),
        Stored (Returns out))).
Proof.
  unfold process_record.
  assert (Hload : load_base_lazyframe st = Raises ClientError \/
                  exists lf, load_base_lazyframe st = Returns lf /\
                    (lf = Returns empty_head_to_head /\ st = NoSuchKey \/ st = Stored lf)).
  { destruct st as [| |lf]; cbn; [right|left|right]; eauto 6. }
  destruct Hload as [-> | [lf [-> Hlf]]]; [left; eauto|].
  destruct (nth_error (split "/" (unquote_plus key)) 1) as [table_name|]; [|left; eauto].
  destruct (String.eqb table_name "bets") eqn:Eb.
  { destruct lf as [base_df|e]; [|left; eauto].
    destruct (create_head_to_head_bets_lazy _ _) as [new_rows_df|e]; [|left; eauto].
    destruct (upsert_bets _ _ _ _) as [out|e] eqn:E; [|left; eauto].
    right. right. exists base_df, new_rows_df, out.
    split; [|split; [now left | split; [now left | reflexivity]]].
    destruct Hlf as [[[= <-] ->] | ->]; [left | right]; tauto. }
  destruct (String.eqb table_name "odds") eqn:Eo.
  { destruct lf as [base_df|e]; [|left; eauto].
    destruct (create_head_to_head_odds_lazy _ _) as [new_rows_df|e]; [|left; eauto].
    destruct (upsert_odds _ _ _ _ _ _ _ _) as [out|e] eqn:E; [|left; eauto].
    right. right. exists base_df, new_rows_df, out.
    split; [|split; [right; now left | split; [right; now left | reflexivity]]].
    destruct Hlf as [[[= <-] ->] | ->]; [left | right]; tauto. }
  destruct (String.eqb table_name "match_result") eqn:Em.
  { destruct lf as [base_df|e]; [|left; eauto].
    destruct (create_head_to_head_match_lazy _ _) as [new_rows_df|e]; [|left; eauto].
    destruct (upsert_match _ _ _ _) as [out|e] eqn:E; [|left; eauto].
    right. right. exists base_df, new_rows_df, out.
    split; [|split; [right; now right | split; [right; now right | reflexivity]]].
    destruct Hlf as [[[= <-] ->] | ->]; [left | right]; tauto. }
  right. left. eauto.
Qed.

Lemma process_record_stores_general bucket key st :
  match run bucket key st with
  | (Returns (Processed source target), st') =>
      source = ("s3://" ++ bucket ++ "/" ++ unquote_plus key)%string /\
      target = HEAD_TO_HEAD_S3_URI DATA_BUCKET /\
      exists out, st' = Stored (Returns out) /\ conforms head_to_head_schema out
  | (_, st') => st' = st
  end.
Proof.
  destruct (process_record_cases bucket key st)
    as [[e ->] | [[body [-> _]] | [base_df [new_rows_df [out [_ [_ [Hm ->]]]]]]]];
    [reflexivity | reflexivity |].
  split; [reflexivity|]. split; [reflexivity|]. exists out. split; [reflexivity|].
  destruct Hm as [H | [H | H]].
  - eapply upsert_bets_conforms. exact H.
  - eapply upsert_odds_conforms. exact H.
  - eapply upsert_match_conforms. exact H.
Qed.

Lemma process_record_rejects_general bucket key st :
  (st = HeadFails -> run bucket key st = (Raises ClientError, st)) /\
  (st <> HeadFails -> ~ In "/"%char (list_ascii_of_string (unquote_plus key)) ->
   run bucket key st = (Raises IndexError, st)) /\
  (st <> HeadFails ->
   forall table_name, nth_error (split "/" (unquote_plus key)) 1 = Some table_name ->
     table_name <> "bets" -> table_name <> "odds" -> table_name <> "match_result" ->
     run bucket key st = (Returns (Status 207 "Not found table to update"), st)) /\
  fst (run bucket key st) <> Returns (Status 207 "Not found table to upsert").
Proof.
  assert (Hload : st <> HeadFails -> exists lf, load_base_lazyframe st = Returns lf).
  { destruct st; cbn; eauto. intros H. now elim H. }
  split; [|split; [|split]].
  - intros ->. reflexivity.
  - intros Hst Hno. unfold process_record. destruct (Hload Hst) as [lf ->].
    now rewrite (split_no_sep _ _ Hno).
  - intros Hst t Ht Hb Ho Hm. unfold process_record. destruct (Hload Hst) as [lf ->].
    rewrite Ht. apply String.eqb_neq in Hb, Ho, Hm. now rewrite Hb, Ho, Hm.
  - destruct (process_record_cases bucket key st)
      as [[e ->] | [[body [-> ->]] | [base_df [new_rows_df [out [_ [_ [_ ->]]]]]]]];
      cbn [fst]; discriminate.
Qed.

End AppFacts.

(** ** One row per match *)

Lemma key_match_group_eqb a b : key_match a b = true -> group_eqb a b = true.
Proof. destruct a, b; simpl; congruence. Qed.

Lemma distinct_keys_groups (group_order : list cell -> list cell) K :
  (forall l, Permutation (group_order l) l) ->
  (forall k, In k K -> k <> None) ->
  distinct_keys (group_order (distinct K)).
Proof.
  intros Hperm Hnn.
  assert (Hin : forall k, In k (group_order (distinct K)) -> In k (distinct K)).
  { intros k. apply Permutation_in, Hperm. }
  assert (Hnd : NoDup (group_order (distinct K))).
  { eapply Permutation_NoDup; [apply Permutation_sym, Hperm | apply distinct_NoDup]. }
  split.
  - intros j Hj. apply Hnn, distinct_incl, Hin. now apply nth_In.
  - intros j j' Hj Hj' Hm. apply key_match_group_eqb in Hm.
    apply (proj1 (NoDup_nth _ None) Hnd j j' Hj Hj').
    apply (distinct_apart K); [apply Hin; now apply nth_In .. | exact Hm].
Qed.

Lemma distinct_keys_In K k : distinct_keys K -> In k K -> k <> None.
Proof.
  intros [H _] Hin. apply (In_nth _ _ None) in Hin as [j [Hj <-]]. now apply H.
Qed.

Lemma key_cells_aligned df c : In c (columns df) -> aligned_column df c = key_cells df c.
Proof.
  intros H. apply In_columns_lookup in H as [s Hs].
  unfold aligned_column, key_cells. now rewrite Hs.
Qed.

Section OneRowPerMatch.

Variable cast_value : DataType -> DataType -> value -> option value.

Lemma align_same_key base delta key base' overlap delta' b d :
  align cast_value (IsDataFrame base) delta key = Ok (base', overlap, delta') ->
  lookup base key = Some b -> lookup delta key = Some d -> dtype d = dtype b ->
  base' = base /\ key_cells delta' key = key_cells delta key.
Proof.
  intros Ha Hb Hd Hdt.
  destruct (align_Ok _ _ _ _ _ _ _ Ha) as [_ [_ [Hbase [_ [_ [_ Hl]]]]]].
  cbn [_ensure_df_from_schema] in Hbase.
  assert (Hbb : base' = base).
  { apply Hbase, In_columns_lookup. eauto. }
  split; [exact Hbb|]. subst base'.
  destruct (Hl key d Hd) as [d' [Hd' Hm]]. rewrite Hb in Hm.
  destruct Hm as [_ [Hsame _]]. rewrite (Hsame Hdt) in Hd'.
  unfold key_cells. now rewrite Hd', Hd.
Qed.

Lemma upsert_match_one_row base delta key out b d :
  lookup base key = Some b -> lookup delta key = Some d -> dtype d = dtype b ->
  distinct_keys (key_cells base key) -> distinct_keys (key_cells delta key) ->
  upsert_match cast_value (IsDataFrame base) delta key = Ok out ->
  distinct_keys (key_cells out key).
Proof.
  intros Hb Hd Hdt Hkb Hkd H.
  destruct (upsert_match_form _ _ _ _ _ H) as [base' [ov [delta' [Ha _]]]].
  destruct (align_same_key _ _ _ _ _ _ _ _ Ha Hb Hd Hdt) as [-> Hk].
  rewrite (upsert_match_keys _ _ _ _ _ _ _ _ Ha H), Hk.
  now apply joined_keys_distinct.
Qed.

Lemma upsert_bets_one_row base delta key out b d :
  lookup base key = Some b -> lookup delta key = Some d -> dtype d = dtype b ->
  distinct_keys (key_cells base key) -> distinct_keys (key_cells delta key) ->
  upsert_bets cast_value (IsDataFrame base) delta key = Ok out ->
  In key (columns out) ->
  distinct_keys (key_cells out key).
Proof.
  intros Hb Hd Hdt Hkb Hkd H Hin.
  destruct (upsert_bets_key _ _ _ _ _ H Hin) as [base' [ov [delta' [Ha [s [Hs Hv]]]]]].
  destruct (align_same_key _ _ _ _ _ _ _ _ Ha Hb Hd Hdt) as [-> Hk].
  unfold key_cells at 1. rewrite Hs, Hv.
  erewrite map_ext.
  - apply joined_keys_distinct; [exact Hkb | rewrite Hk; exact Hkd].
  - intros pr. unfold joined_key. now rewrite !row_cell_key_cells.
Qed.

End OneRowPerMatch.

Lemma upsert_odds_one_row set_iter group_order base delta pk ts_col reciente antiguo out :
  (forall l, Permutation (group_order l) l) ->
  In pk (columns base) -> In pk (columns delta) ->
  distinct_keys (key_cells base pk) -> distinct_keys (key_cells delta pk) ->
  upsert_odds set_iter group_order base delta pk ts_col reciente antiguo = Ok out ->
  distinct_keys (key_cells out pk).
Proof.
  intros Hperm Hb Hd Hkb Hkd H.
  destruct (upsert_odds_Ok _ _ _ _ _ _ _ _ _ H) as [_ [_ [[s [Hs Hv]] _]]].
  unfold key_cells at 1. rewrite Hs, Hv.
  apply distinct_keys_groups; [exact Hperm|].
  intros k Hk. unfold stacked in Hk.
  rewrite (key_cells_aligned _ _ Hb), (key_cells_aligned _ _ Hd) in Hk.
  apply in_app_or in Hk as [Hk | Hk].
  - exact (distinct_keys_In _ _ Hkb Hk).
  - exact (distinct_keys_In _ _ Hkd Hk).
Qed.

Lemma one_row_per_match_empty : one_row_per_match empty_head_to_head.
Proof.
  split.
  - exists []. split; [vm_compute; reflexivity | intros c []].
  - exact distinct_keys_nil.
Qed.

Lemma conforms_key df :
  conforms head_to_head_schema df ->
  exists s, lookup df "MatchId" = Some s /\ dtype s = Int64.
Proof.
  intros H. apply (conforms_lookup _ _ _ _ H). reflexivity.
Qed.

(** X17. A run of [process_record] either leaves the stored table as it
    is, or puts in its place a table that conforms to the canonical
    schema; it does the latter exactly when it returns the response with
    the source and the target, so a run that raises or answers 207 writes
    nothing. *)
Theorem process_record_stores
    (DATA_BUCKET : string) (unquote_plus : string -> string)
    (create_head_to_head_bets_lazy create_head_to_head_odds_lazy
       create_head_to_head_match_lazy : string -> string -> LazyFrame)
    (cast_value : DataType -> DataType -> value -> option value)
    (set_iter : list string -> list string) (group_order : list cell -> list cell)
    (bucket key : string) (st : s3_object) :
  match process_record DATA_BUCKET unquote_plus
          create_head_to_head_bets_lazy create_head_to_head_odds_lazy
          create_head_to_head_match_lazy cast_value set_iter group_order
          bucket key st with
  | (Returns (Processed source target), st') =>
      source = ("s3://" ++ bucket ++ "/" ++ unquote_plus key)%string /\
      target = HEAD_TO_HEAD_S3_URI DATA_BUCKET /\
      exists out, st' = Stored (Returns out) /\ conforms head_to_head_schema out
  | (_, st') => st' = st
  end.
Proof. apply process_record_stores_general. Qed.

(** X18. What [process_record] refuses. When [head_object] fails other
    than by a 404 it raises that error. Otherwise, a key without a slash
    raises [IndexError], and a key whose second segment is none of
    [bets], [odds], [match_result] gets the answer 207, also when the
    stored table cannot be read. In each case nothing is written. The
    second answer 207 of the source, "Not found table to upsert", is never
    given. *)
Theorem process_record_rejects
    (DATA_BUCKET : string) (unquote_plus : string -> string)
    (create_head_to_head_bets_lazy create_head_to_head_odds_lazy
       create_head_to_head_match_lazy : string -> string -> LazyFrame)
    (cast_value : DataType -> DataType -> value -> option value)
    (set_iter : list string -> list string) (group_order : list cell -> list cell)
    (bucket key : string) (st : s3_object) :
  let run := process_record DATA_BUCKET unquote_plus
               create_head_to_head_bets_lazy create_head_to_head_odds_lazy
               create_head_to_head_match_lazy cast_value set_iter group_order in
  (st = HeadFails -> run bucket key st = (Raises ClientError, st)) /\
  (st <> HeadFails -> ~ In "/"%char (list_ascii_of_string (unquote_plus key)) ->
   run bucket key st = (Raises IndexError, st)) /\
  (st <> HeadFails ->
   forall table_name, nth_error (split "/" (unquote_plus key)) 1 = Some table_name ->
     table_name <> "bets" -> table_name <> "odds" -> table_name <> "match_result" ->
     run bucket key st = (Returns (Status 207 "Not found table to update"), st)) /\
  fst (run bucket key st) <> Returns (Status 207 "Not found table to upsert").
Proof. apply process_record_rejects_general. Qed.

Lemma upsert_bets_keeps_one_row cast_value base delta out :
  one_row_per_match base -> good_rows (Returns delta) ->
  upsert_bets cast_value (IsDataFrame base) delta "MatchId" = Ok out ->
  one_row_per_match out.
Proof.
  intros [Hcb Hkb] [[d [Hd Hdt]] Hkd] H.
  assert (Hc : conforms head_to_head_schema out) by (eapply upsert_bets_conforms; exact H).
  split; [exact Hc|].
  destruct (conforms_key _ Hcb) as [b [Hb Hbt]].
  assert (Hin : In "MatchId" (columns out)).
  { destruct (conforms_key _ Hc) as [s [Hs _]]. apply In_columns_lookup. eauto. }
  assert (Heq : dtype d = dtype b) by congruence.
  exact (upsert_bets_one_row cast_value base delta "MatchId" out b d
           Hb Hd Heq Hkb Hkd H Hin).
Qed.

Lemma upsert_match_keeps_one_row cast_value base delta out :
  one_row_per_match base -> good_rows (Returns delta) ->
  upsert_match cast_value (IsDataFrame base) delta "MatchId" = Ok out ->
  one_row_per_match out.
Proof.
  intros [Hcb Hkb] [[d [Hd Hdt]] Hkd] H.
  split; [eapply upsert_match_conforms; exact H|].
  destruct (conforms_key _ Hcb) as [b [Hb Hbt]].
  assert (Heq : dtype d = dtype b) by congruence.
  exact (upsert_match_one_row cast_value base delta "MatchId" out b d
           Hb Hd Heq Hkb Hkd H).
Qed.

Lemma upsert_odds_keeps_one_row set_iter group_order base delta reciente antiguo out :
  (forall l, Permutation (group_order l) l) ->
  one_row_per_match base -> good_rows (Returns delta) ->
  upsert_odds set_iter group_order base delta "MatchId" "ModifiedOn" reciente antiguo
  = Ok out ->
  one_row_per_match out.
Proof.
  intros Hperm [Hcb Hkb] [[d [Hd Hdt]] Hkd] H.
  split; [eapply upsert_odds_conforms; exact H|].
  destruct (conforms_key _ Hcb) as [b [Hb Hbt]].
  assert (Hib : In "MatchId" (columns base)) by (apply In_columns_lookup; eauto).
  assert (Hid : In "MatchId" (columns delta)) by (apply In_columns_lookup; eauto).
  exact (upsert_odds_one_row set_iter group_order base delta "MatchId" "ModifiedOn"
           reciente antiguo out Hperm Hib Hid Hkb Hkd H).
Qed.

Lemma process_record_good
    (DATA_BUCKET : string) (unquote_plus : string -> string)
    (create_head_to_head_bets_lazy create_head_to_head_odds_lazy
       create_head_to_head_match_lazy : string -> string -> LazyFrame)
    (cast_value : DataType -> DataType -> value -> option value)
    (set_iter : list string -> list string) (group_order : list cell -> list cell)
    (bucket key : string) (st : s3_object) :
  (forall l, Permutation (group_order l) l) ->
  (forall b k, good_rows (create_head_to_head_bets_lazy b k)) ->
  (forall b k, good_rows (create_head_to_head_odds_lazy b k)) ->
  (forall b k, good_rows (create_head_to_head_match_lazy b k)) ->
  good_state st ->
  good_state (snd (process_record DATA_BUCKET unquote_plus
                     create_head_to_head_bets_lazy create_head_to_head_odds_lazy
                     create_head_to_head_match_lazy cast_value set_iter group_order
                     bucket key st)).
Proof.
  intros Hperm Hbets Hodds Hmatch Hst.
  destruct (process_record_cases DATA_BUCKET unquote_plus
              create_head_to_head_bets_lazy create_head_to_head_odds_lazy
              create_head_to_head_match_lazy cast_value set_iter group_order
              bucket key st)
    as [[e ->] | [[body [-> _]] | [base_df [new_rows_df [out [Hb [Hn [Hm ->]]]]]]]];
    [exact Hst | exact Hst |].
  cbn [snd good_state].
  assert (Hbase : one_row_per_match base_df).
  { destruct Hb as [[_ ->] | ->]; [exact one_row_per_match_empty | exact Hst]. }
  assert (Hg : good_rows (Returns new_rows_df)).
  { destruct Hn as [-> | [-> | ->]]; [apply Hbets | apply Hodds | apply Hmatch]. }
  destruct Hm as [H | [H | H]].
  - exact (upsert_bets_keeps_one_row _ _ _ _ Hbase Hg H).
  - exact (upsert_odds_keeps_one_row _ _ _ _ _ _ _ Hperm Hbase Hg H).
  - exact (upsert_match_keeps_one_row _ _ _ _ Hbase Hg H).
Qed.

(** X19. The stored table keeps one row per match. When the stored table
    conforms to the canonical schema with non-null, pairwise distinct
    match ids (or is absent), and the new rows of the three builders have
    an [Int64] match id, non-null and pairwise distinct, the table a run
    of [process_record] leaves is again such a table, whatever the record
    and the outcome. *)
Theorem process_record_one_row_per_match
    (DATA_BUCKET : string) (unquote_plus : string -> string)
    (create_head_to_head_bets_lazy create_head_to_head_odds_lazy
       create_head_to_head_match_lazy : string -> string -> LazyFrame)
    (cast_value : DataType -> DataType -> value -> option value)
    (set_iter : list string -> list string) (group_order : list cell -> list cell)
    (bucket key : string) (st : s3_object) :
  (forall l, Permutation (group_order l) l) ->
  (forall b k, good_rows (create_head_to_head_bets_lazy b k)) ->
  (forall b k, good_rows (create_head_to_head_odds_lazy b k)) ->
  (forall b k, good_rows (create_head_to_head_match_lazy b k)) ->
  good_state st ->
  good_state (snd (process_record DATA_BUCKET unquote_plus
                     create_head_to_head_bets_lazy create_head_to_head_odds_lazy
                     create_head_to_head_match_lazy cast_value set_iter group_order
                     bucket key st)).
Proof.
  intros Hperm Hbets Hodds Hmatch Hst.
  now apply process_record_good.
Qed.

Lemma distinct_keys_1 : distinct_keys [Some (VInt 1)].
Proof.
  split.
  - intros j Hj. simpl in Hj. destruct j as [|j]; simpl; [discriminate | lia].
  - intros j j' Hj Hj' _. simpl in Hj, Hj'. lia.
Qed.

Lemma process_record_one_row_per_match_witness :
  (forall l, Permutation (first_row_order l) l) /\
  good_rows (Returns bets_delta89) /\ good_rows (Returns odds_delta1) /\
  good_rows (Returns delta89) /\
  good_state (Stored (Returns base78)) /\
  good_state (snd (process_record "lake" (fun s => s)
                     (fun _ _ => Returns bets_delta89) (fun _ _ => Returns odds_delta1)
                     (fun _ _ => Returns delta89)
                     numeric_cast first_occurrence_order first_row_order
                     "raw" "bd_bets/match_result/day=1.parquet"
                     (Stored (Returns base78)))).
Proof.
  assert (Hb : good_rows (Returns bets_delta89)).
  { split; [eexists; split; reflexivity | exact distinct_keys_8_9]. }
  assert (Ho : good_rows (Returns odds_delta1)).
  { split; [eexists; split; reflexivity | exact distinct_keys_1]. }
  assert (Hm : good_rows (Returns delta89)).
  { split; [eexists; split; reflexivity | exact distinct_keys_8_9]. }
  assert (Hst : good_state (Stored (Returns base78))).
  { split; [exact conforms_base78 | exact distinct_keys_7_8]. }
  split; [exact first_row_order_spec|]. split; [exact Hb|]. split; [exact Ho|].
  split; [exact Hm|]. split; [exact Hst|].
  exact (process_record_one_row_per_match "lake" (fun s => s)
           (fun _ _ => Returns bets_delta89) (fun _ _ => Returns odds_delta1)
           (fun _ _ => Returns delta89)
           numeric_cast first_occurrence_order first_row_order
           "raw" "bd_bets/match_result/day=1.parquet" (Stored (Returns base78))
           first_row_order_spec (fun _ _ => Hb) (fun _ _ => Ho) (fun _ _ => Hm) Hst).
Defined.

(** * The handler *)

Lemma forall_cons {A} (P : A -> Prop) (a : A) (l : list A) :
  (forall x, In x (a :: l) -> P x) <-> P a /\ (forall x, In x l -> P x).
Proof.
  split.
  - intros H. split; [apply H; now left | intros x Hx; apply H; now right].
  - intros [H1 H2] x [<- | Hx]; [exact H1 | now apply H2].
Qed.

Section HandlerFacts.

Variable DATA_BUCKET : string.
Variable unquote_plus : string -> string.
Variable create_head_to_head_bets_lazy : string -> string -> LazyFrame.
Variable create_head_to_head_odds_lazy : string -> string -> LazyFrame.
Variable create_head_to_head_match_lazy : string -> string -> LazyFrame.
Variable cast_value : DataType -> DataType -> value -> option value.
Variable set_iter : list string -> list string.
Variable group_order : list cell -> list cell.
Variable json_loads : string -> option json.
Variable py_format : json -> string.

(** The path of the handler from a parsed body to the bucket and the
    key raises nothing exactly on a well-shaped body. *)
Lemma s3_record_ok_path x :
  s3_record_ok x = match _extract_s3_from_sqs x with
                   | Raises _ => false
                   | Returns _ => true
                   end.
Proof.
  destruct x as [| | | | | |record]; try reflexivity.
  unfold s3_record_ok, entry_ok, _extract_s3_from_sqs. cbn [py_get obind].
  destruct (lookup record "s3") as [s3|]; [|reflexivity].
  destruct s3 as [| | | | | |d]; try reflexivity.
  cbn [py_get obind].
  destruct (lookup d "bucket") as [bd|].
  - destruct bd as [| | | | | |bd]; try reflexivity.
    cbn [py_get obind is_dict andb].
    destruct (lookup d "object") as [ob|]; [|reflexivity].
    destruct ob as [|[|]|z|f|str|l|ob]; cbn [is_dict orb truthy negb]; try reflexivity.
    + destruct (z =? 0); reflexivity.
    + destruct f; reflexivity.
    + destruct (String.eqb str ""); reflexivity.
    + destruct l; reflexivity.
    + destruct ob; reflexivity.
  - cbn [py_get obind is_dict andb].
    destruct (lookup d "object") as [ob|]; [|reflexivity].
    destruct ob as [|[|]|z|f|str|l|ob]; cbn [is_dict orb truthy negb]; try reflexivity.
    + destruct (z =? 0); reflexivity.
    + destruct f; reflexivity.
    + destruct (String.eqb str ""); reflexivity.
    + destruct l; reflexivity.
    + destruct ob; reflexivity.
Qed.

Lemma well_shaped_path v :
  well_shaped v
  = match py_get v "Records" (JArr []) with
    | Raises _ => false
    | Returns s3_records =>
        if negb (truthy s3_records) then true
        else match py_first s3_records with
             | Raises _ => false
             | Returns s3_record =>
                 match _extract_s3_from_sqs s3_record with
                 | Raises _ => false
                 | Returns _ => true
                 end
             end
    end.
Proof.
  destruct v as [| | | | | |o]; try reflexivity.
  unfold well_shaped, entry_ok. cbn [py_get].
  destruct (lookup o "Records") as [rs|]; [|reflexivity].
  destruct rs as [|[|]|z|f|str|l|d]; cbn [truthy negb orb py_first]; try reflexivity.
  - destruct str as [|ch str]; reflexivity.
  - destruct l as [|x l]; [reflexivity|]. cbn [is_nil negb orb py_first].
    apply s3_record_ok_path.
Qed.

Local Notation "'handle'" :=
  (handle_records DATA_BUCKET unquote_plus
     create_head_to_head_bets_lazy create_head_to_head_odds_lazy
     create_head_to_head_match_lazy cast_value set_iter group_order
     json_loads py_format)
  (only parsing).

Local Notation "'call'" :=
  (call_process_record DATA_BUCKET unquote_plus
     create_head_to_head_bets_lazy create_head_to_head_odds_lazy
     create_head_to_head_match_lazy cast_value set_iter group_order py_format)
  (only parsing).

(** The invocation raises exactly on a body that parses and is not
    well-shaped: no exception of [process_record] ends it. *)
Lemma handle_records_returns records failures st :
  (exists out, fst (handle records failures st) = Returns out) <->
  (forall r, In r records ->
     forall v, json_loads (body r) = Some v -> well_shaped v = true).
Proof.
  revert failures st. induction records as [|r records IH]; intros failures st.
  - cbn. split; [intros _ r [] | eauto].
  - cbn [handle_records].
    rewrite forall_cons.
    destruct (json_loads (body r)) as [v|].
    2:{ rewrite IH. split; [intros H; split; [discriminate | exact H] | tauto]. }
    assert (Hv : (forall v0, Some v = Some v0 -> well_shaped v0 = true)
                 <-> well_shaped v = true).
    { split; [intros H; now apply H | intros H v0 [= <-]; exact H]. }
    rewrite Hv. clear Hv. rewrite well_shaped_path.
    destruct (py_get v "Records" (JArr [])) as [rs|e].
    2:{ cbn [fst]. split; [intros [out H]; discriminate | intros [H _]; discriminate]. }
    destruct (negb (truthy rs)).
    { rewrite IH. split; [intros H; split; [reflexivity | exact H] | tauto]. }
    destruct (py_first rs) as [rec|e].
    2:{ cbn [fst]. split; [intros [out H]; discriminate | intros [H _]; discriminate]. }
    destruct (_extract_s3_from_sqs rec) as [info|e].
    2:{ cbn [fst]. split; [intros [out H]; discriminate | intros [H _]; discriminate]. }
    destruct (negb (truthy (s3_bucket info)) || negb (truthy (s3_key info))).
    { rewrite IH. split; [intros H; split; [reflexivity | exact H] | tauto]. }
    destruct (call (s3_bucket info) (s3_key info) st) as [[res|e] st'];
      rewrite IH; (split; [intros H; split; [reflexivity | exact H] | tauto]).
Qed.

(** A body that parses to something else than a dictionary ends the
    invocation with an [AttributeError], whatever happened to the
    messages before it. *)
Lemma handle_records_not_dict pre r rest v :
  (forall r', In r' pre ->
     forall v', json_loads (body r') = Some v' -> well_shaped v' = true) ->
  json_loads (body r) = Some v -> is_dict v = false ->
  forall failures st,
    fst (handle (pre ++ r :: rest) failures st) = Raises AttributeError.
Proof.
  intros Hpre Hv Hd. induction pre as [|r0 pre IH]; intros failures st.
  - cbn [app handle_records]. rewrite Hv.
    destruct v as [| | | | | |o]; try reflexivity. discriminate.
  - assert (IH' := IH (fun r' Hr' => Hpre r' (or_intror Hr'))). clear IH.
    assert (H0 := Hpre r0 (or_introl eq_refl)).
    cbn [app handle_records].
    destruct (json_loads (body r0)) as [v0|]; [|apply IH'].
    specialize (H0 v0 eq_refl). rewrite well_shaped_path in H0.
    destruct (py_get v0 "Records" (JArr [])) as [rs|e]; [|discriminate].
    destruct (negb (truthy rs)); [apply IH'|].
    destruct (py_first rs) as [rec|e]; [|discriminate].
    destruct (_extract_s3_from_sqs rec) as [info|e]; [|discriminate].
    destruct (negb (truthy (s3_bucket info)) || negb (truthy (s3_key info)));
      [apply IH'|].
    destruct (call (s3_bucket info) (s3_key info) st) as [[res|e] st']; apply IH'.
Qed.

(** The failures of a response: the failures collected before, message
    ids of the records, and among them that of every record whose body
    does not parse. *)
Lemma handle_records_reports records :
  forall failures st out,
    fst (handle records failures st) = Returns out ->
    (forall id, In id failures -> In id out) /\
    (forall r, In r records -> json_loads (body r) = None -> In (messageId r) out) /\
    (forall id, In id out ->
       In id failures \/ exists r, In r records /\ messageId r = id).
Proof.
  induction records as [|r records IH]; intros failures st out H.
  - cbn in H. injection H as <-. split; [tauto|]. split; [intros r []|tauto].
  - cbn [handle_records] in H.
    assert (Hskip : forall st', fst (handle records failures st') = Returns out ->
              json_loads (body r) <> None ->
              (forall id, In id failures -> In id out) /\
              (forall r', In r' (r :: records) -> json_loads (body r') = None ->
                 In (messageId r') out) /\
              (forall id, In id out ->
                 In id failures \/ exists r', In r' (r :: records) /\ messageId r' = id)).
    { intros st' H' Hr. destruct (IH _ _ _ H') as [H1 [H2 H3]].
      split; [exact H1|]. split.
      - intros r' [<- | Hr'] Hn; [contradiction | now apply H2].
      - intros id Hid. destruct (H3 id Hid) as [Hf | [r' [Hr' E]]]; [now left|].
        right. exists r'. split; [now right | exact E]. }
    assert (Hfail : forall st',
              fst (handle records (failures ++ [messageId r]) st') = Returns out ->
              (forall id, In id failures -> In id out) /\
              (forall r', In r' (r :: records) -> json_loads (body r') = None ->
                 In (messageId r') out) /\
              (forall id, In id out ->
                 In id failures \/ exists r', In r' (r :: records) /\ messageId r' = id)).
    { intros st' H'. destruct (IH _ _ _ H') as [H1 [H2 H3]].
      split; [intros id Hid; apply H1, in_or_app; now left|]. split.
      - intros r' [<- | Hr'] Hn; [|now apply H2].
        apply H1, in_or_app. right. now left.
      - intros id Hid. destruct (H3 id Hid) as [Hf | [r' [Hr' E]]].
        + apply in_app_or in Hf as [Hf | [<- | []]]; [now left|].
          right. exists r. split; [now left | reflexivity].
        + right. exists r'. split; [now right | exact E]. }
    destruct (json_loads (body r)) as [v|]; [|now apply (Hfail st)].
    destruct (py_get v "Records" (JArr [])) as [rs|e]; [|discriminate].
    destruct (negb (truthy rs)); [apply (Hskip st H); discriminate|].
    destruct (py_first rs) as [rec|e]; [|discriminate].
    destruct (_extract_s3_from_sqs rec) as [info|e]; [|discriminate].
    destruct (negb (truthy (s3_bucket info)) || negb (truthy (s3_key info)));
      [now apply (Hfail st)|].
    destruct (call (s3_bucket info) (s3_key info) st) as [[res|e] st'].
    + apply (Hskip st' H). discriminate.
    + now apply (Hfail st').
Qed.

Hypothesis group_order_spec : forall l, Permutation (group_order l) l.
Hypothesis good_bets : forall b k, good_rows (create_head_to_head_bets_lazy b k).
Hypothesis good_odds : forall b k, good_rows (create_head_to_head_odds_lazy b k).
Hypothesis good_match : forall b k, good_rows (create_head_to_head_match_lazy b k).

Lemma call_process_record_good bucket key st :
  good_state st -> good_state (snd (call bucket key st)).
Proof.
  intros Hst. unfold call_process_record.
  destruct key; try exact Hst. now apply process_record_good.
Qed.

Lemma handle_records_good records failures st :
  good_state st -> good_state (snd (handle records failures st)).
Proof.
  revert failures st. induction records as [|r records IH]; intros failures st Hst;
    [exact Hst|].
  cbn [handle_records].
  destruct (json_loads (body r)) as [v|]; [|now apply IH].
  destruct (py_get v "Records" (JArr [])) as [rs|e]; [|exact Hst].
  destruct (negb (truthy rs)); [now apply IH|].
  destruct (py_first rs) as [rec|e]; [|exact Hst].
  destruct (_extract_s3_from_sqs rec) as [info|e]; [|exact Hst].
  destruct (negb (truthy (s3_bucket info)) || negb (truthy (s3_key info)));
    [now apply IH|].
  pose proof (call_process_record_good (s3_bucket info) (s3_key info) st Hst) as Hc.
  destruct (call (s3_bucket info) (s3_key info) st) as [[res|e] st'];
    apply IH; exact Hc.
Qed.

End HandlerFacts.

(** X20. An invocation of [lambda_handler] keeps one row per match: when
    the stored table is absent or conforms to the canonical schema with
    non-null, pairwise distinct match ids, and the new rows of the three
    builders have an [Int64] match id, non-null and pairwise distinct,
    the table left after the batch, every record processed on the table
    the record before it left, conforms to the canonical schema and has
    non-null, pairwise distinct match ids, also when the invocation
    raises. *)
Theorem lambda_handler_one_row_per_match
    (DATA_BUCKET : string) (unquote_plus : string -> string)
    (create_head_to_head_bets_lazy create_head_to_head_odds_lazy
       create_head_to_head_match_lazy : string -> string -> LazyFrame)
    (cast_value : DataType -> DataType -> value -> option value)
    (set_iter : list string -> list string) (group_order : list cell -> list cell)
    (json_loads : string -> option json) (py_format : json -> string)
    (event : list sqs_record) (st : s3_object) :
  (forall l, Permutation (group_order l) l) ->
  (forall b k, good_rows (create_head_to_head_bets_lazy b k)) ->
  (forall b k, good_rows (create_head_to_head_odds_lazy b k)) ->
  (forall b k, good_rows (create_head_to_head_match_lazy b k)) ->
  good_state st ->
  good_state (snd (lambda_handler DATA_BUCKET unquote_plus
                     create_head_to_head_bets_lazy create_head_to_head_odds_lazy
                     create_head_to_head_match_lazy cast_value set_iter group_order
                     json_loads py_format event st)).
Proof.
  intros Hperm Hbets Hodds Hmatch Hst. unfold lambda_handler.
  now apply handle_records_good.
Qed.

Lemma lambda_handler_one_row_per_match_witness :
  (forall l, Permutation (first_row_order l) l) /\
  good_rows (Returns bets_delta89) /\ good_rows (Returns odds_delta1) /\
  good_rows (Returns delta89) /\
  good_state (Stored (Returns base78)) /\
  good_state
    (snd (lambda_handler "lake" (fun s => s)
            (fun _ _ => Returns bets_delta89) (fun _ _ => Returns odds_delta1)
            (fun _ _ => Returns delta89)
            numeric_cast first_occurrence_order first_row_order
            (fun _ =>
               Some (JObj [("Records",
                            JArr [JObj [("s3",
                                         JObj [("bucket", JObj [("name", JStr "raw")]);
                                               ("object",
                                                JObj [("key",
                                                       JStr "bd_bets/bets/day=1.parquet")])])]])]))
            (fun _ => "")
            [mk_sqs_record "m1" "body"; mk_sqs_record "m2" "body"]
            (Stored (Returns base78)))).
Proof.
  assert (Hb : good_rows (Returns bets_delta89)).
  { split; [eexists; split; reflexivity | exact distinct_keys_8_9]. }
  assert (Ho : good_rows (Returns odds_delta1)).
  { split; [eexists; split; reflexivity | exact distinct_keys_1]. }
  assert (Hm : good_rows (Returns delta89)).
  { split; [eexists; split; reflexivity | exact distinct_keys_8_9]. }
  assert (Hst : good_state (Stored (Returns base78))).
  { split; [exact conforms_base78 | exact distinct_keys_7_8]. }
  split; [exact first_row_order_spec|]. split; [exact Hb|]. split; [exact Ho|].
  split; [exact Hm|]. split; [exact Hst|].
  exact (lambda_handler_one_row_per_match "lake" (fun s => s)
           (fun _ _ => Returns bets_delta89) (fun _ _ => Returns odds_delta1)
           (fun _ _ => Returns delta89)
           numeric_cast first_occurrence_order first_row_order _ (fun _ => "")
           [mk_sqs_record "m1" "body"; mk_sqs_record "m2" "body"]
           (Stored (Returns base78))
           first_row_order_spec (fun _ _ => Hb) (fun _ _ => Ho) (fun _ _ => Hm) Hst).
Defined.

(** X21. When [lambda_handler] returns its partial batch response. It
    does exactly when every message body that parses as JSON is
    well-shaped: a dictionary whose [Records], when it is there, is an
    empty value or a list whose first element is a dictionary with, where
    they are there, a dictionary under [s3], a dictionary under its
    [bucket] and a dictionary or an empty value under its [object]. So a
    body that does not parse, a message without bucket or key and an
    exception of [process_record] never end the invocation. The response
    lists message ids of the batch, among them that of every message whose
    body does not parse. A body that parses to something else than a
    dictionary, after messages that are well-shaped, ends the invocation
    with an [AttributeError]. *)
Theorem lambda_handler_returns
    (DATA_BUCKET : string) (unquote_plus : string -> string)
    (create_head_to_head_bets_lazy create_head_to_head_odds_lazy
       create_head_to_head_match_lazy : string -> string -> LazyFrame)
    (cast_value : DataType -> DataType -> value -> option value)
    (set_iter : list string -> list string) (group_order : list cell -> list cell)
    (json_loads : string -> option json) (py_format : json -> string)
    (event : list sqs_record) (st : s3_object) :
  let response :=
    fst (lambda_handler DATA_BUCKET unquote_plus
           create_head_to_head_bets_lazy create_head_to_head_odds_lazy
           create_head_to_head_match_lazy cast_value set_iter group_order
           json_loads py_format event st) in
  ((exists failures, response = Returns failures) <->
   (forall r v, In r event -> json_loads (body r) = Some v -> well_shaped v = true)) /\
  (forall failures, response = Returns failures ->
     (forall r, In r event -> json_loads (body r) = None -> In (messageId r) failures) /\
     (forall id, In id failures -> exists r, In r event /\ messageId r = id)) /\
  (forall pre r rest v, event = pre ++ r :: rest ->
     (forall r' v', In r' pre -> json_loads (body r') = Some v' ->
        well_shaped v' = true) ->
     json_loads (body r) = Some v -> is_dict v = false ->
     response = Raises AttributeError).
Proof.
  cbv zeta. unfold lambda_handler. split; [|split].
  - rewrite handle_records_returns.
    split; [intros H r v Hr; now apply H | intros H r Hr v; now apply H].
  - intros failures H.
    destruct (handle_records_reports _ _ _ _ _ _ _ _ _ _ _ _ _ _ H) as [_ [H2 H3]].
    split; [exact H2|]. intros id Hid. destruct (H3 id Hid) as [[] | Hr]. exact Hr.
  - intros pre r rest v -> Hpre Hv Hd.
    apply (handle_records_not_dict _ _ _ _ _ _ _ _ _ _ pre r rest v); try assumption.
    intros r' Hr' v'. now apply Hpre.
Qed.

(** * The builder of the match rows *)

(** ** The last element of a sorted list *)

Section SortLast.

Context {A : Type} (leb : A -> A -> bool).
Hypothesis leb_total : forall x y, leb x y = true \/ leb y x = true.
Hypothesis leb_trans : forall x y z, leb x y = true -> leb y z = true -> leb x z = true.

Lemma insert_by_not_nil x l : insert_by leb x l <> [].
Proof. destruct l as [|y t]; simpl; [discriminate|]. now destruct (leb x y). Qed.

Lemma last_cons (y : A) l d : l <> [] -> last (y :: l) d = last l d.
Proof. destruct l; [congruence | reflexivity]. Qed.

Lemma last_In (l : list A) d : l <> [] -> In (last l d) l.
Proof.
  induction l as [|a l IH]; [congruence|]. intros _.
  destruct l as [|b l]; [now left|]. right. apply IH. discriminate.
Qed.

Lemma last_insert_by a s d :
  (last (insert_by leb a s) d = a /\ forall y, In y s -> leb a y = false) \/
  (last (insert_by leb a s) d = last s d /\ exists y, In y s /\ leb a y = true).
Proof.
  induction s as [|y t IH]; [left; split; [reflexivity | intros y []]|].
  cbn [insert_by]. destruct (leb a y) eqn:E.
  - right. split; [reflexivity|]. exists y. split; [now left | exact E].
  - rewrite last_cons by apply insert_by_not_nil.
    destruct IH as [[Hl Hall] | [Hl [z [Hz Hle]]]].
    + left. split; [exact Hl|]. intros z [<- | Hz]; [exact E | now apply Hall].
    + right. split.
      * rewrite Hl. symmetry. apply last_cons. intros ->. destruct Hz.
      * exists z. split; [now right | exact Hle].
Qed.

(** The last element of the sorted list is an element that is above
    every element. *)
Lemma last_sort_greatest d l :
  l <> [] ->
  In (last (sort leb l) d) l /\ forall x, In x l -> leb x (last (sort leb l) d) = true.
Proof.
  induction l as [|a l IH]; [congruence|]. intros _. cbn [sort fold_right].
  fold (sort leb l).
  destruct l as [|b l'] eqn:El.
  - cbn. split; [now left|]. intros x [<- | []]. destruct (leb_total a a); assumption.
  - rewrite <- El in *. assert (Hl : l <> []) by (rewrite El; discriminate).
    destruct (IH Hl) as [Hin Hmax].
    destruct (last_insert_by a (sort leb l) d) as [[Hl' Hall] | [Hl' [y [Hy Hle]]]];
      rewrite Hl'.
    + split; [now left|]. intros x [<- | Hx].
      * destruct (leb_total a a); assumption.
      * assert (Hx' : In x (sort leb l)).
        { clear -Hx. induction l as [|c l IH]; [destruct Hx|]. cbn [sort fold_right].
          fold (sort leb l). destruct Hx as [<- | Hx].
          - clear. induction (sort leb l) as [|z t IHt]; [now left|]. cbn [insert_by].
            destruct (leb c z); [now left | right; exact IHt].
          - specialize (IH Hx). clear -IH.
            induction (sort leb l) as [|z t IHt]; [destruct IH|]. cbn [insert_by].
            destruct (leb c z); [now right|]. destruct IH as [<- | IH]; [now left|].
            right. now apply IHt. }
        specialize (Hall x Hx'). destruct (leb_total a x); congruence.
    + split; [now right|]. intros x [<- | Hx]; [|now apply Hmax].
      assert (Hy' : In y l).
      { clear -Hy. induction l as [|c l IH]; [destruct Hy|]. cbn [sort fold_right] in Hy.
        fold (sort leb l) in Hy.
        assert (Hins : forall s, In y (insert_by leb c s) -> y = c \/ In y s).
        { clear. induction s as [|z t IHt]; cbn [insert_by].
          - intros [<- | []]. now left.
          - destruct (leb c z).
            + intros [<- | H]; [now left | now right].
            + intros [<- | H]; [right; now left|]. destruct (IHt H) as [-> | H'].
              * now left.
              * right. now right. }
        destruct (Hins _ Hy) as [-> | H]; [now left | right; now apply IH]. }
      eapply leb_trans; [exact Hle | now apply Hmax].
Qed.

End SortLast.

(** Sorting by keys carries the payload along. *)
Lemma insert_by_payload {A B C} (f : A -> B) (leb : C -> C -> bool) (x : A * C) l :
  insert_by (fun a b : B * C => leb (snd a) (snd b)) (f (fst x), snd x)
    (map (fun p => (f (fst p), snd p)) l)
  = map (fun p => (f (fst p), snd p))
      (insert_by (fun a b : A * C => leb (snd a) (snd b)) x l).
Proof.
  induction l as [|y l IH]; [reflexivity|]. cbn [map insert_by snd].
  destruct (leb (snd x) (snd y)); [reflexivity|]. cbn [map]. now rewrite IH.
Qed.

Lemma sort_payload {A B C} (f : A -> B) (leb : C -> C -> bool) (l : list (A * C)) :
  sort (fun a b : B * C => leb (snd a) (snd b)) (map (fun p => (f (fst p), snd p)) l)
  = map (fun p => (f (fst p), snd p)) (sort (fun a b : A * C => leb (snd a) (snd b)) l).
Proof.
  induction l as [|x l IH]; [reflexivity|]. cbn [map sort fold_right].
  fold (sort (fun a b : B * C => leb (snd a) (snd b)) (map (fun p => (f (fst p), snd p)) l)).
  fold (sort (fun a b : A * C => leb (snd a) (snd b)) l).
  rewrite IH. apply insert_by_payload.
Qed.

Lemma last_map {A B} (f : A -> B) (l : list A) d : last (map f l) (f d) = f (last l d).
Proof.
  induction l as [|a l IH]; [reflexivity|]. destruct l as [|b l]; [reflexivity|].
  cbn [map] in *. rewrite !last_cons by discriminate. exact IH.
Qed.

Lemma combine_self {A C} (g : A -> C) (l : list A) :
  combine l (map g l) = map (fun x => (x, g x)) l.
Proof. induction l as [|x l IH]; simpl; [reflexivity | now rewrite IH]. Qed.

(** The aggregation takes every column at one row of the group, the
    latest. *)
Lemma agg_last_latest vals tss rows :
  rows <> [] -> agg_last vals tss rows = nth (latest_row tss rows) vals None.
Proof.
  intros Hne. unfold agg_last, latest_row.
  rewrite (combine_map (fun i => nth i vals None) (fun i => nth i tss None)).
  rewrite (combine_self (fun i => nth i tss None)).
  set (L := map (fun i => (i, nth i tss None)) rows).
  assert (HL : map (fun i => (nth i vals None, nth i tss None)) rows
               = map (fun p : nat * cell => (nth (fst p) vals None, snd p)) L).
  { unfold L. rewrite map_map. reflexivity. }
  rewrite HL, (sort_payload (fun i => nth i vals None)), map_map. cbn [fst].
  set (S := sort (fun a b : nat * cell => ts_leb false (snd a) (snd b)) L).
  assert (HS : S <> []).
  { unfold S. intros E. apply sort_nil_iff in E. unfold L in E.
    destruct rows; [congruence | discriminate]. }
  rewrite <- (map_map fst (fun i => nth i vals None)).
  destruct (map fst S) as [|i0 I] eqn:EI.
  { destruct S; [congruence | discriminate]. }
  rewrite <- EI.
  assert (Hd : forall l : list nat, l <> [] ->
            last (map (fun i => nth i vals None) l) None
            = nth (last l 0%nat) vals None).
  { intros l Hl. induction l as [|a l IH]; [congruence|].
    destruct l as [|b l]; [reflexivity|]. cbn [map] in *.
    rewrite !last_cons by discriminate. apply IH. discriminate. }
  apply Hd. rewrite EI. discriminate.
Qed.

Lemma latest_row_greatest tss rows :
  rows <> [] ->
  In (latest_row tss rows) rows /\
  forall m, In m rows ->
    ts_leb false (nth m tss None) (nth (latest_row tss rows) tss None) = true.
Proof.
  intros Hne. unfold latest_row.
  rewrite (combine_self (fun i => nth i tss None)).
  set (L := map (fun i => (i, nth i tss None)) rows).
  set (cmp := fun a b : nat * cell => ts_leb false (snd a) (snd b)).
  assert (HL : L <> []) by (unfold L; destruct rows; [congruence | discriminate]).
  destruct (last_sort_greatest cmp
              (fun x y => ts_leb_total false (snd x) (snd y))
              (fun x y z => ts_leb_trans false (snd x) (snd y) (snd z))
              (0%nat, None) L HL) as [Hin Hmax].
  change 0%nat with (fst (0%nat, @None value)) at 1 2.
  rewrite last_map.
  unfold L in Hin at 2. apply in_map_iff in Hin as [m [Hm Hin]].
  rewrite <- Hm. cbn [fst]. split; [exact Hin|].
  intros m' Hm'.
  assert (Hx : In (m', nth m' tss None) L).
  { unfold L. apply in_map_iff. exists m'. now split. }
  apply Hmax in Hx. rewrite <- Hm in Hx. exact Hx.
Qed.

(** ** The pipeline *)

Lemma lookup_filter_rows mask df c :
  lookup (filter_rows mask df) c
  = option_map (take (map Some (kept_rows mask))) (lookup df c).
Proof. unfold filter_rows. apply (lookup_map (take (map Some (kept_rows mask)))). Qed.

Lemma values_take_kept s kept :
  values (take (map Some kept) s) = map (fun i => nth i (values s) None) kept.
Proof. unfold take. cbn [values]. now rewrite map_map. Qed.

Lemma in_kept_rows mask i :
  In i (kept_rows mask) <-> (i < List.length mask)%nat /\ nth i mask false = true.
Proof. unfold kept_rows. rewrite filter_In, in_seq. intuition lia. Qed.

Lemma lookup_filter_ne {A} (l : list (string * A)) k c :
  c <> k -> lookup (filter (fun p => negb (String.eqb (fst p) k)) l) c = lookup l c.
Proof.
  intros Hne. induction l as [|[n a] l IH]; [reflexivity|]. cbn [filter fst lookup].
  destruct (String.eqb_spec n k) as [-> | Hn]; cbn [negb].
  - apply String.eqb_neq in Hne. rewrite String.eqb_sym in Hne. now rewrite Hne.
  - cbn [lookup]. destruct (String.eqb n c); [reflexivity | exact IH].
Qed.

Lemma is_in_mask_Ok s ints mask :
  is_in_mask s ints = Ok mask ->
  dtype s <> Utf8 /\ mask = map (is_in (dtype s) ints) (values s).
Proof.
  unfold is_in_mask. destruct (dtype s); intros [= <-]; (split; [discriminate | reflexivity]).
Qed.

Lemma nth_map_kept (V : list cell) (kept : list nat) j :
  (j < List.length kept)%nat ->
  nth j (map (fun i => nth i V None) kept) None = nth (nth j kept 0%nat) V None.
Proof.
  intros Hj. rewrite (nth_indep _ None (nth 0 V None)) by now rewrite length_map.
  apply (map_nth (fun i => nth i V None)).
Qed.

Lemma cell_at_key_cells df c m : cell_at df c m = nth m (key_cells df c) None.
Proof.
  unfold cell_at, key_cells. destruct (lookup df c); [reflexivity | now destruct m].
Qed.

Section MatchBuilder.

Variable group_order : list cell -> list cell.

(** The table the builder returns, column by column. *)
Lemma create_head_to_head_match_Ok match_ out :
  create_head_to_head_match group_order match_ = Ok out ->
  exists sport,
    lookup match_ "sportId" = Some sport /\ dtype sport <> Utf8 /\
    let kept := kept_rows (map (is_in (dtype sport) sports) (values sport)) in
    let K := map (fun i => nth i (key_cells match_ "matchId") None) kept in
    let T := map (fun i => nth i (key_cells match_ "modifiedOn") None) kept in
    let groups := group_order (distinct K) in
    columns out = map fst match_columns /\
    (exists s, lookup out "MatchId" = Some s /\
       dtype s = frame_dtype match_ "matchId" /\ values s = groups) /\
    forall a, In a match_columns -> snd a <> "matchId" ->
      exists s, lookup out (fst a) = Some s /\
        values s
        = map (fun k => agg_last (map (fun i => nth i (key_cells match_ (snd a)) None) kept)
                          T (rows_of k K))
              groups.
Proof.
  unfold create_head_to_head_match. intros H.
  inv_bind H. rename x into sport. inv_bind H. rename x into mask.
  inv_bind H. rename x into keys. inv_bind H. rename x into ts.
  inv_bind H. rename x into grouped.
  unfold col in E. destruct (lookup match_ "sportId") as [sp|] eqn:Esp; [|discriminate].
  injection E as ->.
  apply is_in_mask_Ok in E0 as [Hdt ->].
  exists sport. split; [reflexivity|]. split; [exact Hdt|]. cbv zeta.
  set (kept := kept_rows (map (is_in (dtype sport) sports) (values sport))) in *.
  unfold col in E1, E2. rewrite lookup_filter_rows in E1, E2. fold kept in E1, E2.
  destruct (lookup match_ "matchId") as [k0|] eqn:Ek; [|discriminate].
  destruct (lookup match_ "modifiedOn") as [t0|] eqn:Et; [|discriminate].
  cbn [option_map] in E1, E2. injection E1 as <-. injection E2 as <-.
  assert (HK : key_cells match_ "matchId" = values k0) by (unfold key_cells; now rewrite Ek).
  assert (HT : key_cells match_ "modifiedOn" = values t0) by (unfold key_cells; now rewrite Et).
  rewrite HK, HT. rewrite !values_take_kept in E3.
  set (K := map (fun i => nth i (values k0) None) kept) in *.
  set (T := map (fun i => nth i (values t0) None) kept) in *.
  set (groups := group_order (distinct K)) in *.
  assert (Hcols := select_exprs_columns _ _ H).
  rewrite map_map in Hcols. cbn [fst] in Hcols.
  split; [exact Hcols|].
  assert (Hsel : forall a, In a match_columns ->
            exists s, lookup grouped (snd a) = Some s /\ lookup out (fst a) = Some s).
  { intros a Ha.
    destruct (select_exprs_lookup _ _ (fst a) (col grouped (snd a)) H) as [s [Hs Hl]].
    - apply in_map_iff. exists a. now split.
    - exists s. split; [|exact Hl]. unfold col in Hs.
      destruct (lookup grouped (snd a)); [now injection Hs as -> | discriminate]. }
  apply select_exprs_map in E3. cbn [map fst snd] in E3. rewrite map_map in E3.
  cbn [fst snd] in E3.
  split.
  - destruct (Hsel ("MatchId", "matchId")) as [s [Hg Ho]].
    { unfold match_columns. right. right. now left. }
    cbn [fst snd] in Hg, Ho. rewrite E3 in Hg. cbn [lookup] in Hg.
    rewrite String.eqb_refl in Hg. injection Hg as <-.
    eexists. split; [exact Ho|]. split; [|reflexivity].
    unfold frame_dtype. now rewrite Ek.
  - intros a Ha Hne. destruct (Hsel a Ha) as [s [Hg Ho]].
    exists s. split; [exact Ho|].
    rewrite E3 in Hg. cbn [lookup] in Hg.
    apply String.eqb_neq in Hne. rewrite String.eqb_sym in Hne. rewrite Hne in Hg.
    apply String.eqb_neq in Hne.
    rewrite (lookup_map
               (fun s0 => mkSeries (dtype s0)
                            (map (fun k => agg_last (values s0) T (rows_of k K)) groups)))
      in Hg.
    rewrite lookup_filter_ne in Hg by congruence.
    rewrite lookup_filter_rows in Hg. fold kept in Hg.
    destruct (lookup match_ (snd a)) as [s0|] eqn:Es0; [|discriminate].
    cbn [option_map] in Hg. injection Hg as <-. cbn [values].
    rewrite map_map. cbn [take_cell]. unfold key_cells. now rewrite Es0.
Qed.

Hypothesis group_order_spec : forall l, Permutation (group_order l) l.

Lemma create_head_to_head_match_spec match_ out :
  create_head_to_head_match group_order match_ = Ok out ->
  match_builder_spec match_ out.
Proof.
  intros H.
  destruct (create_head_to_head_match_Ok _ _ H) as [sport [Hsp [Hdt Hout]]].
  cbv zeta in Hout.
  set (kept := kept_rows (map (is_in (dtype sport) sports) (values sport))) in *.
  set (K := key_cells match_ "matchId") in *.
  set (T := key_cells match_ "modifiedOn") in *.
  set (K' := map (fun i => nth i K None) kept) in *.
  set (T' := map (fun i => nth i T None) kept) in *.
  destruct Hout as [Hcols [[sk [Hsk [_ Hvk]]] Hcol]].
  assert (Hkeys : key_cells out "MatchId" = group_order (distinct K')).
  { unfold key_cells. now rewrite Hsk. }
  assert (Hkept : forall m, kept_row match_ m <-> In m kept).
  { intros m. unfold kept_row, kept, key_cells, frame_dtype, cell_at. rewrite Hsp.
    rewrite in_kept_rows, length_map.
    change false with (is_in (dtype sport) sports None). now rewrite map_nth. }
  assert (Hin : forall k, In k (group_order (distinct K')) <-> In k (distinct K')).
  { intros k. split; apply Permutation_in;
      [apply group_order_spec | apply Permutation_sym, group_order_spec]. }
  assert (HlK : List.length K' = List.length kept) by apply length_map.
  unfold match_builder_spec. fold K T. rewrite Hkeys.
  split; [exact Hcols|]. split; [|split].
  - intros m Hm. apply Hkept in Hm.
    destruct (In_nth _ _ 0%nat Hm) as [j [Hj Ej]].
    destruct (distinct_covers K' (nth m K None)) as [k [Hk Hkm]].
    { rewrite <- Ej. rewrite <- (nth_map_kept K kept j Hj). apply nth_In. now rewrite HlK. }
    exists k. split; [now apply Hin | exact Hkm].
  - intros g g' k k' Hg Hg' E.
    assert (Hk : In k (distinct K')) by (apply Hin; eapply nth_error_In; eassumption).
    assert (Hk' : In k' (distinct K')) by (apply Hin; eapply nth_error_In; eassumption).
    assert (Heq := distinct_apart _ _ _ Hk Hk' E). subst k'.
    assert (Hnd : NoDup (group_order (distinct K'))).
    { eapply Permutation_NoDup; [apply Permutation_sym, group_order_spec|].
      apply distinct_NoDup. }
    eapply (proj1 (NoDup_nth_error _) Hnd).
    + apply nth_error_Some. congruence.
    + congruence.
  - intros g k Hg.
    assert (Hk : In k (distinct K')) by (apply Hin; eapply nth_error_In; eassumption).
    destruct (group_has_row K' k Hk) as [j0 Hj0].
    assert (Hne : rows_of k K' <> []).
    { intros E. apply in_rows_of in Hj0. rewrite E in Hj0. destruct Hj0. }
    destruct (latest_row_greatest T' (rows_of k K') Hne) as [Hlin Hmax].
    set (j := latest_row T' (rows_of k K')) in *.
    apply in_rows_of in Hlin. destruct Hlin as [Hj Hgj]. rewrite HlK in Hj.
    exists (nth j kept 0%nat). split; [|split; [|split]].
    + apply Hkept. now apply nth_In.
    + rewrite <- (nth_map_kept K kept j Hj). exact Hgj.
    + intros m' Hm' Hg'. apply Hkept in Hm'.
      destruct (In_nth _ _ 0%nat Hm') as [j' [Hj' Ej']].
      rewrite <- Ej' in Hg' |- *.
      rewrite <- !(nth_map_kept T kept) by assumption. apply Hmax.
      apply in_rows_of. split; [now rewrite HlK|].
      fold K'. unfold K' at 1. now rewrite (nth_map_kept K kept j' Hj').
    + intros a Ha Hna. destruct (Hcol a Ha Hna) as [s [Hs Hv]].
      unfold cell_at at 1. rewrite Hs, Hv, (nth_map_cell _ _ _ _ Hg).
      rewrite (agg_last_latest _ _ _ Hne). fold j.
      rewrite (nth_map_kept _ kept j Hj). symmetry. apply cell_at_key_cells.
Qed.

Lemma create_head_to_head_match_good match_ out :
  create_head_to_head_match group_order match_ = Ok out ->
  frame_dtype match_ "matchId" = Int64 ->
  (forall m, kept_row match_ m -> cell_at match_ "matchId" m <> None) ->
  good_rows (Returns out).
Proof.
  intros H Hdt Hnn.
  destruct (create_head_to_head_match_Ok _ _ H) as [sport [Hsp [_ Hout]]].
  cbv zeta in Hout. destruct Hout as [_ [[sk [Hsk [Hdk Hvk]]] _]].
  split; [exists sk; split; [exact Hsk | congruence]|].
  unfold key_cells. rewrite Hsk, Hvk.
  apply distinct_keys_groups; [exact group_order_spec|].
  intros k Hk. apply in_map_iff in Hk as [m [<- Hm]].
  rewrite <- cell_at_key_cells. apply Hnn.
  unfold kept_row, key_cells, frame_dtype, cell_at. rewrite Hsp.
  apply in_kept_rows in Hm. rewrite length_map in Hm.
  change false with (is_in (dtype sport) sports None) in Hm. now rewrite map_nth in Hm.
Qed.

End MatchBuilder.

(** X22. Every row the match builder returns is one row of the scanned
    object, whole: the result has the eleven columns of the builder under
    their new names, one row per match id among the rows whose sport is
    kept, and the row of a match holds, in every column, the cells of one
    kept row of that match, a row whose [modifiedOn] is the greatest of
    the match (a null being the smallest). *)
Theorem create_head_to_head_match_latest
    (group_order : list cell -> list cell) (match_ out : DataFrame) :
  (forall l, Permutation (group_order l) l) ->
  create_head_to_head_match group_order match_ = Ok out ->
  match_builder_spec match_ out.
Proof.
  intros Hperm H. exact (create_head_to_head_match_spec group_order Hperm match_ out H).
Qed.

(** X23. The match builder gives the merge rows it can keep apart: when
    the scanned object has an [Int64] match id that is null on no kept
    row, the new rows have an [Int64] [MatchId], non-null and pairwise
    distinct, which is what the invariant of the stored table asks of
    them. *)
Theorem create_head_to_head_match_lazy_good_rows
    (group_order : list cell -> list cell) (scan : string -> LazyFrame)
    (bucket key : string) :
  (forall l, Permutation (group_order l) l) ->
  (forall match_, scan ("s3://" ++ bucket ++ "/" ++ key)%string = Returns match_ ->
     frame_dtype match_ "matchId" = Int64 /\
     forall m, kept_row match_ m -> cell_at match_ "matchId" m <> None) ->
  good_rows (create_head_to_head_match_lazy group_order scan bucket key).
Proof.
  intros Hperm Hscan. unfold create_head_to_head_match_lazy.
  destruct (scan _) as [match_|e]; [|exact I].
  destruct (Hscan match_ eq_refl) as [Hdt Hnn].
  destruct (create_head_to_head_match group_order match_) as [out|e] eqn:E; [|exact I].
  exact (create_head_to_head_match_good group_order Hperm match_ out E Hdt Hnn).
Qed.

Lemma create_head_to_head_match_latest_witness :
  (forall l, Permutation (first_row_order l) l) /\
  create_head_to_head_match first_row_order match_scan = Ok match_rows /\
  key_cells match_rows "MatchId" = [Some (VInt 7); Some (VInt 9)] /\
  cell_at match_rows "HomeId" 0 = Some (VInt 11) /\
  match_builder_spec match_scan match_rows.
Proof.
  assert (H : create_head_to_head_match first_row_order match_scan = Ok match_rows)
    by (vm_compute; reflexivity).
  split; [exact first_row_order_spec|]. split; [exact H|].
  split; [reflexivity|]. split; [reflexivity|].
  exact (create_head_to_head_match_latest first_row_order match_scan match_rows
           first_row_order_spec H).
Defined.

Lemma match_scan_keys m :
  kept_row match_scan m -> cell_at match_scan "matchId" m <> None.
Proof.
  intros [Hm _]. change (List.length (key_cells match_scan "sportId")) with 4%nat in Hm.
  destruct m as [|[|[|[|m]]]]; try (cbn; discriminate). lia.
Qed.

Lemma create_head_to_head_match_lazy_good_rows_witness :
  (forall l, Permutation (first_row_order l) l) /\
  frame_dtype match_scan "matchId" = Int64 /\
  good_rows (create_head_to_head_match_lazy first_row_order (fun _ => Returns match_scan)
               "raw" "bd_bets/match_result/day=1.parquet").
Proof.
  split; [exact first_row_order_spec|]. split; [reflexivity|].
  apply (create_head_to_head_match_lazy_good_rows first_row_order
           (fun _ => Returns match_scan) "raw" "bd_bets/match_result/day=1.parquet"
           first_row_order_spec).
  intros match_ [= <-]. split; [reflexivity | exact match_scan_keys].
Defined.

(** * When the additive merge returns a table *)

Lemma join_columns (left right : DataFrame) (on suffix : string) (ck : bool) j :
  join left right on suffix ck = Ok j ->
  columns j
  = columns left
    ++ map (fun c => if mem c (columns left) then (c ++ suffix)%string else c)
         (if ck then filter (fun c => negb (String.eqb c on)) (columns right)
          else columns right).
Proof.
  unfold join. intros H. inv_bind H. inv_bind H.
  destruct (negb _); [discriminate|].
  destruct (nodupb _); [|discriminate]. injection H as <-.
  unfold columns. rewrite map_app, !map_map. cbn [fst].
  rewrite <- (map_map fst (fun c => if mem c (map fst left) then (c ++ suffix)%string else c)).
  f_equal. f_equal. destruct ck; [|reflexivity].
  apply (columns_filter (fun c => negb (String.eqb c on))).
Qed.

Lemma with_columns_exprs_returns df exprs :
  NoDup (map fst exprs) ->
  (forall c r, In (c, r) exprs -> exists s, r = Ok s) ->
  exists out, with_columns_exprs df exprs = Ok out.
Proof.
  intros Hnd H. unfold with_columns_exprs. apply nodupb_NoDup in Hnd. rewrite Hnd.
  destruct (named_returns exprs H) as [news ->]. cbn [bind]. eauto.
Qed.

Lemma with_columns_exprs_other df exprs out c :
  with_columns_exprs df exprs = Ok out -> ~ In c (map fst exprs) ->
  lookup out c = lookup df c.
Proof.
  intros H Hc. apply with_columns_exprs_Ok in H as [news [Hnd [Heq ->]]].
  rewrite lookup_with_columns by exact Hnd.
  assert (Hn : lookup news c = None).
  { apply lookup_None. intros Hin. apply Hc. rewrite Heq, map_map. exact Hin. }
  now rewrite Hn.
Qed.

Lemma with_columns_exprs_columns df exprs out :
  with_columns_exprs df exprs = Ok out ->
  (forall c, In c (map fst exprs) -> In c (columns df)) ->
  columns out = columns df.
Proof.
  intros H Hin. apply with_columns_exprs_Ok in H as [news [Hnd [Heq ->]]].
  apply columns_with_columns. intros c Hc. apply Hin.
  rewrite Heq, map_map. exact Hc.
Qed.

Lemma columns_drop df names :
  columns (drop df names) = filter (fun c => negb (mem c names)) (columns df).
Proof. apply (columns_filter (fun c => negb (mem c names))). Qed.

Section BetsReturns.

Variable cast_value : DataType -> DataType -> value -> option value.

Lemma add_same_dtype a b :
  dtype a = dtype b ->
  add a b = Ok (mkSeries (dtype a) (zip_with (add_cell (dtype a)) (values a) (values b))).
Proof. intros E. unfold add. now rewrite E, DataType_eqb_refl. Qed.

Lemma upsert_bets_returns_general base0 delta key :
  let base := _ensure_df_from_schema base0 in
  conforms head_to_head_schema base ->
  In key (columns base) -> In key (columns delta) ->
  NoDup (columns base) -> NoDup (columns delta) ->
  (forall c b d, lookup base c = Some b -> lookup delta c = Some d ->
     dtype d <> dtype b -> exists d', cast cast_value d (dtype b) = Ok d') ->
  (forall c, In c (columns base) ->
     ~ In (c ++ "_r")%string (columns base) /\ ~ In (c ++ "_r")%string (columns delta)) ->
  (forall c b, lookup base c = Some b -> In c (columns delta) -> dtype b <> Null) ->
  exists out, upsert_bets cast_value base0 delta key = Ok out.
Proof.
  intros base Hconf Hkb Hkd Hnb Hndl Hcast Hfree Hnum.
  destruct (align_returns cast_value base0 delta key Hkb Hkd Hnb Hcast) as [delta' Ha].
  fold base in Ha.
  set (overlap := filter (fun c => mem c (columns delta) && negb (String.eqb c key))
                         (columns base)) in *.
  destruct (align_Ok _ _ _ _ _ _ _ Ha) as [_ [_ [_ [_ [_ [Hcols Hd']]]]]].
  assert (Hov : forall c, In c overlap <-> In c (columns base) /\ In c (columns delta) /\ c <> key).
  { intros c. apply in_overlap. }
  unfold upsert_bets. rewrite Ha. cbn [bind].
  set (base_only := filter (fun c => negb (mem c overlap)) (columns base)).
  (* the join *)
  assert (Hj : exists j, join base delta' key "_r" false = Ok j).
  { apply join_returns.
    - exact Hkb.
    - now rewrite Hcols.
    - apply In_columns_lookup in Hkb as [b Hb]. apply In_columns_lookup in Hkd as [d Hd].
      destruct (Hd' key d Hd) as [d' [Hl Hm]]. rewrite Hb in Hm. destruct Hm as [Hm _].
      unfold frame_dtype. now rewrite Hb, Hl.
    - rewrite Hcols. apply renamed_NoDup; [exact Hnb | exact Hndl|].
      intros c Hcb _. now apply Hfree. }
  destruct Hj as [j Hj]. rewrite Hj. cbn [bind].
  destruct (join_Ok _ _ _ _ _ _ Hj) as [lk [rk [Hlk [Hrk [Hdt [Hndj [Hleft Hright]]]]]]].
  cbv zeta in Hleft, Hright. cbn [andb] in Hleft.
  pose proof (join_columns _ _ _ _ _ _ Hj) as Hcj. rewrite Hcols in Hcj.
  set (pairs := outer_pairs (values lk) (values rk)) in *.
  assert (F2 : forall c d', lookup delta' c = Some d' -> In c (columns base) ->
            lookup j (c ++ "_r")%string
            = Some (mkSeries (dtype d') (map (fun pr => take_cell (values d') (snd pr)) pairs))).
  { intros c d' Hl Hcb.
    pose proof (Hright c d' (lookup_In _ _ _ Hl) (fun H => False_ind _ (diff_false_true H))) as Hu.
    apply mem_In in Hcb. now rewrite Hcb in Hu. }
  assert (F3 : forall c, In c (columns base) -> In (c ++ "_r")%string (columns j) ->
            In c (columns delta)).
  { intros c Hcb Hin. rewrite Hcj in Hin. apply in_app_or in Hin as [Hin | Hin].
    - now apply (Hfree c Hcb) in Hin.
    - apply in_map_iff in Hin as [c' [E Hc']].
      destruct (mem c' (columns base)) eqn:Em.
      + apply append_inj_l in E. now subst c'.
      + subst c'. now apply (Hfree c Hcb) in Hc'. }
  assert (Hbo : forall c, In c base_only -> In (c ++ "_r")%string (columns j) -> c = key).
  { intros c Hc Hin. apply filter_In in Hc as [Hcb Hno].
    apply negb_true_iff, mem_false in Hno.
    destruct (String.eqb_spec c key) as [E | E]; [exact E|].
    exfalso. apply Hno, Hov. split; [exact Hcb|]. split; [now apply F3 | exact E]. }
  assert (Hkey : exists b d', lookup base key = Some b /\ lookup delta' key = Some d' /\
                              dtype d' = dtype b).
  { apply In_columns_lookup in Hkb as [b Hb]. apply In_columns_lookup in Hkd as [d Hd].
    destruct (Hd' key d Hd) as [d' [Hl Hm]]. rewrite Hb in Hm. destruct Hm as [Hm _].
    eauto. }
  assert (Hshared : forall c, In c overlap ->
            exists b d', lookup base c = Some b /\ lookup delta' c = Some d' /\
                         dtype d' = dtype b /\ dtype b <> Null).
  { intros c Hc. apply Hov in Hc as [Hcb [Hcd _]].
    apply In_columns_lookup in Hcb as [b Hb]. pose proof (Hnum c b Hb Hcd) as Hn.
    apply In_columns_lookup in Hcd as [d Hd].
    destruct (Hd' c d Hd) as [d' [Hl Hm]]. rewrite Hb in Hm. destruct Hm as [Hm _].
    exists b, d'. tauto. }
  (* the sums and the coalesced base columns *)
  match goal with
  | |- exists out, bind (with_columns_exprs j ?e) _ = Ok out => set (exprs := e)
  end.
  assert (Hdty : forall c r, In (c, r) exprs ->
            exists b s, lookup base c = Some b /\ r = Ok s /\ dtype s = supertype (dtype b) Int32
                        \/ c = key /\ lookup base c = Some b /\ r = Ok s /\ dtype s = dtype b).
  { intros c r Hin. apply in_app_or in Hin as [Hin | Hin];
      apply in_map_iff in Hin as [c' [E Hc']]; injection E as -> <-.
    - destruct (Hshared c Hc') as [b [d' [Hb [Hl [Hm Hn]]]]].
      assert (Hcb : In c (columns base)) by (apply In_columns_lookup; eauto).
      exists b. eexists. left. split; [exact Hb|].
      unfold col. rewrite (Hleft c b Hb), (F2 c d' Hl Hcb). cbn [bind].
      rewrite coalesce_lit0_not_Null by exact Hn. cbn [bind].
      rewrite coalesce_lit0_not_Null by (cbn [dtype]; now rewrite Hm). cbn [bind dtype].
      rewrite add_same_dtype by (cbn [dtype]; now rewrite Hm). cbn [dtype].
      split; [reflexivity|]. symmetry. now apply supertype_Int32.
    - apply filter_In in Hc' as [Hc' Hm']. apply mem_In in Hm'.
      pose proof (Hbo c Hc' Hm') as ->.
      destruct Hkey as [b [d' [Hb [Hl Hm]]]].
      exists b. eexists. right. split; [reflexivity|]. split; [exact Hb|].
      unfold col. rewrite (Hleft key b Hb), (F2 key d' Hl Hkb). cbn [bind].
      rewrite coalesce_same_dtype by (cbn [dtype]; now rewrite Hm). cbn [dtype].
      split; [reflexivity|]. exact Hm. }
  assert (Hnames : forall c, In c (map fst exprs) -> In c (columns base)).
  { intros c Hc. apply in_map_iff in Hc as [[c' r] [E Hin]]. cbn [fst] in E. subst c'.
    destruct (Hdty c r Hin) as [b [s [[Hb _] | [_ [Hb _]]]]]; apply In_columns_lookup; eauto. }
  assert (Hw : exists w, with_columns_exprs j exprs = Ok w).
  { apply with_columns_exprs_returns.
    - unfold exprs. rewrite map_app, !map_map. cbn [fst]. rewrite !map_id.
      apply NoDup_app.
      + now apply NoDup_filter.
      + apply NoDup_filter. now apply NoDup_filter.
      + intros c Hc Hc2. apply filter_In in Hc2 as [Hc2 _].
        apply filter_In in Hc2 as [_ Hc2]. apply negb_true_iff, mem_false in Hc2.
        contradiction.
    - intros c r Hin. destruct (Hdty c r Hin) as [b [s [[_ [-> _]] | [_ [_ [-> _]]]]]]; eauto. }
  destruct Hw as [w Hw]. rewrite Hw. cbn [bind].
  assert (Hcw : columns w = columns j).
  { apply (with_columns_exprs_columns _ _ _ Hw). intros c Hc.
    rewrite Hcj. apply in_or_app. left. now apply Hnames. }
  assert (Hlw : forall c b, lookup base c = Some b -> dtype b <> Null ->
            exists s, lookup w c = Some s /\ dtype s = dtype b).
  { intros c b Hb Hn.
    destruct (in_dec string_dec c (map fst exprs)) as [Hin | Hno].
    - apply in_map_iff in Hin as [[c' r] [E Hin]]. cbn [fst] in E. subst c'.
      destruct (with_columns_exprs_lookup _ _ _ c r Hw Hin) as [s [Hr Hl]].
      exists s. split; [exact Hl|].
      destruct (Hdty c r Hin) as [b' [s' [[Hb' [Hr' Hs']] | [_ [Hb' [Hr' Hs']]]]]];
        rewrite Hb in Hb'; injection Hb' as <-; rewrite Hr in Hr'; injection Hr' as <-.
      + rewrite Hs'. now apply supertype_Int32.
      + exact Hs'.
    - rewrite (with_columns_exprs_other _ _ _ c Hw Hno), (Hleft c b Hb). eauto. }
  assert (Hcan : forall c t, In (c, t) head_to_head_schema ->
            exists b, lookup base c = Some b /\ dtype b = t /\ t <> Null).
  { intros c t Hc.
    destruct (conforms_lookup _ _ _ _ Hconf (lookup_NoDup _ _ _ NoDup_canonical Hc))
      as [b [Hb Ht]].
    exists b. split; [exact Hb|]. split; [exact Ht|]. now apply (canonical_dtypes c t Hc). }
  match goal with
  | |- exists out, ordenar_y_validar (drop w ?n) _ _ = Ok out => set (names := n)
  end.
  assert (Hkeep : forall c, In c (columns base) -> mem c names = false).
  { intros c Hcb. apply mem_false. intros Hin. unfold names in Hin.
    apply in_map_iff in Hin as [c' [E Hc']]. apply filter_In in Hc' as [Hc' _].
    assert (Hcb' : In c' (columns base)).
    { apply in_app_or in Hc' as [Hc' | Hc'].
      - now apply Hov in Hc'.
      - now apply filter_In in Hc'. }
    subst c. now apply (Hfree c' Hcb') in Hcb. }
  assert (Hout : forall c t, In (c, t) head_to_head_schema ->
            exists s, lookup (drop w names) c = Some s /\ dtype s = t).
  { intros c t Hc. destruct (Hcan c t Hc) as [b [Hb [Ht Hn]]].
    rewrite lookup_drop, Hkeep by (apply In_columns_lookup; eauto).
    rewrite <- Ht in *. now apply Hlw. }
  eexists. apply ordenar_y_validar_intro.
  - intros c Hc. apply in_map_iff in Hc as [[c' t] [<- Hc]]. cbn [fst].
    destruct (Hout c' t Hc) as [s [Hs _]]. apply In_columns_lookup. eauto.
  - intros c t Hc. destruct (Hout c t Hc) as [s [Hs Ht]].
    rewrite lookup_schema, Hs. cbn [option_map]. now rewrite Ht.
  - now left.
  - apply NoDup_app_filter; [exact NoDup_canonical|].
    rewrite columns_drop. apply NoDup_filter. now rewrite Hcw.
Qed.

End BetsReturns.

(** X24. When the additive merge returns a table. Merging a batch into a
    consolidated table (a frame that conforms to the canonical schema, or
    the schema itself) returns a table whenever the batch has the key, the
    casts of its key and shared columns to the dtypes of base succeed, no
    column is named like a column of base followed by [_r], and no shared
    column of base is a column of nulls without dtype. *)
Theorem upsert_bets_returns
    (cast_value : DataType -> DataType -> value -> option value)
    (base0 : frame_or_schema) (delta : DataFrame) (key : string) :
  conforms head_to_head_schema (_ensure_df_from_schema base0) ->
  In key (columns (_ensure_df_from_schema base0)) -> In key (columns delta) ->
  NoDup (columns (_ensure_df_from_schema base0)) -> NoDup (columns delta) ->
  (forall c b d, lookup (_ensure_df_from_schema base0) c = Some b ->
     lookup delta c = Some d -> dtype d <> dtype b ->
     exists d', cast cast_value d (dtype b) = Ok d') ->
  (forall c, In c (columns (_ensure_df_from_schema base0)) ->
     ~ In (c ++ "_r")%string (columns (_ensure_df_from_schema base0)) /\
     ~ In (c ++ "_r")%string (columns delta)) ->
  (forall c b, lookup (_ensure_df_from_schema base0) c = Some b ->
     In c (columns delta) -> dtype b <> Null) ->
  exists out, upsert_bets cast_value base0 delta key = Ok out.
Proof.
  intros Hconf Hkb Hkd Hnb Hnd Hcast Hfree Hnum.
  exact (upsert_bets_returns_general cast_value base0 delta key
           Hconf Hkb Hkd Hnb Hnd Hcast Hfree Hnum).
Qed.

Lemma bets_delta89_columns c d :
  lookup bets_delta89 c = Some d ->
  (c = "MatchId" /\ dtype d = Int64) \/ (c = "TurnOver_SGD" /\ dtype d = Float64).
Proof.
  unfold bets_delta89. cbn [lookup].
  destruct (String.eqb_spec "MatchId" c) as [<- | _]; [intros [= <-]; now left|].
  destruct (String.eqb_spec "TurnOver_SGD" c) as [<- | _]; [intros [= <-]; now right|].
  discriminate.
Qed.

Lemma upsert_bets_returns_witness :
  conforms head_to_head_schema base78 /\
  In "MatchId" (columns base78) /\ In "MatchId" (columns bets_delta89) /\
  NoDup (columns base78) /\ NoDup (columns bets_delta89) /\
  exists out, upsert_bets numeric_cast (IsDataFrame base78) bets_delta89 "MatchId" = Ok out.
Proof.
  assert (Hkb : In "MatchId" (columns base78)) by (apply mem_In; vm_compute; reflexivity).
  assert (Hkd : In "MatchId" (columns bets_delta89)) by (now left).
  assert (Hnb : NoDup (columns base78)) by (apply nodupb_NoDup; vm_compute; reflexivity).
  assert (Hnd : NoDup (columns bets_delta89))
    by (apply nodupb_NoDup; vm_compute; reflexivity).
  assert (Hcast : forall c b d, lookup base78 c = Some b -> lookup bets_delta89 c = Some d ->
            dtype d <> dtype b -> exists d', cast numeric_cast d (dtype b) = Ok d').
  { intros c b d Hb Hd Hne. exfalso. apply Hne.
    destruct (bets_delta89_columns c d Hd) as [[-> ->] | [-> ->]];
      vm_compute in Hb; injection Hb as <-; reflexivity. }
  assert (Hfree : forall c, In c (columns base78) ->
            ~ In (c ++ "_r")%string (columns base78) /\
            ~ In (c ++ "_r")%string (columns bets_delta89)).
  { assert (Hall : forallb (fun c => negb (mem (c ++ "_r")%string (columns base78))
                                     && negb (mem (c ++ "_r")%string (columns bets_delta89)))
                     (columns base78) = true) by (vm_compute; reflexivity).
    intros c Hc. apply (proj1 (forallb_forall _ _) Hall) in Hc.
    apply andb_true_iff in Hc as [H1 H2].
    split; apply mem_false; now apply negb_true_iff. }
  assert (Hnum : forall c b, lookup base78 c = Some b -> In c (columns bets_delta89) ->
            dtype b <> Null).
  { intros c b Hb [<- | [<- | []]]; vm_compute in Hb; injection Hb as <-; discriminate. }
  split; [exact conforms_base78|]. split; [exact Hkb|]. split; [exact Hkd|].
  split; [exact Hnb|]. split; [exact Hnd|].
  exact (upsert_bets_returns numeric_cast (IsDataFrame base78) bets_delta89 "MatchId"
           conforms_base78 Hkb Hkd Hnb Hnd Hcast Hfree Hnum).
Defined.

(** * Two batches in the two orders *)

(** ** The rows of a join, by key *)



Section JoinByKey.

Variables LK RK : list cell.
Hypothesis HL : distinct_keys LK.
Hypothesis HR : distinct_keys RK.
Variable pairs : list (option nat * option nat).
Hypothesis Hj : full_outer_join LK RK pairs.




End JoinByKey.

(** ** One additive merge, by key *)





Section TwoBatches.

Variable cast_value : DataType -> DataType -> value -> option value.


End TwoBatches.

(** ** The batch read against two bases with the same dtypes *)






(** ** Sums in the two orders *)




Section TwoBatchesOrder.

Variable cast_value : DataType -> DataType -> value -> option value.


End TwoBatchesOrder.





